(** * The DWARF loader of dwarves (dwarf_loader.c)

    A shallow embedding of the loader: the attribute decoder, the tag
    factory and CU builder, the reference resolver with its bitfield
    recoder, and the per-CU driver loop, followed by the properties of
    the loader's specification.

    Conventions.
    - C integers are [Z] with the truncation of every narrowing store
      written out ([u8], [u16], [u32], [u64]).
    - A pointer into an obstack is the index of the object in the arena
      (a [nat]); the two arenas of a CU (domain tags, raw DWARF
      metadata) are lists.
    - [stderr] is the list of diagnostics written so far.
    - A function whose C body dereferences a null or dangling pointer, or
      reads outside a block, has no defined result there: the embedding
      returns [Undef]. Recursion that the C code bounds only by its input
      takes a fuel argument and returns [NoFuel] when it runs out. *)

From Stdlib Require Import ZArith String Bool Lia.
From stdpp Require Import base option list.

Open Scope Z_scope.

(** ** Fixed-width integers *)

Definition u8  (z : Z) : Z := z mod 2^8.
Definition u16 (z : Z) : Z := z mod 2^16.
Definition u32 (z : Z) : Z := z mod 2^32.
Definition u64 (z : Z) : Z := z mod 2^64.

Definition UINT64_MAX : Z := 2^64 - 1.

Definition ENOMEM : Z := 12.
Definition EINVAL : Z := 22.

(** ** DWARF constants (dwarf.h) *)

Module DW.
Definition TAG_array_type : Z := 0x01.
Definition TAG_class_type : Z := 0x02.
Definition TAG_enumeration_type : Z := 0x04.
Definition TAG_formal_parameter : Z := 0x05.
Definition TAG_imported_declaration : Z := 0x08.
Definition TAG_label : Z := 0x0a.
Definition TAG_lexical_block : Z := 0x0b.
Definition TAG_member : Z := 0x0d.
Definition TAG_pointer_type : Z := 0x0f.
Definition TAG_reference_type : Z := 0x10.
Definition TAG_compile_unit : Z := 0x11.
Definition TAG_string_type : Z := 0x12.
Definition TAG_structure_type : Z := 0x13.
Definition TAG_subroutine_type : Z := 0x15.
Definition TAG_typedef : Z := 0x16.
Definition TAG_union_type : Z := 0x17.
Definition TAG_unspecified_parameters : Z := 0x18.
Definition TAG_inheritance : Z := 0x1c.
Definition TAG_inlined_subroutine : Z := 0x1d.
Definition TAG_ptr_to_member_type : Z := 0x1f.
Definition TAG_subrange_type : Z := 0x21.
Definition TAG_base_type : Z := 0x24.
Definition TAG_const_type : Z := 0x26.
Definition TAG_enumerator : Z := 0x28.
Definition TAG_subprogram : Z := 0x2e.
Definition TAG_template_type_parameter : Z := 0x2f.
Definition TAG_template_value_parameter : Z := 0x30.
Definition TAG_variable : Z := 0x34.
Definition TAG_volatile_type : Z := 0x35.
Definition TAG_restrict_type : Z := 0x37.
Definition TAG_interface_type : Z := 0x38.
Definition TAG_namespace : Z := 0x39.
Definition TAG_imported_module : Z := 0x3a.
Definition TAG_unspecified_type : Z := 0x3b.
Definition TAG_shared_type : Z := 0x40.
Definition TAG_rvalue_reference_type : Z := 0x42.
Definition TAG_MIPS_loop : Z := 0x4081.
Definition TAG_GNU_template_template_param : Z := 0x4106.
Definition TAG_GNU_template_parameter_pack : Z := 0x4107.
Definition TAG_GNU_formal_parameter_pack : Z := 0x4108.

Definition AT_location : Z := 0x02.
Definition AT_name : Z := 0x03.
Definition AT_byte_size : Z := 0x0b.
Definition AT_bit_offset : Z := 0x0c.
Definition AT_bit_size : Z := 0x0d.
Definition AT_language : Z := 0x13.
Definition AT_import : Z := 0x18.
Definition AT_const_value : Z := 0x1c.
Definition AT_containing_type : Z := 0x1d.
Definition AT_inline : Z := 0x20.
Definition AT_upper_bound : Z := 0x2f.
Definition AT_abstract_origin : Z := 0x31.
Definition AT_accessibility : Z := 0x32.
Definition AT_data_member_location : Z := 0x38.
Definition AT_declaration : Z := 0x3c.
Definition AT_encoding : Z := 0x3e.
Definition AT_external : Z := 0x3f.
Definition AT_specification : Z := 0x47.
Definition AT_type : Z := 0x49.
Definition AT_virtuality : Z := 0x4c.
Definition AT_vtable_elem_location : Z := 0x4d.
Definition AT_call_file : Z := 0x58.
Definition AT_call_line : Z := 0x59.
Definition AT_MIPS_linkage_name : Z := 0x2007.
Definition AT_GNU_vector : Z := 0x2107.

Definition FORM_addr : Z := 0x01.
Definition FORM_block2 : Z := 0x03.
Definition FORM_block4 : Z := 0x04.
Definition FORM_data2 : Z := 0x05.
Definition FORM_data4 : Z := 0x06.
Definition FORM_data8 : Z := 0x07.
Definition FORM_string : Z := 0x08.
Definition FORM_block : Z := 0x09.
Definition FORM_block1 : Z := 0x0a.
Definition FORM_data1 : Z := 0x0b.
Definition FORM_flag : Z := 0x0c.
Definition FORM_sdata : Z := 0x0d.
Definition FORM_strp : Z := 0x0e.
Definition FORM_udata : Z := 0x0f.
Definition FORM_ref4 : Z := 0x13.

Definition OP_addr : Z := 0x03.
Definition OP_constu : Z := 0x10.
Definition OP_plus_uconst : Z := 0x23.
Definition OP_reg0 : Z := 0x50.
Definition OP_reg1 : Z := 0x51.
Definition OP_reg31 : Z := 0x6f.
Definition OP_breg0 : Z := 0x70.
Definition OP_breg31 : Z := 0x8f.
Definition OP_fbreg : Z := 0x91.

Definition ATE_boolean : Z := 0x02.
Definition ATE_signed : Z := 0x05.
End DW.

(** ** The DWARF cursor (libdw), as the loader consumes it

    An attribute carries its form code and what the libdw accessors
    answer for it. A DIE is a node of the tree the cursor walks:
    [dwarf_child] enters [die_children], [dwarf_siblingof] advances in
    the list the DIE belongs to. [die_decl_file] and [die_decl_line]
    are what [dwarf_decl_file] and [dwarf_decl_line] give for the DIE,
    [None] when they fail. *)

Record Dwarf_Op := mkOp { atom : Z; number : Z; number2 : Z }.

Inductive attr_data :=
| D_addr (a : Z)
| D_const (v : Z)
| D_flag
| D_string (s : string)
| D_ref (target : Z)
| D_block (data : list Z) (loc : option (list Dwarf_Op))
| D_none.

Record Dwarf_Attribute := mkAttr {
  at_name : Z;
  at_form : Z;
  at_data : attr_data
}.

#[warnings="-register-all"]
Inductive Dwarf_Die := mkDie {
  die_tag : Z;
  die_offset : Z;
  die_attrs : list Dwarf_Attribute;
  die_has_children : bool;
  die_children : list Dwarf_Die;
  die_decl_file : option string;
  die_decl_line : option Z;
  die_lowpc : option Z;
  die_highpc : option Z;
  die_ranges : list (Z * Z)
}.

Definition dwarf_tag (die : Dwarf_Die) : Z := die_tag die.
Definition dwarf_dieoffset (die : Dwarf_Die) : Z := die_offset die.

Definition dwarf_attr (die : Dwarf_Die) (name : Z) : option Dwarf_Attribute :=
  List.find (fun a => at_name a =? name) (die_attrs die).

Definition dwarf_hasattr (die : Dwarf_Die) (name : Z) : bool :=
  match dwarf_attr die name with Some _ => true | None => false end.

Definition dwarf_whatform (attr : Dwarf_Attribute) : Z := at_form attr.

Definition dwarf_formaddr (attr : Dwarf_Attribute) : option Z :=
  match at_data attr with D_addr a => Some a | _ => None end.

Definition dwarf_formudata (attr : Dwarf_Attribute) : option Z :=
  match at_data attr with D_const v => Some v | _ => None end.

Definition dwarf_formstring (attr : Dwarf_Attribute) : option string :=
  match at_data attr with D_string s => Some s | _ => None end.

Definition dwarf_formblock (attr : Dwarf_Attribute) : option (list Z) :=
  match at_data attr with D_block data _ => Some data | _ => None end.

Definition dwarf_formref_die (attr : Dwarf_Attribute) : option Z :=
  match at_data attr with D_ref target => Some target | _ => None end.

Definition dwarf_getlocation (attr : Dwarf_Attribute) : option (list Dwarf_Op) :=
  match at_data attr with D_block _ (Some ops) => Some ops | _ => None end.

Definition dwarf_haschildren (die : Dwarf_Die) : bool := die_has_children die.

(** [dwarf_child]: the first child and the siblings after it. *)
Definition dwarf_child (die : Dwarf_Die) : option (Dwarf_Die * list Dwarf_Die) :=
  if die_has_children die then
    match die_children die with
    | c :: sibs => Some (c, sibs)
    | [] => None
    end
  else None.

(** ** Diagnostics written to stderr *)

Inductive diag :=
| Diag_tag_not_supported (fn : string) (tag : Z)
| Diag_tag_not_handled (fn : string) (tag : Z) (offset : Z)
| Diag_attr_form (name form : Z)
| Diag_unhandled_op (op : Z)
| Diag_with_children (fn : string) (tag : Z)
| Diag_only_dimensions (n : Z)
| Diag_recode_bitfield (tag : Z) (name : Z) (bit_size : Z)
| Diag_type_not_found (fn : string) (type id tag : Z)
| Diag_abstract_origin_not_found (fn : string) (origin id tag : Z)
| Diag_no_class_name (id spec : Z)
| Diag_no_function_name (id origin spec : Z)
| Diag_no_containing_type (id ctype : Z)
| Diag_compile_unit_expected (tag : Z)
| Diag_unexpected_after_cu (tag : Z).

(** ** ULEB128 (the get_uleb128 macros) *)

(** [get_uleb128_step]: read one byte through the cursor, merge its low
    seven bits at position [nth], and tell whether it ends the number.
    [None]: the cursor is past the end of the block. *)
Definition get_uleb128_step (var : Z) (addr : list Z) (nth : Z)
  : option (Z * list Z * bool) :=
  match addr with
  | [] => None
  | b :: addr' =>
      let __b := u8 b in
      Some (Z.lor var (u64 (Z.shiftl (Z.land __b 0x7f) (nth * 7))),
            addr',
            Z.land __b 0x80 =? 0)
  end.

(** [get_uleb128_rest_return]: the [for (; i < 10; ++i)] loop, [steps]
    being the iterations left. *)
Fixpoint get_uleb128_rest_return (steps : nat) (var i : Z) (addr : list Z)
  : option (Z * list Z) :=
  match steps with
  | O => Some (UINT64_MAX, addr)
  | S steps' =>
      match get_uleb128_step var addr i with
      | None => None
      | Some (var', addr', stop) =>
          if stop then Some (var', addr')
          else get_uleb128_rest_return steps' var' (i + 1) addr'
      end
  end.

Definition __libdw_get_uleb128 (acc i : Z) (addr : list Z) : option (Z * list Z) :=
  get_uleb128_rest_return (Z.to_nat (10 - i)) acc i addr.

Definition get_uleb128 (addr : list Z) : option (Z * list Z) :=
  match get_uleb128_step 0 addr 0 with
  | None => None
  | Some (var, addr', stop) =>
      if stop then Some (var, addr')
      else __libdw_get_uleb128 var 1 addr'
  end.

(** ** Attribute decoder *)

Definition attr_numeric (die : Dwarf_Die) (name : Z) : Z * list diag :=
  match dwarf_attr die name with
  | None => (0, [])
  | Some attr =>
      let form := dwarf_whatform attr in
      if form =? DW.FORM_addr then
        match dwarf_formaddr attr with
        | Some addr => (u64 addr, [])
        | None => (0, [])
        end
      else if (form =? DW.FORM_data1) || (form =? DW.FORM_data2)
              || (form =? DW.FORM_data4) || (form =? DW.FORM_data8)
              || (form =? DW.FORM_sdata) || (form =? DW.FORM_udata) then
        match dwarf_formudata attr with
        | Some value => (u64 value, [])
        | None => (0, [])
        end
      else if form =? DW.FORM_flag then (1, [])
      else (0, [Diag_attr_form name form])
  end.

(** [dwarf_expr]: [None] when the expression is read past its end. *)
Definition dwarf_expr (expr : list Z) : option (Z * list diag) :=
  match expr with
  | [] => None
  | op :: expr' =>
      if (u8 op =? DW.OP_plus_uconst) || (u8 op =? DW.OP_constu) then
        match get_uleb128 expr' with
        | Some (result, _) => Some (result, [])
        | None => None
        end
      else Some (UINT64_MAX, [Diag_unhandled_op (u8 op)])
  end.

Definition attr_offset (die : Dwarf_Die) (name : Z) : option (Z * list diag) :=
  match dwarf_attr die name with
  | None => Some (0, [])
  | Some attr =>
      let form := dwarf_whatform attr in
      if (form =? DW.FORM_data1) || (form =? DW.FORM_data2)
         || (form =? DW.FORM_sdata) || (form =? DW.FORM_udata) then
        match dwarf_formudata attr with
        | Some value => Some (u64 value, [])
        | None => Some (0, [])
        end
      else
        match dwarf_formblock attr with
        | Some data => dwarf_expr data
        | None => Some (0, [])
        end
  end.

Definition attr_string (die : Dwarf_Die) (name : Z) : option string :=
  match dwarf_attr die name with
  | Some attr => dwarf_formstring attr
  | None => None
  end.

Definition attr_type (die : Dwarf_Die) (attr_name : Z) : Z :=
  match dwarf_attr die attr_name with
  | Some attr =>
      match dwarf_formref_die attr with
      | Some type_die => type_die
      | None => 0
      end
  | None => 0
  end.

(** [attr_location]: [Some] is the C return value 0 with the expression
    stored through the out-parameters, [None] the return value 1. *)
Definition attr_location (die : Dwarf_Die) : option (list Dwarf_Op) :=
  match dwarf_attr die DW.AT_location with
  | Some attr => dwarf_getlocation attr
  | None => None
  end.

Inductive vlocation :=
| LOCATION_UNKNOWN
| LOCATION_LOCAL
| LOCATION_GLOBAL
| LOCATION_REGISTER
| LOCATION_OPTIMIZED.

(** [dwarf__location die addr]: the category, and the value of [*addr]
    on return ([addr] on entry). *)
Definition dwarf__location (die : Dwarf_Die) (addr : Z) : vlocation * Z :=
  match attr_location die with
  | None => (LOCATION_OPTIMIZED, addr)
  | Some expr =>
      match expr with
      | [] => (LOCATION_UNKNOWN, addr)
      | op :: _ =>
          if atom op =? DW.OP_addr then (LOCATION_GLOBAL, u64 (number op))
          else if ((DW.OP_reg1 <=? atom op) && (atom op <=? DW.OP_reg31))
                  || ((DW.OP_breg0 <=? atom op) && (atom op <=? DW.OP_breg31))
          then (LOCATION_REGISTER, addr)
          else if atom op =? DW.OP_fbreg then (LOCATION_LOCAL, addr)
          else (LOCATION_UNKNOWN, addr)
      end
  end.

(** ** Domain objects (the structs of dwarves.h that the loader fills)

    Field widths are declared in dwarves.h; a value is truncated here
    where dwarf_loader.c shows the width of the store. The [size] of
    [struct type], on which the loader computes, has the width
    [type_size_bits]; other fields keep the value stored. Memory of the
    arenas that the C code leaves uninitialised reads as zero. *)

(** A [struct list_head] embedded in an object: zeroed, initialised with
    its entries in order, or with only [next] set, pointing at the list
    head embedded in another object. *)
Inductive list_head :=
| LH_zero
| LH_entries (entries : list nat)
| LH_next_is_head_of (owner : nat).

Record base_type_f := mkBaseType {
  bt_name : Z;
  bt_bit_size : Z;
  bt_is_bool : bool;
  bt_is_signed : bool;
  bt_is_varargs : bool;
  bt_name_has_encoding : bool
}.

Record namespace_f := mkNamespace {
  ns_name : Z;
  ns_sname : Z;
  ns_nr_tags : Z;
  ns_shared_tags : bool;
  ns_tags : list_head
}.

Record type_f := mkType {
  ty_size : Z;
  ty_declaration : Z;
  ty_definition_emitted : bool;
  ty_fwd_decl_emitted : bool;
  ty_resized : bool;
  ty_nr_members : Z
}.

Record class_f := mkClass {
  cl_vtable : list nat;
  cl_nr_vtable_entries : Z;
  cl_nr_holes : Z;
  cl_nr_bit_holes : Z;
  cl_padding : Z;
  cl_bit_padding : Z
}.

Record class_member_f := mkMember {
  cm_name : Z;
  cm_byte_offset : Z;
  cm_byte_size : Z;
  cm_bit_size : Z;
  cm_bitfield_offset : Z;
  cm_bitfield_size : Z;
  cm_bit_offset : Z;
  cm_bit_hole : Z;
  cm_bitfield_end : Z;
  cm_visited : Z;
  cm_accessibility : Z;
  cm_virtuality : Z;
  cm_hole : Z
}.

Record variable_f := mkVariable {
  var_name : Z;
  var_external : bool;
  var_declaration : bool;
  var_location : vlocation;
  var_addr : Z
}.

Record inline_expansion_f := mkInlineExpansion {
  ie_addr : Z;
  ie_high_pc : Z;
  ie_size : Z
}.

Record lexblock_f := mkLexblock {
  lb_addr : Z;
  lb_size : Z;
  lb_tags : list nat;
  lb_size_inline_expansions : Z;
  lb_nr_inline_expansions : Z;
  lb_nr_labels : Z;
  lb_nr_lexblocks : Z;
  lb_nr_variables : Z
}.

Record ftype_f := mkFtype {
  ft_parms : list nat;
  ft_nr_parms : Z;
  ft_unspec_parms : bool
}.

Record function_f := mkFunction {
  fn_name : Z;
  fn_linkage_name : Z;
  fn_inlined : Z;
  fn_external : bool;
  fn_abstract_origin : bool;
  fn_accessibility : Z;
  fn_virtuality : Z;
  fn_vtable_entry : Z;
  fn_cu_total_size_inline_expansions : Z;
  fn_cu_total_nr_inline_expansions : Z
}.

(** The struct an object was allocated as, with its fields after the
    common [struct tag] header. *)
Inductive tag_body :=
| B_tag
| B_ptr_to_member_type (containing_type : Z)
| B_base_type (bt : base_type_f)
| B_array_type (dimensions : Z) (nr_entries : option (list Z)) (is_vector : bool)
| B_namespace (ns : namespace_f)
| B_type (ns : namespace_f) (ty : type_f)
| B_class (ns : namespace_f) (ty : type_f) (cl : class_f)
| B_enumerator (name : Z) (value : Z)
| B_class_member (m : class_member_f)
| B_parameter (name : Z)
| B_variable (v : variable_f)
| B_label (name : Z) (addr : Z)
| B_inline_expansion (ie : inline_expansion_f)
| B_lexblock (lb : lexblock_f)
| B_ftype (ft : ftype_f)
| B_function (ft : ftype_f) (lb : lexblock_f) (fn : function_f).

(** [struct tag]: [tg_priv] points into the raw-metadata arena. *)
Record tag := mkTag {
  tg_type : Z;
  tg_tag : Z;
  tg_top_level : bool;
  tg_recursivity_level : Z;
  tg_priv : option nat;
  tg_body : tag_body
}.

(** [struct dwarf_tag], the raw metadata of a tag. [containing_type]
    shares its storage with [abstract_origin]; [dt_spec] is the
    [Dwarf_Off] that follows the record when it was allocated with room
    for a specification. *)
Record struct_dwarf_tag := mkDwarfTag {
  dt_type : Z;
  dt_id : Z;
  dt_abstract_origin : Z;
  dt_tag : nat;
  dt_decl_file : Z;
  dt_decl_line : Z;
  dt_small_id : Z;
  dt_spec : option Z
}.

Definition HASHTAGS__BITS : Z := 8.

(** A hash table: bucket index to the chain of raw-metadata pointers,
    most recently hashed first. *)
Definition hashtable := list (Z * list nat).

(** [struct cu] together with the [struct dwarf_cu] behind [cu->priv].
    [obstack] is the domain arena, [dcu_obstack] the raw-load arena.
    The record also carries the process state the loader touches:
    [stderr], the kinds [__tag__print_not_supported] has warned about
    (its static arrays), and [mem], the number of allocations that still
    succeed. *)
Record cu := mkCu {
  obstack : list tag;
  types_table : list (option nat);
  tags_table : list (option nat);
  functions_table : list (option nat);
  language : Z;
  extra_dbg_info : bool;
  has_addr_info : bool;
  hash_tags : hashtable;
  hash_types : hashtable;
  dcu_obstack : list struct_dwarf_tag;
  stderr : list diag;
  tags_warned : list Z;
  mem : nat
}.

(** ** Collaborators outside dwarf_loader.c

    The interned string table (strings.h), the bucket hash (hash.h) and
    the helpers of dwarves.c behind the post-load size cache are used
    through their interfaces only. [strings__add] maps a C string (or
    NULL) to its handle, [hash_64 key bits] is the bucket of a key,
    [cu__is_c_plus_plus] reads the CU's language code,
    [tag__follow_typedef] and [tag__size] walk resolved types,
    [base_type__name_to_size] is the name-to-size table, and
    [cu__all_tags] lists the tags [cu__for_all_tags] visits.

    Two things that dwarf_loader.c does not fix are parameters as well.
    [type_size_bits] is the width in bits of the [size] field of
    [struct type], an unsigned integer that dwarves.h declares.
    [indeterminate_decl_line die] is the value that the automatic
    variable [decl_line] of [tag__init] holds when [dwarf_decl_line]
    fails for [die] and stores nothing in it: C leaves the variable
    without a value of its own. *)

Class Collaborators := {
  strings__add : option string -> Z;
  hash_64 : Z -> Z -> Z;
  cu__is_c_plus_plus : Z -> bool;
  tag__follow_typedef : cu -> nat -> option nat;
  base_type__name_to_size : cu -> base_type_f -> Z;
  tag__size : cu -> nat -> Z;
  cu__all_tags : cu -> list nat;
  type_size_bits : positive;
  indeterminate_decl_line : Dwarf_Die -> Z
}.

Definition set_obstack (v : list tag) (s : cu) : cu :=
  mkCu v (types_table s) (tags_table s) (functions_table s) (language s)
       (extra_dbg_info s) (has_addr_info s) (hash_tags s) (hash_types s)
       (dcu_obstack s) (stderr s) (tags_warned s) (mem s).
Definition set_types_table (v : list (option nat)) (s : cu) : cu :=
  mkCu (obstack s) v (tags_table s) (functions_table s) (language s)
       (extra_dbg_info s) (has_addr_info s) (hash_tags s) (hash_types s)
       (dcu_obstack s) (stderr s) (tags_warned s) (mem s).
Definition set_tags_table (v : list (option nat)) (s : cu) : cu :=
  mkCu (obstack s) (types_table s) v (functions_table s) (language s)
       (extra_dbg_info s) (has_addr_info s) (hash_tags s) (hash_types s)
       (dcu_obstack s) (stderr s) (tags_warned s) (mem s).
Definition set_functions_table (v : list (option nat)) (s : cu) : cu :=
  mkCu (obstack s) (types_table s) (tags_table s) v (language s)
       (extra_dbg_info s) (has_addr_info s) (hash_tags s) (hash_types s)
       (dcu_obstack s) (stderr s) (tags_warned s) (mem s).
Definition set_language (v : Z) (s : cu) : cu :=
  mkCu (obstack s) (types_table s) (tags_table s) (functions_table s) v
       (extra_dbg_info s) (has_addr_info s) (hash_tags s) (hash_types s)
       (dcu_obstack s) (stderr s) (tags_warned s) (mem s).
Definition set_hash_tags (v : hashtable) (s : cu) : cu :=
  mkCu (obstack s) (types_table s) (tags_table s) (functions_table s) (language s)
       (extra_dbg_info s) (has_addr_info s) v (hash_types s)
       (dcu_obstack s) (stderr s) (tags_warned s) (mem s).
Definition set_hash_types (v : hashtable) (s : cu) : cu :=
  mkCu (obstack s) (types_table s) (tags_table s) (functions_table s) (language s)
       (extra_dbg_info s) (has_addr_info s) (hash_tags s) v
       (dcu_obstack s) (stderr s) (tags_warned s) (mem s).
Definition set_dcu_obstack (v : list struct_dwarf_tag) (s : cu) : cu :=
  mkCu (obstack s) (types_table s) (tags_table s) (functions_table s) (language s)
       (extra_dbg_info s) (has_addr_info s) (hash_tags s) (hash_types s)
       v (stderr s) (tags_warned s) (mem s).
Definition set_stderr (v : list diag) (s : cu) : cu :=
  mkCu (obstack s) (types_table s) (tags_table s) (functions_table s) (language s)
       (extra_dbg_info s) (has_addr_info s) (hash_tags s) (hash_types s)
       (dcu_obstack s) v (tags_warned s) (mem s).
Definition set_tags_warned (v : list Z) (s : cu) : cu :=
  mkCu (obstack s) (types_table s) (tags_table s) (functions_table s) (language s)
       (extra_dbg_info s) (has_addr_info s) (hash_tags s) (hash_types s)
       (dcu_obstack s) (stderr s) v (mem s).
Definition set_mem (v : nat) (s : cu) : cu :=
  mkCu (obstack s) (types_table s) (tags_table s) (functions_table s) (language s)
       (extra_dbg_info s) (has_addr_info s) (hash_tags s) (hash_types s)
       (dcu_obstack s) (stderr s) (tags_warned s) v.

Definition set_load_flags (extra addr : bool) (s : cu) : cu :=
  mkCu (obstack s) (types_table s) (tags_table s) (functions_table s) (language s)
       extra addr (hash_tags s) (hash_types s)
       (dcu_obstack s) (stderr s) (tags_warned s) (mem s).

Definition set_tg_type (v : Z) (t : tag) : tag :=
  mkTag v (tg_tag t) (tg_top_level t) (tg_recursivity_level t) (tg_priv t) (tg_body t).
Definition set_tg_tag (v : Z) (t : tag) : tag :=
  mkTag (tg_type t) v (tg_top_level t) (tg_recursivity_level t) (tg_priv t) (tg_body t).
Definition set_tg_top_level (v : bool) (t : tag) : tag :=
  mkTag (tg_type t) (tg_tag t) v (tg_recursivity_level t) (tg_priv t) (tg_body t).
Definition set_tg_recursivity_level (v : Z) (t : tag) : tag :=
  mkTag (tg_type t) (tg_tag t) (tg_top_level t) v (tg_priv t) (tg_body t).
Definition set_tg_priv (v : option nat) (t : tag) : tag :=
  mkTag (tg_type t) (tg_tag t) (tg_top_level t) (tg_recursivity_level t) v (tg_body t).
Definition set_tg_body (v : tag_body) (t : tag) : tag :=
  mkTag (tg_type t) (tg_tag t) (tg_top_level t) (tg_recursivity_level t) (tg_priv t) v.

Definition set_dt_type (v : Z) (d : struct_dwarf_tag) : struct_dwarf_tag :=
  mkDwarfTag v (dt_id d) (dt_abstract_origin d) (dt_tag d) (dt_decl_file d)
             (dt_decl_line d) (dt_small_id d) (dt_spec d).
Definition set_dt_id (v : Z) (d : struct_dwarf_tag) : struct_dwarf_tag :=
  mkDwarfTag (dt_type d) v (dt_abstract_origin d) (dt_tag d) (dt_decl_file d)
             (dt_decl_line d) (dt_small_id d) (dt_spec d).
Definition set_dt_abstract_origin (v : Z) (d : struct_dwarf_tag) : struct_dwarf_tag :=
  mkDwarfTag (dt_type d) (dt_id d) v (dt_tag d) (dt_decl_file d)
             (dt_decl_line d) (dt_small_id d) (dt_spec d).
Definition set_dt_tag (v : nat) (d : struct_dwarf_tag) : struct_dwarf_tag :=
  mkDwarfTag (dt_type d) (dt_id d) (dt_abstract_origin d) v (dt_decl_file d)
             (dt_decl_line d) (dt_small_id d) (dt_spec d).
Definition set_dt_decl (file line : Z) (d : struct_dwarf_tag) : struct_dwarf_tag :=
  mkDwarfTag (dt_type d) (dt_id d) (dt_abstract_origin d) (dt_tag d) file
             line (dt_small_id d) (dt_spec d).
Definition set_dt_small_id (v : Z) (d : struct_dwarf_tag) : struct_dwarf_tag :=
  mkDwarfTag (dt_type d) (dt_id d) (dt_abstract_origin d) (dt_tag d) (dt_decl_file d)
             (dt_decl_line d) v (dt_spec d).
Definition set_dt_spec (v : option Z) (d : struct_dwarf_tag) : struct_dwarf_tag :=
  mkDwarfTag (dt_type d) (dt_id d) (dt_abstract_origin d) (dt_tag d) (dt_decl_file d)
             (dt_decl_line d) (dt_small_id d) v.

(** ** The loader monad: state passing over a [cu], with undefined
    behaviour and fuel exhaustion as the two ways of having no result *)

Inductive res (A : Type) : Type :=
| Ret (a : A) (s : cu)
| Undef
| Abort
| NoFuel.
Arguments Ret {A} a s.
Arguments Undef {A}.
Arguments Abort {A}.
Arguments NoFuel {A}.

Definition M (A : Type) : Type := cu -> res A.

#[global] Instance M_ret : MRet M := fun A a s => Ret a s.
#[global] Instance M_bind : MBind M := fun A B f m s =>
  match m s with
  | Ret a s' => f a s'
  | Undef => Undef
  | Abort => Abort
  | NoFuel => NoFuel
  end.

Definition undef {A} : M A := fun _ => Undef.
Definition assert (b : bool) : M unit := fun s => if b then Ret tt s else Abort.
Definition no_fuel {A} : M A := fun _ => NoFuel.
Definition get_cu : M cu := fun s => Ret s s.
Definition modify_cu (f : cu -> cu) : M unit := fun s => Ret tt (f s).

Definition fprintf_stderr (d : diag) : M unit :=
  modify_cu (fun s => set_stderr (stderr s ++ [d]) s).

Definition fprintf_all (ds : list diag) : M unit :=
  modify_cu (fun s => set_stderr (stderr s ++ ds) s).

(** Run a decoder that may print, keeping its value. *)
Definition printing (r : Z * list diag) : M Z :=
  _ ← fprintf_all (snd r); mret (fst r).

Definition printing_opt (r : option (Z * list diag)) : M Z :=
  match r with
  | Some r => printing r
  | None => undef
  end.

(** [obstack_alloc] on the domain arena: NULL when memory is exhausted,
    else the address of the new object. *)
Definition obstack_alloc (t : tag) : M (option nat) := fun s =>
  match mem s with
  | O => Ret None s
  | S m => Ret (Some (length (obstack s)))
               (set_mem m (set_obstack (obstack s ++ [t]) s))
  end.

Definition dcu_obstack_alloc (d : struct_dwarf_tag) : M (option nat) := fun s =>
  match mem s with
  | O => Ret None s
  | S m => Ret (Some (length (dcu_obstack s)))
               (set_mem m (set_dcu_obstack (dcu_obstack s ++ [d]) s))
  end.

(** [obstack_free (&cu->obstack, obj)]: [obj] and everything allocated
    after it are released. *)
Definition obstack_free (obj : nat) : M unit :=
  modify_cu (fun s => set_obstack (take obj (obstack s)) s).

Definition load_tag (p : nat) : M tag := fun s =>
  match obstack s !! p with
  | Some t => Ret t s
  | None => Undef
  end.

Definition store_tag (p : nat) (t : tag) : M unit := fun s =>
  match obstack s !! p with
  | Some _ => Ret tt (set_obstack (<[p:=t]> (obstack s)) s)
  | None => Undef
  end.

Definition update_tag (p : nat) (f : tag -> tag) : M unit :=
  t ← load_tag p; store_tag p (f t).

Definition load_dtag (p : nat) : M struct_dwarf_tag := fun s =>
  match dcu_obstack s !! p with
  | Some d => Ret d s
  | None => Undef
  end.

Definition store_dtag (p : nat) (d : struct_dwarf_tag) : M unit := fun s =>
  match dcu_obstack s !! p with
  | Some _ => Ret tt (set_dcu_obstack (<[p:=d]> (dcu_obstack s)) s)
  | None => Undef
  end.

Definition update_dtag (p : nat) (f : struct_dwarf_tag -> struct_dwarf_tag) : M unit :=
  d ← load_dtag p; store_dtag p (f d).

(** [self->priv] as a raw-metadata pointer; dereferencing NULL is
    undefined. *)
Definition tag__priv (self : nat) : M nat :=
  t ← load_tag self;
  match tg_priv t with
  | Some dtag => mret dtag
  | None => undef
  end.

Definition update_body (p : nat) (f : tag_body -> option tag_body) : M unit :=
  t ← load_tag p;
  match f (tg_body t) with
  | Some b => store_tag p (set_tg_body b t)
  | None => undef
  end.

(** Access to the structs embedded in an object. A cast to a struct the
    object was not allocated as is undefined. *)

Definition as_namespace (b : tag_body) : option namespace_f :=
  match b with
  | B_namespace ns | B_type ns _ | B_class ns _ _ => Some ns
  | _ => None
  end.

Definition as_type (b : tag_body) : option type_f :=
  match b with
  | B_type _ ty | B_class _ ty _ => Some ty
  | _ => None
  end.

Definition as_lexblock (b : tag_body) : option lexblock_f :=
  match b with
  | B_lexblock lb | B_function _ lb _ => Some lb
  | _ => None
  end.

Definition as_ftype (b : tag_body) : option ftype_f :=
  match b with
  | B_ftype ft | B_function ft _ _ => Some ft
  | _ => None
  end.

Definition with_namespace (f : namespace_f -> option namespace_f) (b : tag_body)
  : option tag_body :=
  match b with
  | B_namespace ns => ns' ← f ns; Some (B_namespace ns')
  | B_type ns ty => ns' ← f ns; Some (B_type ns' ty)
  | B_class ns ty cl => ns' ← f ns; Some (B_class ns' ty cl)
  | _ => None
  end.

Definition with_type (f : type_f -> type_f) (b : tag_body) : option tag_body :=
  match b with
  | B_type ns ty => Some (B_type ns (f ty))
  | B_class ns ty cl => Some (B_class ns (f ty) cl)
  | _ => None
  end.

Definition with_class (f : class_f -> class_f) (b : tag_body) : option tag_body :=
  match b with
  | B_class ns ty cl => Some (B_class ns ty (f cl))
  | _ => None
  end.

Definition with_lexblock (f : lexblock_f -> lexblock_f) (b : tag_body) : option tag_body :=
  match b with
  | B_lexblock lb => Some (B_lexblock (f lb))
  | B_function ft lb fn => Some (B_function ft (f lb) fn)
  | _ => None
  end.

Definition with_ftype (f : ftype_f -> ftype_f) (b : tag_body) : option tag_body :=
  match b with
  | B_ftype ft => Some (B_ftype (f ft))
  | B_function ft lb fn => Some (B_function (f ft) lb fn)
  | _ => None
  end.

Definition with_function (f : function_f -> function_f) (b : tag_body) : option tag_body :=
  match b with
  | B_function ft lb fn => Some (B_function ft lb (f fn))
  | _ => None
  end.

(** [list_add_tail] on an initialised list head. *)
Definition list_add_tail (entry : nat) (head : list_head) : option list_head :=
  match head with
  | LH_entries l => Some (LH_entries (l ++ [entry]))
  | _ => None
  end.

Definition set_ns_name (v : Z) (ns : namespace_f) : namespace_f :=
  mkNamespace v (ns_sname ns) (ns_nr_tags ns) (ns_shared_tags ns) (ns_tags ns).

Definition set_ty_size (v : Z) (ty : type_f) : type_f :=
  mkType v (ty_declaration ty) (ty_definition_emitted ty) (ty_fwd_decl_emitted ty)
         (ty_resized ty) (ty_nr_members ty).

Definition set_ty_nr_members (v : Z) (ty : type_f) : type_f :=
  mkType (ty_size ty) (ty_declaration ty) (ty_definition_emitted ty)
         (ty_fwd_decl_emitted ty) (ty_resized ty) v.

Definition set_ft_unspec_parms (v : bool) (ft : ftype_f) : ftype_f :=
  mkFtype (ft_parms ft) (ft_nr_parms ft) v.

Definition set_fn_name (v : Z) (fn : function_f) : function_f :=
  mkFunction v (fn_linkage_name fn) (fn_inlined fn) (fn_external fn)
             (fn_abstract_origin fn) (fn_accessibility fn) (fn_virtuality fn)
             (fn_vtable_entry fn) (fn_cu_total_size_inline_expansions fn)
             (fn_cu_total_nr_inline_expansions fn).

Definition set_lb_tags (v : list nat) (lb : lexblock_f) : lexblock_f :=
  mkLexblock (lb_addr lb) (lb_size lb) v (lb_size_inline_expansions lb)
             (lb_nr_inline_expansions lb) (lb_nr_labels lb) (lb_nr_lexblocks lb)
             (lb_nr_variables lb).

Definition set_cm_bitfield (size offset : Z) (m : class_member_f) : class_member_f :=
  mkMember (cm_name m) (cm_byte_offset m) (cm_byte_size m) (cm_bit_size m)
           offset size (cm_bit_offset m) (cm_bit_hole m) (cm_bitfield_end m)
           (cm_visited m) (cm_accessibility m) (cm_virtuality m) (cm_hole m).

Definition set_cm_sizes (byte_size bit_size : Z) (m : class_member_f) : class_member_f :=
  mkMember (cm_name m) (cm_byte_offset m) byte_size bit_size
           (cm_bitfield_offset m) (cm_bitfield_size m) (cm_bit_offset m)
           (cm_bit_hole m) (cm_bitfield_end m)
           (cm_visited m) (cm_accessibility m) (cm_virtuality m) (cm_hole m).

(** ** Tag kinds (dwarves.h) *)

Definition tag__is_struct (k : Z) : bool :=
  (k =? DW.TAG_class_type) || (k =? DW.TAG_interface_type)
  || (k =? DW.TAG_structure_type).

Definition tag__is_union (k : Z) : bool := k =? DW.TAG_union_type.
Definition tag__is_typedef (k : Z) : bool := k =? DW.TAG_typedef.
Definition tag__is_enumeration (k : Z) : bool := k =? DW.TAG_enumeration_type.
Definition tag__is_namespace (k : Z) : bool := k =? DW.TAG_namespace.
Definition tag__is_volatile (k : Z) : bool := k =? DW.TAG_volatile_type.
Definition tag__is_const (k : Z) : bool := k =? DW.TAG_const_type.

(** Modelled from the spec: [tag__is_type] is declared in dwarves.h. The
    "named types" of the resolver's first step are the kinds the factory
    builds through [type__init]: class, struct, interface, union,
    typedef and enumeration. *)
Definition tag__is_type (k : Z) : bool :=
  tag__is_union k || tag__is_struct k || tag__is_typedef k || tag__is_enumeration k.

(** Modelled from the spec: [tag__has_namespace] is declared in
    dwarves.h. A tag contains child tags when it "is a namespace, class,
    union, or enumeration". *)
Definition tag__has_namespace (k : Z) : bool :=
  tag__is_struct k || tag__is_union k || tag__is_namespace k || tag__is_enumeration k.

(** Modelled from the spec: [tag__is_tag_type] is declared in dwarves.h.
    The kinds that go to the types table are "base, typedef, qualifiers,
    pointer, array, enumeration, class, struct, union, namespace,
    ptr-to-member, subroutine_type"; pointer stands for the two
    pointer-like kinds. *)
Definition tag__is_tag_type (k : Z) : bool :=
  (k =? DW.TAG_base_type) || tag__is_typedef k
  || tag__is_const k || tag__is_volatile k
  || (k =? DW.TAG_pointer_type) || (k =? DW.TAG_reference_type)
  || (k =? DW.TAG_array_type) || tag__is_enumeration k
  || tag__is_struct k || tag__is_union k || tag__is_namespace k
  || (k =? DW.TAG_ptr_to_member_type) || (k =? DW.TAG_subroutine_type).

(** Modelled from the spec: [tag__is_function] is declared in dwarves.h.
    The functions table takes the tag "if subprogram". *)
Definition tag__is_function (k : Z) : bool := k =? DW.TAG_subprogram.

Section Loader.
Context {host : Collaborators}.

(** ** The per-CU hash tables, keyed by DIE offset *)

Definition hashtags__fn (key : Z) : Z := hash_64 key HASHTAGS__BITS.

Fixpoint hlist_head (h : hashtable) (b : Z) : list nat :=
  match h with
  | [] => []
  | (b', chain) :: h' => if b' =? b then chain else hlist_head h' b
  end.

Fixpoint hlist_add_head (node : nat) (h : hashtable) (b : Z) : hashtable :=
  match h with
  | [] => [(b, [node])]
  | (b', chain) :: h' =>
      if b' =? b then (b', node :: chain) :: h'
      else (b', chain) :: hlist_add_head node h' b
  end.

Definition hashtags__hash (h : hashtable) (dtag : nat) (id : Z) : hashtable :=
  hlist_add_head dtag h (hashtags__fn id).

(** The [hlist_for_each_entry] walk of one chain. *)
Fixpoint hashtags__find_in (chain : list nat) (id : Z) : M (option nat) :=
  match chain with
  | [] => mret None
  | tpos :: chain' =>
      d ← load_dtag tpos;
      if dt_id d =? id then mret (Some tpos)
      else hashtags__find_in chain' id
  end.

Definition hashtags__find (h : hashtable) (id : Z) : M (option nat) :=
  if id =? 0 then mret None
  else hashtags__find_in (hlist_head h (u16 (hashtags__fn id))) id.

Definition cu__hash (t : nat) : M unit :=
  tg ← load_tag t;
  dtag ← tag__priv t;
  d ← load_dtag dtag;
  if tag__is_tag_type (tg_tag tg)
  then modify_cu (fun s => set_hash_types (hashtags__hash (hash_types s) dtag (dt_id d)) s)
  else modify_cu (fun s => set_hash_tags (hashtags__hash (hash_tags s) dtag (dt_id d)) s).

Definition dwarf_cu__find_tag_by_id (id : Z) : M (option nat) :=
  s ← get_cu; hashtags__find (hash_tags s) id.

Definition dwarf_cu__find_type_by_id (id : Z) : M (option nat) :=
  s ← get_cu; hashtags__find (hash_types s) id.

(** ** The dense tables (dwarves.c) *)

(** Modelled from the spec: [cu__table_add_tag] is defined in dwarves.c.
    It "inserts the Tag into the correct dense table": the types table
    if the kind is a type, the functions table if subprogram, the tags
    table otherwise, at the next free index. The result is the C return
    value (0, or negative when the table cannot grow) and the value of
    [*id] afterwards, [*id] being -1 at every call in dwarf_loader.c. *)
Definition cu__table_add_tag (t : nat) : M (Z * Z) :=
  tg ← load_tag t;
  s ← get_cu;
  match mem s with
  | O => mret (- ENOMEM, -1)
  | S m =>
      if tag__is_tag_type (tg_tag tg) then
        _ ← modify_cu (fun s => set_mem m (set_types_table (types_table s ++ [Some t]) s));
        mret (0, Z.of_nat (length (types_table s)))
      else if tag__is_function (tg_tag tg) then
        _ ← modify_cu (fun s => set_mem m (set_functions_table (functions_table s ++ [Some t]) s));
        mret (0, Z.of_nat (length (functions_table s)))
      else
        _ ← modify_cu (fun s => set_mem m (set_tags_table (tags_table s ++ [Some t]) s));
        mret (0, Z.of_nat (length (tags_table s)))
  end.

(** Modelled from the spec: [cu__add_tag] is defined in dwarves.c; the
    spec knows one insertion into the dense tables. *)
Definition cu__add_tag (t : nat) : M (Z * Z) := cu__table_add_tag t.

(** Modelled from the spec: [cu__find_base_type_by_sname_and_size] is
    defined in dwarves.c. "Look up the types table for an existing base
    type sharing name AND bit width = w; return its index if found." *)
Fixpoint find_base_type_from (heap : list tag) (entries : list (option nat))
    (id : nat) (sname bit_size : Z) : option (nat * nat) :=
  match entries with
  | [] => None
  | e :: entries' =>
      let next := find_base_type_from heap entries' (S id) sname bit_size in
      match e with
      | Some p =>
          match heap !! p with
          | Some (mkTag _ k _ _ _ (B_base_type bt)) =>
              if (k =? DW.TAG_base_type) && (bt_bit_size bt =? bit_size)
                 && (bt_name bt =? sname)
              then Some (p, id) else next
          | _ => next
          end
      | None => next
      end
  end.

Definition cu__find_base_type_by_sname_and_size (s : cu) (sname bit_size : Z)
  : option (nat * nat) :=
  find_base_type_from (obstack s) (types_table s) 0 sname bit_size.

(** Modelled from the spec: [cu__find_enumeration_by_sname_and_size] is
    defined in dwarves.c. "Enumeration: same lookup-then-synthesize
    discipline": the first enumeration of the types table with that
    name and that size in bits. *)
Fixpoint find_enumeration_from (heap : list tag) (entries : list (option nat))
    (id : nat) (sname bit_size : Z) : option (nat * nat) :=
  match entries with
  | [] => None
  | e :: entries' =>
      let next := find_enumeration_from heap entries' (S id) sname bit_size in
      match e with
      | Some p =>
          match heap !! p with
          | Some (mkTag _ k _ _ _ (B_type ns ty)) =>
              if (k =? DW.TAG_enumeration_type) && (ty_size ty =? bit_size)
                 && (ns_name ns =? sname)
              then Some (p, id) else next
          | _ => next
          end
      | None => next
      end
  end.

Definition cu__find_enumeration_by_sname_and_size (s : cu) (sname bit_size : Z)
  : option (nat * nat) :=
  find_enumeration_from (obstack s) (types_table s) 0 sname bit_size.

(** ** Child lists (dwarves.c) *)

(** Modelled from the spec: [namespace__add_tag] is defined in
    dwarves.c. A namespace "aggregates an ordered child-tag list"; the
    count of its entries is [nr_tags]. *)
Definition namespace__add_tag (self t : nat) : M unit :=
  update_body self (with_namespace (fun ns =>
    tags ← list_add_tail t (ns_tags ns);
    Some (mkNamespace (ns_name ns) (ns_sname ns) (ns_nr_tags ns + 1)
                      (ns_shared_tags ns) tags))).

(** Modelled from the spec: [type__add_member] is defined in dwarves.c.
    The member "joins the type's ordered member list"; [nr_members]
    counts the members. *)
Definition type__add_member (self member : nat) : M unit :=
  _ ← update_body self (with_type (fun ty => set_ty_nr_members (ty_nr_members ty + 1) ty));
  namespace__add_tag self member.

(** Modelled from the spec: [enumeration__add] is defined in dwarves.c.
    An enumeration holds "its enumerators as child Tags"; [nr_members]
    is the enumerator count. *)
Definition enumeration__add (self enumerator : nat) : M unit :=
  _ ← update_body self (with_type (fun ty => set_ty_nr_members (ty_nr_members ty + 1) ty));
  namespace__add_tag self enumerator.

(** Modelled from the spec: [type__for_each_enumerator] is declared in
    dwarves.h. The enumerators of a type: its own list, or, when the
    tags are shared, the list of the head that [tags.next] points at. *)
Definition type__enumerators (heap : list tag) (self : nat) : option (list nat) :=
  t ← heap !! self;
  ns ← as_namespace (tg_body t);
  if ns_shared_tags ns then
    match ns_tags ns with
    | LH_next_is_head_of owner =>
        o ← heap !! owner;
        ons ← as_namespace (tg_body o);
        match ns_tags ons with
        | LH_entries l => Some l
        | _ => None
        end
    | _ => None
    end
  else
    match ns_tags ns with
    | LH_entries l => Some l
    | _ => None
    end.

(** Modelled from the spec: [ftype__add_parameter] is defined in
    dwarves.c. A function type has an "ordered parameter list". *)
Definition ftype__add_parameter (self parm : nat) : M unit :=
  update_body self (with_ftype (fun ft =>
    mkFtype (ft_parms ft ++ [parm]) (ft_nr_parms ft + 1) (ft_unspec_parms ft))).

(** Modelled from the spec: the [lexblock__add_*] functions are defined
    in dwarves.c. A lexical block has "ordered child tags, counts of
    inline expansions / variables / labels / sub-blocks". *)
Definition lexblock__add_tag (self t : nat) : M unit :=
  update_body self (with_lexblock (fun lb => set_lb_tags (lb_tags lb ++ [t]) lb)).

Definition lexblock__add_label (self label : nat) : M unit :=
  update_body self (with_lexblock (fun lb =>
    mkLexblock (lb_addr lb) (lb_size lb) (lb_tags lb ++ [label])
               (lb_size_inline_expansions lb) (lb_nr_inline_expansions lb)
               (lb_nr_labels lb + 1) (lb_nr_lexblocks lb) (lb_nr_variables lb))).

Definition lexblock__add_variable (self var : nat) : M unit :=
  update_body self (with_lexblock (fun lb =>
    mkLexblock (lb_addr lb) (lb_size lb) (lb_tags lb ++ [var])
               (lb_size_inline_expansions lb) (lb_nr_inline_expansions lb)
               (lb_nr_labels lb) (lb_nr_lexblocks lb) (lb_nr_variables lb + 1))).

Definition lexblock__add_inline_expansion (self exp : nat) : M unit :=
  e ← load_tag exp;
  match tg_body e with
  | B_inline_expansion ie =>
      update_body self (with_lexblock (fun lb =>
        mkLexblock (lb_addr lb) (lb_size lb) (lb_tags lb ++ [exp])
                   (lb_size_inline_expansions lb + ie_size ie)
                   (lb_nr_inline_expansions lb + 1)
                   (lb_nr_labels lb) (lb_nr_lexblocks lb) (lb_nr_variables lb)))
  | _ => undef
  end.

Definition lexblock__add_lexblock (self : nat) (child : option nat) : M unit :=
  match child with
  | None => undef
  | Some child =>
      update_body self (with_lexblock (fun lb =>
        mkLexblock (lb_addr lb) (lb_size lb) (lb_tags lb ++ [child])
                   (lb_size_inline_expansions lb) (lb_nr_inline_expansions lb)
                   (lb_nr_labels lb) (lb_nr_lexblocks lb + 1) (lb_nr_variables lb)))
  end.

(** Modelled from the spec: [class__add_vtable_entry] is defined in
    dwarves.c. A subprogram with a vtable entry index joins the vtable
    of its class. *)
Definition class__add_vtable_entry (self fn : nat) : M unit :=
  update_body self (with_class (fun cl =>
    mkClass (cl_vtable cl ++ [fn]) (cl_nr_vtable_entries cl + 1) (cl_nr_holes cl)
            (cl_nr_bit_holes cl) (cl_padding cl) (cl_bit_padding cl))).

(** Modelled from the spec: the [*__delete] functions are defined in
    dwarves.c. "Failure paths inside 4.B/4.C must roll the arena back to
    the allocation point of the failing tag." *)
Definition tag__delete (self : nat) : M unit := obstack_free self.

(** ** Tag factory *)

(** [__tag__print_not_supported], as compiled with STB_GNU_UNIQUE: one
    flag per kind in two static arrays, of DW_TAG_rvalue_reference_type
    and of DW_TAG_GNU_formal_parameter_pack - DW_TAG_MIPS_loop entries. *)
Definition __tag__print_not_supported (tag : Z) (func : string) : M unit :=
  s ← get_cu;
  if (if tag <? DW.TAG_MIPS_loop
      then (0 <=? tag) && (tag <? DW.TAG_rvalue_reference_type)
      else u32 (tag - DW.TAG_MIPS_loop)
           <? DW.TAG_GNU_formal_parameter_pack - DW.TAG_MIPS_loop)
  then
    if existsb (Z.eqb tag) (tags_warned s) then mret tt
    else
      _ ← modify_cu (set_tags_warned (tag :: tags_warned s));
      fprintf_stderr (Diag_tag_not_supported func tag)
  else undef.

Definition __tag__alloc (body : tag_body) (spec : bool) : M (option nat) :=
  dtag ← dcu_obstack_alloc (mkDwarfTag 0 0 0 0 0 0 0 (if spec then Some 0 else None));
  match dtag with
  | None => mret None
  | Some dtag =>
      self ← obstack_alloc (mkTag 0 0 false 0 None body);
      match self with
      | None => mret None
      | Some self =>
          _ ← update_dtag dtag (fun d => set_dt_type 0 (set_dt_tag self d));
          _ ← update_tag self (fun t =>
                set_tg_top_level false (set_tg_type 0 (set_tg_priv (Some dtag) t)));
          mret (Some self)
      end
  end.

Definition tag__alloc (body : tag_body) : M (option nat) := __tag__alloc body false.
Definition tag__alloc_with_spec (body : tag_body) : M (option nat) := __tag__alloc body true.

Definition dwarf_tag__spec (dtag : nat) : M Z :=
  d ← load_dtag dtag;
  match dt_spec d with
  | Some spec => mret spec
  | None => undef
  end.

Definition dwarf_tag__set_spec (dtag : nat) (spec : Z) : M unit :=
  d ← load_dtag dtag;
  match dt_spec d with
  | Some _ => store_dtag dtag (set_dt_spec (Some spec) d)
  | None => undef
  end.

(** The local [decl_line] of [tag__init] after
    [dwarf_decl_line (die, &decl_line)], whose result is not read. *)
Definition decl_line_read (die : Dwarf_Die) : Z :=
  match die_decl_line die with
  | Some line => line
  | None => indeterminate_decl_line die
  end.

Definition tag__init (self : nat) (die : Dwarf_Die) : M unit :=
  dtag ← tag__priv self;
  _ ← update_tag self (set_tg_tag (dwarf_tag die));
  _ ← update_dtag dtag (set_dt_id (dwarf_dieoffset die));
  _ ← (if (dwarf_tag die =? DW.TAG_imported_module)
          || (dwarf_tag die =? DW.TAG_imported_declaration)
       then update_dtag dtag (set_dt_type (attr_type die DW.AT_import))
       else update_dtag dtag (set_dt_type (attr_type die DW.AT_type)));
  _ ← update_dtag dtag (set_dt_abstract_origin (attr_type die DW.AT_abstract_origin));
  _ ← update_tag self (set_tg_recursivity_level 0);
  s ← get_cu;
  if extra_dbg_info s then
    update_dtag dtag (set_dt_decl (strings__add (die_decl_file die))
                                  (u16 (decl_line_read die)))
  else mret tt.

Definition tag__new (die : Dwarf_Die) : M (option nat) :=
  self ← tag__alloc B_tag;
  match self with
  | Some p => _ ← tag__init p die; mret self
  | None => mret None
  end.

Definition ptr_to_member_type__new (die : Dwarf_Die) : M (option nat) :=
  self ← tag__alloc (B_ptr_to_member_type 0);
  match self with
  | Some p =>
      _ ← tag__init p die;
      dself ← tag__priv p;
      _ ← update_dtag dself (set_dt_abstract_origin (attr_type die DW.AT_containing_type));
      mret self
  | None => mret None
  end.

Definition base_type__new (die : Dwarf_Die) : M (option nat) :=
  self ← tag__alloc (B_base_type (mkBaseType 0 0 false false false false));
  match self with
  | Some p =>
      _ ← tag__init p die;
      let name := strings__add (attr_string die DW.AT_name) in
      byte_size ← printing (attr_numeric die DW.AT_byte_size);
      encoding ← printing (attr_numeric die DW.AT_encoding);
      _ ← update_tag p (set_tg_body (B_base_type
            (mkBaseType name (u64 (byte_size * 8))
                        (encoding =? DW.ATE_boolean) (encoding =? DW.ATE_signed)
                        false true)));
      mret self
  | None => mret None
  end.

Definition array_type__new (die : Dwarf_Die) : M (option nat) :=
  self ← tag__alloc (B_array_type 0 None false);
  match self with
  | Some p =>
      _ ← tag__init p die;
      _ ← update_tag p (set_tg_body
            (B_array_type 0 None (dwarf_hasattr die DW.AT_GNU_vector)));
      mret self
  | None => mret None
  end.

Definition namespace__init (self : nat) (die : Dwarf_Die) : M unit :=
  _ ← tag__init self die;
  update_body self (with_namespace (fun _ =>
    Some (mkNamespace (strings__add (attr_string die DW.AT_name)) 0 0 false
                      (LH_entries [])))).

Definition blank_namespace : namespace_f := mkNamespace 0 0 0 false LH_zero.
Definition blank_type : type_f := mkType 0 0 false false false 0.
Definition blank_class : class_f := mkClass [] 0 0 0 0 0.
Definition blank_lexblock : lexblock_f := mkLexblock 0 0 [] 0 0 0 0 0.
Definition blank_ftype : ftype_f := mkFtype [] 0 false.
Definition blank_function : function_f := mkFunction 0 0 0 false false 0 0 0 0 0.

Definition namespace__new (die : Dwarf_Die) : M (option nat) :=
  self ← tag__alloc (B_namespace blank_namespace);
  match self with
  | Some p => _ ← namespace__init p die; mret self
  | None => mret None
  end.

(** A store to the [size] field of [struct type]. *)
Definition to_type_size (z : Z) : Z := z mod 2 ^ Z.pos type_size_bits.

Definition type__init (self : nat) (die : Dwarf_Die) : M unit :=
  _ ← namespace__init self die;
  size ← printing (attr_numeric die DW.AT_byte_size);
  declaration ← printing (attr_numeric die DW.AT_declaration);
  dtag ← tag__priv self;
  _ ← dwarf_tag__set_spec dtag (attr_type die DW.AT_specification);
  update_body self (with_type (fun _ =>
    mkType (to_type_size size) declaration false false false 0)).

Definition type__new (die : Dwarf_Die) : M (option nat) :=
  self ← tag__alloc_with_spec (B_type blank_namespace blank_type);
  match self with
  | Some p => _ ← type__init p die; mret self
  | None => mret None
  end.

Definition enumerator__new (die : Dwarf_Die) : M (option nat) :=
  self ← tag__alloc (B_enumerator 0 0);
  match self with
  | Some p =>
      _ ← tag__init p die;
      let name := strings__add (attr_string die DW.AT_name) in
      value ← printing (attr_numeric die DW.AT_const_value);
      _ ← update_tag p (set_tg_body (B_enumerator name value));
      mret self
  | None => mret None
  end.

Definition variable__new (die : Dwarf_Die) : M (option nat) :=
  self ← tag__alloc (B_variable (mkVariable 0 false false LOCATION_UNKNOWN 0));
  match self with
  | Some p =>
      _ ← tag__init p die;
      let name := strings__add (attr_string die DW.AT_name) in
      let external := dwarf_hasattr die DW.AT_external in
      let declaration := dwarf_hasattr die DW.AT_declaration in
      s ← get_cu;
      let '(location, addr) :=
        if negb declaration && has_addr_info s
        then dwarf__location die 0
        else (LOCATION_UNKNOWN, 0) in
      _ ← update_tag p (set_tg_body (B_variable
            (mkVariable name external declaration location addr)));
      mret self
  | None => mret None
  end.

Definition class_member__new (die : Dwarf_Die) : M (option nat) :=
  self ← tag__alloc (B_class_member (mkMember 0 0 0 0 0 0 0 0 0 0 0 0 0));
  match self with
  | Some p =>
      _ ← tag__init p die;
      let name := strings__add (attr_string die DW.AT_name) in
      byte_offset ← printing_opt (attr_offset die DW.AT_data_member_location);
      bitfield_offset ← printing (attr_numeric die DW.AT_bit_offset);
      bitfield_size ← printing (attr_numeric die DW.AT_bit_size);
      accessibility ← printing (attr_numeric die DW.AT_accessibility);
      virtuality ← printing (attr_numeric die DW.AT_virtuality);
      _ ← update_tag p (set_tg_body (B_class_member
            (mkMember name byte_offset 0 0 bitfield_offset bitfield_size
                      (byte_offset * 8 + bitfield_offset) 0 0 0
                      accessibility virtuality 0)));
      mret self
  | None => mret None
  end.

Definition parameter__new (die : Dwarf_Die) : M (option nat) :=
  self ← tag__alloc (B_parameter 0);
  match self with
  | Some p =>
      _ ← tag__init p die;
      _ ← update_tag p (set_tg_body
            (B_parameter (strings__add (attr_string die DW.AT_name))));
      mret self
  | None => mret None
  end.

(** [dwarf_ranges] is walked through [die_ranges]: each entry is the
    start and end of one range. *)
Fixpoint inline_expansion__ranges (ranges : list (Z * Z)) (ie : inline_expansion_f)
  : inline_expansion_f :=
  match ranges with
  | [] => ie
  | (start, high_pc) :: ranges' =>
      let size := u64 (ie_size ie + (high_pc - start)) in
      let addr := if ie_addr ie =? 0 then start else ie_addr ie in
      inline_expansion__ranges ranges' (mkInlineExpansion addr high_pc size)
  end.

Definition inline_expansion__new (die : Dwarf_Die) : M (option nat) :=
  self ← tag__alloc (B_inline_expansion (mkInlineExpansion 0 0 0));
  match self with
  | Some p =>
      dtag ← tag__priv p;
      _ ← tag__init p die;
      call_line ← printing (attr_numeric die DW.AT_call_line);
      _ ← update_dtag dtag
            (set_dt_decl (strings__add (attr_string die DW.AT_call_file)) (u16 call_line));
      _ ← update_dtag dtag (set_dt_type (attr_type die DW.AT_abstract_origin));
      s ← get_cu;
      _ ← (if negb (has_addr_info s)
           then update_tag p (set_tg_body (B_inline_expansion (mkInlineExpansion 0 0 0)))
           else
             let addr := default 0 (die_lowpc die) in
             let high_pc := default 0 (die_lowpc die) in
             let size := u64 (high_pc - addr) in
             let ie := mkInlineExpansion addr high_pc size in
             update_tag p (set_tg_body (B_inline_expansion
               (if size =? 0 then inline_expansion__ranges (die_ranges die) ie else ie))));
      mret self
  | None => mret None
  end.

Definition label__new (die : Dwarf_Die) : M (option nat) :=
  self ← tag__alloc (B_label 0 0);
  match self with
  | Some p =>
      _ ← tag__init p die;
      s ← get_cu;
      let name := strings__add (attr_string die DW.AT_name) in
      let addr := if has_addr_info s then default 0 (die_lowpc die) else 0 in
      _ ← update_tag p (set_tg_body (B_label name addr));
      mret self
  | None => mret None
  end.

Definition class__new (die : Dwarf_Die) : M (option nat) :=
  self ← tag__alloc_with_spec (B_class blank_namespace blank_type blank_class);
  match self with
  | Some p =>
      _ ← type__init p die;
      _ ← update_body p (with_class (fun _ => mkClass [] 0 0 0 0 0));
      mret self
  | None => mret None
  end.

Definition lexblock__init (self : nat) (die : Dwarf_Die) : M unit :=
  s ← get_cu;
  let '(addr, size) :=
    if has_addr_info s then
      match die_lowpc die with
      | None => (0, 0)
      | Some addr =>
          match die_highpc die with
          | None => (addr, 0)
          | Some high_pc => (addr, u64 (high_pc - addr))
          end
      end
    else (0, 0) in
  update_body self (with_lexblock (fun _ => mkLexblock addr size [] 0 0 0 0 0)).

Definition lexblock__new (die : Dwarf_Die) : M (option nat) :=
  self ← tag__alloc (B_lexblock blank_lexblock);
  match self with
  | Some p =>
      _ ← tag__init p die;
      _ ← lexblock__init p die;
      mret self
  | None => mret None
  end.

Definition ftype__init (self : nat) (die : Dwarf_Die) : M unit :=
  let tag := u16 (dwarf_tag die) in
  _ ← assert ((tag =? DW.TAG_subprogram) || (tag =? DW.TAG_subroutine_type));
  _ ← tag__init self die;
  update_body self (with_ftype (fun _ => mkFtype [] 0 false)).

Definition ftype__new (die : Dwarf_Die) : M (option nat) :=
  self ← tag__alloc (B_ftype blank_ftype);
  match self with
  | Some p => _ ← ftype__init p die; mret self
  | None => mret None
  end.

Definition function__new (die : Dwarf_Die) : M (option nat) :=
  self ← tag__alloc_with_spec (B_function blank_ftype blank_lexblock blank_function);
  match self with
  | Some p =>
      _ ← ftype__init p die;
      _ ← lexblock__init p die;
      let name := strings__add (attr_string die DW.AT_name) in
      let linkage_name := strings__add (attr_string die DW.AT_MIPS_linkage_name) in
      inlined ← printing (attr_numeric die DW.AT_inline);
      let external := dwarf_hasattr die DW.AT_external in
      let abstract_origin := dwarf_hasattr die DW.AT_abstract_origin in
      dtag ← tag__priv p;
      _ ← dwarf_tag__set_spec dtag (attr_type die DW.AT_specification);
      accessibility ← printing (attr_numeric die DW.AT_accessibility);
      virtuality ← printing (attr_numeric die DW.AT_virtuality);
      vtable_entry ← (if dwarf_hasattr die DW.AT_vtable_elem_location
                      then printing_opt (attr_offset die DW.AT_vtable_elem_location)
                      else mret (-1));
      _ ← update_body p (with_function (fun _ =>
            mkFunction name linkage_name inlined external abstract_origin
                       accessibility virtuality vtable_entry 0 0));
      mret self
  | None => mret None
  end.

Definition attr_upper_bound (die : Dwarf_Die) : Z :=
  match dwarf_attr die DW.AT_upper_bound with
  | Some attr =>
      match dwarf_formudata attr with
      | Some num => u64 (u64 num + 1)
      | None => 0
      end
  | None => 0
  end.

Definition __cu__tag_not_handled (die : Dwarf_Die) (fn : string) : M unit :=
  fprintf_stderr (Diag_tag_not_handled fn (u32 (dwarf_tag die)) (dwarf_dieoffset die)).

(** ** CU builder *)

Definition die__create_new_tag (die : Dwarf_Die) : M (option nat) :=
  self ← tag__new die;
  match self with
  | Some p =>
      t ← load_tag p;
      _ ← (if dwarf_haschildren die
           then fprintf_stderr (Diag_with_children "die__create_new_tag" (tg_tag t))
           else mret tt);
      mret self
  | None => mret None
  end.

Definition die__create_new_ptr_to_member_type (die : Dwarf_Die) : M (option nat) :=
  ptr_to_member_type__new die.

Definition die__create_new_base_type (die : Dwarf_Die) : M (option nat) :=
  base ← base_type__new die;
  match base with
  | None => mret None
  | Some _ =>
      _ ← (if dwarf_haschildren die
           then fprintf_stderr (Diag_with_children "die__create_new_base_type" DW.TAG_base_type)
           else mret tt);
      mret base
  end.

Definition die__create_new_typedef (die : Dwarf_Die) : M (option nat) :=
  tdef ← type__new die;
  match tdef with
  | None => mret None
  | Some _ =>
      _ ← (if dwarf_haschildren die
           then fprintf_stderr (Diag_with_children "die__create_new_typedef" DW.TAG_typedef)
           else mret tt);
      mret tdef
  end.

Definition max_dimensions : Z := 64.

(** [memdup] of the dimension buffer into the domain arena. *)
Definition memdup (src : list Z) : M (option (list Z)) := fun s =>
  match mem s with
  | O => Ret None s
  | S m => Ret (Some src) (set_mem m s)
  end.

(** The do-while loop of [die__create_new_array] over the children,
    [nr_entries] holding the first [array->dimensions] slots of the
    local buffer. *)
Fixpoint die__create_new_array_loop (dies : list Dwarf_Die) (nr_entries : list Z)
  : M (list Z) :=
  match dies with
  | [] => mret nr_entries
  | die :: sibs =>
      if dwarf_tag die =? DW.TAG_subrange_type then
        let nr_entries := nr_entries ++ [u32 (attr_upper_bound die)] in
        if Z.of_nat (length nr_entries) =? max_dimensions then
          _ ← fprintf_stderr (Diag_only_dimensions max_dimensions);
          mret nr_entries
        else die__create_new_array_loop sibs nr_entries
      else
        _ ← __cu__tag_not_handled die "die__create_new_array";
        die__create_new_array_loop sibs nr_entries
  end.

Definition die__create_new_array (die : Dwarf_Die) : M (option nat) :=
  array ← array_type__new die;
  match array with
  | None => mret None
  | Some p =>
      match dwarf_child die with
      | None => mret array
      | Some (child, sibs) =>
          nr_entries ← die__create_new_array_loop (child :: sibs) [];
          copy ← memdup nr_entries;
          match copy with
          | Some _ =>
              _ ← update_body p (fun b =>
                    match b with
                    | B_array_type _ _ is_vector =>
                        Some (B_array_type (Z.of_nat (length nr_entries)) copy is_vector)
                    | _ => None
                    end);
              mret array
          | None => _ ← obstack_free p; mret None
          end
      end
  end.

Definition die__create_new_variable (die : Dwarf_Die) : M (option nat) :=
  variable__new die.

Definition die__create_new_parameter (die : Dwarf_Die) (ftype lexblock : option nat)
  : M (option nat) :=
  parm ← parameter__new die;
  match parm with
  | None => mret None
  | Some p =>
      _ ← match ftype with
          | Some ft => ftype__add_parameter ft p
          | None =>
              match lexblock with
              | Some lb => lexblock__add_tag lb p
              | None => undef
              end
          end;
      mret parm
  end.

Definition die__create_new_label (die : Dwarf_Die) (lexblock : option nat)
  : M (option nat) :=
  label ← label__new die;
  match label with
  | None => mret None
  | Some l =>
      _ ← match lexblock with
          | Some lb => lexblock__add_label lb l
          | None => undef
          end;
      mret label
  end.

(** The do-while loop of [die__create_new_enumeration]. [Some tt]: the
    loop ran to its end; [None]: it left through [out_delete]. *)
Fixpoint die__create_new_enumeration_loop (dies : list Dwarf_Die) (enumeration : nat)
  : M (option unit) :=
  match dies with
  | [] => mret (Some tt)
  | die :: sibs =>
      if negb (dwarf_tag die =? DW.TAG_enumerator) then
        _ ← __cu__tag_not_handled die "die__create_new_enumeration";
        die__create_new_enumeration_loop sibs enumeration
      else
        enumerator ← enumerator__new die;
        match enumerator with
        | None => mret None
        | Some e =>
            _ ← enumeration__add enumeration e;
            die__create_new_enumeration_loop sibs enumeration
        end
  end.

Definition die__create_new_enumeration (die : Dwarf_Die) : M (option nat) :=
  enumeration ← type__new die;
  match enumeration with
  | None => mret None
  | Some p =>
      _ ← update_body p (with_type (fun ty =>
            if ty_size ty =? 0 then set_ty_size (to_type_size (4 * 8)) ty
            else set_ty_size (to_type_size (ty_size ty * 8)) ty));
      match dwarf_child die with
      | None => mret enumeration
      | Some (child, sibs) =>
          r ← die__create_new_enumeration_loop (child :: sibs) p;
          match r with
          | Some _ => mret enumeration
          | None => _ ← tag__delete p; mret None
          end
      end
  end.

(** The common tail of the child loops: [cu__hash (cu, tag)] and
    [dtag->small_id = id]. *)
Definition hash_and_number (t : nat) (id : Z) : M unit :=
  _ ← cu__hash t;
  dtag ← tag__priv t;
  update_dtag dtag (set_dt_small_id (u16 id)).

Definition vtable_entry_of (t : tag) : option Z :=
  match tg_body t with
  | B_function _ _ fn => Some (fn_vtable_entry fn)
  | _ => None
  end.

Fixpoint __die__process_tag (fuel : nat) (die : Dwarf_Die) (top_level : bool)
    (fn : string) {struct fuel} : M (option nat) :=
  match fuel with
  | O => no_fuel
  | S fuel =>
      let k := dwarf_tag die in
      tag ←
        (if k =? DW.TAG_array_type then die__create_new_array die
         else if k =? DW.TAG_base_type then die__create_new_base_type die
         else if (k =? DW.TAG_const_type) || (k =? DW.TAG_imported_declaration)
                 || (k =? DW.TAG_imported_module) || (k =? DW.TAG_pointer_type)
                 || (k =? DW.TAG_reference_type) || (k =? DW.TAG_volatile_type)
         then die__create_new_tag die
         else if k =? DW.TAG_ptr_to_member_type then die__create_new_ptr_to_member_type die
         else if k =? DW.TAG_enumeration_type then die__create_new_enumeration die
         else if k =? DW.TAG_namespace then die__create_new_namespace fuel die
         else if (k =? DW.TAG_class_type) || (k =? DW.TAG_interface_type)
                 || (k =? DW.TAG_structure_type)
         then die__create_new_class fuel die
         else if k =? DW.TAG_subprogram then die__create_new_function fuel die
         else if k =? DW.TAG_subroutine_type then die__create_new_subroutine_type fuel die
         else if k =? DW.TAG_typedef then die__create_new_typedef die
         else if k =? DW.TAG_union_type then die__create_new_union fuel die
         else if k =? DW.TAG_variable then die__create_new_variable die
         else _ ← __cu__tag_not_handled die fn; mret None);
      match tag with
      | Some p => _ ← update_tag p (set_tg_top_level top_level); mret tag
      | None => mret None
      end
  end

with die__create_new_class (fuel : nat) (die : Dwarf_Die) {struct fuel}
  : M (option nat) :=
  match fuel with
  | O => no_fuel
  | S fuel =>
      class ← class__new die;
      match class, dwarf_child die with
      | Some p, Some (child, sibs) =>
          err ← die__process_class fuel (child :: sibs) p;
          if err =? 0 then mret class
          else _ ← tag__delete p; mret None
      | _, _ => mret class
      end
  end

with die__create_new_namespace (fuel : nat) (die : Dwarf_Die) {struct fuel}
  : M (option nat) :=
  match fuel with
  | O => no_fuel
  | S fuel =>
      namespace ← namespace__new die;
      match namespace, dwarf_child die with
      | Some p, Some (child, sibs) =>
          err ← die__process_namespace fuel (child :: sibs) p;
          if err =? 0 then mret namespace
          else _ ← tag__delete p; mret None
      | _, _ => mret namespace
      end
  end

with die__create_new_union (fuel : nat) (die : Dwarf_Die) {struct fuel}
  : M (option nat) :=
  match fuel with
  | O => no_fuel
  | S fuel =>
      utype ← type__new die;
      match utype, dwarf_child die with
      | Some p, Some (child, sibs) =>
          err ← die__process_class fuel (child :: sibs) p;
          if err =? 0 then mret utype
          else _ ← tag__delete p; mret None
      | _, _ => mret utype
      end
  end

with die__create_new_subroutine_type (fuel : nat) (die : Dwarf_Die) {struct fuel}
  : M (option nat) :=
  match fuel with
  | O => no_fuel
  | S fuel =>
      ftype ← ftype__new die;
      match ftype, dwarf_child die with
      | Some ft, Some (child, sibs) =>
          (fix loop (dies : list Dwarf_Die) : M (option nat) :=
             match dies with
             | [] => mret ftype
             | die :: sibs =>
                 let k := dwarf_tag die in
                 if k =? DW.TAG_formal_parameter then
                   tag ← die__create_new_parameter die ftype None;
                   match tag with
                   | None => _ ← tag__delete ft; mret None
                   | Some t =>
                       '(err, id) ← cu__table_add_tag t;
                       if err <? 0 then _ ← tag__delete t; _ ← tag__delete ft; mret None
                       else _ ← hash_and_number t id; loop sibs
                   end
                 else if k =? DW.TAG_unspecified_parameters then
                   _ ← update_body ft (with_ftype (set_ft_unspec_parms true));
                   loop sibs
                 else
                   tag ← __die__process_tag fuel die false "die__create_new_subroutine_type";
                   match tag with
                   | None => _ ← tag__delete ft; mret None
                   | Some t =>
                       '(err, id) ← cu__add_tag t;
                       if err <? 0 then _ ← tag__delete t; _ ← tag__delete ft; mret None
                       else _ ← hash_and_number t id; loop sibs
                   end
             end) (child :: sibs)
      | _, _ => mret ftype
      end
  end

with die__process_class (fuel : nat) (dies : list Dwarf_Die) (class : nat)
    {struct fuel} : M Z :=
  match fuel with
  | O => no_fuel
  | S fuel =>
      (fix loop (dies : list Dwarf_Die) : M Z :=
         match dies with
         | [] => mret 0
         | die :: sibs =>
             let k := dwarf_tag die in
             if (k =? DW.TAG_GNU_template_template_param)
                || (k =? DW.TAG_GNU_template_parameter_pack)
                || (k =? DW.TAG_template_type_parameter)
                || (k =? DW.TAG_template_value_parameter) then
               _ ← __tag__print_not_supported (u32 k) "die__process_class";
               loop sibs
             else if (k =? DW.TAG_inheritance) || (k =? DW.TAG_member) then
               member ← class_member__new die;
               match member with
               | None => mret (- ENOMEM)
               | Some m =>
                   s ← get_cu;
                   ok ← (if cu__is_c_plus_plus (language s) then
                           '(err, id) ← cu__table_add_tag m;
                           if err <? 0 then _ ← tag__delete m; mret false
                           else
                             dtag ← tag__priv m;
                             _ ← update_dtag dtag (set_dt_small_id (u16 id));
                             mret true
                         else mret true);
                   if ok : bool then
                     _ ← type__add_member class m;
                     _ ← cu__hash m;
                     loop sibs
                   else mret (- ENOMEM)
               end
             else
               tag ← __die__process_tag fuel die false "die__process_class";
               match tag with
               | None => mret (- ENOMEM)
               | Some t =>
                   '(err, id) ← cu__table_add_tag t;
                   if err <? 0 then _ ← tag__delete t; mret (- ENOMEM)
                   else
                     dtag ← tag__priv t;
                     _ ← update_dtag dtag (set_dt_small_id (u16 id));
                     _ ← namespace__add_tag class t;
                     _ ← cu__hash t;
                     tg ← load_tag t;
                     _ ← (if tag__is_function (tg_tag tg) then
                            match vtable_entry_of tg with
                            | Some v =>
                                if v =? -1 then mret tt
                                else class__add_vtable_entry class t
                            | None => undef
                            end
                          else mret tt);
                     loop sibs
               end
         end) dies
  end

with die__process_namespace (fuel : nat) (dies : list Dwarf_Die) (namespace : nat)
    {struct fuel} : M Z :=
  match fuel with
  | O => no_fuel
  | S fuel =>
      (fix loop (dies : list Dwarf_Die) : M Z :=
         match dies with
         | [] => mret 0
         | die :: sibs =>
             tag ← __die__process_tag fuel die false "die__process_namespace";
             match tag with
             | None => mret (- ENOMEM)
             | Some t =>
                 '(err, id) ← cu__table_add_tag t;
                 if err <? 0 then _ ← tag__delete t; mret (- ENOMEM)
                 else
                   dtag ← tag__priv t;
                   _ ← update_dtag dtag (set_dt_small_id (u16 id));
                   _ ← namespace__add_tag namespace t;
                   _ ← cu__hash t;
                   loop sibs
             end
         end) dies
  end

with die__create_new_lexblock (fuel : nat) (die : Dwarf_Die) (father : option nat)
    {struct fuel} : M Z :=
  match fuel with
  | O => no_fuel
  | S fuel =>
      lexblock ← lexblock__new die;
      err ← match lexblock with
            | Some lb => die__process_function fuel die None lb
            | None => mret 0
            end;
      if err =? 0 then
        _ ← match father with
            | Some f => lexblock__add_lexblock f lexblock
            | None => mret tt
            end;
        mret 0
      else
        _ ← match lexblock with Some lb => tag__delete lb | None => mret tt end;
        mret (- ENOMEM)
  end

with die__process_inline_expansion (fuel : nat) (die : Dwarf_Die) {struct fuel} : M Z :=
  match fuel with
  | O => no_fuel
  | S fuel =>
      match dwarf_child die with
      | None => mret 0
      | Some (child, sibs) =>
          (fix loop (dies : list Dwarf_Die) : M Z :=
             match dies with
             | [] => mret 0
             | die :: sibs =>
                 let k := dwarf_tag die in
                 if k =? DW.TAG_lexical_block then
                   err ← die__create_new_lexblock fuel die None;
                   if err =? 0 then loop sibs else mret (- ENOMEM)
                 else if k =? DW.TAG_formal_parameter then loop sibs
                 else if k =? DW.TAG_inlined_subroutine then
                   tag ← die__create_new_inline_expansion fuel die None;
                   match tag with
                   | None => mret (- ENOMEM)
                   | Some t =>
                       '(err, id) ← cu__table_add_tag t;
                       if err <? 0 then _ ← tag__delete t; mret (- ENOMEM)
                       else _ ← hash_and_number t id; loop sibs
                   end
                 else
                   tag ← __die__process_tag fuel die false "die__process_inline_expansion";
                   match tag with
                   | None => mret (- ENOMEM)
                   | Some t =>
                       '(err, id) ← cu__add_tag t;
                       if err <? 0 then _ ← tag__delete t; mret (- ENOMEM)
                       else _ ← hash_and_number t id; loop sibs
                   end
             end) (child :: sibs)
      end
  end

with die__create_new_inline_expansion (fuel : nat) (die : Dwarf_Die)
    (lexblock : option nat) {struct fuel} : M (option nat) :=
  match fuel with
  | O => no_fuel
  | S fuel =>
      exp ← inline_expansion__new die;
      match exp with
      | None => mret None
      | Some e =>
          err ← die__process_inline_expansion fuel die;
          if err =? 0 then
            _ ← match lexblock with
                | Some lb => lexblock__add_inline_expansion lb e
                | None => mret tt
                end;
            mret exp
          else _ ← obstack_free e; mret None
      end
  end

with die__process_function (fuel : nat) (die : Dwarf_Die) (ftype : option nat)
    (lexblock : nat) {struct fuel} : M Z :=
  match fuel with
  | O => no_fuel
  | S fuel =>
      match dwarf_child die with
      | None => mret 0
      | Some (child, sibs) =>
          (fix loop (dies : list Dwarf_Die) : M Z :=
             match dies with
             | [] => mret 0
             | die :: sibs =>
                 let k := dwarf_tag die in
                 let table_add (tag : option nat) : M Z :=
                   match tag with
                   | None => mret (- ENOMEM)
                   | Some t =>
                       '(err, id) ← cu__table_add_tag t;
                       if err <? 0 then _ ← tag__delete t; mret (- ENOMEM)
                       else _ ← hash_and_number t id; loop sibs
                   end in
                 if (k =? DW.TAG_template_type_parameter)
                    || (k =? DW.TAG_template_value_parameter) then
                   _ ← __tag__print_not_supported (u32 k) "die__process_function";
                   loop sibs
                 else if k =? DW.TAG_formal_parameter then
                   tag ← die__create_new_parameter die ftype (Some lexblock);
                   table_add tag
                 else if k =? DW.TAG_variable then
                   tag ← die__create_new_variable die;
                   match tag with
                   | None => mret (- ENOMEM)
                   | Some v => _ ← lexblock__add_variable lexblock v; table_add tag
                   end
                 else if k =? DW.TAG_unspecified_parameters then
                   _ ← match ftype with
                       | Some ft => update_body ft (with_ftype (set_ft_unspec_parms true))
                       | None => mret tt
                       end;
                   loop sibs
                 else if k =? DW.TAG_label then
                   tag ← die__create_new_label die (Some lexblock);
                   table_add tag
                 else if k =? DW.TAG_inlined_subroutine then
                   tag ← die__create_new_inline_expansion fuel die (Some lexblock);
                   table_add tag
                 else if k =? DW.TAG_lexical_block then
                   err ← die__create_new_lexblock fuel die (Some lexblock);
                   if err =? 0 then loop sibs else mret (- ENOMEM)
                 else
                   tag ← __die__process_tag fuel die false "die__process_function";
                   match tag with
                   | None => mret (- ENOMEM)
                   | Some t =>
                       '(err, id) ← cu__add_tag t;
                       if err <? 0 then _ ← tag__delete t; mret (- ENOMEM)
                       else _ ← hash_and_number t id; loop sibs
                   end
             end) (child :: sibs)
      end
  end

with die__create_new_function (fuel : nat) (die : Dwarf_Die) {struct fuel}
  : M (option nat) :=
  match fuel with
  | O => no_fuel
  | S fuel =>
      function ← function__new die;
      match function with
      | Some f =>
          err ← die__process_function fuel die (Some f) f;
          if err =? 0 then mret function
          else _ ← tag__delete f; mret None
      | None => mret None
      end
  end.

(** The do-while loop of [die__process_unit] over the children of the
    compile unit. *)
Fixpoint die__process_unit (fuel : nat) (dies : list Dwarf_Die) : M Z :=
  match dies with
  | [] => mret 0
  | die :: sibs =>
      tag ← __die__process_tag fuel die true "die__process_unit";
      match tag with
      | None => mret (- ENOMEM)
      | Some t =>
          '(_, id) ← cu__add_tag t;
          _ ← hash_and_number t id;
          die__process_unit fuel sibs
      end
  end.

(** ** Bitfield recoder *)

(** [tag__namespace(self)->name]: "in all the cases the name is at the
    same offset". For an object allocated as a plain [struct tag] the
    read falls behind the object; its value is used by no arm that
    recodes and is taken as zero. *)
Definition name_at_namespace_offset (b : tag_body) : Z :=
  match b with
  | B_base_type bt => bt_name bt
  | B_namespace ns | B_type ns _ | B_class ns _ _ => ns_name ns
  | _ => 0
  end.

(** C conversions of the values the recoder returns. *)
Definition to_int (z : Z) : Z := (z + 2^31) mod 2^32 - 2^31.

(** [tag__recode_dwarf_bitfield (self, cu, bit_size)]; the result is the
    C [int]. *)
Fixpoint tag__recode_dwarf_bitfield (fuel : nat) (self : nat) (bit_size : Z)
  : M Z :=
  match fuel with
  | O => no_fuel
  | S fuel =>
      t ← load_tag self;
      let name := name_at_namespace_offset (tg_body t) in
      let add (recoded : tag) : M Z :=
        r ← obstack_alloc recoded;
        match r with
        | None => mret (- ENOMEM)
        | Some p =>
            '(err, new_id) ← cu__add_tag p;
            if err =? 0 then mret (to_int new_id)
            else _ ← obstack_free p; mret (- ENOMEM)
        end in
      let k := tg_tag t in
      if k =? DW.TAG_typedef then
        dself ← tag__priv self;
        d ← load_dtag dself;
        dtype ← dwarf_cu__find_type_by_id (dt_type d);
        match dtype with
        | None => undef
        | Some dtype =>
            dt ← load_dtag dtype;
            r ← tag__recode_dwarf_bitfield fuel (dt_tag dt) bit_size;
            let id := u16 r in
            t' ← load_tag self;
            if id =? tg_type t' then mret id
            else
              add (mkTag id DW.TAG_typedef false 0 None
                     (B_type (mkNamespace name 0 0 false LH_zero) blank_type))
        end
      else if (k =? DW.TAG_const_type) || (k =? DW.TAG_volatile_type) then
        dself ← tag__priv self;
        d ← load_dtag dself;
        dtype ← dwarf_cu__find_type_by_id (dt_type d);
        match dtype with
        | None => undef
        | Some dtype =>
            dt ← load_dtag dtype;
            r ← tag__recode_dwarf_bitfield fuel (dt_tag dt) bit_size;
            let id := u16 r in
            t' ← load_tag self;
            if id =? tg_type t' then mret id
            else add (mkTag id DW.TAG_volatile_type false 0 None B_tag)
        end
      else if k =? DW.TAG_base_type then
        s ← get_cu;
        match cu__find_base_type_by_sname_and_size s name bit_size with
        | Some (_, id) => mret (u16 (Z.of_nat id))
        | None =>
            add (mkTag 0 DW.TAG_base_type true 0 None
                   (B_base_type (mkBaseType name bit_size false false false false)))
        end
      else if k =? DW.TAG_enumeration_type then
        s ← get_cu;
        match cu__find_enumeration_by_sname_and_size s name bit_size with
        | Some (_, id) => mret (u16 (Z.of_nat id))
        | None =>
            match as_type (tg_body t) with
            | None => undef
            | Some alias =>
                add (mkTag 0 DW.TAG_enumeration_type true 0 None
                       (B_type (mkNamespace name 0 0 true (LH_next_is_head_of self))
                               (mkType (to_type_size bit_size) 0 false false false
                                       (ty_nr_members alias))))
            end
        end
      else
        _ ← fprintf_stderr (Diag_recode_bitfield k name bit_size);
        mret (- EINVAL)
  end.

Definition bitfield_size_of (t : tag) : option Z :=
  match tg_body t with
  | B_class_member m => Some (cm_bitfield_size m)
  | _ => None
  end.

Definition class_member__dwarf_recode_bitfield (fuel : nat) (self : nat) : M Z :=
  dtag ← tag__priv self;
  d ← load_dtag dtag;
  type ← dwarf_cu__find_type_by_id (dt_type d);
  match type with
  | None => undef
  | Some type =>
      dt ← load_dtag type;
      m ← load_tag self;
      match bitfield_size_of m with
      | None => undef
      | Some bitfield_size =>
          recoded_type_id ← tag__recode_dwarf_bitfield fuel (dt_tag dt) (u16 bitfield_size);
          if recoded_type_id <? 0 then mret recoded_type_id
          else _ ← update_tag self (set_tg_type (u16 recoded_type_id)); mret 0
      end
  end.

(** ** Reference resolver *)

Definition __tag__print_type_not_found (self : nat) (func : string) : M unit :=
  t ← load_tag self;
  dtag ← tag__priv self;
  d ← load_dtag dtag;
  fprintf_stderr (Diag_type_not_found func (dt_type d) (dt_id d) (tg_tag t)).

Definition __tag__print_abstract_origin_not_found (self : nat) (func : string) : M unit :=
  t ← load_tag self;
  dtag ← tag__priv self;
  d ← load_dtag dtag;
  fprintf_stderr (Diag_abstract_origin_not_found func (dt_abstract_origin d) (dt_id d)
                                                 (tg_tag t)).

(** [pos->type = dtype->small_id] *)
Definition set_type_from_small_id (pos dtype : nat) : M unit :=
  d ← load_dtag dtype;
  update_tag pos (set_tg_type (dt_small_id d)).

(** The casts [tag__parameter], [tag__variable], [tag__label] and
    [tag__function] followed by a read or a write of [name]. *)
Definition name_as (k : Z) (b : tag_body) : option Z :=
  match b with
  | B_parameter n => if k =? DW.TAG_formal_parameter then Some n else None
  | B_variable v => if k =? DW.TAG_variable then Some (var_name v) else None
  | B_label n _ => if k =? DW.TAG_label then Some n else None
  | B_function _ _ fn => if k =? DW.TAG_subprogram then Some (fn_name fn) else None
  | _ => None
  end.

Definition set_name (n : Z) (b : tag_body) : option tag_body :=
  match b with
  | B_parameter _ => Some (B_parameter n)
  | B_variable v =>
      Some (B_variable (mkVariable n (var_external v) (var_declaration v)
                                   (var_location v) (var_addr v)))
  | B_label _ a => Some (B_label n a)
  | B_function ft lb fn => Some (B_function ft lb (set_fn_name n fn))
  | _ => None
  end.

(** [pos->name = cast(dtype->tag)->name; pos->type = dtype->tag->type] *)
Definition copy_name_and_type (k : Z) (pos dtype : nat) : M unit :=
  d ← load_dtag dtype;
  origin ← load_tag (dt_tag d);
  match name_as k (tg_body origin) with
  | None => undef
  | Some n =>
      _ ← update_body pos (set_name n);
      update_tag pos (set_tg_type (tg_type origin))
  end.

Definition copy_name (k : Z) (pos dtype : nat) : M unit :=
  d ← load_dtag dtype;
  origin ← load_tag (dt_tag d);
  match name_as k (tg_body origin) with
  | None => undef
  | Some n => update_body pos (set_name n)
  end.

Definition type__recode_dwarf_specification (self : nat) : M unit :=
  t ← load_tag self;
  dtag ← tag__priv self;
  specification ← dwarf_tag__spec dtag;
  match as_namespace (tg_body t) with
  | None => undef
  | Some ns =>
      if negb (ns_name ns =? 0) || (specification =? 0) then mret tt
      else
        dtype ← dwarf_cu__find_type_by_id specification;
        match dtype with
        | Some dtype =>
            d ← load_dtag dtype;
            o ← load_tag (dt_tag d);
            update_body self (with_namespace (fun ns =>
              Some (set_ns_name (name_at_namespace_offset (tg_body o)) ns)))
        | None =>
            d ← load_dtag dtag;
            fprintf_stderr (Diag_no_class_name (dt_id d) specification)
        end
  end.

Fixpoint ftype__recode_dwarf_types_loop (parms : list nat) : M unit :=
  match parms with
  | [] => mret tt
  | pos :: parms' =>
      dpos ← tag__priv pos;
      d ← load_dtag dpos;
      _ ← (if dt_type d =? 0 then
             if dt_abstract_origin d =? 0 then update_tag pos (set_tg_type 0)
             else
               dtype ← dwarf_cu__find_tag_by_id (dt_abstract_origin d);
               match dtype with
               | None => __tag__print_abstract_origin_not_found pos "ftype__recode_dwarf_types"
               | Some dtype => copy_name_and_type DW.TAG_formal_parameter pos dtype
               end
           else
             dtype ← dwarf_cu__find_type_by_id (dt_type d);
             match dtype with
             | None => __tag__print_type_not_found pos "ftype__recode_dwarf_types"
             | Some dtype => set_type_from_small_id pos dtype
             end);
      ftype__recode_dwarf_types_loop parms'
  end.

Definition ftype__recode_dwarf_types (self : nat) : M unit :=
  t ← load_tag self;
  match as_ftype (tg_body t) with
  | None => undef
  | Some type => ftype__recode_dwarf_types_loop (ft_parms type)
  end.

Fixpoint lexblock__recode_dwarf_types (fuel : nat) (self : nat) : M unit :=
  match fuel with
  | O => no_fuel
  | S fuel =>
      t ← load_tag self;
      match as_lexblock (tg_body t) with
      | None => undef
      | Some lb =>
          (fix loop (tags : list nat) : M unit :=
             match tags with
             | [] => mret tt
             | pos :: tags' =>
                 p ← load_tag pos;
                 let k := tg_tag p in
                 let by_type : M unit :=
                   dpos ← tag__priv pos;
                   d ← load_dtag dpos;
                   dtype ← dwarf_cu__find_type_by_id (dt_type d);
                   match dtype with
                   | None => __tag__print_type_not_found pos "lexblock__recode_dwarf_types"
                   | Some dtype => set_type_from_small_id pos dtype
                   end in
                 _ ← (if k =? DW.TAG_lexical_block then
                        lexblock__recode_dwarf_types fuel pos
                      else
                        dpos ← tag__priv pos;
                        d ← load_dtag dpos;
                        if k =? DW.TAG_inlined_subroutine then
                          dtype ← dwarf_cu__find_tag_by_id (dt_type d);
                          match dtype with
                          | None =>
                              __tag__print_type_not_found pos "lexblock__recode_dwarf_types"
                          | Some dtype =>
                              o ← load_dtag dtype;
                              ftype__recode_dwarf_types (dt_tag o)
                          end
                        else if k =? DW.TAG_formal_parameter then
                          if negb (dt_type d =? 0) then by_type
                          else
                            dtype ← dwarf_cu__find_tag_by_id (dt_abstract_origin d);
                            match dtype with
                            | None =>
                                __tag__print_abstract_origin_not_found pos
                                  "lexblock__recode_dwarf_types"
                            | Some dtype => copy_name_and_type DW.TAG_formal_parameter pos dtype
                            end
                        else if k =? DW.TAG_variable then
                          if negb (dt_type d =? 0) then by_type
                          else if dt_abstract_origin d =? 0 then mret tt
                          else
                            dtype ← dwarf_cu__find_tag_by_id (dt_abstract_origin d);
                            match dtype with
                            | None =>
                                __tag__print_abstract_origin_not_found pos
                                  "lexblock__recode_dwarf_types"
                            | Some dtype => copy_name_and_type DW.TAG_variable pos dtype
                            end
                        else if k =? DW.TAG_label then
                          if dt_abstract_origin d =? 0 then mret tt
                          else
                            dtype ← dwarf_cu__find_tag_by_id (dt_abstract_origin d);
                            match dtype with
                            | Some dtype => copy_name DW.TAG_label pos dtype
                            | None =>
                                __tag__print_abstract_origin_not_found pos
                                  "lexblock__recode_dwarf_types"
                            end
                        else by_type);
                 loop tags'
             end) (lb_tags lb)
      end
  end.

Fixpoint namespace__recode_dwarf_types (fuel : nat) (self : nat) : M Z :=
  match fuel with
  | O => no_fuel
  | S fuel =>
      t ← load_tag self;
      match as_namespace (tg_body t) with
      | Some (mkNamespace _ _ _ _ (LH_entries tags)) =>
          (fix loop (tags : list nat) : M Z :=
             match tags with
             | [] => mret 0
             | pos :: tags' =>
                 p ← load_tag pos;
                 let k := tg_tag p in
                 (* [find_type:] with [check_type:] and [next:] behind it *)
                 let find_type (ref : Z) : M Z :=
                   dtype ← dwarf_cu__find_type_by_id ref;
                   match dtype with
                   | None =>
                       _ ← __tag__print_type_not_found pos "namespace__recode_dwarf_types";
                       loop tags'
                   | Some dtype => _ ← set_type_from_small_id pos dtype; loop tags'
                   end in
                 let after_switch : M Z :=
                   dpos ← tag__priv pos;
                   d ← load_dtag dpos;
                   if dt_type d =? 0 then loop tags' else find_type (dt_type d) in
                 if tag__has_namespace k then
                   r ← namespace__recode_dwarf_types fuel pos;
                   if negb (r =? 0) then mret (-1) else loop tags'
                 else if k =? DW.TAG_member then
                   match bitfield_size_of p with
                   | None => undef
                   | Some bitfield_size =>
                       if negb (bitfield_size =? 0) then
                         r ← class_member__dwarf_recode_bitfield fuel pos;
                         if negb (r =? 0) then mret (-1) else loop tags'
                       else after_switch
                   end
                 else if (k =? DW.TAG_subroutine_type) || (k =? DW.TAG_subprogram) then
                   _ ← ftype__recode_dwarf_types pos;
                   after_switch
                 else if k =? DW.TAG_imported_module then
                   dpos ← tag__priv pos;
                   d ← load_dtag dpos;
                   dtype ← dwarf_cu__find_tag_by_id (dt_type d);
                   match dtype with
                   | None =>
                       _ ← __tag__print_type_not_found pos "namespace__recode_dwarf_types";
                       loop tags'
                   | Some dtype => _ ← set_type_from_small_id pos dtype; loop tags'
                   end
                 else if k =? DW.TAG_imported_declaration then
                   dpos ← tag__priv pos;
                   d ← load_dtag dpos;
                   dtype ← dwarf_cu__find_tag_by_id (dt_type d);
                   match dtype with
                   | Some dtype => _ ← set_type_from_small_id pos dtype; loop tags'
                   | None => find_type (dt_type d)
                   end
                 else after_switch
             end) tags
      | _ => undef
      end
  end.

Definition fn_name_of (t : tag) : option Z :=
  match tg_body t with
  | B_function _ _ fn => Some (fn_name fn)
  | _ => None
  end.

Definition tag__recode_dwarf_type (fuel : nat) (self : nat) : M Z :=
  t ← load_tag self;
  match tg_priv t with
  | None => mret 0
  | Some dtag =>
      let k := tg_tag t in
      _ ← (if tag__is_type k then type__recode_dwarf_specification self else mret tt);
      if tag__has_namespace k then namespace__recode_dwarf_types fuel self
      else
        (* [check_type:] with [out:] behind it *)
        let check_type (dtype : option nat) : M Z :=
          match dtype with
          | None => _ ← __tag__print_type_not_found self "tag__recode_dwarf_type"; mret 0
          | Some dtype => _ ← set_type_from_small_id self dtype; mret 0
          end in
        let find_type : M Z :=
          d ← load_dtag dtag;
          dtype ← dwarf_cu__find_type_by_id (dt_type d);
          check_type dtype in
        let after_switch : M Z :=
          d ← load_dtag dtag;
          if dt_type d =? 0 then _ ← update_tag self (set_tg_type 0); mret 0
          else find_type in
        let ftype_arm : M Z := _ ← ftype__recode_dwarf_types self; after_switch in
        if k =? DW.TAG_subprogram then
          match fn_name_of t with
          | None => undef
          | Some name =>
              if name =? 0 then
                specification ← dwarf_tag__spec dtag;
                d ← load_dtag dtag;
                if (dt_abstract_origin d =? 0) && (specification =? 0) then mret 0
                else
                  dtype ← dwarf_cu__find_tag_by_id (dt_abstract_origin d);
                  dtype ← match dtype with
                          | None => dwarf_cu__find_tag_by_id specification
                          | Some _ => mret dtype
                          end;
                  _ ← match dtype with
                      | Some dtype => copy_name DW.TAG_subprogram self dtype
                      | None =>
                          fprintf_stderr
                            (Diag_no_function_name (dt_id d) (dt_abstract_origin d)
                                                   specification)
                      end;
                  _ ← lexblock__recode_dwarf_types fuel self;
                  ftype_arm
              else
                _ ← lexblock__recode_dwarf_types fuel self;
                ftype_arm
          end
        else if k =? DW.TAG_subroutine_type then ftype_arm
        else if k =? DW.TAG_lexical_block then
          _ ← lexblock__recode_dwarf_types fuel self; mret 0
        else if k =? DW.TAG_ptr_to_member_type then
          d ← load_dtag dtag;
          dtype ← dwarf_cu__find_type_by_id (dt_abstract_origin d);
          _ ← match dtype with
              | Some dtype =>
                  o ← load_dtag dtype;
                  update_body self (fun b =>
                    match b with
                    | B_ptr_to_member_type _ => Some (B_ptr_to_member_type (dt_small_id o))
                    | _ => None
                    end)
              | None =>
                  fprintf_stderr (Diag_no_containing_type (dt_id d) (dt_abstract_origin d))
              end;
          after_switch
        else if k =? DW.TAG_namespace then namespace__recode_dwarf_types fuel self
        else if (k =? DW.TAG_inlined_subroutine) || (k =? DW.TAG_imported_module) then
          d ← load_dtag dtag;
          dtype ← dwarf_cu__find_tag_by_id (dt_type d);
          check_type dtype
        else if k =? DW.TAG_imported_declaration then
          d ← load_dtag dtag;
          dtype ← dwarf_cu__find_tag_by_id (dt_type d);
          match dtype with
          | Some _ => check_type dtype
          | None => find_type
          end
        else after_switch
  end.

Inductive ptr_table := Types_table | Tags_table | Functions_table.

Definition entries (pt : ptr_table) (s : cu) : list (option nat) :=
  match pt with
  | Types_table => types_table s
  | Tags_table => tags_table s
  | Functions_table => functions_table s
  end.

(** The [for (; i < pt->nr_entries; ++i)] loop: the bound is read again
    at every iteration, so entries added on the way are visited too. *)
Fixpoint cu__recode_dwarf_types_table (fuel : nat) (pt : ptr_table) (i : nat) : M Z :=
  match fuel with
  | O => no_fuel
  | S fuel =>
      s ← get_cu;
      match entries pt s !! i with
      | None => mret 0
      | Some None => cu__recode_dwarf_types_table fuel pt (S i)
      | Some (Some tag) =>
          r ← tag__recode_dwarf_type fuel tag;
          if negb (r =? 0) then mret (-1)
          else cu__recode_dwarf_types_table fuel pt (S i)
      end
  end.

Definition cu__recode_dwarf_types (fuel : nat) : M Z :=
  r ← cu__recode_dwarf_types_table fuel Types_table 1;
  if negb (r =? 0) then mret (-1)
  else
    r ← cu__recode_dwarf_types_table fuel Tags_table 0;
    if negb (r =? 0) then mret (-1)
    else
      r ← cu__recode_dwarf_types_table fuel Functions_table 0;
      if negb (r =? 0) then mret (-1) else mret 0.

(** [die__process (die, cu)]; [sibs] are the DIEs that follow the
    compile unit DIE. *)
Definition die__process (fuel : nat) (die : Dwarf_Die) (sibs : list Dwarf_Die) : M Z :=
  let tag := u16 (dwarf_tag die) in
  if negb (tag =? DW.TAG_compile_unit) then
    _ ← fprintf_stderr (Diag_compile_unit_expected tag);
    mret (- EINVAL)
  else
    language ← printing (attr_numeric die DW.AT_language);
    _ ← modify_cu (set_language language);
    err ← match dwarf_child die with
          | Some (child, children) => die__process_unit fuel (child :: children)
          | None => mret 0
          end;
    if negb (err =? 0) then mret err
    else
      _ ← match sibs with
          | _ :: _ => fprintf_stderr (Diag_unexpected_after_cu tag)
          | [] => mret tt
          end;
      cu__recode_dwarf_types fuel.

(** ** Post-load size cache *)

Inductive load_steal_kind := LSK__KEEPIT | LSK__STOLEN | LSK__STOP_LOADING.

(** [struct conf_load]; [conf_steal] is the [steal] callback, NULL or a
    function of the loaded CU. *)
Record conf_load := mkConf {
  conf_extra_dbg_info : bool;
  conf_get_addr_info : bool;
  conf_fixup_silly_bitfields : bool;
  conf_steal : option (cu -> load_steal_kind)
}.

(** The [check_volatile:] loop: follow typedefs through const and
    volatile wrappers. *)
Fixpoint follow_qualifiers (fuel : nat) (type : option nat) : M nat :=
  match fuel with
  | O => no_fuel
  | S fuel =>
      match type with
      | None => undef
      | Some p =>
          t ← load_tag p;
          if tag__is_volatile (tg_tag t) || tag__is_const (tg_tag t) then
            s ← get_cu;
            follow_qualifiers fuel (tag__follow_typedef s p)
          else mret p
      end
  end.

Definition class_member__cache_byte_size (fuel : nat) (conf : option conf_load)
    (self : nat) : M Z :=
  t ← load_tag self;
  if (tg_tag t =? DW.TAG_member) || (tg_tag t =? DW.TAG_inheritance) then
    match tg_body t with
    | B_class_member member =>
        if negb (cm_bitfield_size member =? 0) then
          s ← get_cu;
          type ← follow_qualifiers fuel (tag__follow_typedef s self);
          ty ← load_tag type;
          sizes ←
            (if tag__is_enumeration (tg_tag ty) then
               match as_type (tg_body ty) with
               | Some e => mret (u16 (ty_size e), 4 * 8)
               | None => undef
               end
             else
               match tg_body ty with
               | B_base_type bt => mret (u16 (bt_bit_size bt), base_type__name_to_size s bt)
               | _ => undef
               end);
          let '(type_bit_size, integral_bit_size) := sizes in
          let member := set_cm_sizes (integral_bit_size / 8) (cm_bit_size member) member in
          if integral_bit_size =? 0 then
            _ ← update_tag self (set_tg_body (B_class_member member)); mret 0
          else if type_bit_size =? integral_bit_size then
            let member := set_cm_sizes (cm_byte_size member) integral_bit_size member in
            let member :=
              match conf with
              | Some c =>
                  if conf_fixup_silly_bitfields c then set_cm_bitfield 0 0 member
                  else member
              | None => member
              end in
            _ ← update_tag self (set_tg_body (B_class_member member)); mret 0
          else
            _ ← update_tag self (set_tg_body (B_class_member
                  (set_cm_sizes (cm_byte_size member) type_bit_size member)));
            mret 0
        else
          s ← get_cu;
          let byte_size := tag__size s self in
          _ ← update_tag self (set_tg_body (B_class_member
                (set_cm_sizes byte_size (byte_size * 8) member)));
          mret 0
    | _ => undef
    end
  else mret 0.

(** [cu__for_all_tags (cu, class_member__cache_byte_size, conf)] *)
Fixpoint cache_byte_sizes (fuel : nat) (conf : option conf_load) (tags : list nat)
  : M unit :=
  match tags with
  | [] => mret tt
  | t :: tags' =>
      _ ← class_member__cache_byte_size fuel conf t;
      cache_byte_sizes fuel conf tags'
  end.

(** ** Driver loop *)

Definition DWARF_CB_OK : Z := 0.
Definition DWARF_CB_ABORT : Z := 1.

(** [struct cus] as the driver sees it: the CU list of the file, and the
    state of the process between two CUs. [cus_let_go] records every CU
    the driver stopped referring to without adding it to the list, as
    it was at that point. *)
Record cus := mkCus {
  cus_list : list cu;
  cus_let_go : list cu;
  cus_stderr : list diag;
  cus_tags_warned : list Z;
  cus_mem : nat
}.

(** What one turn of the CU loop does next. *)
Inductive loop_step :=
| Next_cu (self : cus)
| Return (ret : Z) (self : cus)
| Step_undef
| Step_abort
| Step_no_fuel.

Inductive load_result :=
| Loaded (ret : Z) (self : cus)
| Load_undef
| Load_abort
| Load_no_fuel.

(** Modelled from the spec: [cu__new] is defined in dwarves.c. The
    driver "constructs a fresh CU object": three empty tables, "index 0
    of the types table reserved for void", empty arenas. *)
Definition cu__new (self : cus) : option cu :=
  match cus_mem self with
  | O => None
  | S m => Some (mkCu [] [None] [] [] 0 false false [] [] []
                      (cus_stderr self) (cus_tags_warned self) m)
  end.

(** Modelled from the spec: [cus__add] is defined in dwarves.c. On
    KEEP the "driver adds the CU to the file's CU list". *)
Definition cus__add (self : cus) (c : cu) : cus :=
  mkCus (cus_list self ++ [c]) (cus_let_go self) (stderr c) (tags_warned c) (mem c).

Definition let_go (self : cus) (c : cu) : cus :=
  mkCus (cus_list self) (cus_let_go self ++ [c]) (stderr c) (tags_warned c) (mem c).

(** [obstack_free (&dcu.obstack, NULL)]: the raw-load arena is released
    with every record in it. *)
Definition dcu_obstack_release (c : cu) : cu := set_dcu_obstack [] c.

(** One CU of the [while (dwarf_nextcu ...)] loop of [cus__load_module],
    from [cu__new] to the end of the loop body. *)
Definition cus__load_module_cu (fuel : nat) (conf : option conf_load)
    (cu_die : Dwarf_Die) (cu_sibs : list Dwarf_Die) (self : cus) : loop_step :=
  match cu__new self with
  | None => Return DWARF_CB_ABORT self
  | Some c =>
      let c := set_load_flags
                 (match conf with Some f => conf_extra_dbg_info f | None => false end)
                 (match conf with Some f => conf_get_addr_info f | None => false end) c in
      match die__process fuel cu_die cu_sibs c with
      | Undef => Step_undef
      | Abort => Step_abort
      | NoFuel => Step_no_fuel
      | Ret err c =>
          if negb (err =? 0) then Return DWARF_CB_ABORT (let_go self c)
          else
            match cache_byte_sizes fuel conf (cu__all_tags c) c with
            | Undef => Step_undef
            | Abort => Step_abort
            | NoFuel => Step_no_fuel
            | Ret _ c =>
                let keep :=
                  Next_cu (cus__add self
                    (if negb (extra_dbg_info c) then dcu_obstack_release c else c)) in
                match conf with
                | Some f =>
                    match conf_steal f with
                    | Some steal =>
                        match steal c with
                        | LSK__STOP_LOADING => Return DWARF_CB_ABORT (let_go self c)
                        | LSK__STOLEN => Next_cu (let_go self c)
                        | LSK__KEEPIT => keep
                        end
                    | None => keep
                    end
                | None => keep
                end
            end
      end
  end.

Fixpoint cus__load_module (fuel : nat) (conf : option conf_load)
    (units : list (Dwarf_Die * list Dwarf_Die)) (self : cus) : load_result :=
  match units with
  | [] => Loaded DWARF_CB_OK self
  | (cu_die, cu_sibs) :: units' =>
      match cus__load_module_cu fuel conf cu_die cu_sibs self with
      | Step_undef => Load_undef
      | Step_abort => Load_abort
      | Step_no_fuel => Load_no_fuel
      | Return ret self => Loaded ret self
      | Next_cu self => cus__load_module fuel conf units' self
      end
  end.
(** ** Accessors of the raw metadata *)

(** [self->priv] is loaded in any case and dereferenced only when the
    CU keeps the extra debugging information. *)
Definition dwarf_tag__decl_line (self : nat) : M Z :=
  t ← load_tag self;
  s ← get_cu;
  if extra_dbg_info s then
    match tg_priv t with
    | Some dtag => d ← load_dtag dtag; mret (dt_decl_line d)
    | None => undef
    end
  else mret 0.

Definition dwarf_tag__orig_id (self : nat) : M Z :=
  t ← load_tag self;
  s ← get_cu;
  if extra_dbg_info s then
    match tg_priv t with
    | Some dtag => d ← load_dtag dtag; mret (dt_id d)
    | None => undef
    end
  else mret 0.

Definition dwarf_tag__orig_type (self : nat) : M Z :=
  t ← load_tag self;
  s ← get_cu;
  if extra_dbg_info s then
    match tg_priv t with
    | Some dtag => d ← load_dtag dtag; mret (dt_type d)
    | None => undef
    end
  else mret 0.

(** ** Loading a file *)

(** A file as the ELF host presents it: whether [open], [dup] and
    [dwfl_report_offline] succeed on it, and its modules in the order
    [dwfl_getmodules] visits them, each with what
    [dwfl_module_getdwarf] gives: the compile units of its DWARF
    sections, or NULL. *)
Record elf_file := mkFile {
  file_opens : bool;
  file_dups : bool;
  file_reported : bool;
  file_modules : list (option (list (Dwarf_Die * list Dwarf_Die)))
}.

(** [cus__process_dwflmod] on a module whose DWARF handle is [dw]: the
    callback's return value with the CU list, and
    [parms->nr_dwarf_sections_found] afterwards. *)
Definition cus__process_dwflmod (fuel : nat) (conf : option conf_load)
    (dw : option (list (Dwarf_Die * list Dwarf_Die))) (self : cus)
    (nr_dwarf_sections_found : Z) : load_result * Z :=
  match dw with
  | Some units =>
      (cus__load_module fuel conf units self, u32 (nr_dwarf_sections_found + 1))
  | None => (Loaded DWARF_CB_OK self, nr_dwarf_sections_found)
  end.

(** [dwfl_getmodules (dwfl, cus__process_dwflmod, &parms, 0)]: the
    callback is called on each module in turn, until it returns
    something other than DWARF_CB_OK. *)
Fixpoint dwfl_getmodules (fuel : nat) (conf : option conf_load)
    (modules : list (option (list (Dwarf_Die * list Dwarf_Die)))) (self : cus)
    (nr_dwarf_sections_found : Z) : load_result * Z :=
  match modules with
  | [] => (Loaded DWARF_CB_OK self, nr_dwarf_sections_found)
  | dw :: modules' =>
      match cus__process_dwflmod fuel conf dw self nr_dwarf_sections_found with
      | (Loaded err self', found) =>
          if err =? DWARF_CB_OK then dwfl_getmodules fuel conf modules' self' found
          else (Loaded err self', found)
      | failure => failure
      end
  end.

(** [cus__process_file]; what [dwfl_getmodules] returns is not read,
    the result is told by the count of DWARF sections alone. *)
Definition cus__process_file (fuel : nat) (conf : option conf_load) (file : elf_file)
    (self : cus) : load_result :=
  if negb (file_dups file) then Loaded (-1) self
  else if negb (file_reported file) then Loaded (-1) self
  else
    match dwfl_getmodules fuel conf (file_modules file) self 0 with
    | (Loaded _ self', found) => Loaded (if negb (found =? 0) then 0 else -1) self'
    | (failure, _) => failure
    end.

Definition dwarf__load_file (fuel : nat) (conf : option conf_load) (file : elf_file)
    (self : cus) : load_result :=
  if negb (file_opens file) then Loaded (-1) self
  else cus__process_file fuel conf file self.

End Loader.

(** * Vocabulary of the properties

    The definitions below do not embed code: they name what the
    properties talk about. *)

(** ** ULEB128, as a number *)

(** The number spelled by a ULEB128 byte sequence: seven bits per byte,
    least significant group first, [i] being the position of the first
    byte. *)
Fixpoint uleb128_value (i : Z) (bytes : list Z) : Z :=
  match bytes with
  | [] => 0
  | b :: bytes' => Z.land (u8 b) 0x7f * 2 ^ (7 * i) + uleb128_value (i + 1) bytes'
  end.

(** The index of the byte that ends the number (high bit clear), looked
    for among the first [n] bytes. *)
Fixpoint uleb128_end (n : nat) (bytes : list Z) : option nat :=
  match n, bytes with
  | S n', b :: bytes' =>
      if Z.land (u8 b) 0x80 =? 0 then Some O
      else S <$> uleb128_end n' bytes'
  | _, _ => None
  end.

(** ** Location classes *)

(** The first operation of the location expression that the DIE's
    DW_AT_location holds, if the DIE has the attribute, the attribute
    is an expression and the expression is not empty. *)
Definition first_opcode (die : Dwarf_Die) : option Dwarf_Op :=
  attr ← dwarf_attr die DW.AT_location; expr ← dwarf_getlocation attr; head expr.

Definition is_register_opcode (op : Z) : bool :=
  ((DW.OP_reg0 <=? op) && (op <=? DW.OP_reg31))
  || ((DW.OP_breg0 <=? op) && (op <=? DW.OP_breg31)).

(** The class of a first opcode: DW_OP_addr is GLOBAL, DW_OP_reg0..31
    and DW_OP_breg0..31 are REGISTER, DW_OP_fbreg is LOCAL, everything
    else (no first opcode included) is UNKNOWN. *)
Definition opcode_class (op : option Dwarf_Op) : vlocation :=
  match op with
  | Some op =>
      if atom op =? DW.OP_addr then LOCATION_GLOBAL
      else if is_register_opcode (atom op) then LOCATION_REGISTER
      else if atom op =? DW.OP_fbreg then LOCATION_LOCAL
      else LOCATION_UNKNOWN
  | None => LOCATION_UNKNOWN
  end.

(** The classification in the words of the specification: OPTIMIZED
    when the attribute is missing, else the class of the first opcode. *)
Definition location_if_attribute_missing (die : Dwarf_Die) : vlocation :=
  match dwarf_attr die DW.AT_location with
  | None => LOCATION_OPTIMIZED
  | Some _ => opcode_class (first_opcode die)
  end.

(** ** Kinds of the top-level dispatch (section 6.2) *)

Definition top_level_kind (k : Z) : bool :=
  (k =? DW.TAG_array_type) || (k =? DW.TAG_base_type) || (k =? DW.TAG_const_type)
  || (k =? DW.TAG_imported_declaration) || (k =? DW.TAG_imported_module)
  || (k =? DW.TAG_pointer_type) || (k =? DW.TAG_reference_type)
  || (k =? DW.TAG_volatile_type) || (k =? DW.TAG_ptr_to_member_type)
  || (k =? DW.TAG_enumeration_type) || (k =? DW.TAG_namespace)
  || (k =? DW.TAG_class_type) || (k =? DW.TAG_interface_type)
  || (k =? DW.TAG_structure_type) || (k =? DW.TAG_subprogram)
  || (k =? DW.TAG_subroutine_type) || (k =? DW.TAG_typedef)
  || (k =? DW.TAG_union_type) || (k =? DW.TAG_variable).

(** ** Array dimensions *)

Definition is_subrange (d : Dwarf_Die) : Prop := dwarf_tag d = DW.TAG_subrange_type.

#[global] Instance is_subrange_dec d : Decision (is_subrange d) := Z.eq_dec _ _.

Definition dwarf_children (die : Dwarf_Die) : list Dwarf_Die :=
  match dwarf_child die with
  | Some (child, sibs) => child :: sibs
  | None => []
  end.

(** The entry count of one dimension: the upper bound plus one in 32
    bits, zero without a constant upper bound. *)
Definition dimension_entries (d : Dwarf_Die) : Z :=
  match dwarf_attr d DW.AT_upper_bound with
  | Some attr =>
      match dwarf_formudata attr with
      | Some upper_bound => (upper_bound + 1) mod 2 ^ 32
      | None => 0
      end
  | None => 0
  end.

(** The children that the loop of [die__create_new_array] reads when
    [n] slots of the buffer are free: all of them, or, when there are
    [n] subranges or more, those up to the [n]th subrange. *)
Fixpoint upto_subrange (n : nat) (dies : list Dwarf_Die) : list Dwarf_Die :=
  match n, dies with
  | O, _ => []
  | _, [] => []
  | S n', d :: ds =>
      d :: (if decide (is_subrange d) then upto_subrange n' ds else upto_subrange n ds)
  end.

(** What the loop writes for a child that is no subrange. *)
Definition not_handled_in_array (d : Dwarf_Die) : diag :=
  Diag_tag_not_handled "die__create_new_array" (u32 (dwarf_tag d)) (dwarf_dieoffset d).

(** ** States of the recoder *)

(** The state after the recoder has allocated [recoded] and added it to
    the types table, [m] allocations being left. *)
Definition with_new_type (recoded : tag) (m : nat) (s : cu) : cu :=
  set_mem m (set_types_table (types_table s ++ [Some (length (obstack s))])
               (set_obstack (obstack s ++ [recoded]) s)).

(** [self->tag.type = v] on the tag at [self]. *)
Definition with_type_of (self : nat) (v : Z) (s : cu) : cu :=
  set_obstack (alter (set_tg_type v) self (obstack s)) s.

Definition recoded_base_type (name bit_size : Z) : tag :=
  mkTag 0 DW.TAG_base_type true 0 None
        (B_base_type (mkBaseType name bit_size false false false false)).

Definition recoded_enumeration (name bit_size : Z) (alias : nat) (nr_members : Z) : tag :=
  mkTag 0 DW.TAG_enumeration_type true 0 None
        (B_type (mkNamespace name 0 0 true (LH_next_is_head_of alias))
                (mkType bit_size 0 false false false nr_members)).

(** What the base type lookup reads of an object: its name and width
    when it is a base type. *)
Definition base_type_view (o : option tag) : option (Z * Z) :=
  match o with
  | Some (mkTag _ k _ _ _ (B_base_type bt)) =>
      if k =? DW.TAG_base_type then Some (bt_name bt, bt_bit_size bt) else None
  | _ => None
  end.

(** Every entry of the types table points into the domain arena. *)
Definition types_table_wf (s : cu) : Prop :=
  Forall (fun e => match e with
                   | Some p => (p < length (obstack s))%nat
                   | None => True
                   end) (types_table s).

(** The tables and the domain arena of two states are the same. *)
Definition same_tables (s s' : cu) : Prop :=
  obstack s' = obstack s /\ types_table s' = types_table s
  /\ tags_table s' = tags_table s /\ functions_table s' = functions_table s.

(** ** CUs of plain references and simple aggregates *)

(** The kinds of the children that [namespace__recode_dwarf_types]
    resolves itself: data members and enumerators. *)
Definition is_child (k : Z) : bool := (k =? DW.TAG_member) || (k =? DW.TAG_enumerator).

(** The kinds whose reference [tag__recode_dwarf_type] resolves by the
    lookup of [DW_AT_type] in the types hash. *)
Definition lookup_kind (k : Z) : bool :=
  negb (is_child k || tag__has_namespace k
        || (k =? DW.TAG_subprogram) || (k =? DW.TAG_subroutine_type)
        || (k =? DW.TAG_lexical_block) || (k =? DW.TAG_ptr_to_member_type)
        || (k =? DW.TAG_inlined_subroutine) || (k =? DW.TAG_imported_module)
        || (k =? DW.TAG_imported_declaration)).

(** The children of a tag with a namespace that owns its list. *)
Definition children_of (t : tag) : option (list nat) :=
  match as_namespace (tg_body t) with
  | Some ns =>
      match ns_tags ns with
      | LH_entries l => Some l
      | _ => None
      end
  | None => None
  end.

(** The width for which a member is recoded, when it is a bit-field. *)
Definition bitfield_width (t : tag) : option Z :=
  if tg_tag t =? DW.TAG_member then
    match bitfield_size_of t with
    | Some b => if b =? 0 then None else Some (u16 b)
    | None => None
    end
  else None.

(** A named type needs no name from a specification: it has one, or it
    has no specification. *)
Definition named_or_unspecified (t : tag) (raw : struct_dwarf_tag) : Prop :=
  tag__is_type (tg_tag t) = true ->
  exists ns sp,
    as_namespace (tg_body t) = Some ns /\ dt_spec raw = Some sp /\
    (ns_name ns <> 0 \/ sp = 0).

Section Vocabulary.
Context {host : Collaborators}.

(** A member of bit width [w] whose [DW_AT_type] resolves, through the
    types hash, to the base type [bt] stored at [self]. *)
Definition bitfield_over_base (s : cu) (member : nat) (w : Z) (self : nat)
    (bt : base_type_f) : Prop :=
  exists tm dm raw dtype dt t bitfield_size,
    obstack s !! member = Some tm /\ tg_priv tm = Some dm /\
    bitfield_size_of tm = Some bitfield_size /\ u16 bitfield_size = w /\
    dcu_obstack s !! dm = Some raw /\
    dwarf_cu__find_type_by_id (dt_type raw) s = Ret (Some dtype) s /\
    dcu_obstack s !! dtype = Some dt /\ dt_tag dt = self /\
    obstack s !! self = Some t /\ tg_tag t = DW.TAG_base_type /\
    tg_body t = B_base_type bt.
(** What the plain arm of [tag__recode_dwarf_type] reads on a state:
    the index to store, when the type is found. *)
Definition plain_target (s : cu) (raw : struct_dwarf_tag) : res (option Z) :=
  if dt_type raw =? 0 then Ret (Some 0) s
  else
    match dwarf_cu__find_type_by_id (dt_type raw) s with
    | Ret (Some dtype) _ =>
        match dcu_obstack s !! dtype with
        | Some d => Ret (Some (dt_small_id d)) s
        | None => Undef
        end
    | Ret None _ => Ret None s
    | Undef => Undef
    | Abort => Abort
    | NoFuel => NoFuel
    end.

(** The loop of [namespace__recode_dwarf_types] over the children, by
    name. *)
Definition namespace_loop (fuel : nat) : list nat -> M Z :=
  fix loop (tags : list nat) : M Z :=
    match tags with
    | [] => mret 0
    | pos :: tags' =>
        p ← load_tag pos;
        let k := tg_tag p in
        let find_type (ref : Z) : M Z :=
          dtype ← dwarf_cu__find_type_by_id ref;
          match dtype with
          | None =>
              _ ← __tag__print_type_not_found pos "namespace__recode_dwarf_types";
              loop tags'
          | Some dtype => _ ← set_type_from_small_id pos dtype; loop tags'
          end in
        let after_switch : M Z :=
          dpos ← tag__priv pos;
          d ← load_dtag dpos;
          if dt_type d =? 0 then loop tags' else find_type (dt_type d) in
        if tag__has_namespace k then
          r ← namespace__recode_dwarf_types fuel pos;
          if negb (r =? 0) then mret (-1) else loop tags'
        else if k =? DW.TAG_member then
          match bitfield_size_of p with
          | None => undef
          | Some bitfield_size =>
              if negb (bitfield_size =? 0) then
                r ← class_member__dwarf_recode_bitfield fuel pos;
                if negb (r =? 0) then mret (-1) else loop tags'
              else after_switch
          end
        else if (k =? DW.TAG_subroutine_type) || (k =? DW.TAG_subprogram) then
          _ ← ftype__recode_dwarf_types pos;
          after_switch
        else if k =? DW.TAG_imported_module then
          dpos ← tag__priv pos;
          d ← load_dtag dpos;
          dtype ← dwarf_cu__find_tag_by_id (dt_type d);
          match dtype with
          | None =>
              _ ← __tag__print_type_not_found pos "namespace__recode_dwarf_types";
              loop tags'
          | Some dtype => _ ← set_type_from_small_id pos dtype; loop tags'
          end
        else if k =? DW.TAG_imported_declaration then
          dpos ← tag__priv pos;
          d ← load_dtag dpos;
          dtype ← dwarf_cu__find_tag_by_id (dt_type d);
          match dtype with
          | Some dtype => _ ← set_type_from_small_id pos dtype; loop tags'
          | None => find_type (dt_type d)
          end
        else after_switch
    end.

(** A child that the loop resolves by a lookup or, a bit-field, recodes
    over a base type. *)
Definition child_ok (s : cu) (c : nat) : Prop :=
  exists t dtag raw,
    obstack s !! c = Some t /\ is_child (tg_tag t) = true /\
    tg_priv t = Some dtag /\ dcu_obstack s !! dtag = Some raw /\
    (tg_tag t = DW.TAG_member ->
     exists b, bitfield_size_of t = Some b /\
               (b <> 0 -> exists self bt, bitfield_over_base s c (u16 b) self bt)).

(** An entry of a table: an object the recoder added (it has no raw
    record), a plain reference, or an aggregate of such children. *)
Definition entry_ok (s : cu) (e : nat) : Prop :=
  exists t,
    obstack s !! e = Some t /\ is_child (tg_tag t) = false /\
    forall dtag, tg_priv t = Some dtag ->
      exists raw,
        dcu_obstack s !! dtag = Some raw /\ named_or_unspecified t raw /\
        if tag__has_namespace (tg_tag t)
        then exists children, children_of t = Some children /\ Forall (child_ok s) children
        else lookup_kind (tg_tag t) = true.

(** The CUs of plain references and of aggregates of members. *)
Definition simple_cu (s : cu) : Prop :=
  types_table_wf s /\
  forall pt i e, entries pt s !! i = Some (Some e) -> entry_ok s e.

(** The lookup runs, and the type stored is the one it gives. An entry
    without [DW_AT_type] has type 0; a child without it is left alone. *)
Definition lookup_settled (entry : bool) (s : cu) (t : tag) (raw : struct_dwarf_tag) : Prop :=
  match plain_target s raw with
  | Ret (Some v) _ => entry = true \/ dt_type raw <> 0 -> tg_type t = v
  | Ret None _ => True
  | _ => False
  end.

Definition child_settled (s : cu) (c : nat) : Prop :=
  exists t dtag raw,
    obstack s !! c = Some t /\ tg_priv t = Some dtag /\ dcu_obstack s !! dtag = Some raw /\
    match bitfield_width t with
    | Some w =>
        exists self bt found,
          bitfield_over_base s c w self bt /\
          cu__find_base_type_by_sname_and_size s (bt_name bt) w = Some found /\
          tg_type t = u16 (Z.of_nat (snd found))
    | None => lookup_settled false s t raw
    end.

Definition entry_settled (s : cu) (e : nat) : Prop :=
  exists t,
    obstack s !! e = Some t /\
    forall dtag, tg_priv t = Some dtag ->
      exists raw,
        dcu_obstack s !! dtag = Some raw /\
        if tag__has_namespace (tg_tag t)
        then exists children, children_of t = Some children /\ Forall (child_settled s) children
        else lookup_settled true s t raw.

(** What the steps of the resolver keep of a state: the raw arena and
    its hash, every object but for its type, and the base types found. *)
Definition evolves (s s' : cu) : Prop :=
  dcu_obstack s' = dcu_obstack s /\ hash_types s' = hash_types s /\
  (forall p x, obstack s !! p = Some x -> exists v, obstack s' !! p = Some (set_tg_type v x)) /\
  (forall n w found,
     cu__find_base_type_by_sname_and_size s n w = Some found ->
     cu__find_base_type_by_sname_and_size s' n w = Some found).

(** A step of the resolver on a simple CU: it keeps the CU simple, keeps
    what is resolved resolved, and adds to the types table only. *)
Definition resolves (s s' : cu) : Prop :=
  evolves s s' /\
  (simple_cu s -> simple_cu s') /\
  (forall c, child_ok s c -> child_settled s c -> child_settled s' c) /\
  (forall e, entry_ok s e -> entry_settled s e -> entry_settled s' e) /\
  tags_table s' = tags_table s /\ functions_table s' = functions_table s /\
  exists new,
    types_table s' = types_table s ++ new /\
    Forall (fun x => exists e, x = Some e /\ entry_ok s' e /\ entry_settled s' e) new.

(** The first index that [cu__recode_dwarf_types] visits. *)
Definition first_entry (pt : ptr_table) : nat :=
  match pt with
  | Types_table => 1
  | _ => 0
  end.

(** Every entry that the resolver visits is resolved. *)
Definition all_settled (s : cu) : Prop :=
  forall pt i e,
    (first_entry pt <= i)%nat -> entries pt s !! i = Some (Some e) -> entry_settled s e.

End Vocabulary.

(** What the stealer says of a loaded CU; without a stealer the CU is
    kept. *)
Definition stealer_verdict (conf : option conf_load) (c : cu) : load_steal_kind :=
  match conf with
  | Some f =>
      match conf_steal f with
      | Some steal => steal c
      | None => LSK__KEEPIT
      end
  | None => LSK__KEEPIT
  end.

(** The load flags of a configuration, [extra_dbg_info] first. *)
Definition conf_flags (conf : option conf_load) : bool * bool :=
  match conf with
  | Some f => (conf_extra_dbg_info f, conf_get_addr_info f)
  | None => (false, false)
  end.

(** ** Objects as the factory leaves them *)

(** The state in which [p] has become [t] and its raw record [d]. *)
Definition with_tag (p : nat) (t : tag) (dtag : nat) (d : struct_dwarf_tag) (s : cu) : cu :=
  set_dcu_obstack (<[dtag := d]> (dcu_obstack s)) (set_obstack (<[p := t]> (obstack s)) s).

(** The state after an object [t] and its raw record [d] have been
    allocated, [m] allocations being left. *)
Definition with_new_tag (t : tag) (d : struct_dwarf_tag) (m : nat) (s : cu) : cu :=
  set_mem m (set_dcu_obstack (dcu_obstack s ++ [d]) (set_obstack (obstack s ++ [t]) s)).

Definition is_enumerator (d : Dwarf_Die) : Prop := dwarf_tag d = DW.TAG_enumerator.

#[global] Instance is_enumerator_dec d : Decision (is_enumerator d) := Z.eq_dec _ _.

(** The dense table that takes a tag of kind [k]. *)
Definition table_of (k : Z) : ptr_table :=
  if tag__is_tag_type k then Types_table
  else if tag__is_function k then Functions_table
  else Tags_table.

Section Factory_vocabulary.
Context {host : Collaborators}.

(** The raw record [d] after [tag__init] has read [die] into it. *)
Definition init_raw (extra : bool) (die : Dwarf_Die) (d : struct_dwarf_tag)
  : struct_dwarf_tag :=
  mkDwarfTag
    (if (dwarf_tag die =? DW.TAG_imported_module)
        || (dwarf_tag die =? DW.TAG_imported_declaration)
     then attr_type die DW.AT_import else attr_type die DW.AT_type)
    (dwarf_dieoffset die)
    (attr_type die DW.AT_abstract_origin)
    (dt_tag d)
    (if extra then strings__add (die_decl_file die) else dt_decl_file d)
    (if extra then u16 (decl_line_read die) else dt_decl_line d)
    (dt_small_id d) (dt_spec d).

(** The state after [cu__hash] has entered the raw record [dtag], of
    DIE offset [id], in the types hash or in the tags hash. *)
Definition hashed (types : bool) (dtag : nat) (id : Z) (s : cu) : cu :=
  if types then set_hash_types (hashtags__hash (hash_types s) dtag id) s
  else set_hash_tags (hashtags__hash (hash_tags s) dtag id) s.

(** [t] is an enumerator with the name and the value that the DIE [d]
    gives. *)
Definition enumerator_of (d : Dwarf_Die) (t : tag) : Prop :=
  tg_tag t = DW.TAG_enumerator /\
  tg_body t = B_enumerator (strings__add (attr_string d DW.AT_name))
                           (fst (attr_numeric d DW.AT_const_value)).

End Factory_vocabulary.

(** ** What a load never takes back *)

(** From [s] to [s']: the dense tables and the diagnostics have only
    been added to at the end, the kinds warned about are still so, the
    raw arena has not shrunk, the load flags are the same and no
    allocation has been given back. *)
Definition grows (s s' : cu) : Prop :=
  types_table s `prefix_of` types_table s' /\
  tags_table s `prefix_of` tags_table s' /\
  functions_table s `prefix_of` functions_table s' /\
  stderr s `prefix_of` stderr s' /\
  (forall k, k ∈ tags_warned s -> k ∈ tags_warned s') /\
  (length (dcu_obstack s) <= length (dcu_obstack s'))%nat /\
  extra_dbg_info s' = extra_dbg_info s /\
  has_addr_info s' = has_addr_info s /\
  (mem s' <= mem s)%nat.

(** Every result of [m] is reached by growing. *)
Definition keeps {A} (m : M A) : Prop :=
  forall s a s', m s = Ret a s' -> grows s s'.

Section Plain_vocabulary.
Context {host : Collaborators}.

(** ** CUs of plain references *)

(** An entry that the resolver settles by the look-up of its DW_AT_type,
    the look-up having a result on this state. *)
Definition plain_entry (s : cu) (e : nat) : Prop :=
  exists t dtag raw v,
    obstack s !! e = Some t /\ lookup_kind (tg_tag t) = true /\
    tg_priv t = Some dtag /\ dcu_obstack s !! dtag = Some raw /\
    named_or_unspecified t raw /\ plain_target s raw = Ret v s.

Definition plain_cu (s : cu) : Prop :=
  forall pt i e, entries pt s !! i = Some (Some e) -> plain_entry s e.

(** The type of [e] is the one its look-up gives, when it gives one. *)
Definition plain_settled (s : cu) (e : nat) : Prop :=
  exists t dtag raw,
    obstack s !! e = Some t /\ tg_priv t = Some dtag /\ dcu_obstack s !! dtag = Some raw /\
    forall v, plain_target s raw = Ret (Some v) s -> tg_type t = v.

(** [s'] is [s] but for the types of objects and for diagnostics added. *)
Definition retyped (s s' : cu) : Prop :=
  dcu_obstack s' = dcu_obstack s /\ hash_types s' = hash_types s /\
  hash_tags s' = hash_tags s /\ types_table s' = types_table s /\
  tags_table s' = tags_table s /\ functions_table s' = functions_table s /\
  mem s' = mem s /\ stderr s `prefix_of` stderr s' /\
  length (obstack s') = length (obstack s) /\
  forall p x, obstack s !! p = Some x -> exists v, obstack s' !! p = Some (set_tg_type v x).

(** An object of [s] is in [s'] as it was, or with the type that the
    look-up of its DW_AT_type gives. *)
Definition only_resolved (s s' : cu) : Prop :=
  forall p x, obstack s !! p = Some x ->
    obstack s' !! p = Some x \/
    exists dtag raw w,
      tg_priv x = Some dtag /\ dcu_obstack s !! dtag = Some raw /\
      plain_target s raw = Ret (Some w) s /\ obstack s' !! p = Some (set_tg_type w x).

(** A step of the resolver on a plain CU: it retypes, keeps what is
    settled settled, and gives no type but the one looked up. *)
Definition plain_step (s s' : cu) : Prop :=
  retyped s s' /\
  (forall e, plain_entry s e -> plain_settled s e -> plain_settled s' e) /\
  only_resolved s s'.

End Plain_vocabulary.

(** ** Units of plain types *)

(** The kinds of the types that are built without children and resolved
    by one look-up: base types, the pointer-like kinds, the qualifiers
    and typedefs. *)
Definition plain_type_kind (k : Z) : bool :=
  (k =? DW.TAG_base_type) || (k =? DW.TAG_pointer_type) || (k =? DW.TAG_reference_type)
  || (k =? DW.TAG_const_type) || (k =? DW.TAG_volatile_type) || (k =? DW.TAG_typedef).

(** The index of the last DIE of [ds] that has the offset [id], [i]
    being the index of the first DIE of [ds]. *)
Fixpoint find_offset_from (i : nat) (id : Z) (ds : list Dwarf_Die) : option nat :=
  match ds with
  | [] => None
  | d :: ds' =>
      match find_offset_from (S i) id ds' with
      | Some j => Some j
      | None => if dwarf_dieoffset d =? id then Some i else None
      end
  end.

(** What a look-up of the offset [id] finds among the DIEs [ds]:
    nothing for offset 0, else the last DIE with that offset. *)
Definition find_offset (id : Z) (ds : list Dwarf_Die) : option nat :=
  if id =? 0 then None else find_offset_from 0 id ds.

(** The state after the object [t] with the raw record [raw] has been
    built from a top-level DIE of a type, entered in the types table and
    in the types hash, [diags] having been written on the way and [m]
    allocations being left. *)
Definition entered (t : tag) (raw : struct_dwarf_tag) (diags : list diag) (m : nat)
    (hash : hashtable) (s : cu) : cu :=
  mkCu (obstack s ++ [t]) (types_table s ++ [Some (length (obstack s))])
       (tags_table s) (functions_table s) (language s)
       (extra_dbg_info s) (has_addr_info s) (hash_tags s) hash
       (dcu_obstack s ++ [raw]) (stderr s ++ diags) (tags_warned s) m.

Section Unit_vocabulary.
Context {host : Collaborators}.

(** The one of the three builders that the dispatch calls for a plain
    type. *)
Definition plain_builder (die : Dwarf_Die) : M (option nat) :=
  if dwarf_tag die =? DW.TAG_base_type then die__create_new_base_type die
  else if dwarf_tag die =? DW.TAG_typedef then die__create_new_typedef die
  else die__create_new_tag die.

(** A typedef needs no name from a specification. *)
Definition plain_named (die : Dwarf_Die) : Prop :=
  dwarf_tag die = DW.TAG_typedef ->
  strings__add (attr_string die DW.AT_name) <> 0 \/ attr_type die DW.AT_specification = 0.

(** The state of a CU after the top-level DIEs [ds], all of plain
    types, have been built: one object and one raw record per DIE, in
    order, the types table holding them behind the void entry, every
    raw record numbered with its index in the table, and the types hash
    answering for every offset with the last DIE that has it. *)
Definition unit_built (ds : list Dwarf_Die) (s : cu) : Prop :=
  length (obstack s) = length ds /\ length (dcu_obstack s) = length ds /\
  types_table s = None :: (Some <$> seq 0 (length ds)) /\
  tags_table s = [] /\ functions_table s = [] /\
  (forall i d, ds !! i = Some d ->
     exists t raw,
       obstack s !! i = Some t /\ tg_tag t = dwarf_tag d /\ tg_priv t = Some i /\
       tg_type t = 0 /\
       dcu_obstack s !! i = Some raw /\ dt_type raw = attr_type d DW.AT_type /\
       dt_small_id raw = u16 (Z.of_nat (S i)) /\ named_or_unspecified t raw) /\
  (forall id, dwarf_cu__find_type_by_id id s = Ret (find_offset id ds) s).

(** A top-level DIE of a plain type, as the theorem on units takes it:
    a typedef has a name or no specification, and the bucket of the
    DIE's offset is one of the table's. *)
Definition plain_die (d : Dwarf_Die) : Prop :=
  plain_type_kind (dwarf_tag d) = true /\ plain_named d /\
  0 <= hashtags__fn (dwarf_dieoffset d) < 2 ^ HASHTAGS__BITS.

(** A CU as [cu__new] and [dwarf_cu__init] leave it: nothing but the
    void entry of the types table. *)
Definition blank_cu (s : cu) : Prop :=
  obstack s = [] /\ dcu_obstack s = [] /\ types_table s = [None] /\
  tags_table s = [] /\ functions_table s = [] /\ hash_types s = [].

End Unit_vocabulary.

(** ** What the builders leave alone *)

(** [s'] has the three dense tables and the language of [s]. *)
Definition tables_kept (s s' : cu) : Prop :=
  types_table s' = types_table s /\ tags_table s' = tags_table s /\
  functions_table s' = functions_table s /\ language s' = language s.

(** [s'] has, besides, the two hashes of [s]. *)
Definition index_kept (s s' : cu) : Prop :=
  tables_kept s s' /\ hash_types s' = hash_types s /\ hash_tags s' = hash_tags s.

(** A computation that enters nothing in a table or in a hash. *)
Definition unindexed {A} (m : M A) : Prop :=
  forall s a s', m s = Ret a s' -> index_kept s s'.

(** The kinds of the children that [die__process_class] builds as
    members. *)
Definition member_kind (k : Z) : bool := (k =? DW.TAG_inheritance) || (k =? DW.TAG_member).

(** ** Two runs of the resolver side by side

    The second run of [cu__recode_dwarf_types] is compared with the
    first one step by step. What the resolver writes into an object,
    when no object takes its name or type from another one, is the
    [type] of the tag and the [containing_type] of a pointer to member;
    the rest of the object is its fixed part. *)

Definition clear_containing (b : tag_body) : tag_body :=
  match b with
  | B_ptr_to_member_type _ => B_ptr_to_member_type 0
  | _ => b
  end.

(** [containing_type] of a pointer to member. *)
Definition containing (x : tag) : option Z :=
  match tg_body x with
  | B_ptr_to_member_type c => Some c
  | _ => None
  end.

(** The object without the two fields that the resolver writes. *)
Definition fixed_part (x : tag) : tag :=
  mkTag 0 (tg_tag x) (tg_top_level x) (tg_recursivity_level x) (tg_priv x)
        (clear_containing (tg_body x)).

(** The kinds that [tag__recode_dwarf_bitfield] recodes by a new
    wrapper. *)
Definition is_wrapper (k : Z) : bool :=
  (k =? DW.TAG_typedef) || (k =? DW.TAG_const_type) || (k =? DW.TAG_volatile_type).

(** An entry of the types table that points at an object without a raw
    record, as those are that the recoder adds: [tag__recode_dwarf_type]
    returns at once for it. *)
Definition inert (t : cu) (e : option nat) : Prop :=
  exists p y, e = Some p /\ obstack t !! p = Some y /\ tg_priv y = None.

(** [t] is [s] later in a run, or after it: the raw arena, the hashes,
    the tags and functions tables are those of [s]; the types table has
    the entries of [s] and behind them entries of the recoder; every
    object of [s] is there with its fixed part, and the objects behind
    them are objects of the recoder (no raw record, no parameter list,
    not a typedef or a qualifier). *)
Record extends (s t : cu) : Prop := mkExtends {
  extends_raw : dcu_obstack t = dcu_obstack s;
  extends_hash_types : hash_types t = hash_types s;
  extends_hash_tags : hash_tags t = hash_tags s;
  extends_tags : tags_table t = tags_table s;
  extends_functions : functions_table t = functions_table s;
  extends_types : exists new, types_table t = types_table s ++ new /\ Forall (inert t) new;
  extends_obstack : forall p x, obstack s !! p = Some x ->
                  exists y, obstack t !! p = Some y /\ fixed_part y = fixed_part x;
  extends_new : forall p y, (length (obstack s) <= p)%nat -> obstack t !! p = Some y ->
              tg_priv y = None /\ as_ftype (tg_body y) = None /\ is_wrapper (tg_tag y) = false;
  extends_wf : types_table_wf s -> types_table_wf t
}.

(** [t'] is [t] but for the fields that the resolver writes (and but
    for memory and stderr). *)
Definition same_fixed_parts (t t' : cu) : Prop :=
  dcu_obstack t' = dcu_obstack t /\ hash_types t' = hash_types t /\
  hash_tags t' = hash_tags t /\ types_table t' = types_table t /\
  tags_table t' = tags_table t /\ functions_table t' = functions_table t /\
  fixed_part <$> obstack t' = fixed_part <$> obstack t.

(** The field [f] after a step of the first run, from [s] to [s'], and
    after the same step of the second run, from [t] to [t']: for every
    object, either the two runs have stored the same value, or neither
    has touched the field. *)
Definition in_step {B} (f : tag -> B) (s s' t t' : cu) : Prop :=
  forall p,
    ((p < length (obstack s'))%nat /\ f <$> obstack s' !! p = f <$> obstack t' !! p)
    \/ (f <$> obstack t' !! p = f <$> obstack t !! p /\
        ((p < length (obstack s))%nat -> f <$> obstack s' !! p = f <$> obstack s !! p)).

Definition fields_in_step (s s' t t' : cu) : Prop :=
  in_step tg_type s s' t t' /\ in_step containing s s' t t'.

(** The computation [m2] of the second run follows [m1] of the first
    one. Whenever [m1], started in a state [s] of a run from [s0], ends
    in [s'] with a result [a] that lets the run go on ([G a]): [Q a]
    holds, [s'] extends [s], and from every state [t] that extends
    [s'] the computation [m2] ends with a result related to [a], in a
    state that differs from [t] in the resolved fields only, the fields
    of the two runs being in step. *)
Definition simulated {A} (s0 : cu) (rel : A -> A -> Prop) (G : A -> Prop) (m1 m2 : M A)
    (Q : A -> Prop) : Prop :=
  forall s a s',
    extends s0 s -> m1 s = Ret a s' -> G a ->
    Q a /\ extends s s' /\
    forall t, extends s' t ->
      exists b t', m2 t = Ret b t' /\ rel a b /\ same_fixed_parts t t' /\ fields_in_step s s' t t'.

(** ** CUs in which no object takes its name or type from another one

    An object with the raw record [raw] takes nothing when: a formal
    parameter or a variable has a DW_AT_type or no abstract origin; a
    label has no abstract origin; a function has a name, or neither an
    abstract origin nor a specification; a struct, union, typedef or
    enumeration has a name or no specification. *)
Definition takes_nothing (x : tag) (raw : struct_dwarf_tag) : Prop :=
  (tg_tag x = DW.TAG_formal_parameter \/ tg_tag x = DW.TAG_variable ->
   dt_type raw <> 0 \/ dt_abstract_origin raw = 0) /\
  (tg_tag x = DW.TAG_label -> dt_abstract_origin raw = 0) /\
  (tg_tag x = DW.TAG_subprogram ->
   forall name sp, fn_name_of x = Some name -> dt_spec raw = Some sp ->
     name <> 0 \/ (dt_abstract_origin raw = 0 /\ sp = 0)) /\
  (tag__is_type (tg_tag x) = true ->
   forall ns sp, as_namespace (tg_body x) = Some ns -> dt_spec raw = Some sp ->
     ns_name ns <> 0 \/ sp = 0).

(** The same for the entry [pos] of a parameter list, whatever its
    kind. *)
Definition typed_parameter (s : cu) (pos : nat) : Prop :=
  forall x dtag raw,
    obstack s !! pos = Some x -> tg_priv x = Some dtag -> dcu_obstack s !! dtag = Some raw ->
    dt_type raw <> 0 \/ dt_abstract_origin raw = 0.

Section Alone_vocabulary.
Context {host : Collaborators}.

(** The CUs of the idempotence theorem: every object with a raw record
    takes nothing, the parameters of every function and function type
    are typed, and no bit-field member stands over a typedef, a const
    or a volatile. *)
Record resolves_alone (s : cu) : Prop := mkAlone {
  alone_objects :
    forall p x dtag raw,
      obstack s !! p = Some x -> tg_priv x = Some dtag -> dcu_obstack s !! dtag = Some raw ->
      takes_nothing x raw;
  alone_parameters :
    forall p x ft pos,
      obstack s !! p = Some x -> as_ftype (tg_body x) = Some ft -> pos ∈ ft_parms ft ->
      typed_parameter s pos;
  alone_bitfields :
    forall m x b dtag raw dtype dt y,
      obstack s !! m = Some x -> tg_tag x = DW.TAG_member ->
      bitfield_size_of x = Some b -> b <> 0 ->
      tg_priv x = Some dtag -> dcu_obstack s !! dtag = Some raw ->
      dwarf_cu__find_type_by_id (dt_type raw) s = Ret (Some dtype) s ->
      dcu_obstack s !! dtype = Some dt -> obstack s !! dt_tag dt = Some y ->
      is_wrapper (tg_tag y) = false
}.


(** The first entry of a table that points at an object with a given
    property. *)
Fixpoint find_first (P : tag -> bool) (heap : list tag) (entries : list (option nat))
    (id : nat) : option (nat * nat) :=
  match entries with
  | [] => None
  | e :: entries' =>
      match e ≫= (heap !!.) with
      | Some y => if P y then from_option (fun p => Some (p, id)) None e
                  else find_first P heap entries' (S id)
      | None => find_first P heap entries' (S id)
      end
  end.

(** The tests of [cu__find_base_type_by_sname_and_size] and of
    [cu__find_enumeration_by_sname_and_size]. *)
Definition is_base (n w : Z) (y : tag) : bool :=
  match tg_body y with
  | B_base_type bt => (tg_tag y =? DW.TAG_base_type) && (bt_bit_size bt =? w) && (bt_name bt =? n)
  | _ => false
  end.

Definition is_enumeration (n w : Z) (y : tag) : bool :=
  match tg_body y with
  | B_type ns ty =>
      (tg_tag y =? DW.TAG_enumeration_type) && (ty_size ty =? w) && (ns_name ns =? n)
  | _ => false
  end.

(** The test by which [tag__recode_dwarf_bitfield] looks the types table
    up for the object [y] and the width [w], when [y] is a base type or
    an enumeration. *)
Definition recode_test (y : tag) (w : Z) : option (tag -> bool) :=
  let name := name_at_namespace_offset (tg_body y) in
  if is_wrapper (tg_tag y) then None
  else if tg_tag y =? DW.TAG_base_type then Some (is_base name w)
  else if tg_tag y =? DW.TAG_enumeration_type then Some (is_enumeration name w)
  else None.

(** No condition on a result. *)
Definition any_result {A} : A -> Prop := fun _ => True.

(** The object [x] read at [pos] in a run from [s0]: an object of [s0]
    with its fixed part, or an object of the recoder. *)
Definition as_built (s0 : cu) (pos : nat) (x : tag) : Prop :=
  (exists x0, obstack s0 !! pos = Some x0 /\ fixed_part x = fixed_part x0)
  \/ (obstack s0 !! pos = None /\ tg_priv x = None /\ as_ftype (tg_body x) = None /\
      is_wrapper (tg_tag x) = false).

(** [*pos = x] *)
Definition stored (pos : nat) (x : tag) (s : cu) : cu :=
  set_obstack (<[pos:=x]> (obstack s)) s.

(** [resolves_alone] as a test. *)

Definition takes_nothing_b (x : tag) (raw : struct_dwarf_tag) : bool :=
  (if (tg_tag x =? DW.TAG_formal_parameter) || (tg_tag x =? DW.TAG_variable)
   then negb (dt_type raw =? 0) || (dt_abstract_origin raw =? 0) else true)
  && (if tg_tag x =? DW.TAG_label then dt_abstract_origin raw =? 0 else true)
  && (if tg_tag x =? DW.TAG_subprogram
      then match fn_name_of x, dt_spec raw with
           | Some name, Some sp => negb (name =? 0) || ((dt_abstract_origin raw =? 0) && (sp =? 0))
           | _, _ => true
           end
      else true)
  && (if tag__is_type (tg_tag x)
      then match as_namespace (tg_body x), dt_spec raw with
           | Some ns, Some sp => negb (ns_name ns =? 0) || (sp =? 0)
           | _, _ => true
           end
      else true).

Definition raw_of (s : cu) (x : tag) : option struct_dwarf_tag :=
  dtag ← tg_priv x; dcu_obstack s !! dtag.

Definition typed_parameter_b (s : cu) (pos : nat) : bool :=
  match obstack s !! pos ≫= raw_of s with
  | Some raw => negb (dt_type raw =? 0) || (dt_abstract_origin raw =? 0)
  | None => true
  end.

Definition bitfield_type (s : cu) (x : tag) : option tag :=
  if tg_tag x =? DW.TAG_member then
    match bitfield_size_of x with
    | Some b =>
        if b =? 0 then None
        else
          raw ← raw_of s x;
          match dwarf_cu__find_type_by_id (dt_type raw) s with
          | Ret (Some dtype) _ => dt ← dcu_obstack s !! dtype; obstack s !! dt_tag dt
          | _ => None
          end
    | None => None
    end
  else None.

Definition object_alone (s : cu) (x : tag) : bool :=
  match raw_of s x with Some raw => takes_nothing_b x raw | None => true end
  && match as_ftype (tg_body x) with
     | Some ft => forallb (typed_parameter_b s) (ft_parms ft)
     | None => true
     end
  && match bitfield_type s x with
     | Some y => negb (is_wrapper (tg_tag y))
     | None => true
     end.

Definition resolves_alone_b (s : cu) : bool := forallb (object_alone s) (obstack s).

End Alone_vocabulary.

(** ** Kinds that are skipped and kinds that are not *)

(** The kinds of the children that [die__process_class] skips with a
    warning (the two GNU kinds are cases of its switch where
    STB_GNU_UNIQUE is defined, the build that is modelled), and those
    that [die__process_function] skips. *)
Definition class_template_kind (k : Z) : bool :=
  (k =? DW.TAG_GNU_template_template_param) || (k =? DW.TAG_GNU_template_parameter_pack)
  || (k =? DW.TAG_template_type_parameter) || (k =? DW.TAG_template_value_parameter).

Definition function_template_kind (k : Z) : bool :=
  (k =? DW.TAG_template_type_parameter) || (k =? DW.TAG_template_value_parameter).

(** The state after the warning about the kind [k], made from the
    function [fn]: as it was when the kind has been warned about
    before, and else with the kind recorded and one line written. *)
Definition warned_about (k : Z) (fn : string) (s : cu) : cu :=
  if existsb (Z.eqb k) (tags_warned s) then s
  else set_stderr (stderr s ++ [Diag_tag_not_supported fn k])
                  (set_tags_warned (k :: tags_warned s) s).

(** The state after the not-handled line for [die], written from the
    function [fn]. *)
Definition not_handled (die : Dwarf_Die) (fn : string) (s : cu) : cu :=
  set_stderr (stderr s ++ [Diag_tag_not_handled fn (u32 (dwarf_tag die)) (dwarf_dieoffset die)])
             s.

(** The CU [c] when [die__process] comes to the children of the compile
    unit [cu_die]: the language has been read. *)
Definition unit_entered (cu_die : Dwarf_Die) (c : cu) : cu :=
  set_language (fst (attr_numeric cu_die DW.AT_language))
               (set_stderr (stderr c ++ snd (attr_numeric cu_die DW.AT_language)) c).

(** * Sample inputs *)

Open Scope string_scope.

(** A string table that knows the names of the samples. *)
Definition sample_strings__add (name : option string) : Z :=
  match name with
  | None => 0
  | Some n =>
      if String.eqb n "int" then 1
      else if String.eqb n "T" then 2
      else if String.eqb n "S" then 3
      else if String.eqb n "x" then 4
      else if String.eqb n "y" then 5
      else if String.eqb n "E" then 6
      else if String.eqb n "A" then 7
      else if String.eqb n "B" then 8
      else if String.eqb n "v" then 9
      else 10 + Z.of_nat (String.length n)
  end.

Fixpoint sample_follow_typedef (fuel : nat) (s : cu) (p : nat) : option nat :=
  match fuel with
  | O => None
  | S fuel =>
      t ← obstack s !! p;
      type ← mjoin (types_table s !! Z.to_nat (tg_type t));
      ty ← obstack s !! type;
      if tag__is_typedef (tg_tag ty) then sample_follow_typedef fuel s type
      else Some type
  end.

Definition sample_host : Collaborators := {|
  strings__add := sample_strings__add;
  hash_64 := fun key bits => key mod 2 ^ bits;
  cu__is_c_plus_plus := fun lang => (lang =? 4)%Z;
  tag__follow_typedef := sample_follow_typedef 16;
  base_type__name_to_size := fun _ bt => if (bt_name bt =? 1)%Z then 32 else 0;
  tag__size := fun _ _ => 0;
  cu__all_tags := fun s => seq 0 (length (obstack s));
  type_size_bits := 64;
  indeterminate_decl_line := fun _ => 0
|}.

Definition die_leaf (tag offset : Z) (attrs : list Dwarf_Attribute) : Dwarf_Die :=
  mkDie tag offset attrs false [] None None None None [].

Definition die_node (tag offset : Z) (attrs : list Dwarf_Attribute)
    (children : list Dwarf_Die) : Dwarf_Die :=
  mkDie tag offset attrs true children None None None None [].

Definition attr_name_is (n : string) : Dwarf_Attribute :=
  mkAttr DW.AT_name DW.FORM_string (D_string n).
Definition attr_data1 (name v : Z) : Dwarf_Attribute :=
  mkAttr name DW.FORM_data1 (D_const v).
Definition attr_data4 (name v : Z) : Dwarf_Attribute :=
  mkAttr name DW.FORM_data4 (D_const v).
Definition attr_ref4 (name target : Z) : Dwarf_Attribute :=
  mkAttr name DW.FORM_ref4 (D_ref target).
Definition attr_location_expr (ops : list Dwarf_Op) : Dwarf_Attribute :=
  mkAttr DW.AT_location DW.FORM_block1 (D_block [] (Some ops)).

(** [int], four bytes, signed, at offset 0x10. *)
Definition sample_int : Dwarf_Die :=
  die_leaf DW.TAG_base_type 0x10
    [attr_name_is "int"; attr_data1 DW.AT_byte_size 4; attr_data1 DW.AT_encoding DW.ATE_signed].

(** [int] with its declaration coordinates: line 7 of "a.c". *)
Definition sample_int_declared : Dwarf_Die :=
  mkDie DW.TAG_base_type 0x10
    [attr_name_is "int"; attr_data1 DW.AT_byte_size 4; attr_data1 DW.AT_encoding DW.ATE_signed]
    false [] (Some "a.c") (Some 7) None None [].

(** [typedef int T], at offset 0x20. *)
Definition sample_typedef : Dwarf_Die :=
  die_leaf DW.TAG_typedef 0x20 [attr_name_is "T"; attr_ref4 DW.AT_type 0x10].

(** [const int], at offset 0x20. *)
Definition sample_const : Dwarf_Die :=
  die_leaf DW.TAG_const_type 0x20 [attr_ref4 DW.AT_type 0x10].

(** [int * restrict], at offset 0x28: a kind the dispatch does not know. *)
Definition sample_restrict : Dwarf_Die :=
  die_leaf DW.TAG_restrict_type 0x28 [attr_ref4 DW.AT_type 0x10].

(** A template type parameter [T], at offset 0x38, and a function
    template [f] that has it for its only child. *)
Definition sample_template_parameter : Dwarf_Die :=
  die_leaf DW.TAG_template_type_parameter 0x38 [attr_name_is "T"; attr_ref4 DW.AT_type 0x10].

Definition sample_function_template : Dwarf_Die :=
  die_node DW.TAG_subprogram 0x60 [attr_name_is "f"] [sample_template_parameter].

(** A member of three bits whose type is the DIE at [type]. *)
Definition sample_bitfield (n : string) (offset type : Z) : Dwarf_Die :=
  die_leaf DW.TAG_member offset
    [attr_name_is n; attr_ref4 DW.AT_type type; attr_data1 DW.AT_bit_size 3].

(** [struct S { int x : 3; int y : 3; }] *)
Definition sample_struct : Dwarf_Die :=
  die_node DW.TAG_structure_type 0x30 [attr_name_is "S"; attr_data1 DW.AT_byte_size 4]
    [sample_bitfield "x" 0x40 0x10; sample_bitfield "y" 0x50 0x10].

(** [struct S { T x : 3; }] with [T] (or [const int]) at offset 0x20 *)
Definition sample_struct_wrapped : Dwarf_Die :=
  die_node DW.TAG_structure_type 0x30 [attr_name_is "S"; attr_data1 DW.AT_byte_size 4]
    [sample_bitfield "x" 0x40 0x20].

(** [struct S { int x : 3; T y; }] with [T] at offset 0x20 *)
Definition sample_struct_mixed : Dwarf_Die :=
  die_node DW.TAG_structure_type 0x30 [attr_name_is "S"; attr_data1 DW.AT_byte_size 8]
    [sample_bitfield "x" 0x40 0x10;
     die_leaf DW.TAG_member 0x50 [attr_name_is "y"; attr_ref4 DW.AT_type 0x20]].
(** [enum E { A, B }], four bytes, at offset 0x60. *)
Definition sample_enum : Dwarf_Die :=
  die_node DW.TAG_enumeration_type 0x60 [attr_name_is "E"; attr_data1 DW.AT_byte_size 4]
    [die_leaf DW.TAG_enumerator 0x68 [attr_name_is "A"; attr_data1 DW.AT_const_value 0];
     die_leaf DW.TAG_enumerator 0x70 [attr_name_is "B"; attr_data1 DW.AT_const_value 1]].

(** A second [enum E { V = 5 }], as a CU has it from another scope, at
    offset 0x90, and [struct S { enum E x : 3; enum E y : 3; }] whose
    [x] is of the first [E] and whose [y] is of the second. *)
Definition sample_enum_other : Dwarf_Die :=
  die_node DW.TAG_enumeration_type 0x90 [attr_name_is "E"; attr_data1 DW.AT_byte_size 4]
    [die_leaf DW.TAG_enumerator 0x98 [attr_name_is "V"; attr_data1 DW.AT_const_value 5]].

Definition sample_struct_enums : Dwarf_Die :=
  die_node DW.TAG_structure_type 0x30 [attr_name_is "S"; attr_data1 DW.AT_byte_size 4]
    [sample_bitfield "x" 0x40 0x60; sample_bitfield "y" 0x50 0x90].

(** [int a[]] as old compilers describe it: one subrange whose upper
    bound is 0xffffffff. *)
Definition sample_array : Dwarf_Die :=
  die_node DW.TAG_array_type 0x80 [attr_ref4 DW.AT_type 0x10]
    [die_leaf DW.TAG_subrange_type 0x88 [attr_data4 DW.AT_upper_bound 0xffffffff]].

(** A local variable at a frame offset. *)
Definition sample_local : Dwarf_Die :=
  die_leaf DW.TAG_variable 0x90
    [attr_name_is "v"; attr_ref4 DW.AT_type 0x10;
     attr_location_expr [mkOp DW.OP_fbreg (-20) 0]].

(** A variable whose location is a location list: the attribute is
    there, as an offset into .debug_loc, and holds no expression. *)
Definition sample_loclist : Dwarf_Die :=
  die_leaf DW.TAG_variable 0x98
    [attr_name_is "v"; attr_ref4 DW.AT_type 0x10; attr_data4 DW.AT_location 0x40].

(** A variable kept in register 0. *)
Definition sample_reg0 : Dwarf_Die :=
  die_leaf DW.TAG_variable 0xa0
    [attr_name_is "v"; attr_ref4 DW.AT_type 0x10;
     attr_location_expr [mkOp DW.OP_reg0 0 0]].

Definition sample_unit (children : list Dwarf_Die) : Dwarf_Die :=
  die_node DW.TAG_compile_unit 0x0b [attr_data1 DW.AT_language 1] children.

(** A CU as [cu__new] leaves it, with memory for a hundred allocations. *)
Definition sample_cu : cu :=
  mkCu [] [None] [] [] 0 false false [] [] [] [] [] 100.

Definition sample_cu_with_addr_info : cu := set_load_flags false true sample_cu.

(** The same with [extra_dbg_info] set. *)
Definition sample_cu_extra : cu := set_load_flags true false sample_cu.

Definition sample_cus : cus := mkCus [] [] [] [] 100.

Definition state_of {A} (r : res A) : cu :=
  match r with
  | Ret _ s => s
  | _ => sample_cu
  end.

(** The CU of [int] and [struct S] after the builder, before the
    resolver has run. *)
Definition sample_built : cu :=
  Eval vm_compute in
    state_of (die__process_unit (host := sample_host) 4 [sample_int; sample_struct] sample_cu).

(** The CU of [enum E] after the builder. *)
Definition sample_built_enum : cu :=
  Eval vm_compute in
    state_of (die__process_unit (host := sample_host) 4 [sample_enum] sample_cu).

Definition sample_conf (steal : option (cu -> load_steal_kind)) : conf_load :=
  mkConf false false false steal.

(** [int m[2][3]] *)
Definition sample_matrix : Dwarf_Die :=
  die_node DW.TAG_array_type 0xb0 [attr_ref4 DW.AT_type 0x10]
    [die_leaf DW.TAG_subrange_type 0xb8 [attr_data1 DW.AT_upper_bound 1];
     die_leaf DW.TAG_subrange_type 0xc0 [attr_data1 DW.AT_upper_bound 2]].

(** An array DIE with [n] subranges of two entries, then a child that
    is no subrange ([int]), then a last subrange of three entries. *)
Definition sample_dimensions (n : nat) : Dwarf_Die :=
  die_node DW.TAG_array_type 0xb0 [attr_ref4 DW.AT_type 0x10]
    (replicate n (die_leaf DW.TAG_subrange_type 0xb8 [attr_data1 DW.AT_upper_bound 1])
     ++ [sample_int; die_leaf DW.TAG_subrange_type 0xc0 [attr_data1 DW.AT_upper_bound 2]]).

(** The CU of [int] and [const int] after the builder. *)
Definition sample_built_const : cu :=
  Eval vm_compute in
    state_of (die__process_unit (host := sample_host) 4 [sample_int; sample_const] sample_cu).

(** The CU of [int], of a wrapper of [int] and of [struct S] with a
    bit-field over the wrapper, after the builder. *)
Definition sample_built_wrapped (wrapper : Dwarf_Die) : cu :=
  state_of (die__process_unit (host := sample_host) 4
              [sample_int; wrapper; sample_struct_wrapped] sample_cu).

(** The same CU after [die__process], the resolver having run once. *)
Definition sample_resolved_wrapped (wrapper : Dwarf_Die) : cu :=
  state_of (die__process (host := sample_host) 6
              (sample_unit [sample_int; wrapper; sample_struct_wrapped]) [] sample_cu).

(** The CU of [int], [typedef int T], [struct S { int x : 3; T y; }]
    and a variable after the builder. *)
Definition sample_built_mixed : cu :=
  Eval vm_compute in
    state_of (die__process_unit (host := sample_host) 4
                [sample_int; sample_typedef; sample_struct_mixed; sample_local] sample_cu).

(** The same CU after the resolver has run once. *)
Definition sample_resolved_mixed : cu :=
  Eval vm_compute in
    state_of (cu__recode_dwarf_types (host := sample_host) 8 sample_built_mixed).

(** A CU with a function:
    [int], [enum E { A, B }], [typedef int T],
    [struct S { int x : 3; enum E e : 3; T y; struct N { int z : 3; }; }]
    and [int f (int a) { T v; { struct S w; } }]. *)
Definition sample_program : list Dwarf_Die :=
  [sample_int; sample_enum; sample_typedef;
   die_node DW.TAG_structure_type 0x30 [attr_name_is "S"; attr_data1 DW.AT_byte_size 8]
     [sample_bitfield "x" 0x40 0x10; sample_bitfield "e" 0x48 0x60;
      die_leaf DW.TAG_member 0x50 [attr_name_is "y"; attr_ref4 DW.AT_type 0x20];
      die_node DW.TAG_structure_type 0x58 [attr_name_is "N"; attr_data1 DW.AT_byte_size 4]
        [sample_bitfield "z" 0x5c 0x10]];
   die_node DW.TAG_subprogram 0x100 [attr_name_is "f"; attr_ref4 DW.AT_type 0x10]
     [die_leaf DW.TAG_formal_parameter 0x108 [attr_name_is "a"; attr_ref4 DW.AT_type 0x10];
      die_leaf DW.TAG_variable 0x110 [attr_name_is "v"; attr_ref4 DW.AT_type 0x20];
      die_node DW.TAG_lexical_block 0x118 []
        [die_leaf DW.TAG_variable 0x120 [attr_name_is "w"; attr_ref4 DW.AT_type 0x30]]]].

(** That CU after the builder, and after the resolver has run once. *)
Definition sample_built_program : cu :=
  Eval vm_compute in
    state_of (die__process_unit (host := sample_host) 10 sample_program sample_cu).

Definition sample_resolved_program : cu :=
  Eval vm_compute in
    state_of (cu__recode_dwarf_types (host := sample_host) 12 sample_built_program).

(** Three structures of which the first two have no name: the one at
    0x10 has the one at 0x20 for its specification, which has
    [struct C] at 0x30 for its own. *)
Definition sample_specifications : Dwarf_Die :=
  sample_unit
    [die_leaf DW.TAG_structure_type 0x10 [attr_ref4 DW.AT_specification 0x20];
     die_leaf DW.TAG_structure_type 0x20 [attr_ref4 DW.AT_specification 0x30];
     die_leaf DW.TAG_structure_type 0x30 [attr_name_is "C"; attr_data1 DW.AT_byte_size 4]].

(** Three functions of one parameter: the one at 0x100 has the one at
    0x200 for its abstract origin, which has [int f (int x)] at 0x300
    for its own; the parameters likewise. *)
Definition sample_origins : Dwarf_Die :=
  sample_unit
    [sample_int;
     die_node DW.TAG_subprogram 0x100 [attr_ref4 DW.AT_abstract_origin 0x200]
       [die_leaf DW.TAG_formal_parameter 0x108 [attr_ref4 DW.AT_abstract_origin 0x208]];
     die_node DW.TAG_subprogram 0x200 [attr_ref4 DW.AT_abstract_origin 0x300]
       [die_leaf DW.TAG_formal_parameter 0x208 [attr_ref4 DW.AT_abstract_origin 0x308]];
     die_node DW.TAG_subprogram 0x300 [attr_name_is "f"; attr_ref4 DW.AT_type 0x10]
       [die_leaf DW.TAG_formal_parameter 0x308 [attr_name_is "x"; attr_ref4 DW.AT_type 0x10]]].

(** [struct S] with a bit-field of three bits over the enumeration at
    0x50, which has no name of its own and has [enum E { A, B }] for its
    specification. *)
Definition sample_specified_enum : Dwarf_Die :=
  sample_unit
    [die_node DW.TAG_structure_type 0x30 [attr_name_is "S"; attr_data1 DW.AT_byte_size 4]
       [sample_bitfield "e" 0x40 0x50];
     die_leaf DW.TAG_enumeration_type 0x50
       [attr_ref4 DW.AT_specification 0x60; attr_data1 DW.AT_byte_size 4];
     sample_enum].

(** A module of one CU, [int] and [struct S]. *)
Definition sample_module : list (Dwarf_Die * list Dwarf_Die) :=
  [(sample_unit [sample_int; sample_struct], [])].

(** A configuration whose stealer always gives [verdict]. *)
Definition sample_stealer (verdict : load_steal_kind) : option conf_load :=
  Some (sample_conf (Some (fun _ => verdict))).

(** The CU of [sample_module] after [die__process]. *)
Definition sample_loaded : cu :=
  Eval vm_compute in
    state_of (die__process (host := sample_host) 6 (sample_unit [sample_int; sample_struct]) []
                (set_load_flags false false (default sample_cu (cu__new sample_cus)))).

(** The same CU after the size cache has run over its tags. *)
Definition sample_cached : cu :=
  Eval vm_compute in
    state_of (cache_byte_sizes (host := sample_host) 6 (sample_stealer LSK__STOLEN)
                (cu__all_tags (Collaborators := sample_host) sample_loaded) sample_loaded).

(** ** Samples of the further properties *)

Definition blank_tag : tag := mkTag 0 0 false 0 None B_tag.
Definition blank_raw : struct_dwarf_tag := mkDwarfTag 0 0 0 0 0 0 0 None.

(** The object at [p] in a state, and the raw record at [dtag]. *)
Definition tag_at (s : cu) (p : nat) : tag := default blank_tag (obstack s !! p).
Definition raw_at (s : cu) (dtag : nat) : struct_dwarf_tag :=
  default blank_raw (dcu_obstack s !! dtag).

(** [int] in [sample_built], and its raw record. *)
Definition sample_built_int : tag := Eval vm_compute in tag_at sample_built 0.
Definition sample_built_int_raw : struct_dwarf_tag := Eval vm_compute in raw_at sample_built 0.

(** The state after the first warning about a template parameter. *)
Definition sample_warned : cu :=
  Eval vm_compute in
    state_of (__tag__print_not_supported (u32 DW.TAG_template_type_parameter)
                "die__process_class" sample_cu).

(** The fresh CU of [sample_cus], with the load flags off. *)
Definition sample_fresh : cu :=
  Eval vm_compute in set_load_flags false false (default sample_cu (cu__new sample_cus)).

Definition cus_of (r : load_result) : cus :=
  match r with
  | Loaded _ self => self
  | _ => sample_cus
  end.

(** The CU list after [sample_module] has been loaded with no
    configuration, and after a stealer has stopped the load. *)
Definition sample_cus_loaded : cus :=
  Eval vm_compute in cus_of (cus__load_module (host := sample_host) 6 None sample_module sample_cus).

Definition sample_cus_stopped : cus :=
  Eval vm_compute in
    cus_of (cus__load_module (host := sample_host) 6 (sample_stealer LSK__STOP_LOADING)
              sample_module sample_cus).

(** The CU that the load added. *)
Definition sample_kept : cu :=
  Eval vm_compute in default sample_cu (cus_list sample_cus_loaded !! 0%nat).

(** A file of two modules, the first without DWARF sections. *)
Definition sample_file : elf_file := mkFile true true true [None; Some sample_module].

(** [enum E] as [die__create_new_enumeration] builds it. *)
Definition sample_enumeration : cu :=
  Eval vm_compute in
    state_of (die__create_new_enumeration (host := sample_host) sample_enum sample_cu).

(** [int] after the dispatch, before it is entered in a table. *)
Definition sample_dispatched : cu :=
  Eval vm_compute in
    state_of (__die__process_tag (host := sample_host) 4 sample_int true "die__process_unit"
                sample_cu).
Definition sample_dispatched_int : tag := Eval vm_compute in tag_at sample_dispatched 0.
Definition sample_dispatched_raw : struct_dwarf_tag :=
  Eval vm_compute in raw_at sample_dispatched 0.

(** In [sample_resolved_mixed]: [typedef int T], [struct S], its member
    [y], and their raw records. *)
Definition sample_resolved_typedef : tag := Eval vm_compute in tag_at sample_resolved_mixed 1.
Definition sample_resolved_typedef_raw : struct_dwarf_tag :=
  Eval vm_compute in raw_at sample_resolved_mixed 1.
Definition sample_resolved_struct : tag := Eval vm_compute in tag_at sample_resolved_mixed 2.

(** [int] after the dispatch in a CU with memory for the object and its
    raw record only. *)
Definition sample_dispatched_full : cu :=
  Eval vm_compute in
    state_of (__die__process_tag (host := sample_host) 4 sample_int true "die__process_unit"
                (set_mem 2 sample_cu)).

(** [struct S] of [sample_struct] in a C++ CU, before and after its
    members are read. *)
Definition sample_class_cpp : cu :=
  Eval vm_compute in
    state_of (class__new (host := sample_host) sample_struct (set_language 4 sample_cu)).

Definition sample_class_cpp_members : cu :=
  Eval vm_compute in
    state_of (die__process_class (host := sample_host) 4 (dwarf_children sample_struct) 0
                sample_class_cpp).
Close Scope string_scope.

(** * Properties *)

Lemma lookup_snoc {A} (l : list A) (x : A) : (l ++ [x]) !! length l = Some x.
Proof. by rewrite list_lookup_middle. Qed.

Lemma insert_snoc {A} (l : list A) (x y : A) : <[length l := y]> (l ++ [x]) = l ++ [y].
Proof.
  rewrite insert_app_r_alt by lia. by rewrite Nat.sub_diag.
Qed.

(** Symbolic execution of the loader monad: unfold the primitives, take
    the binds apart, and compute the fields of the states met. *)
Ltac run :=
  repeat (progress (
    unfold load_tag, store_tag, update_tag, load_dtag, store_dtag,
       update_dtag, tag__priv, update_body, get_cu, modify_cu, fprintf_stderr, fprintf_all,
       printing, obstack_alloc, dcu_obstack_alloc, undef, memdup, obstack_free;
    unfold mbind, M_bind, mret, M_ret;
    cbv beta;
    cbn [obstack dcu_obstack mem stderr extra_dbg_info has_addr_info
       types_table tags_table functions_table hash_types hash_tags
       set_obstack set_dcu_obstack set_mem set_stderr set_types_table
       tg_priv tg_body tg_type tg_tag set_tg_priv set_tg_type set_tg_top_level
       set_tg_tag set_tg_recursivity_level set_tg_body fst snd];
    rewrite ?lookup_snoc, ?insert_snoc)).

(** [run] without entering [update_tag]. *)
Ltac run_to_update :=
  repeat (progress (
    unfold load_tag, load_dtag, tag__priv, get_cu, undef;
    unfold mbind, M_bind, mret, M_ret;
    cbv beta;
    cbn [obstack dcu_obstack mem stderr extra_dbg_info has_addr_info
       types_table tags_table functions_table hash_types hash_tags
       set_obstack set_dcu_obstack set_mem set_stderr set_types_table
       tg_priv tg_body tg_type tg_tag fst snd])).

(** ** ULEB128 and the expression parser *)

Lemma uleb128_end_lt n bytes k : uleb128_end n bytes = Some k -> (k < n)%nat.
Proof.
  revert bytes k. induction n as [|n IH]; intros [|b bytes] k; simpl; try discriminate.
  destruct (Z.land (u8 b) 127 =? 0); destruct (Z.land (u8 b) 128 =? 0);
    try (intros [= <-]; lia).
  all: destruct (uleb128_end n bytes) as [k'|] eqn:E; simpl; try discriminate;
    intros [= <-]; apply IH in E; lia.
Qed.

Lemma land_7f_range b : 0 <= Z.land (u8 b) 0x7f < 128.
Proof.
  change 0x7f with (Z.ones 7). rewrite Z.land_ones by lia.
  apply Z.mod_pos_bound. lia.
Qed.

Lemma lor_disjoint_add var g n :
  0 <= n -> 0 <= var < 2 ^ n -> 0 <= g ->
  Z.lor var (g * 2 ^ n) = var + g * 2 ^ n.
Proof.
  intros Hn Hv Hg.
  rewrite <- Z.lxor_lor, <- Z.add_nocarry_lxor; auto.
  all: apply Z.bits_inj'; intros k Hk; rewrite Z.land_spec, Z.bits_0.
  all: destruct (Z.lt_ge_cases k n) as [Hlt|Hge].
  all: try (rewrite Z.mul_pow2_bits_low by lia; apply andb_false_r).
  all: rewrite <- (Z.mod_small var (2 ^ n)) by lia;
       rewrite Z.mod_pow2_bits_high by lia; reflexivity.
Qed.

Lemma uleb128_merge var g i :
  0 <= i <= 9 -> 0 <= var < 2 ^ (7 * i) -> 0 <= g < 128 ->
  let var' := Z.lor var (u64 (Z.shiftl g (i * 7))) in
  var' = (var + g * 2 ^ (7 * i)) mod 2 ^ 64 /\ 0 <= var' < 2 ^ (7 * (i + 1)).
Proof.
  intros Hi Hv Hg. cbv zeta. unfold u64.
  rewrite Z.shiftl_mul_pow2 by lia. replace (i * 7) with (7 * i) by lia.
  assert (Hp : 0 < 2 ^ (7 * i)) by (apply Z.pow_pos_nonneg; lia).
  destruct (Z.eq_dec i 9) as [->|Hne].
  - (* the tenth byte: only its lowest bit fits *)
    change (7 * 9) with 63 in *. change (7 * (9 + 1)) with 70.
    assert (E : (g * 2 ^ 63) mod 2 ^ 64 = (g mod 2) * 2 ^ 63).
    { change (2 ^ 64) with (2 * 2 ^ 63). rewrite Z.mul_mod_distr_r by lia. reflexivity. }
    rewrite E. rewrite lor_disjoint_add by (try apply Z.mod_pos_bound; lia).
    assert (0 <= g mod 2 < 2) by (apply Z.mod_pos_bound; lia).
    split; [|change (2 ^ 70) with (128 * 2 ^ 63); nia].
    rewrite <- (Z.add_mod_idemp_r var (g * 2 ^ 63)) by lia.
    rewrite E. change (2 ^ 64) with (2 * 2 ^ 63).
    rewrite (Z.mod_small (var + _)); [reflexivity|]. nia.
  - assert (Hlt : g * 2 ^ (7 * i) < 2 ^ (7 * (i + 1))).
    { replace (7 * (i + 1)) with (7 + 7 * i) by lia.
      rewrite Z.pow_add_r by lia. change (2 ^ 7) with 128. nia. }
    assert (Hle : 2 ^ (7 * (i + 1)) <= 2 ^ 64) by (apply Z.pow_le_mono_r; lia).
    rewrite (Z.mod_small (g * _)) by nia.
    rewrite lor_disjoint_add by lia.
    assert (var + g * 2 ^ (7 * i) < 2 ^ (7 * (i + 1))).
    { replace (7 * (i + 1)) with (7 + 7 * i) by lia.
      rewrite Z.pow_add_r by lia. change (2 ^ 7) with 128. nia. }
    rewrite Z.mod_small by nia. lia.
Qed.

Lemma get_uleb128_rest_return_spec steps : forall i var bytes,
  i + Z.of_nat steps = 10 -> 0 <= i -> 0 <= var < 2 ^ (7 * i) ->
  get_uleb128_rest_return steps var i bytes =
    match uleb128_end steps bytes with
    | Some k => Some ((var + uleb128_value i (take (S k) bytes)) mod 2 ^ 64,
                      drop (S k) bytes)
    | None => if decide (steps <= length bytes)%nat
              then Some (UINT64_MAX, drop steps bytes) else None
    end.
Proof.
  induction steps as [|steps IH]; intros i var bytes Hsum Hi Hv.
  - simpl. destruct bytes; reflexivity.
  - destruct bytes as [|b bytes].
    + reflexivity.
    + pose proof (land_7f_range b) as Hg.
      destruct (uleb128_merge var (Z.land (u8 b) 0x7f) i ltac:(lia) Hv Hg) as [Hval Hrange].
      cbn [get_uleb128_rest_return get_uleb128_step uleb128_end].
      destruct (Z.land (u8 b) 128 =? 0) eqn:Hstop.
      * cbn [take drop uleb128_value]. rewrite Hval, Z.add_0_r. reflexivity.
      * rewrite IH by lia.
        destruct (uleb128_end steps bytes) as [k|] eqn:Hend; cbn [fmap option_fmap option_map].
        -- cbn [take drop uleb128_value]. do 2 f_equal.
           rewrite Hval. rewrite Z.add_mod_idemp_l by lia. f_equal. lia.
        -- cbn [length drop]. repeat case_decide; try lia; reflexivity.
Qed.

Lemma get_uleb128_as_loop bytes :
  get_uleb128 bytes = get_uleb128_rest_return 10 0 0 bytes.
Proof.
  unfold get_uleb128, __libdw_get_uleb128.
  change (Z.to_nat (10 - 1)) with 9%nat.
  destruct bytes as [|b bytes]; [reflexivity|].
  cbn [get_uleb128_rest_return get_uleb128_step].
  destruct (Z.land (u8 b) 128 =? 0); reflexivity.
Qed.

Lemma get_uleb128_spec bytes :
  get_uleb128 bytes =
    match uleb128_end 10 bytes with
    | Some k => Some (uleb128_value 0 (take (S k) bytes) mod 2 ^ 64, drop (S k) bytes)
    | None => if decide (10 <= length bytes)%nat
              then Some (UINT64_MAX, drop 10 bytes) else None
    end.
Proof.
  rewrite get_uleb128_as_loop, get_uleb128_rest_return_spec by (cbn; lia).
  destruct (uleb128_end 10 bytes); [|reflexivity].
  rewrite Z.add_0_l. reflexivity.
Qed.

(** C9. For a block whose leading opcode is DW_OP_plus_uconst or
    DW_OP_constu the parser returns the ULEB128 operand that follows,
    without a report; for any other leading opcode it reports the opcode
    and returns UINT64_MAX. The decoder reads at most ten bytes: it
    stops behind the first byte whose high bit is clear and returns the
    number spelled by the bytes up to it (modulo 2^64), and it returns
    UINT64_MAX when none of the first ten bytes ends the number. *)
Theorem dwarf_expr_uleb128_operand (op : Z) (bytes : list Z) :
  dwarf_expr (op :: bytes) =
    (if (u8 op =? DW.OP_plus_uconst) || (u8 op =? DW.OP_constu) then
       match uleb128_end 10 bytes with
       | Some k => Some (uleb128_value 0 (take (S k) bytes) mod 2 ^ 64, [])
       | None => if decide (10 <= length bytes)%nat then Some (UINT64_MAX, []) else None
       end
     else Some (UINT64_MAX, [Diag_unhandled_op (u8 op)]))
  /\ get_uleb128 bytes =
       match uleb128_end 10 bytes with
       | Some k => Some (uleb128_value 0 (take (S k) bytes) mod 2 ^ 64, drop (S k) bytes)
       | None => if decide (10 <= length bytes)%nat
                 then Some (UINT64_MAX, drop 10 bytes) else None
       end
  /\ from_option (fun k => (S k <= 10)%nat) True (uleb128_end 10 bytes).
Proof.
  split; [|split].
  - unfold dwarf_expr. rewrite get_uleb128_spec.
    destruct ((u8 op =? DW.OP_plus_uconst) || (u8 op =? DW.OP_constu)); [|reflexivity].
    destruct (uleb128_end 10 bytes); [reflexivity|].
    case_decide; reflexivity.
  - apply get_uleb128_spec.
  - destruct (uleb128_end 10 bytes) as [k|] eqn:E; simpl; [|exact I].
    apply uleb128_end_lt in E. lia.
Qed.

(** ** Location classes *)

(** C4 (as amended). The class of a DIE by its DW_AT_location, for
    every DIE whose location expression does not begin with DW_OP_reg0:
    OPTIMIZED when the DIE has no DW_AT_location, and also when it has
    one that is not a location expression; otherwise, by the first
    operation of the expression, GLOBAL with the operand as the address
    for DW_OP_addr, REGISTER for DW_OP_reg1..31 and DW_OP_breg0..31,
    LOCAL for DW_OP_fbreg, UNKNOWN for every other one and for the
    empty expression. The address is touched for GLOBAL only. *)
Theorem dwarf__location_class (die : Dwarf_Die) (addr : Z) :
  atom <$> first_opcode die <> Some DW.OP_reg0 ->
  dwarf__location die addr =
    match dwarf_attr die DW.AT_location with
    | None => (LOCATION_OPTIMIZED, addr)
    | Some attr =>
        match dwarf_getlocation attr with
        | None => (LOCATION_OPTIMIZED, addr)
        | Some [] => (LOCATION_UNKNOWN, addr)
        | Some (op :: _) =>
            if atom op =? DW.OP_addr then (LOCATION_GLOBAL, u64 (number op))
            else if is_register_opcode (atom op) then (LOCATION_REGISTER, addr)
            else if atom op =? DW.OP_fbreg then (LOCATION_LOCAL, addr)
            else (LOCATION_UNKNOWN, addr)
        end
    end.
Proof.
  unfold dwarf__location, attr_location, first_opcode.
  destruct (dwarf_attr die DW.AT_location) as [attr|]; [|reflexivity].
  cbn [mbind option_bind].
  destruct (dwarf_getlocation attr) as [[|op ops]|];
    cbn [mbind option_bind head fmap option_fmap option_map]; try reflexivity.
  intros Hreg0.
  assert (Hne : atom op <> DW.OP_reg0) by congruence.
  destruct (atom op =? DW.OP_addr); [reflexivity|].
  assert (Hreg : is_register_opcode (atom op) =
                 ((DW.OP_reg1 <=? atom op) && (atom op <=? DW.OP_reg31))
                 || ((DW.OP_breg0 <=? atom op) && (atom op <=? DW.OP_breg31))).
  { unfold is_register_opcode. f_equal. f_equal.
    unfold DW.OP_reg0, DW.OP_reg1 in *.
    destruct (80 <=? atom op) eqn:E1, (81 <=? atom op) eqn:E2; try reflexivity; lia. }
  rewrite Hreg. reflexivity.
Qed.

Section Properties.
Context {host : Collaborators}.

(** ** Variables *)

(** C10. The variable just built has its location classified from
    DW_AT_location exactly when the DIE has no DW_AT_declaration and the
    CU has address info; otherwise its location is LOCATION_UNKNOWN and
    its address 0. Without address info it is never OPTIMIZED. *)
Theorem variable__new_location (die : Dwarf_Die) (s : cu) :
  (2 <= mem s)%nat ->
  exists s' v,
    variable__new die s = Ret (Some (length (obstack s))) s' /\
    tg_body <$> obstack s' !! length (obstack s) = Some (B_variable v) /\
    (var_location v, var_addr v) =
      (if negb (dwarf_hasattr die DW.AT_declaration) && has_addr_info s
       then dwarf__location die 0 else (LOCATION_UNKNOWN, 0)) /\
    (if has_addr_info s then True else var_location v <> LOCATION_OPTIMIZED).
Proof.
  intros Hmem. destruct s as [ob tt tgt ft lang ex ha ht hty dob err warned m].
  cbn [mem] in Hmem. destruct m as [|[|m]]; try lia.
  unfold variable__new, tag__alloc, __tag__alloc, tag__init.
  run.
  destruct ((dwarf_tag die =? DW.TAG_imported_module) || (dwarf_tag die =? DW.TAG_imported_declaration)); run.
  all: destruct ex; run.
  all: destruct (if negb (dwarf_hasattr die DW.AT_declaration) && ha then dwarf__location die 0 else (LOCATION_UNKNOWN, 0)) as [loc addr] eqn:E; run.
  all: eexists _, _; (split; [reflexivity|]);
       cbn [obstack set_obstack set_mem set_dcu_obstack]; rewrite lookup_snoc;
       (split; [reflexivity|]); cbn [var_location var_addr has_addr_info];
       (split; [congruence|]); destruct ha; [exact I|];
       rewrite andb_false_r in E; congruence.
Qed.

(** ** Array dimensions *)

Lemma u32_upper_bound d : u32 (attr_upper_bound d) = dimension_entries d.
Proof.
  unfold attr_upper_bound, dimension_entries.
  destruct (dwarf_attr d DW.AT_upper_bound) as [attr|]; [|reflexivity].
  destruct (dwarf_formudata attr) as [num|]; [|reflexivity].
  unfold u32, u64.
  assert (Hdiv : (2 ^ 32 | 2 ^ 64)) by (exists (2 ^ 32); reflexivity).
  rewrite Z.mod_mod_divide by exact Hdiv.
  rewrite <- (Z.add_mod_idemp_l (num mod 2 ^ 64)) by lia.
  rewrite Z.mod_mod_divide by exact Hdiv.
  rewrite Z.add_mod_idemp_l by lia. reflexivity.
Qed.

Lemma set_stderr_app ds1 ds2 s :
  set_stderr (stderr (set_stderr (stderr s ++ ds1) s) ++ ds2) (set_stderr (stderr s ++ ds1) s)
  = set_stderr (stderr s ++ (ds1 ++ ds2)) s.
Proof. destruct s; cbn. by rewrite app_assoc. Qed.

Lemma set_stderr_nil s : set_stderr (stderr s ++ []) s = s.
Proof. destruct s; cbn. by rewrite app_nil_r. Qed.

Lemma die__create_new_array_loop_spec dies : forall nr_entries s,
  (length nr_entries < 64)%nat ->
  die__create_new_array_loop dies nr_entries s =
    Ret (nr_entries ++
           (dimension_entries <$> take (64 - length nr_entries) (filter is_subrange dies)))
        (set_stderr
           (stderr s ++
            (not_handled_in_array <$>
               filter (fun d => ~ is_subrange d) (upto_subrange (64 - length nr_entries) dies))
            ++ (if decide (64 <= length nr_entries + length (filter is_subrange dies))%nat
                then [Diag_only_dimensions 64] else []))
           s).
Proof.
  induction dies as [|die sibs IH]; intros acc s Hlen.
  - cbn. destruct (64 - length acc)%nat; cbn; rewrite app_nil_r;
      (case_decide; [lia|]); rewrite set_stderr_nil; reflexivity.
  - cbn [die__create_new_array_loop].
    destruct (64 - length acc)%nat as [|free] eqn:Hfree; [lia|].
    cbn [upto_subrange].
    destruct (dwarf_tag die =? DW.TAG_subrange_type) eqn:Hk.
    + apply Z.eqb_eq in Hk.
      rewrite filter_cons_True by exact Hk.
      rewrite (filter_cons_False (fun d => ~ is_subrange d)) by (intros H; by apply H).
      rewrite decide_True by exact Hk.
      rewrite u32_upper_bound.
      destruct (Z.of_nat (length (acc ++ [dimension_entries die])) =? max_dimensions) eqn:Hfull.
      * apply Z.eqb_eq in Hfull. rewrite length_app in Hfull. cbn in Hfull.
        unfold max_dimensions in Hfull.
        assert (free = 0%nat) by lia. subst free.
        run. rewrite decide_True by (cbn [length]; lia).
        destruct sibs; reflexivity.
      * apply Z.eqb_neq in Hfull. rewrite length_app in Hfull. cbn in Hfull.
        unfold max_dimensions in Hfull.
        rewrite IH by (rewrite length_app; cbn; lia).
        rewrite length_app. cbn [length].
        replace (64 - (length acc + 1))%nat with free by lia.
        cbn [take fmap list_fmap]. rewrite <- app_assoc. cbn [app].
        do 3 f_equal.
        destruct (decide (64 <= length acc + 1 + length (filter is_subrange sibs))%nat),
                 (decide (64 <= length acc + S (length (filter is_subrange sibs)))%nat);
          try reflexivity; lia.
    + apply Z.eqb_neq in Hk.
      rewrite filter_cons_False by exact Hk.
      rewrite (filter_cons_True (fun d => ~ is_subrange d)) by exact Hk.
      rewrite decide_False by exact Hk.
      unfold __cu__tag_not_handled. run.
      rewrite IH by exact Hlen. rewrite Hfree. cbn [stderr set_stderr].
      cbn [fmap list_fmap]. fold (not_handled_in_array die).
      f_equal. destruct s; cbn. rewrite <- !app_assoc. reflexivity.
Qed.

(** C8 (as amended). The array built from a DIE has as many dimensions
    as the DIE has subrange_type children, at most 64. Reaching 64 is
    reported and the children behind are not read: what the call writes
    to stderr is one not-handled line for each child that is no
    subrange, up to the 64th subrange and in order, and the report
    after them when there are 64 subranges or more. The entry count of
    a dimension is the upper bound plus one reduced modulo 2^32, and 0
    when the subrange has no constant upper bound. *)
Theorem die__create_new_array_dimensions (die : Dwarf_Die) (s : cu) :
  (3 <= mem s)%nat ->
  let subranges := filter is_subrange (dwarf_children die) in
  let read := upto_subrange 64 (dwarf_children die) in
  exists s' is_vector,
    die__create_new_array die s = Ret (Some (length (obstack s))) s' /\
    tg_body <$> obstack s' !! length (obstack s) =
      Some (B_array_type
              (Z.of_nat (min (length subranges) 64))
              (match dwarf_child die with
               | Some _ => Some (dimension_entries <$> take 64 subranges)
               | None => None
               end)
              is_vector) /\
    stderr s' =
      stderr s ++ (not_handled_in_array <$> filter (fun d => ~ is_subrange d) read)
               ++ (if decide (64 <= length subranges)%nat
                   then [Diag_only_dimensions 64] else []).
Proof.
  intros Hmem subranges read. subst subranges read.
  destruct s as [ob tt tgt ft lang ex ha ht hty dob err warned m].
  cbn [mem] in Hmem. destruct m as [|[|[|m]]]; try lia.
  unfold die__create_new_array, array_type__new, tag__alloc, __tag__alloc, tag__init.
  unfold dwarf_children.
  run.
  destruct ((dwarf_tag die =? DW.TAG_imported_module)
            || (dwarf_tag die =? DW.TAG_imported_declaration)); run.
  all: destruct ex; run.
  all: destruct (dwarf_child die) as [[child sibs]|]; run.
  all: try (eexists _, _; split; [reflexivity|];
            cbn [obstack set_obstack set_mem set_dcu_obstack]; rewrite lookup_snoc;
            split; [reflexivity|]; cbn; rewrite app_nil_r; reflexivity).
  all: rewrite die__create_new_array_loop_spec by (cbn; lia).
  all: run; cbn [app length Nat.sub].
  all: eexists _, _; split; [reflexivity|].
  all: cbn [obstack set_obstack set_mem set_dcu_obstack set_stderr stderr]; rewrite lookup_snoc.
  all: split; [|reflexivity].
  all: cbn [fmap option_fmap option_map tg_body set_tg_body].
  all: rewrite length_fmap, length_take; do 3 f_equal; lia.
Qed.

(** ** Unsupported kinds *)

Lemma __die__process_tag_unsupported fuel die top_level fn s :
  top_level_kind (dwarf_tag die) = false ->
  __die__process_tag (S fuel) die top_level fn s =
    Ret None (set_stderr (stderr s ++ [Diag_tag_not_handled fn (u32 (dwarf_tag die))
                                                          (dwarf_dieoffset die)]) s).
Proof.
  unfold top_level_kind. rewrite !orb_false_iff.
  intros H. repeat match goal with H : _ /\ _ |- _ => destruct H end.
  cbn [__die__process_tag].
  repeat match goal with E : (_ =? _) = false |- _ => rewrite E; clear E end.
  cbn [orb]. unfold __cu__tag_not_handled. run. reflexivity.
Qed.

Lemma die__process_unit_app fuel l1 : forall l2 s,
  die__process_unit fuel (l1 ++ l2) s =
    match die__process_unit fuel l1 s with
    | Ret r s1 => if r =? 0 then die__process_unit fuel l2 s1 else Ret r s1
    | Undef => Undef
    | Abort => Abort
    | NoFuel => NoFuel
    end.
Proof.
  induction l1 as [|die sibs IH]; intros l2 s.
  - reflexivity.
  - cbn [app die__process_unit]. unfold mbind, M_bind.
    destruct (__die__process_tag fuel die true "die__process_unit" s) as [[t|] s1| | |];
      try reflexivity.
    destruct (cu__add_tag t s1) as [[err id] s2| | |]; try reflexivity.
    destruct (hash_and_number t id s2) as [[] s3| | |]; try reflexivity.
    apply IH.
Qed.

Lemma die__process_unit_not_handled (fuel : nat) (pre : list Dwarf_Die)
    (die : Dwarf_Die) (rest : list Dwarf_Die) (s s1 : cu) :
  top_level_kind (dwarf_tag die) = false ->
  die__process_unit (S fuel) pre s = Ret 0 s1 ->
  die__process_unit (S fuel) (pre ++ die :: rest) s =
    Ret (- ENOMEM)
        (set_stderr (stderr s1 ++ [Diag_tag_not_handled "die__process_unit"
                                     (u32 (dwarf_tag die)) (dwarf_dieoffset die)]) s1).
Proof.
  intros Hk Hpre. rewrite die__process_unit_app, Hpre.
  cbn [Z.eqb die__process_unit]. unfold mbind, M_bind.
  rewrite __die__process_tag_unsupported by exact Hk. reflexivity.
Qed.

(** ** The bitfield recoder *)

(** *** The hash lookups read the raw arena and change nothing *)

Lemma hashtags__find_in_frame chain id : forall s s' r,
  dcu_obstack s' = dcu_obstack s ->
  hashtags__find_in chain id s = Ret r s ->
  hashtags__find_in chain id s' = Ret r s'.
Proof.
  induction chain as [|tpos chain IH]; intros s s' r Hd.
  - cbn. intros [= <-]. reflexivity.
  - cbn [hashtags__find_in]. run. rewrite Hd.
    destruct (dcu_obstack s !! tpos) as [d|]; [|discriminate].
    destruct (dt_id d =? id).
    + intros [= <-]. reflexivity.
    + apply IH. exact Hd.
Qed.

Lemma hashtags__find_in_state chain id : forall s r s1,
  hashtags__find_in chain id s = Ret r s1 -> s1 = s.
Proof.
  induction chain as [|tpos chain IH]; intros s r s1.
  - cbn. intros [= _ <-]. reflexivity.
  - cbn [hashtags__find_in]. run.
    destruct (dcu_obstack s !! tpos) as [d|]; [|discriminate].
    destruct (dt_id d =? id).
    + intros [= _ <-]. reflexivity.
    + apply IH.
Qed.

Lemma dwarf_cu__find_type_by_id_frame id s s' r :
  dcu_obstack s' = dcu_obstack s -> hash_types s' = hash_types s ->
  dwarf_cu__find_type_by_id id s = Ret r s ->
  dwarf_cu__find_type_by_id id s' = Ret r s'.
Proof.
  intros Hd Hh. unfold dwarf_cu__find_type_by_id, hashtags__find. run.
  rewrite Hh. destruct (id =? 0).
  - intros [= <-]. reflexivity.
  - apply hashtags__find_in_frame. exact Hd.
Qed.

Lemma dwarf_cu__find_type_by_id_state id s r s1 :
  dwarf_cu__find_type_by_id id s = Ret r s1 -> s1 = s.
Proof.
  unfold dwarf_cu__find_type_by_id, hashtags__find. run.
  destruct (id =? 0).
  - intros [= _ <-]. reflexivity.
  - apply hashtags__find_in_state.
Qed.

(** *** The base type lookup of the types table *)

Lemma find_base_type_from_cons heap e entries id sname bit_size :
  find_base_type_from heap (e :: entries) id sname bit_size =
    match e ≫= (fun p => base_type_view (heap !! p) ≫= (fun v => Some (p, v))) with
    | Some (p, (n, w)) =>
        if (w =? bit_size) && (n =? sname) then Some (p, id)
        else find_base_type_from heap entries (S id) sname bit_size
    | None => find_base_type_from heap entries (S id) sname bit_size
    end.
Proof.
  cbn [find_base_type_from]. destruct e as [p|]; [|reflexivity].
  cbn [mbind option_bind]. unfold base_type_view.
  destruct (heap !! p) as [[? k ? ? ? b]|]; [|reflexivity].
  destruct b; try reflexivity.
  destruct (k =? DW.TAG_base_type); reflexivity.
Qed.

Lemma find_base_type_from_view heap heap' entries : forall id sname bit_size,
  Forall (fun e => match e with
                   | Some p => base_type_view (heap' !! p) = base_type_view (heap !! p)
                   | None => True
                   end) entries ->
  find_base_type_from heap' entries id sname bit_size =
  find_base_type_from heap entries id sname bit_size.
Proof.
  induction entries as [|e entries IH]; intros id sname bit_size Hall; [reflexivity|].
  inversion Hall as [|? ? He Hrest]; subst.
  rewrite !find_base_type_from_cons, (IH _ _ _ Hrest).
  destruct e as [p|]; [|reflexivity].
  cbn [mbind option_bind]. rewrite He. reflexivity.
Qed.

Lemma find_base_type_from_app heap es1 : forall es2 id sname bit_size,
  find_base_type_from heap (es1 ++ es2) id sname bit_size =
    match find_base_type_from heap es1 id sname bit_size with
    | Some r => Some r
    | None => find_base_type_from heap es2 (id + length es1) sname bit_size
    end.
Proof.
  induction es1 as [|e es1 IH]; intros es2 id sname bit_size.
  - cbn. by rewrite Nat.add_0_r.
  - rewrite <- app_comm_cons, !find_base_type_from_cons, IH. cbn [length].
    replace (S id + length es1)%nat with (id + S (length es1))%nat by lia.
    destruct (e ≫= _) as [[p [n w]]|]; [|reflexivity].
    destruct ((w =? bit_size) && (n =? sname)); reflexivity.
Qed.

Lemma find_base_type_from_Some heap entries : forall id sname bit_size p i,
  find_base_type_from heap entries id sname bit_size = Some (p, i) ->
  (id <= i)%nat /\ entries !! (i - id)%nat = Some (Some p) /\
  base_type_view (heap !! p) = Some (sname, bit_size).
Proof.
  induction entries as [|e entries IH]; intros id sname bit_size p i; [discriminate|].
  rewrite find_base_type_from_cons.
  assert (Hnext : find_base_type_from heap entries (S id) sname bit_size = Some (p, i) ->
                  (id <= i)%nat /\ (e :: entries) !! (i - id)%nat = Some (Some p) /\
                  base_type_view (heap !! p) = Some (sname, bit_size)).
  { intros H. apply IH in H as (Hle & Hl & Hv). split; [lia|]. split; [|exact Hv].
    replace (i - id)%nat with (S (i - S id)) by lia. exact Hl. }
  destruct e as [q|]; [|exact Hnext]. cbn [mbind option_bind].
  destruct (base_type_view (heap !! q)) as [[n w]|] eqn:Hq; [|exact Hnext].
  cbn [mbind option_bind].
  destruct ((w =? bit_size) && (n =? sname)) eqn:E; [|exact Hnext].
  intros [= <- <-]. rewrite Nat.sub_diag. split; [lia|]. split; [reflexivity|].
  apply andb_true_iff in E as [E1 E2]. apply Z.eqb_eq in E1, E2. by subst.
Qed.


Lemma tag__recode_dwarf_bitfield_base_found fuel self w s t bt p id :
  obstack s !! self = Some t -> tg_tag t = DW.TAG_base_type ->
  tg_body t = B_base_type bt ->
  cu__find_base_type_by_sname_and_size s (bt_name bt) w = Some (p, id) ->
  tag__recode_dwarf_bitfield (S fuel) self w s = Ret (u16 (Z.of_nat id)) s.
Proof.
  intros Hself Hk Hb Hfind. cbn [tag__recode_dwarf_bitfield]. run.
  rewrite Hself. run. rewrite Hk, Hb. cbn [name_at_namespace_offset].
  change (DW.TAG_base_type =? DW.TAG_typedef) with false.
  change ((DW.TAG_base_type =? DW.TAG_const_type) || (DW.TAG_base_type =? DW.TAG_volatile_type))
    with false.
  change (DW.TAG_base_type =? DW.TAG_base_type) with true. cbv iota beta.
  rewrite Hfind. reflexivity.
Qed.

Lemma tag__recode_dwarf_bitfield_base_new fuel self w s t bt m :
  obstack s !! self = Some t -> tg_tag t = DW.TAG_base_type ->
  tg_body t = B_base_type bt ->
  cu__find_base_type_by_sname_and_size s (bt_name bt) w = None ->
  mem s = S (S m) ->
  tag__recode_dwarf_bitfield (S fuel) self w s =
    Ret (to_int (Z.of_nat (length (types_table s))))
        (with_new_type (recoded_base_type (bt_name bt) w) m s).
Proof.
  intros Hself Hk Hb Hfind Hmem. cbn [tag__recode_dwarf_bitfield]. run.
  rewrite Hself. run. rewrite Hk, Hb. cbn [name_at_namespace_offset].
  change (DW.TAG_base_type =? DW.TAG_typedef) with false.
  change ((DW.TAG_base_type =? DW.TAG_const_type) || (DW.TAG_base_type =? DW.TAG_volatile_type))
    with false.
  change (DW.TAG_base_type =? DW.TAG_base_type) with true. cbv iota beta.
  rewrite Hfind. cbv beta. rewrite Hmem.
  unfold cu__add_tag, cu__table_add_tag. run.
  change (tag__is_tag_type DW.TAG_base_type) with true. cbv iota. run.
  change (0 =? 0) with true. cbv iota.
  destruct s; reflexivity.
Qed.

Lemma update_tag_type member v s tm :
  obstack s !! member = Some tm ->
  update_tag member (set_tg_type v) s = Ret tt (with_type_of member v s).
Proof.
  intros H. run. rewrite H. run. rewrite H. unfold with_type_of.
  do 2 f_equal. apply list_eq. intros i.
  destruct (decide (i = member)) as [->|Hne].
  - rewrite list_lookup_insert_eq by (eapply lookup_lt_Some; eauto).
    rewrite list_lookup_alter_eq, H. reflexivity.
  - rewrite list_lookup_insert_ne, list_lookup_alter_ne by congruence. reflexivity.
Qed.

Lemma base_type_view_set_type v o : base_type_view (set_tg_type v <$> o) = base_type_view o.
Proof. destruct o as [[? ? ? ? ? []]|]; reflexivity. Qed.

Lemma class_member__dwarf_recode_bitfield_base fuel s member w self bt :
  bitfield_over_base s member w self bt ->
  Z.of_nat (length (types_table s)) < 2 ^ 16 ->
  class_member__dwarf_recode_bitfield (S fuel) member s =
    match cu__find_base_type_by_sname_and_size s (bt_name bt) w with
    | Some (_, id) => Ret 0 (with_type_of member (Z.of_nat id) s)
    | None =>
        match mem s with
        | S (S m) =>
            Ret 0 (with_type_of member (Z.of_nat (length (types_table s)))
                     (with_new_type (recoded_base_type (bt_name bt) w) m s))
        | 1%nat => Ret (- ENOMEM) (set_obstack (take (length (obstack s))
                                                   (obstack s ++ [recoded_base_type (bt_name bt) w]))
                                     (set_mem 0 (set_obstack (obstack s ++ [recoded_base_type (bt_name bt) w]) s)))
        | O => Ret (- ENOMEM) s
        end
    end.
Proof.
  intros (tm & dm & raw & dtype & dt & t & bsz & Hm & Hpriv & Hbsz & Hw & Hdm & Hfind
          & Hdty & Hself & Ht & Hk & Hb) Hlen.
  unfold class_member__dwarf_recode_bitfield. run_to_update.
  rewrite Hm. run_to_update. rewrite Hpriv. run_to_update. rewrite Hdm. run_to_update.
  rewrite Hfind. run_to_update.
  rewrite Hdty. run_to_update. rewrite Hm. run_to_update. rewrite Hbsz, Hw, Hself.
  destruct (cu__find_base_type_by_sname_and_size s (bt_name bt) w) as [[p id]|] eqn:Hfb.
  - rewrite (tag__recode_dwarf_bitfield_base_found _ _ _ _ _ _ _ _ Ht Hk Hb Hfb).
    apply find_base_type_from_Some in Hfb as (_ & Hl & _).
    apply lookup_lt_Some in Hl.
    assert (Hu : u16 (Z.of_nat id) = Z.of_nat id).
    { unfold u16. apply Z.mod_small. unfold cu__find_base_type_by_sname_and_size in *. lia. }
    rewrite Hu. cbv beta.
    destruct (Z.of_nat id <? 0) eqn:E; [lia|]. rewrite Hu.
    rewrite (update_tag_type member (Z.of_nat id) s tm Hm). reflexivity.
  - destruct (mem s) as [|[|m]] eqn:Hmem.
    + cbn [tag__recode_dwarf_bitfield]. run. rewrite Ht. run. rewrite Hk, Hb.
      cbn [name_at_namespace_offset].
      change (DW.TAG_base_type =? DW.TAG_typedef) with false.
      change ((DW.TAG_base_type =? DW.TAG_const_type) || (DW.TAG_base_type =? DW.TAG_volatile_type))
        with false.
      change (DW.TAG_base_type =? DW.TAG_base_type) with true. cbv iota beta.
      rewrite Hfb. cbv beta. rewrite Hmem. reflexivity.
    + cbn [tag__recode_dwarf_bitfield]. run. rewrite Ht. run. rewrite Hk, Hb.
      cbn [name_at_namespace_offset].
      change (DW.TAG_base_type =? DW.TAG_typedef) with false.
      change ((DW.TAG_base_type =? DW.TAG_const_type) || (DW.TAG_base_type =? DW.TAG_volatile_type))
        with false.
      change (DW.TAG_base_type =? DW.TAG_base_type) with true. cbv iota beta.
      rewrite Hfb. cbv beta. rewrite Hmem.
      unfold cu__add_tag, cu__table_add_tag. run. reflexivity.
    + rewrite (tag__recode_dwarf_bitfield_base_new _ _ _ _ _ _ _ Ht Hk Hb Hfb Hmem).
      assert (Hu : to_int (Z.of_nat (length (types_table s))) = Z.of_nat (length (types_table s))).
      { unfold to_int. rewrite Z.mod_small; lia. }
      rewrite Hu. cbv beta.
      destruct (Z.of_nat (length (types_table s)) <? 0) eqn:E; [lia|].
      assert (Hu' : u16 (Z.of_nat (length (types_table s))) = Z.of_nat (length (types_table s)))
        by (unfold u16; apply Z.mod_small; lia).
      rewrite Hu'.
      rewrite (update_tag_type member _ _ tm); [reflexivity|].
      unfold with_new_type. cbn [obstack set_mem set_types_table set_obstack].
      rewrite lookup_app_l by (eapply lookup_lt_Some; eauto). exact Hm.
Qed.

Lemma u16_to_int z : u16 (to_int z) = u16 z.
Proof.
  unfold u16, to_int. rewrite (Z.mod_eq (z + 2 ^ 31)) by lia.
  replace (z + 2 ^ 31 - 2 ^ 32 * ((z + 2 ^ 31) / 2 ^ 32) - 2 ^ 31)
    with (z + (- 2 ^ 16 * ((z + 2 ^ 31) / 2 ^ 32)) * 2 ^ 16) by lia.
  apply Z_mod_plus_full.
Qed.

(** The same for a types table of any length: the index stored is
    reduced to 16 bits, and a new index that is negative as an [int]
    is returned as the failure it looks like. *)
Lemma class_member__dwarf_recode_bitfield_base_step fuel s member w self bt :
  bitfield_over_base s member w self bt ->
  class_member__dwarf_recode_bitfield (S fuel) member s =
    match cu__find_base_type_by_sname_and_size s (bt_name bt) w with
    | Some (_, id) => Ret 0 (with_type_of member (u16 (Z.of_nat id)) s)
    | None =>
        match mem s with
        | S (S m) =>
            let s0 := with_new_type (recoded_base_type (bt_name bt) w) m s in
            let id := to_int (Z.of_nat (length (types_table s))) in
            if id <? 0 then Ret id s0 else Ret 0 (with_type_of member (u16 id) s0)
        | 1%nat => Ret (- ENOMEM) (set_obstack (take (length (obstack s))
                                                   (obstack s ++ [recoded_base_type (bt_name bt) w]))
                                     (set_mem 0 (set_obstack (obstack s ++ [recoded_base_type (bt_name bt) w]) s)))
        | O => Ret (- ENOMEM) s
        end
    end.
Proof.
  intros (tm & dm & raw & dtype & dt & t & bsz & Hm & Hpriv & Hbsz & Hw & Hdm & Hfind
          & Hdty & Hself & Ht & Hk & Hb).
  unfold class_member__dwarf_recode_bitfield. run_to_update.
  rewrite Hm. run_to_update. rewrite Hpriv. run_to_update. rewrite Hdm. run_to_update.
  rewrite Hfind. run_to_update.
  rewrite Hdty. run_to_update. rewrite Hm. run_to_update. rewrite Hbsz, Hw, Hself.
  destruct (cu__find_base_type_by_sname_and_size s (bt_name bt) w) as [[p id]|] eqn:Hfb.
  - rewrite (tag__recode_dwarf_bitfield_base_found _ _ _ _ _ _ _ _ Ht Hk Hb Hfb).
    cbv beta.
    assert (Hpos : 0 <= u16 (Z.of_nat id)) by (unfold u16; apply Z.mod_pos_bound; lia).
    destruct (u16 (Z.of_nat id) <? 0) eqn:E; [lia|].
    assert (Hu : u16 (u16 (Z.of_nat id)) = u16 (Z.of_nat id))
      by (unfold u16; apply Z.mod_mod; lia).
    rewrite Hu.
    rewrite (update_tag_type member (u16 (Z.of_nat id)) s tm Hm). reflexivity.
  - destruct (mem s) as [|[|m]] eqn:Hmem.
    + cbn [tag__recode_dwarf_bitfield]. run. rewrite Ht. run. rewrite Hk, Hb.
      cbn [name_at_namespace_offset].
      change (DW.TAG_base_type =? DW.TAG_typedef) with false.
      change ((DW.TAG_base_type =? DW.TAG_const_type) || (DW.TAG_base_type =? DW.TAG_volatile_type))
        with false.
      change (DW.TAG_base_type =? DW.TAG_base_type) with true. cbv iota beta.
      rewrite Hfb. cbv beta. rewrite Hmem. reflexivity.
    + cbn [tag__recode_dwarf_bitfield]. run. rewrite Ht. run. rewrite Hk, Hb.
      cbn [name_at_namespace_offset].
      change (DW.TAG_base_type =? DW.TAG_typedef) with false.
      change ((DW.TAG_base_type =? DW.TAG_const_type) || (DW.TAG_base_type =? DW.TAG_volatile_type))
        with false.
      change (DW.TAG_base_type =? DW.TAG_base_type) with true. cbv iota beta.
      rewrite Hfb. cbv beta. rewrite Hmem.
      unfold cu__add_tag, cu__table_add_tag. run. reflexivity.
    + rewrite (tag__recode_dwarf_bitfield_base_new _ _ _ _ _ _ _ Ht Hk Hb Hfb Hmem).
      cbv beta zeta.
      destruct (to_int (Z.of_nat (length (types_table s))) <? 0) eqn:E; [reflexivity|].
      rewrite (update_tag_type member _ _ tm); [reflexivity|].
      unfold with_new_type. cbn [obstack set_mem set_types_table set_obstack].
      rewrite lookup_app_l by (eapply lookup_lt_Some; eauto). exact Hm.
Qed.

Lemma with_type_of_view member v s p :
  base_type_view (obstack (with_type_of member v s) !! p) = base_type_view (obstack s !! p).
Proof.
  unfold with_type_of. cbn [obstack set_obstack].
  destruct (decide (p = member)) as [->|Hne].
  - rewrite list_lookup_alter_eq. apply base_type_view_set_type.
  - rewrite list_lookup_alter_ne by congruence. reflexivity.
Qed.

Lemma find_base_with_type_of member v s sname w :
  cu__find_base_type_by_sname_and_size (with_type_of member v s) sname w =
  cu__find_base_type_by_sname_and_size s sname w.
Proof.
  unfold cu__find_base_type_by_sname_and_size.
  change (types_table (with_type_of member v s)) with (types_table s).
  apply find_base_type_from_view, Forall_forall. intros [p|] _; [|exact I].
  apply with_type_of_view.
Qed.

Lemma find_base_with_new_type s sname w m :
  types_table_wf s ->
  cu__find_base_type_by_sname_and_size s sname w = None ->
  cu__find_base_type_by_sname_and_size (with_new_type (recoded_base_type sname w) m s) sname w
  = Some (length (obstack s), length (types_table s)).
Proof.
  intros Hwf Hnone. unfold cu__find_base_type_by_sname_and_size, with_new_type in *.
  cbn [obstack types_table set_mem set_types_table set_obstack].
  rewrite find_base_type_from_app.
  rewrite (find_base_type_from_view (obstack s)), Hnone.
  - cbn [find_base_type_from]. rewrite lookup_snoc. cbn.
    rewrite !Z.eqb_refl. reflexivity.
  - eapply Forall_impl; [exact Hwf|]. intros [p|] Hp; [|exact I].
    cbn beta iota in Hp. rewrite lookup_app_l by exact Hp. reflexivity.
Qed.

Lemma bitfield_over_base_member_ne s member w self bt :
  bitfield_over_base s member w self bt -> member <> self.
Proof.
  intros (tm & dm & raw & dtype & dt & t & bsz & Hm & _ & Hbsz & _ & _ & _ & _ & _
          & Ht & _ & Hb) ->.
  rewrite Hm in Ht. injection Ht as ->. unfold bitfield_size_of in Hbsz.
  rewrite Hb in Hbsz. discriminate.
Qed.

(** Recoding one member leaves every other bit-field member as it was. *)
Lemma bitfield_over_base_frame s s' member w self bt :
  bitfield_over_base s member w self bt ->
  obstack s' !! member = obstack s !! member ->
  obstack s' !! self = obstack s !! self ->
  dcu_obstack s' = dcu_obstack s -> hash_types s' = hash_types s ->
  bitfield_over_base s' member w self bt.
Proof.
  intros (tm & dm & raw & dtype & dt & t & bsz & Hm & Hpriv & Hbsz & Hw & Hdm & Hfind
          & Hdty & Hself & Ht & Hk & Hb) Em Es Ed Eh.
  exists tm, dm, raw, dtype, dt, t, bsz. rewrite Em, Es, Ed.
  repeat split; try assumption.
  eapply dwarf_cu__find_type_by_id_frame; eauto.
Qed.

(** C3. Recoding a bit-field member over a base type looks the types
    table up for a base type of that name and of the member's width; an
    entry found gives its index, and nothing is added. Otherwise a new
    top-level base type of that name and width is allocated and added at
    the end of the types table, and its index is the result. Either way
    a second member of the same width over the same base type gets the
    same index. *)
Theorem bitfield_base_type_shared (fuel : nat) (s : cu) (m1 m2 self : nat) (w : Z)
    (bt : base_type_f) :
  bitfield_over_base s m1 w self bt ->
  bitfield_over_base s m2 w self bt ->
  m1 <> m2 ->
  types_table_wf s ->
  Z.of_nat (length (types_table s)) + 1 < 2 ^ 16 ->
  (2 <= mem s)%nat ->
  exists s1 s2 id p,
    class_member__dwarf_recode_bitfield (S fuel) m1 s = Ret 0 s1 /\
    class_member__dwarf_recode_bitfield (S fuel) m2 s1 = Ret 0 s2 /\
    tg_type <$> obstack s2 !! m1 = Some (Z.of_nat id) /\
    tg_type <$> obstack s2 !! m2 = Some (Z.of_nat id) /\
    types_table s2 !! id = Some (Some p) /\
    base_type_view (obstack s2 !! p) = Some (bt_name bt, w) /\
    match cu__find_base_type_by_sname_and_size s (bt_name bt) w with
    | Some found => found = (p, id) /\ types_table s2 = types_table s
    | None =>
        id = length (types_table s) /\ p = length (obstack s) /\
        types_table s2 = types_table s ++ [Some p] /\
        obstack s2 !! p = Some (recoded_base_type (bt_name bt) w)
    end.
Proof.
  intros H1 H2 Hne Hwf Hlen Hmem.
  pose proof (bitfield_over_base_member_ne _ _ _ _ _ H1) as Hs1.
  pose proof (bitfield_over_base_member_ne _ _ _ _ _ H2) as Hs2.
  assert (Hm1 : exists tm1, obstack s !! m1 = Some tm1)
    by (destruct H1 as (tm & ? & ? & ? & ? & ? & ? & Hm & _); eauto).
  assert (Hm2 : exists tm2, obstack s !! m2 = Some tm2)
    by (destruct H2 as (tm & ? & ? & ? & ? & ? & ? & Hm & _); eauto).
  destruct Hm1 as [tm1 Hm1], Hm2 as [tm2 Hm2].
  rewrite (class_member__dwarf_recode_bitfield_base fuel s m1 w self bt H1) by lia.
  destruct (cu__find_base_type_by_sname_and_size s (bt_name bt) w) as [[p id]|] eqn:Hfind.
  - (* an entry of that name and width exists: both members get its index *)
    set (s1 := with_type_of m1 (Z.of_nat id) s).
    assert (H2' : bitfield_over_base s1 m2 w self bt).
    { eapply bitfield_over_base_frame; [exact H2| | |reflexivity|reflexivity];
        unfold s1, with_type_of; cbn [obstack set_obstack];
        rewrite list_lookup_alter_ne by congruence; reflexivity. }
    exists s1, (with_type_of m2 (Z.of_nat id) s1), id, p.
    split; [reflexivity|].
    rewrite (class_member__dwarf_recode_bitfield_base fuel s1 m2 w self bt H2')
      by (change (types_table s1) with (types_table s); lia).
    unfold s1 at 1. rewrite find_base_with_type_of, Hfind.
    split; [reflexivity|].
    apply find_base_type_from_Some in Hfind as (_ & Hentry & Hview).
    rewrite Nat.sub_0_r in Hentry.
    unfold s1, with_type_of. cbn [obstack set_obstack types_table].
    repeat split.
    + rewrite list_lookup_alter_ne, list_lookup_alter_eq, Hm1 by congruence. reflexivity.
    + rewrite list_lookup_alter_eq, list_lookup_alter_ne, Hm2 by congruence. reflexivity.
    + exact Hentry.
    + change (base_type_view (obstack (with_type_of m2 (Z.of_nat id)
                                         (with_type_of m1 (Z.of_nat id) s)) !! p)
              = Some (bt_name bt, w)).
      rewrite !with_type_of_view. exact Hview.
  - (* no such entry: the first member synthesizes it, the second finds it *)
    destruct (mem s) as [|[|m]] eqn:Em; try lia.
    set (new := recoded_base_type (bt_name bt) w).
    set (T := length (types_table s)). set (N := length (obstack s)).
    set (s0 := with_new_type new m s).
    set (s1 := with_type_of m1 (Z.of_nat T) s0).
    assert (Hlt1 : (m1 < N)%nat) by (eapply lookup_lt_Some; eauto).
    assert (Hlt2 : (m2 < N)%nat) by (eapply lookup_lt_Some; eauto).
    assert (HltS : (self < N)%nat).
    { destruct H1 as (? & ? & ? & ? & ? & t & ? & _ & _ & _ & _ & _ & _ & _ & _ & Ht & _).
      eapply lookup_lt_Some; eauto. }
    assert (H2' : bitfield_over_base s1 m2 w self bt).
    { eapply bitfield_over_base_frame; [exact H2| | |reflexivity|reflexivity];
        unfold s1, s0, with_type_of, with_new_type;
        cbn [obstack set_obstack set_mem set_types_table];
        rewrite list_lookup_alter_ne by congruence; apply lookup_app_l; assumption. }
    assert (Hfind1 : cu__find_base_type_by_sname_and_size s1 (bt_name bt) w = Some (N, T)).
    { unfold s1. rewrite find_base_with_type_of. apply find_base_with_new_type; assumption. }
    exists s1, (with_type_of m2 (Z.of_nat T) s1), T, N.
    split; [reflexivity|].
    rewrite (class_member__dwarf_recode_bitfield_base fuel s1 m2 w self bt H2').
    2:{ change (types_table s1) with (types_table s ++ [Some N]).
        rewrite length_app. cbn [length]. fold T. lia. }
    rewrite Hfind1. split; [reflexivity|].
    unfold s1, s0, with_type_of, with_new_type.
    cbn [obstack set_obstack set_mem set_types_table types_table].
    repeat split.
    + rewrite list_lookup_alter_ne, list_lookup_alter_eq, lookup_app_l, Hm1
        by (assumption || congruence). reflexivity.
    + rewrite list_lookup_alter_eq, list_lookup_alter_ne, lookup_app_l, Hm2
        by (assumption || congruence). reflexivity.
    + apply lookup_snoc.
    + rewrite !list_lookup_alter_ne by lia. unfold N. rewrite lookup_snoc. reflexivity.
    + rewrite !list_lookup_alter_ne by lia. unfold N. apply lookup_snoc.
Qed.

Lemma tag__recode_dwarf_bitfield_enumeration_new fuel self w s t ns ty m :
  obstack s !! self = Some t -> tg_tag t = DW.TAG_enumeration_type ->
  tg_body t = B_type ns ty ->
  cu__find_enumeration_by_sname_and_size s (ns_name ns) w = None ->
  mem s = S (S m) ->
  tag__recode_dwarf_bitfield (S fuel) self w s =
    Ret (to_int (Z.of_nat (length (types_table s))))
        (with_new_type (recoded_enumeration (ns_name ns) (to_type_size w) self
                          (ty_nr_members ty)) m s).
Proof.
  intros Hself Hk Hb Hfind Hmem. cbn [tag__recode_dwarf_bitfield]. run.
  rewrite Hself. run. rewrite Hk, Hb. cbn [name_at_namespace_offset as_type].
  change (DW.TAG_enumeration_type =? DW.TAG_typedef) with false.
  change ((DW.TAG_enumeration_type =? DW.TAG_const_type)
          || (DW.TAG_enumeration_type =? DW.TAG_volatile_type)) with false.
  change (DW.TAG_enumeration_type =? DW.TAG_base_type) with false.
  change (DW.TAG_enumeration_type =? DW.TAG_enumeration_type) with true. cbv iota beta.
  rewrite Hfind. cbv beta. rewrite Hmem.
  unfold cu__add_tag, cu__table_add_tag. run.
  change (tag__is_tag_type DW.TAG_enumeration_type) with true. cbv iota. run.
  change (0 =? 0) with true. cbv iota.
  destruct s; reflexivity.
Qed.

Lemma tag__recode_dwarf_bitfield_enumeration_found fuel self w s t ns ty found id :
  obstack s !! self = Some t -> tg_tag t = DW.TAG_enumeration_type ->
  tg_body t = B_type ns ty ->
  cu__find_enumeration_by_sname_and_size s (ns_name ns) w = Some (found, id) ->
  tag__recode_dwarf_bitfield (S fuel) self w s = Ret (u16 (Z.of_nat id)) s.
Proof.
  intros Hself Hk Hb Hfind. cbn [tag__recode_dwarf_bitfield]. run.
  rewrite Hself. run. rewrite Hk, Hb. cbn [name_at_namespace_offset as_type].
  change (DW.TAG_enumeration_type =? DW.TAG_typedef) with false.
  change ((DW.TAG_enumeration_type =? DW.TAG_const_type)
          || (DW.TAG_enumeration_type =? DW.TAG_volatile_type)) with false.
  change (DW.TAG_enumeration_type =? DW.TAG_base_type) with false.
  change (DW.TAG_enumeration_type =? DW.TAG_enumeration_type) with true. cbv iota beta.
  rewrite Hfind. reflexivity.
Qed.

(** What is known of an entry that the lookup of an enumeration gives:
    its place in the types table, its kind, its name and its size. *)
Lemma find_enumeration_from_Some heap entries sname bit_size found id : forall first,
  find_enumeration_from heap entries first sname bit_size = Some (found, id) ->
  (first <= id)%nat /\ entries !! (id - first)%nat = Some (Some found) /\
  exists e ens ety,
    heap !! found = Some e /\ tg_tag e = DW.TAG_enumeration_type /\
    tg_body e = B_type ens ety /\ ns_name ens = sname /\ ty_size ety = bit_size.
Proof.
  induction entries as [|x entries IH]; intros first; cbn [find_enumeration_from];
    [discriminate|].
  assert (Hnext : find_enumeration_from heap entries (S first) sname bit_size = Some (found, id) ->
                  (first <= id)%nat /\ (x :: entries) !! (id - first)%nat = Some (Some found) /\
                  exists e ens ety,
                    heap !! found = Some e /\ tg_tag e = DW.TAG_enumeration_type /\
                    tg_body e = B_type ens ety /\ ns_name ens = sname /\
                    ty_size ety = bit_size).
  { intros H. apply IH in H as (Hle & Hat & Hrest). split; [lia|]. split; [|exact Hrest].
    replace (id - first)%nat with (S (id - S first)) by lia. exact Hat. }
  destruct x as [p|]; [|exact Hnext].
  destruct (heap !! p) as [[ty0 k tl rl pr body]|] eqn:Hp; [|exact Hnext].
  destruct body; try exact Hnext.
  match goal with
  | |- context [if ?c then _ else _] => destruct c eqn:Hmatch; [|exact Hnext]
  end.
  intros H. injection H as <- <-.
  apply andb_true_iff in Hmatch as [Hmatch Hname].
  apply andb_true_iff in Hmatch as [Hkind Hsize].
  apply Z.eqb_eq in Hkind, Hsize, Hname.
  split; [lia|]. split; [by rewrite Nat.sub_diag|].
  eexists _, _, _. split; [exact Hp|]. cbn. auto.
Qed.

(** C7 (as amended). Recoding an enumeration for a width looks the
    types table up for an enumeration of the original's name and of
    that size. When there is none, an enumeration is added that is
    marked [shared_tags], whose list head points at the list of the
    original, with the original's enumerator count and the width as its
    size: both report the same enumerators (the same objects), and an
    enumerator added to the original afterwards is seen through the
    recoded one, the list being shared and not copied. When there is
    one, its index is the result and nothing is allocated: of that
    entry only the kind, the name and the size are those asked for. *)
Theorem recoded_enumeration_shares_enumerators (fuel : nat) (s : cu) (self : nat)
    (t : tag) (ns : namespace_f) (ty : type_f) (enumerators : list nat) (w : Z) (m : nat) :
  obstack s !! self = Some t -> tg_tag t = DW.TAG_enumeration_type ->
  tg_body t = B_type ns ty ->
  ns_tags ns = LH_entries enumerators -> ns_shared_tags ns = false ->
  mem s = S (S m) ->
  match cu__find_enumeration_by_sname_and_size s (ns_name ns) w with
  | Some (found, id) =>
      tag__recode_dwarf_bitfield (S fuel) self w s = Ret (u16 (Z.of_nat id)) s /\
      types_table s !! id = Some (Some found) /\
      exists e ens ety,
        obstack s !! found = Some e /\ tg_tag e = DW.TAG_enumeration_type /\
        tg_body e = B_type ens ety /\ ns_name ens = ns_name ns /\ ty_size ety = w
  | None =>
      let recoded := length (obstack s) in
      exists s' e ens ety,
        tag__recode_dwarf_bitfield (S fuel) self w s =
          Ret (to_int (Z.of_nat (length (types_table s)))) s' /\
        types_table s' = types_table s ++ [Some recoded] /\
        obstack s' !! recoded = Some e /\
        tg_tag e = DW.TAG_enumeration_type /\ tg_body e = B_type ens ety /\
        ns_shared_tags ens = true /\
        ns_tags ens = LH_next_is_head_of self /\
        ns_name ens = ns_name ns /\
        ty_nr_members ety = ty_nr_members ty /\
        ty_size ety = to_type_size w /\
        type__enumerators (obstack s') self = Some enumerators /\
        type__enumerators (obstack s') recoded = Some enumerators /\
        (forall enumerator s'',
           enumeration__add self enumerator s' = Ret tt s'' ->
           type__enumerators (obstack s'') recoded = Some (enumerators ++ [enumerator]))
  end.
Proof.
  intros Hself Hk Hb Htags Hshared Hmem.
  destruct (cu__find_enumeration_by_sname_and_size s (ns_name ns) w) as [[found id]|] eqn:Hfind.
  { split; [eapply tag__recode_dwarf_bitfield_enumeration_found; eauto|].
    unfold cu__find_enumeration_by_sname_and_size in Hfind.
    apply find_enumeration_from_Some in Hfind as (_ & Hat & Hrest).
    rewrite Nat.sub_0_r in Hat. split; [exact Hat|exact Hrest]. }
  intros recoded.
  assert (Hlt : (self < length (obstack s))%nat) by (eapply lookup_lt_Some; eauto).
  eexists _, _, _, _.
  split; [eapply tag__recode_dwarf_bitfield_enumeration_new; eauto|].
  unfold with_new_type. cbn [obstack types_table set_mem set_types_table set_obstack].
  split; [reflexivity|]. split; [apply lookup_snoc|].
  split; [reflexivity|]. split; [reflexivity|].
  split; [reflexivity|]. split; [reflexivity|].
  split; [reflexivity|]. split; [reflexivity|]. split; [reflexivity|].
  set (r := recoded_enumeration (ns_name ns) (to_type_size w) self (ty_nr_members ty)).
  assert (Hown : type__enumerators (obstack s ++ [r]) self = Some enumerators).
  { unfold type__enumerators. rewrite lookup_app_l, Hself by exact Hlt.
    cbn [mbind option_bind]. rewrite Hb. cbn [as_namespace mbind option_bind].
    rewrite Hshared, Htags. reflexivity. }
  split; [exact Hown|]. split.
  - unfold type__enumerators at 1. unfold recoded. rewrite lookup_snoc.
    cbn [mbind option_bind r recoded_enumeration tg_body as_namespace ns_shared_tags ns_tags].
    rewrite lookup_app_l, Hself by exact Hlt.
    cbn [mbind option_bind]. rewrite Hb. cbn [as_namespace mbind option_bind].
    rewrite Htags. reflexivity.
  - intros enumerator s''. unfold enumeration__add, namespace__add_tag.
    set (heap := obstack s ++ [r]).
    assert (L : heap !! self = Some t) by (unfold heap; rewrite lookup_app_l, Hself; auto).
    assert (Hlt' : (self < length heap)%nat) by (eapply lookup_lt_Some; eauto).
    run. fold heap. rewrite L, Hb. cbn [with_type]. run. rewrite L. run.
    rewrite list_lookup_insert_eq by exact Hlt'. run.
    cbn [with_namespace ns_tags]. rewrite Htags.
    cbn [list_add_tail mbind option_bind]. run.
    rewrite list_lookup_insert_eq by exact Hlt'.
    intros [= <-]. unfold type__enumerators, recoded. cbn [obstack set_obstack].
    rewrite list_insert_insert_eq.
    rewrite list_lookup_insert_ne by lia.
    replace (heap !! length (obstack s)) with (Some r)
      by (unfold heap; rewrite lookup_snoc; reflexivity).
    cbn [mbind option_bind r recoded_enumeration tg_body as_namespace ns_shared_tags ns_tags].
    rewrite list_lookup_insert_eq by exact Hlt'.
    reflexivity.
Qed.

(** ** Running the resolver again *)

Lemma same_tables_refl s : same_tables s s.
Proof. repeat split. Qed.

Lemma same_tables_stderr ds s : same_tables s (set_stderr ds s).
Proof. repeat split. Qed.

Lemma hashtags__find_in_outcome chain id s :
  (exists r, hashtags__find_in chain id s = Ret r s) \/ hashtags__find_in chain id s = Undef.
Proof.
  induction chain as [|tpos chain IH]; cbn [hashtags__find_in]; run.
  - left. eauto.
  - destruct (dcu_obstack s !! tpos) as [d|]; [|right; reflexivity].
    destruct (dt_id d =? id); [left; eauto|exact IH].
Qed.

Lemma hashtags__find_in_undef chain id s s' :
  dcu_obstack s' = dcu_obstack s ->
  hashtags__find_in chain id s = Undef -> hashtags__find_in chain id s' = Undef.
Proof.
  intros Hd. induction chain as [|tpos chain IH]; cbn [hashtags__find_in]; run.
  - discriminate.
  - rewrite Hd. destruct (dcu_obstack s !! tpos) as [d|]; [|reflexivity].
    destruct (dt_id d =? id); [discriminate|exact IH].
Qed.

Lemma dwarf_cu__find_type_by_id_outcome id s :
  (exists r, dwarf_cu__find_type_by_id id s = Ret r s)
  \/ dwarf_cu__find_type_by_id id s = Undef.
Proof.
  unfold dwarf_cu__find_type_by_id, hashtags__find. run.
  destruct (id =? 0); [left; eauto|]. apply hashtags__find_in_outcome.
Qed.

Lemma dwarf_cu__find_type_by_id_undef id s s' :
  dcu_obstack s' = dcu_obstack s -> hash_types s' = hash_types s ->
  dwarf_cu__find_type_by_id id s = Undef -> dwarf_cu__find_type_by_id id s' = Undef.
Proof.
  intros Hd Hh. unfold dwarf_cu__find_type_by_id, hashtags__find. run. rewrite Hh.
  destruct (id =? 0); [discriminate|]. apply hashtags__find_in_undef. exact Hd.
Qed.

Lemma plain_target_frame s s' raw :
  dcu_obstack s' = dcu_obstack s -> hash_types s' = hash_types s ->
  plain_target s' raw =
    match plain_target s raw with
    | Ret v _ => Ret v s'
    | Undef => Undef
    | Abort => Abort
    | NoFuel => NoFuel
    end.
Proof.
  intros Hd Hh. unfold plain_target. destruct (dt_type raw =? 0); [reflexivity|].
  destruct (dwarf_cu__find_type_by_id_outcome (dt_type raw) s) as [[r Hfind]|Hfind].
  - rewrite Hfind, (dwarf_cu__find_type_by_id_frame _ _ _ _ Hd Hh Hfind), Hd.
    destruct r as [dtype|]; [|reflexivity].
    destruct (dcu_obstack s !! dtype); reflexivity.
  - rewrite Hfind, (dwarf_cu__find_type_by_id_undef _ _ _ Hd Hh Hfind). reflexivity.
Qed.

Lemma with_type_of_lookup self v s t :
  obstack s !! self = Some t ->
  obstack (with_type_of self v s) !! self = Some (set_tg_type v t).
Proof.
  intros H. unfold with_type_of. cbn [obstack set_obstack].
  rewrite list_lookup_alter_eq, H. reflexivity.
Qed.

(** *** The steps of the resolver on a simple CU *)

Lemma namespace__recode_dwarf_types_unfold fuel self :
  namespace__recode_dwarf_types (S fuel) self =
    (t ← load_tag self;
     match as_namespace (tg_body t) with
     | Some (mkNamespace _ _ _ _ (LH_entries tags)) => namespace_loop fuel tags
     | _ => undef
     end).
Proof. reflexivity. Qed.

Lemma type__recode_dwarf_specification_named self s t dtag raw :
  obstack s !! self = Some t -> tg_priv t = Some dtag -> dcu_obstack s !! dtag = Some raw ->
  named_or_unspecified t raw -> tag__is_type (tg_tag t) = true ->
  type__recode_dwarf_specification self s = Ret tt s.
Proof.
  intros Hself Hpriv Hraw Hnamed Htype.
  destruct (Hnamed Htype) as (ns & sp & Hns & Hsp & Hor).
  unfold type__recode_dwarf_specification, dwarf_tag__spec. run_to_update.
  rewrite Hself. run_to_update. rewrite Hself. run_to_update. rewrite Hpriv. run_to_update.
  rewrite Hraw. run_to_update. rewrite Hsp. run_to_update. rewrite Hns.
  destruct Hor as [Hname | ->].
  - apply Z.eqb_neq in Hname. rewrite Hname. reflexivity.
  - rewrite orb_true_r. reflexivity.
Qed.

Lemma specification_step self s t dtag raw :
  obstack s !! self = Some t -> tg_priv t = Some dtag -> dcu_obstack s !! dtag = Some raw ->
  named_or_unspecified t raw ->
  (if tag__is_type (tg_tag t) then type__recode_dwarf_specification self
   else fun s0 : cu => Ret tt s0) s = Ret tt s.
Proof.
  intros. destruct (tag__is_type (tg_tag t)) eqn:Htype; [|reflexivity].
  eapply type__recode_dwarf_specification_named; eauto.
Qed.

Lemma tag__recode_dwarf_type_lookup fuel self s t dtag raw :
  obstack s !! self = Some t -> lookup_kind (tg_tag t) = true ->
  tg_priv t = Some dtag -> dcu_obstack s !! dtag = Some raw ->
  named_or_unspecified t raw ->
  tag__recode_dwarf_type fuel self s =
    match plain_target s raw with
    | Ret (Some v) _ => Ret 0 (with_type_of self v s)
    | Ret None _ =>
        Ret 0 (set_stderr (stderr s ++ [Diag_type_not_found "tag__recode_dwarf_type"
                                          (dt_type raw) (dt_id raw) (tg_tag t)]) s)
    | Undef => Undef
    | Abort => Abort
    | NoFuel => NoFuel
    end.
Proof.
  intros Hself Hk Hpriv Hraw Hnamed.
  unfold lookup_kind in Hk. apply negb_true_iff in Hk.
  rewrite !orb_false_iff in Hk.
  repeat match goal with H : _ /\ _ |- _ => destruct H end.
  assert (Hnamespace : (tg_tag t =? DW.TAG_namespace) = false).
  { match goal with H : tag__has_namespace _ = false |- _ =>
      unfold tag__has_namespace, tag__is_namespace in H; rewrite !orb_false_iff in H;
      apply H
    end. }
  unfold tag__recode_dwarf_type. run_to_update. rewrite Hself. run_to_update.
  rewrite Hpriv.
  rewrite (specification_step self s t dtag raw) by assumption.
  repeat match goal with E : _ = false |- _ => rewrite E; clear E end.
  cbn [orb]. run_to_update. rewrite Hraw. run_to_update.
  unfold plain_target.
  destruct (dt_type raw =? 0).
  - rewrite (update_tag_type self 0 s t Hself). reflexivity.
  - rewrite Hraw. run_to_update.
    destruct (dwarf_cu__find_type_by_id (dt_type raw) s) as [[dtype|] s'| | |] eqn:Hfind;
      try reflexivity.
    + apply dwarf_cu__find_type_by_id_state in Hfind as Hs. subst s'.
      unfold set_type_from_small_id. run_to_update.
      destruct (dcu_obstack s !! dtype) as [d|]; [|reflexivity].
      rewrite (update_tag_type self _ s t Hself). reflexivity.
    + apply dwarf_cu__find_type_by_id_state in Hfind as Hs. subst s'.
      unfold __tag__print_type_not_found. run. rewrite Hself. run. rewrite Hself. run.
      rewrite Hpriv. run. rewrite Hraw. run. reflexivity.
Qed.

Lemma tag__recode_dwarf_type_added fuel self s t :
  obstack s !! self = Some t -> tg_priv t = None ->
  tag__recode_dwarf_type fuel self s = Ret 0 s.
Proof.
  intros Hself Hpriv. unfold tag__recode_dwarf_type. run_to_update.
  rewrite Hself. run_to_update. rewrite Hpriv. reflexivity.
Qed.

Lemma children_of_namespace t children :
  children_of t = Some children ->
  exists a b c d, as_namespace (tg_body t) = Some (mkNamespace a b c d (LH_entries children)).
Proof.
  unfold children_of. destruct (as_namespace (tg_body t)) as [[a b c d tags]|]; [|discriminate].
  cbn. destruct tags; try discriminate. intros [= ->]. eauto.
Qed.

Lemma tag__recode_dwarf_type_aggregate fuel self s t dtag raw children :
  obstack s !! self = Some t -> tag__has_namespace (tg_tag t) = true ->
  tg_priv t = Some dtag -> dcu_obstack s !! dtag = Some raw ->
  named_or_unspecified t raw -> children_of t = Some children ->
  tag__recode_dwarf_type fuel self s =
    match fuel with
    | O => NoFuel
    | S fuel => namespace_loop fuel children s
    end.
Proof.
  intros Hself Hk Hpriv Hraw Hnamed Hchildren.
  destruct (children_of_namespace _ _ Hchildren) as (a & b & c & d & Hns).
  unfold tag__recode_dwarf_type. run_to_update. rewrite Hself. run_to_update.
  rewrite Hpriv.
  rewrite (specification_step self s t dtag raw) by assumption.
  rewrite Hk. destruct fuel as [|fuel]; [reflexivity|].
  rewrite namespace__recode_dwarf_types_unfold. run_to_update.
  rewrite Hself. run_to_update. rewrite Hns. reflexivity.
Qed.

Lemma is_child_kinds k :
  is_child k = true ->
  tag__has_namespace k = false /\
  ((k =? DW.TAG_subroutine_type) || (k =? DW.TAG_subprogram)) = false /\
  (k =? DW.TAG_imported_module) = false /\ (k =? DW.TAG_imported_declaration) = false /\
  (k = DW.TAG_member \/ (k =? DW.TAG_member) = false).
Proof.
  unfold is_child. intros H. apply orb_true_iff in H.
  destruct H as [H | H]; apply Z.eqb_eq in H; subst k; repeat split; auto.
Qed.

(** A child resolved by the lookup. *)
Lemma namespace_loop_cons_lookup fuel c rest s t dtag raw :
  obstack s !! c = Some t -> is_child (tg_tag t) = true ->
  (tg_tag t = DW.TAG_member -> bitfield_size_of t = Some 0) ->
  tg_priv t = Some dtag -> dcu_obstack s !! dtag = Some raw ->
  namespace_loop fuel (c :: rest) s =
    match plain_target s raw with
    | Ret (Some v) _ =>
        namespace_loop fuel rest (if dt_type raw =? 0 then s else with_type_of c v s)
    | Ret None _ =>
        namespace_loop fuel rest
          (set_stderr (stderr s ++ [Diag_type_not_found "namespace__recode_dwarf_types"
                                      (dt_type raw) (dt_id raw) (tg_tag t)]) s)
    | Undef => Undef
    | Abort => Abort
    | NoFuel => NoFuel
    end.
Proof.
  intros Hc Hk Hplain Hpriv Hraw.
  destruct (is_child_kinds _ Hk) as (Hns & Hft & Him & Hid & Hmember).
  cbn [namespace_loop]. run_to_update. rewrite Hc. run_to_update.
  rewrite Hns.
  assert (Hafter :
    forall (k : M Z), 
      (dpos ← tag__priv c; d ← load_dtag dpos;
       if dt_type d =? 0 then namespace_loop fuel rest
       else (dtype ← dwarf_cu__find_type_by_id (dt_type d);
             match dtype with
             | None =>
                 _ ← __tag__print_type_not_found c "namespace__recode_dwarf_types";
                 namespace_loop fuel rest
             | Some dtype => _ ← set_type_from_small_id c dtype; namespace_loop fuel rest
             end)) s =
      match plain_target s raw with
      | Ret (Some v) _ =>
          namespace_loop fuel rest (if dt_type raw =? 0 then s else with_type_of c v s)
      | Ret None _ =>
          namespace_loop fuel rest
            (set_stderr (stderr s ++ [Diag_type_not_found "namespace__recode_dwarf_types"
                                        (dt_type raw) (dt_id raw) (tg_tag t)]) s)
      | Undef => Undef
      | Abort => Abort
      | NoFuel => NoFuel
      end).
  { intros _. run_to_update. rewrite Hc. run_to_update. rewrite Hpriv. run_to_update.
    rewrite Hraw. run_to_update. unfold plain_target.
    destruct (dt_type raw =? 0); [reflexivity|].
    destruct (dwarf_cu__find_type_by_id (dt_type raw) s) as [[dtype|] s'| | |] eqn:Hfind;
      try reflexivity.
    - apply dwarf_cu__find_type_by_id_state in Hfind as Hs. subst s'.
      unfold set_type_from_small_id. run_to_update.
      destruct (dcu_obstack s !! dtype) as [d|]; [|reflexivity].
      rewrite (update_tag_type c _ s t Hc). reflexivity.
    - apply dwarf_cu__find_type_by_id_state in Hfind as Hs. subst s'.
      unfold __tag__print_type_not_found. run. rewrite Hc. run. rewrite Hc. run.
      rewrite Hpriv. run. rewrite Hraw. run. reflexivity. }
  destruct Hmember as [Hm | Hm].
  - rewrite Hm. change (DW.TAG_member =? DW.TAG_member) with true. cbv iota.
    rewrite <- Hm. rewrite (Hplain Hm). change (negb (0 =? 0)) with false. cbv iota.
    apply (Hafter (mret 0)).
  - rewrite Hm, Hft, Him, Hid. apply (Hafter (mret 0)).
Qed.

(** A bit-field child. *)
Lemma namespace_loop_cons_bitfield fuel c rest s t b :
  obstack s !! c = Some t -> tg_tag t = DW.TAG_member ->
  bitfield_size_of t = Some b -> b <> 0 ->
  namespace_loop fuel (c :: rest) s =
    match class_member__dwarf_recode_bitfield fuel c s with
    | Ret r s' => if negb (r =? 0) then Ret (-1) s' else namespace_loop fuel rest s'
    | Undef => Undef
    | Abort => Abort
    | NoFuel => NoFuel
    end.
Proof.
  intros Hc Hk Hb Hne. apply Z.eqb_neq in Hne.
  cbn [namespace_loop]. run_to_update. rewrite Hc. run_to_update.
  rewrite Hk. change (tag__has_namespace DW.TAG_member) with false.
  change (DW.TAG_member =? DW.TAG_member) with true. cbv iota.
  rewrite Hb, Hne. cbn [negb].
  destruct (class_member__dwarf_recode_bitfield fuel c s) as [r s'| | |]; try reflexivity.
  destruct (negb (r =? 0)); reflexivity.
Qed.

Lemma set_tg_type_same x : set_tg_type (tg_type x) x = x.
Proof. destruct x; reflexivity. Qed.

Lemma set_tg_type_twice v v' x : set_tg_type v' (set_tg_type v x) = set_tg_type v' x.
Proof. destruct x; reflexivity. Qed.

Lemma set_stderr_same s : set_stderr (stderr s) s = s.
Proof. destruct s; reflexivity. Qed.

Lemma set_stderr_twice ds ds' s : set_stderr ds' (set_stderr ds s) = set_stderr ds' s.
Proof. destruct s; reflexivity. Qed.

(** *** [evolves] *)

Lemma evolves_refl s : evolves s s.
Proof.
  repeat split; auto. intros p x Hp. exists (tg_type x). by rewrite set_tg_type_same.
Qed.

Lemma evolves_trans s1 s2 s3 : evolves s1 s2 -> evolves s2 s3 -> evolves s1 s3.
Proof.
  intros (Hd & Hh & Ho & Hf) (Hd' & Hh' & Ho' & Hf').
  repeat split; try congruence.
  - intros p x Hp. destruct (Ho p x Hp) as [v Hv]. destruct (Ho' _ _ Hv) as [v' Hv'].
    exists v'. by rewrite Hv', set_tg_type_twice.
  - intros n w found H. apply Hf', Hf, H.
Qed.

Lemma evolves_stderr ds s : evolves s (set_stderr ds s).
Proof.
  repeat split; auto. intros p x Hp. exists (tg_type x). by rewrite set_tg_type_same.
Qed.

Lemma evolves_with_type_of q v s : evolves s (with_type_of q v s).
Proof.
  repeat split; auto.
  - intros p x Hp. unfold with_type_of. cbn [obstack set_obstack].
    destruct (decide (p = q)) as [->|Hne].
    + exists v. by rewrite list_lookup_alter_eq, Hp.
    + exists (tg_type x). rewrite list_lookup_alter_ne by congruence.
      by rewrite set_tg_type_same.
  - intros n w found H. by rewrite find_base_with_type_of.
Qed.

Lemma find_base_type_from_heap_app heap extra entries : forall id sname w,
  Forall (fun e => match e with
                   | Some p => (p < length heap)%nat
                   | None => True
                   end) entries ->
  find_base_type_from (heap ++ extra) entries id sname w
  = find_base_type_from heap entries id sname w.
Proof.
  intros id sname w Hwf. apply find_base_type_from_view.
  eapply Forall_impl; [exact Hwf|]. intros [p|] Hp; [|exact I].
  cbv beta iota in Hp. by rewrite lookup_app_l.
Qed.

Lemma find_base_kept_with_new_type recoded m s n w found :
  types_table_wf s ->
  cu__find_base_type_by_sname_and_size s n w = Some found ->
  cu__find_base_type_by_sname_and_size (with_new_type recoded m s) n w = Some found.
Proof.
  intros Hwf H. unfold cu__find_base_type_by_sname_and_size, with_new_type in *.
  cbn [obstack types_table set_mem set_types_table set_obstack].
  rewrite find_base_type_from_app, find_base_type_from_heap_app by exact Hwf.
  by rewrite H.
Qed.

Lemma evolves_with_new_type recoded m s :
  types_table_wf s -> evolves s (with_new_type recoded m s).
Proof.
  intros Hwf. repeat split; auto.
  - intros p x Hp. exists (tg_type x). rewrite set_tg_type_same.
    unfold with_new_type. cbn [obstack set_mem set_types_table set_obstack].
    rewrite lookup_app_l; [exact Hp|]. eapply lookup_lt_Some; eauto.
  - intros n w found H. by apply find_base_kept_with_new_type.
Qed.

(** *** What [evolves] keeps *)

Lemma bitfield_size_of_set_type v x : bitfield_size_of (set_tg_type v x) = bitfield_size_of x.
Proof. destruct x; reflexivity. Qed.

Lemma bitfield_width_set_type v x : bitfield_width (set_tg_type v x) = bitfield_width x.
Proof. destruct x; reflexivity. Qed.

Lemma children_of_set_type v x : children_of (set_tg_type v x) = children_of x.
Proof. destruct x; reflexivity. Qed.

Lemma named_or_unspecified_set_type v x raw :
  named_or_unspecified x raw -> named_or_unspecified (set_tg_type v x) raw.
Proof. destruct x; exact id. Qed.

Lemma bitfield_over_base_evolves s s' c w self bt :
  evolves s s' -> bitfield_over_base s c w self bt -> bitfield_over_base s' c w self bt.
Proof.
  intros (Hd & Hh & Ho & _)
    (tm & dm & raw & dtype & dt & t & bsz & Hm & Hpriv & Hbsz & Hw & Hdm & Hfind
     & Hdty & Hself & Ht & Hk & Hb).
  destruct (Ho _ _ Hm) as [v Hm']. destruct (Ho _ _ Ht) as [v' Ht'].
  exists (set_tg_type v tm), dm, raw, dtype, dt, (set_tg_type v' t), bsz.
  rewrite Hd, bitfield_size_of_set_type.
  repeat split; try assumption; try (destruct tm; assumption); try (destruct t; assumption).
  eapply dwarf_cu__find_type_by_id_frame; eauto.
Qed.

Lemma child_ok_evolves s s' c : evolves s s' -> child_ok s c -> child_ok s' c.
Proof.
  intros He (t & dtag & raw & Hc & Hk & Hpriv & Hraw & Hmember).
  pose proof He as (Hd & Hh & Ho & _).
  destruct (Ho _ _ Hc) as [v Hc'].
  exists (set_tg_type v t), dtag, raw. rewrite Hd, bitfield_size_of_set_type.
  repeat split; try assumption; try (destruct t; assumption).
  intros Hm. destruct Hmember as (b & Hb & Hbit); [destruct t; exact Hm|].
  exists b. split; [exact Hb|]. intros Hne. destruct (Hbit Hne) as (self & bt & Hover).
  exists self, bt. eapply bitfield_over_base_evolves; eauto.
Qed.

Lemma entry_ok_evolves s s' e : evolves s s' -> entry_ok s e -> entry_ok s' e.
Proof.
  intros He (t & He1 & Hk & Hrest).
  pose proof He as (Hd & Hh & Ho & _).
  destruct (Ho _ _ He1) as [v He1'].
  exists (set_tg_type v t). split; [exact He1'|]. split; [destruct t; exact Hk|].
  intros dtag Hpriv. destruct (Hrest dtag) as (raw & Hraw & Hnamed & Hkind);
    [destruct t; exact Hpriv|].
  exists raw. rewrite Hd. split; [exact Hraw|].
  split; [by apply named_or_unspecified_set_type|].
  replace (tg_tag (set_tg_type v t)) with (tg_tag t) by (destruct t; reflexivity).
  destruct (tag__has_namespace (tg_tag t)); [|exact Hkind].
  destruct Hkind as (children & Hchildren & Hall).
  exists children. rewrite children_of_set_type. split; [exact Hchildren|].
  eapply Forall_impl; [exact Hall|]. intros c. by apply child_ok_evolves.
Qed.

Lemma lookup_settled_evolves entry s s' t raw :
  evolves s s' -> lookup_settled entry s t raw -> lookup_settled entry s' t raw.
Proof.
  intros (Hd & Hh & _ & _). unfold lookup_settled.
  rewrite (plain_target_frame s s' raw Hd Hh).
  destruct (plain_target s raw) as [[v|] s0| | |]; auto.
Qed.

Lemma child_settled_frame s s' c :
  evolves s s' -> obstack s' !! c = obstack s !! c ->
  child_settled s c -> child_settled s' c.
Proof.
  intros He Hsame (t & dtag & raw & Hc & Hpriv & Hraw & Hsettled).
  pose proof He as (Hd & Hh & _ & Hf).
  exists t, dtag, raw. rewrite Hsame, Hd. repeat split; try assumption.
  destruct (bitfield_width t) as [w|].
  - destruct Hsettled as (self & bt & found & Hover & Hfound & Htype).
    exists self, bt, found. repeat split; auto.
    eapply bitfield_over_base_evolves; eauto.
  - eapply lookup_settled_evolves; eauto.
Qed.

Lemma entry_settled_frame s s' e :
  evolves s s' -> obstack s' !! e = obstack s !! e ->
  (forall c, child_settled s c -> child_settled s' c) ->
  entry_settled s e -> entry_settled s' e.
Proof.
  intros He Hsame Hchild (t & He1 & Hrest).
  pose proof He as (Hd & Hh & _ & Hf).
  exists t. rewrite Hsame. split; [exact He1|].
  intros dtag Hpriv. destruct (Hrest dtag Hpriv) as (raw & Hraw & Hsettled).
  exists raw. rewrite Hd. split; [exact Hraw|].
  destruct (tag__has_namespace (tg_tag t)).
  - destruct Hsettled as (children & Hchildren & Hall).
    exists children. split; [exact Hchildren|].
    eapply Forall_impl; [exact Hall|]. exact Hchild.
  - eapply lookup_settled_evolves; eauto.
Qed.

(** *** [resolves] *)

Lemma entry_settled_keep s s' e :
  evolves s s' -> entry_ok s e ->
  (forall c, child_ok s c -> child_settled s c -> child_settled s' c) ->
  (forall t, obstack s !! e = Some t -> tag__has_namespace (tg_tag t) = false ->
             obstack s' !! e = Some t) ->
  entry_settled s e -> entry_settled s' e.
Proof.
  intros He (t & He1 & Hk & Hok) Hchild Hsame (t' & He1' & Hsettled).
  assert (t' = t) by congruence. subst t'.
  pose proof He as (Hd & Hh & Ho & _).
  destruct (tag__has_namespace (tg_tag t)) eqn:Hns.
  - destruct (Ho _ _ He1) as [v Hv]. exists (set_tg_type v t). split; [exact Hv|].
    intros dtag Hpriv. assert (Hpriv' : tg_priv t = Some dtag) by (destruct t; exact Hpriv).
    destruct (Hok dtag Hpriv') as (raw & Hraw & _ & Hkind).
    destruct (Hsettled dtag Hpriv') as (raw' & Hraw' & Hset).
    assert (raw' = raw) by congruence. subst raw'.
    exists raw. rewrite Hd. split; [exact Hraw|].
    replace (tg_tag (set_tg_type v t)) with (tg_tag t) by (destruct t; reflexivity).
    rewrite Hns in *. destruct Hkind as (children & Hchildren & Hall).
    destruct Hset as (children' & Hchildren' & Hall').
    assert (children' = children) by congruence. subst children'.
    exists children. rewrite children_of_set_type. split; [exact Hchildren|].
    rewrite Forall_forall in *. intros c Hc. apply Hchild; auto.
  - exists t. split; [apply Hsame; assumption|].
    intros dtag Hpriv. destruct (Hsettled dtag Hpriv) as (raw & Hraw & Hset).
    exists raw. rewrite Hd. split; [exact Hraw|]. rewrite Hns in *.
    eapply lookup_settled_evolves; eauto.
Qed.

Lemma resolves_intro s s' new :
  evolves s s' ->
  (simple_cu s -> simple_cu s') ->
  (forall c, child_ok s c -> child_settled s c -> child_settled s' c) ->
  (forall e t, obstack s !! e = Some t -> is_child (tg_tag t) = false ->
               tag__has_namespace (tg_tag t) = false ->
               entry_settled s e -> entry_settled s' e) ->
  tags_table s' = tags_table s -> functions_table s' = functions_table s ->
  types_table s' = types_table s ++ new ->
  Forall (fun x => exists e, x = Some e /\ entry_ok s' e /\ entry_settled s' e) new ->
  resolves s s'.
Proof.
  intros He Hsimple Hchild Hentry Htags Hfunctions Htypes Hnew.
  split; [exact He|]. split; [exact Hsimple|]. split; [exact Hchild|].
  split; [|split; [exact Htags|split; [exact Hfunctions|exists new; auto]]].
  intros e Hok Hsettled. pose proof Hok as (t & He1 & Hk & _).
  destruct (tag__has_namespace (tg_tag t)) eqn:Hns.
  - eapply entry_settled_keep; eauto. intros t' Ht'. congruence.
  - eapply Hentry; eauto.
Qed.

Lemma resolves_refl s : resolves s s.
Proof.
  apply (resolves_intro s s []); auto using evolves_refl, app_nil_r.
Qed.

Lemma resolves_trans s1 s2 s3 : simple_cu s1 -> resolves s1 s2 -> resolves s2 s3 -> resolves s1 s3.
Proof.
  intros Hs1 (He & Hsimple & Hchild & Hentry & Htags & Hfunctions & new & Htypes & Hnew)
    (He' & Hsimple' & Hchild' & Hentry' & Htags' & Hfunctions' & new' & Htypes' & Hnew').
  split; [eapply evolves_trans; eauto|]. split; [auto|].
  split; [intros c Hok Hset; apply Hchild'; [eapply child_ok_evolves; eauto|auto]|].
  split; [intros e Hok Hset; apply Hentry'; [eapply entry_ok_evolves; eauto|auto]|].
  split; [congruence|]. split; [congruence|].
  exists (new ++ new'). split; [by rewrite Htypes', Htypes, app_assoc|].
  apply Forall_app. split; [|exact Hnew'].
  eapply Forall_impl; [exact Hnew|]. intros x (e & -> & Hok & Hset).
  exists e. split; [reflexivity|]. split; [eapply entry_ok_evolves; eauto|auto].
Qed.

Lemma simple_cu_same_tables s s' :
  evolves s s' -> length (obstack s') = length (obstack s) ->
  types_table s' = types_table s -> tags_table s' = tags_table s ->
  functions_table s' = functions_table s -> mem s' = mem s ->
  simple_cu s -> simple_cu s'.
Proof.
  intros He Hlen Htypes Htags Hfunctions Hmem (Hwf & Hentries).
  split.
  - unfold types_table_wf in *. rewrite Htypes, Hlen. exact Hwf.
  - intros pt i e Hi. eapply entry_ok_evolves; [exact He|]. apply (Hentries pt i).
    destruct pt; cbn [entries] in *; congruence.
Qed.

Lemma resolves_stderr ds s : resolves s (set_stderr ds s).
Proof.
  pose proof (evolves_stderr ds s) as He.
  apply (resolves_intro s _ []); auto; try (by rewrite app_nil_r).
  - apply simple_cu_same_tables; auto.
  - intros c _. apply child_settled_frame; auto.
  - intros e t Ht Hk Hns Hset. destruct Hset as (t' & Ht' & Hset).
    assert (t' = t) by congruence. subst t'. exists t. split; [exact Ht|].
    intros dtag Hpriv. destruct (Hset dtag Hpriv) as (raw & Hraw & Hs).
    exists raw. split; [exact Hraw|]. rewrite Hns in *.
    eapply lookup_settled_evolves; eauto.
Qed.

Lemma length_obstack_with_type_of q v s :
  length (obstack (with_type_of q v s)) = length (obstack s).
Proof. unfold with_type_of. cbn [obstack set_obstack]. apply length_alter. Qed.

(** Storing a type resolves, when what it stores settles the object. *)
Lemma resolves_with_type_of q v s x :
  obstack s !! q = Some x ->
  (is_child (tg_tag x) = true /\ child_settled (with_type_of q v s) q)
  \/ (is_child (tg_tag x) = false /\ entry_settled (with_type_of q v s) q) ->
  resolves s (with_type_of q v s).
Proof.
  intros Hq Hrole. pose proof (evolves_with_type_of q v s) as He.
  apply (resolves_intro s _ []); auto; try (by rewrite app_nil_r).
  - apply simple_cu_same_tables; auto using length_obstack_with_type_of.
  - intros c (t & _ & _ & Hc & Hk & _) Hset.
    destruct (decide (c = q)) as [->|Hne].
    + assert (t = x) by congruence. subst t.
      destruct Hrole as [[_ H]|[H _]]; [exact H|congruence].
    + eapply child_settled_frame; eauto. unfold with_type_of. cbn [obstack set_obstack].
      by rewrite list_lookup_alter_ne by congruence.
  - intros e t Ht Hk Hns Hset.
    destruct (decide (e = q)) as [->|Hne].
    + assert (t = x) by congruence. subst t.
      destruct Hrole as [[H _]|[_ H]]; [congruence|exact H].
    + destruct Hset as (t' & Ht' & Hset).
      assert (t' = t) by congruence. subst t'. exists t.
      split; [unfold with_type_of; cbn [obstack set_obstack];
              by rewrite list_lookup_alter_ne by congruence|].
      intros dtag Hpriv. destruct (Hset dtag Hpriv) as (raw & Hraw & Hs).
      exists raw. split; [exact Hraw|]. rewrite Hns in *.
      eapply lookup_settled_evolves; eauto.
Qed.

Lemma lookup_with_new_type recoded m s p :
  (p < length (obstack s))%nat ->
  obstack (with_new_type recoded m s) !! p = obstack s !! p.
Proof.
  intros Hp. unfold with_new_type. cbn [obstack set_mem set_types_table set_obstack].
  by rewrite lookup_app_l.
Qed.

Lemma lookup_new_type recoded m s :
  obstack (with_new_type recoded m s) !! length (obstack s) = Some recoded.
Proof.
  unfold with_new_type. cbn [obstack set_mem set_types_table set_obstack].
  apply lookup_snoc.
Qed.

Lemma added_entry s e t :
  obstack s !! e = Some t -> tg_priv t = None -> is_child (tg_tag t) = false ->
  entry_ok s e /\ entry_settled s e.
Proof.
  intros He Hpriv Hk. split.
  - exists t. repeat split; auto. intros dtag H. congruence.
  - exists t. split; auto. intros dtag H. congruence.
Qed.

(** Adding a recoded base type resolves. *)
Lemma resolves_with_new_type n w m s :
  types_table_wf s -> mem s = S (S m) ->
  resolves s (with_new_type (recoded_base_type n w) m s).
Proof.
  intros Hwf Hmem. set (s' := with_new_type (recoded_base_type n w) m s).
  pose proof (evolves_with_new_type (recoded_base_type n w) m s Hwf) as He. fold s' in He.
  assert (Hadded : entry_ok s' (length (obstack s)) /\ entry_settled s' (length (obstack s))).
  { eapply added_entry; [apply lookup_new_type|reflexivity|reflexivity]. }
  apply (resolves_intro s s' [Some (length (obstack s))]); auto.
  - intros (_ & Hentries). split.
    + unfold types_table_wf, s', with_new_type.
      cbn [obstack types_table set_mem set_types_table set_obstack].
      rewrite length_app. cbn [length]. apply Forall_app. split.
      * eapply Forall_impl; [exact Hwf|]. intros [p|]; [lia|auto].
      * constructor; [lia|constructor].
    + intros pt i e Hi. destruct pt.
      * unfold s', with_new_type in Hi.
        cbn [entries types_table set_mem set_types_table set_obstack] in Hi.
        apply lookup_app_Some in Hi as [Hi | [_ Hi]].
        -- eapply entry_ok_evolves; [exact He|]. eapply (Hentries Types_table); exact Hi.
        -- apply list_lookup_singleton_Some in Hi as [_ [= <-]]. apply Hadded.
      * eapply entry_ok_evolves; [exact He|]. exact (Hentries Tags_table i e Hi).
      * eapply entry_ok_evolves; [exact He|]. exact (Hentries Functions_table i e Hi).
  - intros c (t & _ & _ & Hc & _) Hset. eapply child_settled_frame; eauto.
    apply lookup_with_new_type. eapply lookup_lt_Some; eauto.
  - intros e t Ht Hk Hns (t' & Ht' & Hset).
    assert (t' = t) by congruence. subst t'. exists t.
    split; [unfold s'; rewrite lookup_with_new_type; [exact Ht|eapply lookup_lt_Some; eauto]|].
    intros dtag Hpriv. destruct (Hset dtag Hpriv) as (raw & Hraw & Hs).
    exists raw. split; [exact Hraw|]. rewrite Hns in *.
    eapply lookup_settled_evolves; eauto.
  - constructor; [|constructor]. exists (length (obstack s)). auto.
Qed.

(** *** The first run *)

Lemma plain_target_state s raw v s0 : plain_target s raw = Ret v s0 -> s0 = s.
Proof.
  unfold plain_target. destruct (dt_type raw =? 0); [congruence|].
  destruct (dwarf_cu__find_type_by_id (dt_type raw) s) as [[dtype|] s'| | |] eqn:Hfind;
    try discriminate; apply dwarf_cu__find_type_by_id_state in Hfind; subst s'.
  - destruct (dcu_obstack s !! dtype); congruence.
  - congruence.
Qed.

Lemma plain_target_with_type_of c v s raw x s0 :
  plain_target s raw = Ret x s0 ->
  plain_target (with_type_of c v s) raw = Ret x (with_type_of c v s).
Proof.
  intros H. rewrite (plain_target_frame s) by reflexivity. by rewrite H.
Qed.

Lemma plain_target_stderr ds s raw x s0 :
  plain_target s raw = Ret x s0 ->
  plain_target (set_stderr ds s) raw = Ret x (set_stderr ds s).
Proof.
  intros H. rewrite (plain_target_frame s) by reflexivity. by rewrite H.
Qed.

Lemma bitfield_width_None t :
  is_child (tg_tag t) = true -> bitfield_width t = None ->
  (tg_tag t = DW.TAG_member -> exists b, bitfield_size_of t = Some b) ->
  tg_tag t = DW.TAG_member -> bitfield_size_of t = Some 0.
Proof.
  intros _ Hw Hb Hm. destruct (Hb Hm) as [b Hsize]. unfold bitfield_width in Hw.
  rewrite Hm, Hsize in Hw. change (DW.TAG_member =? DW.TAG_member) with true in Hw.
  cbv iota in Hw. destruct (b =? 0) eqn:E; [|discriminate].
  apply Z.eqb_eq in E. by subst b.
Qed.

Lemma bitfield_width_Some t w :
  bitfield_width t = Some w ->
  tg_tag t = DW.TAG_member /\
  exists b, bitfield_size_of t = Some b /\ b <> 0 /\ w = u16 b.
Proof.
  unfold bitfield_width. destruct (tg_tag t =? DW.TAG_member) eqn:Hk; [|discriminate].
  apply Z.eqb_eq in Hk. destruct (bitfield_size_of t) as [b|]; [|discriminate].
  destruct (b =? 0) eqn:E; [discriminate|]. apply Z.eqb_neq in E.
  intros [= <-]. eauto.
Qed.

Lemma bitfield_width_of_size t b :
  tg_tag t = DW.TAG_member -> bitfield_size_of t = Some b -> b <> 0 ->
  bitfield_width t = Some (u16 b).
Proof.
  intros Hk Hb Hne. unfold bitfield_width. rewrite Hk, Hb.
  change (DW.TAG_member =? DW.TAG_member) with true. cbv iota.
  apply Z.eqb_neq in Hne. by rewrite Hne.
Qed.

Lemma class_member__dwarf_recode_bitfield_no_fuel s c w self bt :
  bitfield_over_base s c w self bt ->
  class_member__dwarf_recode_bitfield 0 c s = NoFuel.
Proof.
  intros (tm & dm & raw & dtype & dt & t & bsz & Hm & Hpriv & Hbsz & Hw & Hdm & Hfind
          & Hdty & Hself & Ht & Hk & Hb).
  unfold class_member__dwarf_recode_bitfield. run_to_update.
  rewrite Hm. run_to_update. rewrite Hpriv. run_to_update. rewrite Hdm. run_to_update.
  rewrite Hfind. run_to_update. rewrite Hdty. run_to_update. rewrite Hm, Hbsz.
  reflexivity.
Qed.

(** One child of the first run. *)
Lemma namespace_loop_cons_resolves fuel c rest s s1 :
  simple_cu s -> child_ok s c ->
  namespace_loop fuel (c :: rest) s = Ret 0 s1 ->
  exists s', resolves s s' /\ child_settled s' c /\ namespace_loop fuel rest s' = Ret 0 s1.
Proof.
  intros Hsimple (t & dtag & raw & Hc & Hk & Hpriv & Hraw & Hmember) Hrun.
  destruct (bitfield_width t) as [w|] eqn:Hwidth.
  - (* a bit-field *)
    destruct (bitfield_width_Some _ _ Hwidth) as (Hm & b & Hb & Hne & ->).
    destruct (Hmember Hm) as (b' & Hb' & Hover). assert (b' = b) by congruence. subst b'.
    destruct (Hover Hne) as (self & bt & Hbase).
    rewrite (namespace_loop_cons_bitfield fuel c rest s t b Hc Hm Hb Hne) in Hrun.
    destruct fuel as [|fuel];
      [by rewrite (class_member__dwarf_recode_bitfield_no_fuel _ _ _ _ _ Hbase) in Hrun|].
    pose proof Hsimple as (Hwf & Hentries).
    rewrite (class_member__dwarf_recode_bitfield_base_step fuel s c (u16 b) self bt Hbase)
      in Hrun.
    destruct (cu__find_base_type_by_sname_and_size s (bt_name bt) (u16 b))
      as [[p id]|] eqn:Hfind.
    + cbn [negb Z.eqb] in Hrun.
      exists (with_type_of c (u16 (Z.of_nat id)) s).
      assert (Hsettled : child_settled (with_type_of c (u16 (Z.of_nat id)) s) c).
      { exists (set_tg_type (u16 (Z.of_nat id)) t), dtag, raw.
        split; [by apply with_type_of_lookup|]. split; [destruct t; exact Hpriv|].
        split; [exact Hraw|]. rewrite bitfield_width_set_type, Hwidth.
        exists self, bt, (p, id). split; [|split].
        - eapply bitfield_over_base_evolves; [apply evolves_with_type_of|exact Hbase].
        - by rewrite find_base_with_type_of.
        - destruct t; reflexivity. }
      split; [|split; [exact Hsettled|exact Hrun]].
      eapply resolves_with_type_of; eauto.
    + destruct (mem s) as [|[|m]] eqn:Hmem; try discriminate.
      cbv zeta in Hrun.
      set (s0 := with_new_type (recoded_base_type (bt_name bt) (u16 b)) m s) in *.
      set (T := length (types_table s)) in *.
      destruct (to_int (Z.of_nat T) <? 0) eqn:Hint.
      { apply Z.ltb_lt in Hint.
        destruct (to_int (Z.of_nat T) =? 0) eqn:Hzero; [lia|].
        cbn [negb] in Hrun. discriminate Hrun. }
      cbn [negb Z.eqb] in Hrun. rewrite u16_to_int in Hrun.
      assert (Hr0 : resolves s s0) by (by apply resolves_with_new_type).
      assert (Hc0 : obstack s0 !! c = Some t).
      { unfold s0. rewrite lookup_with_new_type; [exact Hc|]. eapply lookup_lt_Some; eauto. }
      exists (with_type_of c (u16 (Z.of_nat T)) s0).
      assert (Hsettled : child_settled (with_type_of c (u16 (Z.of_nat T)) s0) c).
      { exists (set_tg_type (u16 (Z.of_nat T)) t), dtag, raw.
        split; [by apply with_type_of_lookup|]. split; [destruct t; exact Hpriv|].
        split; [exact Hraw|]. rewrite bitfield_width_set_type, Hwidth.
        exists self, bt, (length (obstack s), T). split; [|split].
        - eapply bitfield_over_base_evolves; [apply evolves_with_type_of|].
          eapply bitfield_over_base_evolves; [apply Hr0|exact Hbase].
        - rewrite find_base_with_type_of. by apply find_base_with_new_type.
        - destruct t; reflexivity. }
      split; [|split; [exact Hsettled|exact Hrun]].
      eapply resolves_trans; [exact Hsimple|exact Hr0|].
      eapply resolves_with_type_of; eauto.
  - (* a lookup *)
    pose proof (bitfield_width_None t Hk Hwidth) as Hzero.
    rewrite (namespace_loop_cons_lookup fuel c rest s t dtag raw Hc Hk) in Hrun; auto.
    2:{ intros Hm. apply Hzero; auto. intros _. destruct (Hmember Hm) as (b & Hb & _). eauto. }
    destruct (plain_target s raw) as [[v|] s0| | |] eqn:Htarget; try discriminate.
    + destruct (dt_type raw =? 0) eqn:Hzerotype.
      * exists s. split; [apply resolves_refl|]. split; [|exact Hrun].
        exists t, dtag, raw. repeat split; auto. rewrite Hwidth.
        unfold lookup_settled. rewrite Htarget. apply Z.eqb_eq in Hzerotype.
        intros [H|H]; [discriminate|contradiction].
      * exists (with_type_of c v s).
        assert (Hsettled : child_settled (with_type_of c v s) c).
        { exists (set_tg_type v t), dtag, raw.
          split; [by apply with_type_of_lookup|]. split; [destruct t; exact Hpriv|].
          split; [exact Hraw|]. rewrite bitfield_width_set_type, Hwidth.
          unfold lookup_settled. rewrite (plain_target_with_type_of _ _ _ _ _ _ Htarget).
          intros _. destruct t; reflexivity. }
        split; [|split; [exact Hsettled|exact Hrun]].
        eapply resolves_with_type_of; eauto.
    + eexists. split; [apply resolves_stderr|]. split; [|exact Hrun].
      exists t, dtag, raw. repeat split; auto. rewrite Hwidth.
      unfold lookup_settled. by rewrite (plain_target_stderr _ _ _ _ _ Htarget).
Qed.

Lemma namespace_loop_resolves fuel children : forall s s1,
  simple_cu s -> Forall (child_ok s) children ->
  namespace_loop fuel children s = Ret 0 s1 ->
  resolves s s1 /\ Forall (child_settled s1) children.
Proof.
  induction children as [|c rest IH]; intros s s1 Hsimple Hok Hrun.
  - injection Hrun as <-. split; [apply resolves_refl|constructor].
  - apply Forall_cons in Hok as [Hc Hrest].
    destruct (namespace_loop_cons_resolves fuel c rest s s1 Hsimple Hc Hrun)
      as (s' & Hres & Hsettled & Hrun').
    pose proof Hres as (He & Hsimple' & _).
    destruct (IH s' s1) as [Hres' Hall]; auto.
    { eapply Forall_impl; [exact Hrest|]. intros c'. by apply child_ok_evolves. }
    split; [eapply resolves_trans; eauto|].
    constructor; [|exact Hall].
    destruct Hres' as (_ & _ & Hchild & _). apply Hchild; [|exact Hsettled].
    eapply child_ok_evolves; eauto.
Qed.

(** One entry of the first run. *)
Lemma tag__recode_dwarf_type_resolves fuel e s s1 :
  simple_cu s -> entry_ok s e ->
  tag__recode_dwarf_type fuel e s = Ret 0 s1 ->
  resolves s s1 /\ entry_settled s1 e.
Proof.
  intros Hsimple (t & He & Hk & Hok) Hrun.
  destruct (tg_priv t) as [dtag|] eqn:Hpriv.
  - destruct (Hok dtag eq_refl) as (raw & Hraw & Hnamed & Hkind).
    destruct (tag__has_namespace (tg_tag t)) eqn:Hns.
    + destruct Hkind as (children & Hchildren & Hall).
      rewrite (tag__recode_dwarf_type_aggregate fuel e s t dtag raw children) in Hrun by auto.
      destruct fuel as [|fuel]; [discriminate|].
      destruct (namespace_loop_resolves fuel children s s1 Hsimple Hall Hrun)
        as [Hres Hsettled].
      split; [exact Hres|].
      pose proof Hres as ((Hd & _ & Ho & _) & _).
      destruct (Ho _ _ He) as [v Hv]. exists (set_tg_type v t). split; [exact Hv|].
      intros dtag' Hpriv'. exists raw. rewrite Hd.
      split; [destruct t; cbn in *; congruence|].
      replace (tg_tag (set_tg_type v t)) with (tg_tag t) by (destruct t; reflexivity).
      rewrite Hns. exists children. by rewrite children_of_set_type.
    + rewrite (tag__recode_dwarf_type_lookup fuel e s t dtag raw) in Hrun by auto.
      destruct (plain_target s raw) as [[v|] s0| | |] eqn:Htarget; try discriminate;
        injection Hrun as <-.
      * assert (Hsettled : entry_settled (with_type_of e v s) e).
        { exists (set_tg_type v t). split; [by apply with_type_of_lookup|].
          intros dtag' Hpriv'. exists raw. split; [destruct t; cbn in *; congruence|].
          replace (tg_tag (set_tg_type v t)) with (tg_tag t) by (destruct t; reflexivity).
          rewrite Hns. unfold lookup_settled.
          rewrite (plain_target_with_type_of _ _ _ _ _ _ Htarget).
          intros _. destruct t; reflexivity. }
        split; [|exact Hsettled]. eapply resolves_with_type_of; eauto.
      * split; [apply resolves_stderr|].
        exists t. split; [exact He|]. intros dtag' Hpriv'. exists raw.
        split; [cbn; congruence|]. rewrite Hns. unfold lookup_settled.
        by rewrite (plain_target_stderr _ _ _ _ _ Htarget).
  - rewrite (tag__recode_dwarf_type_added fuel e s t He Hpriv) in Hrun.
    injection Hrun as <-. split; [apply resolves_refl|].
    eapply added_entry; eauto.
Qed.

Lemma resolves_entries pt s s' i x :
  resolves s s' -> entries pt s !! i = Some x -> entries pt s' !! i = Some x.
Proof.
  intros (_ & _ & _ & _ & Htags & Hfunctions & new & Htypes & _) Hi.
  destruct pt; cbn [entries] in *; try congruence.
  rewrite Htypes. apply lookup_app_l_Some. exact Hi.
Qed.

Lemma resolves_entries_inv pt s s' i e :
  resolves s s' -> entries pt s' !! i = Some (Some e) ->
  entries pt s !! i = Some (Some e) \/ (entry_ok s' e /\ entry_settled s' e).
Proof.
  intros (_ & _ & _ & _ & Htags & Hfunctions & new & Htypes & Hnew) Hi.
  destruct pt; cbn [entries] in *; try (left; congruence).
  rewrite Htypes in Hi. apply lookup_app_Some in Hi as [Hi | [_ Hi]]; [by left|right].
  rewrite Forall_forall in Hnew. destruct (Hnew (Some e)) as (e' & [= <-] & H).
  - eapply list_elem_of_lookup_2; eauto.
  - exact H.
Qed.

Lemma resolves_settled pt s s' i e :
  simple_cu s -> resolves s s' ->
  entries pt s !! i = Some (Some e) -> entry_settled s e -> entry_settled s' e.
Proof.
  intros (_ & Hentries) (_ & _ & _ & Hentry & _) Hi Hsettled.
  apply Hentry; [|exact Hsettled]. eapply Hentries; eauto.
Qed.

(** One table of the first run. *)
Lemma cu__recode_dwarf_types_table_resolves pt fuel : forall i s s1,
  simple_cu s ->
  cu__recode_dwarf_types_table fuel pt i s = Ret 0 s1 ->
  resolves s s1 /\
  forall j e, (i <= j)%nat -> entries pt s1 !! j = Some (Some e) -> entry_settled s1 e.
Proof.
  induction fuel as [|fuel IH]; intros i s s1 Hsimple Hrun; [discriminate|].
  cbn [cu__recode_dwarf_types_table] in Hrun. revert Hrun. run_to_update.
  destruct (entries pt s !! i) as [[e|]|] eqn:Hi.
  - destruct (tag__recode_dwarf_type fuel e s) as [r s'| | |] eqn:Hstep; try discriminate.
    destruct (r =? 0) eqn:Hr; cbn [negb]; [|discriminate].
    apply Z.eqb_eq in Hr. subst r. intros Hrun.
    pose proof Hsimple as (_ & Hentries).
    destruct (tag__recode_dwarf_type_resolves fuel e s s' Hsimple (Hentries pt i e Hi) Hstep)
      as [Hres Hsettled].
    pose proof Hres as (_ & Hsimple' & _).
    destruct (IH (S i) s' s1 (Hsimple' Hsimple) Hrun) as [Hres' Hrest].
    split; [eapply resolves_trans; eauto|].
    intros j e' Hj Hj'. destruct (decide (j = i)) as [->|Hne]; [|apply (Hrest j); [lia|auto]].
    pose proof (resolves_entries pt s' s1 i _ Hres' (resolves_entries pt s s' i _ Hres Hi)).
    assert (e' = e) by congruence. subst e'.
    eapply (resolves_settled pt s' s1 i); eauto using resolves_entries.
  - intros Hrun. destruct (IH (S i) s s1 Hsimple Hrun) as [Hres Hrest].
    split; [exact Hres|].
    intros j e' Hj Hj'. destruct (decide (j = i)) as [->|Hne]; [|apply (Hrest j); [lia|auto]].
    pose proof (resolves_entries pt s s1 i _ Hres Hi). congruence.
  - intros [= <-]. split; [apply resolves_refl|].
    intros j e' Hj Hj'. apply lookup_ge_None in Hi.
    apply lookup_lt_Some in Hj'. lia.
Qed.

(** The first run leaves a simple CU whose entries are all resolved. *)
Lemma cu__recode_dwarf_types_resolves fuel s s1 :
  simple_cu s -> cu__recode_dwarf_types fuel s = Ret 0 s1 ->
  simple_cu s1 /\ all_settled s1.
Proof.
  intros Hsimple. unfold cu__recode_dwarf_types. run_to_update.
  destruct (cu__recode_dwarf_types_table fuel Types_table 1 s) as [r sA| | |] eqn:HA;
    try discriminate.
  destruct (r =? 0) eqn:Hr; cbn [negb]; [|discriminate].
  apply Z.eqb_eq in Hr. subst r.
  destruct (cu__recode_dwarf_types_table fuel Tags_table 0 sA) as [r sB| | |] eqn:HB;
    try discriminate.
  destruct (r =? 0) eqn:Hr; cbn [negb]; [|discriminate].
  apply Z.eqb_eq in Hr. subst r.
  destruct (cu__recode_dwarf_types_table fuel Functions_table 0 sB) as [r sC| | |] eqn:HC;
    try discriminate.
  destruct (r =? 0) eqn:Hr; cbn [negb]; [|discriminate].
  apply Z.eqb_eq in Hr. subst r. intros [= <-].
  destruct (cu__recode_dwarf_types_table_resolves _ _ _ _ _ Hsimple HA) as [HresA HsetA].
  pose proof HresA as (_ & HsimpleA & _). specialize (HsimpleA Hsimple).
  destruct (cu__recode_dwarf_types_table_resolves _ _ _ _ _ HsimpleA HB) as [HresB HsetB].
  pose proof HresB as (_ & HsimpleB & _). specialize (HsimpleB HsimpleA).
  destruct (cu__recode_dwarf_types_table_resolves _ _ _ _ _ HsimpleB HC) as [HresC HsetC].
  pose proof HresC as (_ & HsimpleC & _). specialize (HsimpleC HsimpleB).
  split; [exact HsimpleC|].
  intros pt i e Hfirst Hi.
  destruct pt; cbn [first_entry] in Hfirst.
  - destruct (resolves_entries_inv Types_table sB sC i e HresC Hi) as [HiB|[_ H]]; [|exact H].
    eapply (resolves_settled Types_table sB sC i); eauto.
    destruct (resolves_entries_inv Types_table sA sB i e HresB HiB) as [HiA|[_ H]]; [|exact H].
    eapply (resolves_settled Types_table sA sB i); eauto.
  - destruct (resolves_entries_inv Tags_table sB sC i e HresC Hi) as [HiB|[_ H]]; [|exact H].
    eapply (resolves_settled Tags_table sB sC i); eauto with lia.
  - apply (HsetC i); [lia|exact Hi].
Qed.

(** *** The second run *)


Lemma tag_eq x y :
  fixed_part x = fixed_part y -> tg_type x = tg_type y -> containing x = containing y -> x = y.
Proof.
  destruct x as [ty k tl rl pr b], y as [ty' k' tl' rl' pr' b']. unfold fixed_part, containing.
  cbn [tg_type tg_tag tg_top_level tg_recursivity_level tg_priv tg_body].
  intros [= -> -> -> -> Hb] -> Hc. f_equal.
  destruct b, b'; cbn in *; try congruence.
Qed.

Lemma fixed_part_set_tg_type v x : fixed_part (set_tg_type v x) = fixed_part x.
Proof. destruct x; reflexivity. Qed.

Lemma fixed_part_tag x y : fixed_part x = fixed_part y -> tg_tag x = tg_tag y.
Proof. intros H. apply (f_equal tg_tag) in H. exact H. Qed.

Lemma fixed_part_priv x y : fixed_part x = fixed_part y -> tg_priv x = tg_priv y.
Proof. intros H. apply (f_equal tg_priv) in H. exact H. Qed.

Lemma fixed_part_body x y : fixed_part x = fixed_part y -> clear_containing (tg_body x) = clear_containing (tg_body y).
Proof. intros H. apply (f_equal tg_body) in H. exact H. Qed.

Lemma fixed_part_as_ftype x y : fixed_part x = fixed_part y -> as_ftype (tg_body x) = as_ftype (tg_body y).
Proof. intros H. apply fixed_part_body in H. destruct (tg_body x), (tg_body y); cbn in *; congruence. Qed.

Lemma fixed_part_as_lexblock x y : fixed_part x = fixed_part y -> as_lexblock (tg_body x) = as_lexblock (tg_body y).
Proof. intros H. apply fixed_part_body in H. destruct (tg_body x), (tg_body y); cbn in *; congruence. Qed.

Lemma fixed_part_as_namespace x y : fixed_part x = fixed_part y -> as_namespace (tg_body x) = as_namespace (tg_body y).
Proof. intros H. apply fixed_part_body in H. destruct (tg_body x), (tg_body y); cbn in *; congruence. Qed.

Lemma fixed_part_bitfield_size_of x y : fixed_part x = fixed_part y -> bitfield_size_of x = bitfield_size_of y.
Proof.
  intros H. apply fixed_part_body in H. unfold bitfield_size_of.
  destruct (tg_body x), (tg_body y); cbn in *; congruence.
Qed.

Lemma fixed_part_fn_name_of x y : fixed_part x = fixed_part y -> fn_name_of x = fn_name_of y.
Proof.
  intros H. apply fixed_part_body in H. unfold fn_name_of.
  destruct (tg_body x), (tg_body y); cbn in *; congruence.
Qed.

Lemma extends_length s t : extends s t -> (length (obstack s) <= length (obstack t))%nat.
Proof.
  intros H. destruct (obstack s) as [|x l] eqn:E using rev_ind; [cbn; lia|].
  clear IHl. destruct (extends_obstack _ _ H (length l) x) as (y & Hy & _).
  - rewrite E. apply list_lookup_middle. reflexivity.
  - apply lookup_lt_Some in Hy. rewrite length_app. cbn. lia.
Qed.

Lemma extends_refl s : extends s s.
Proof.
  split; auto.
  - exists []. rewrite app_nil_r. auto.
  - intros p x H. eauto.
  - intros p y Hp Hy. apply lookup_lt_Some in Hy. lia.
Qed.

Lemma inert_ext s t e : extends s t -> inert s e -> inert t e.
Proof.
  intros H (p & y & -> & Hy & Hpriv).
  destruct (extends_obstack _ _ H p y Hy) as (y' & Hy' & Hlow).
  exists p, y'. split; [reflexivity|]. split; [exact Hy'|].
  rewrite (fixed_part_priv _ _ Hlow). exact Hpriv.
Qed.

Lemma extends_trans s1 s2 s3 : extends s1 s2 -> extends s2 s3 -> extends s1 s3.
Proof.
  intros H12 H23. split.
  - rewrite (extends_raw _ _ H23). apply (extends_raw _ _ H12).
  - rewrite (extends_hash_types _ _ H23). apply (extends_hash_types _ _ H12).
  - rewrite (extends_hash_tags _ _ H23). apply (extends_hash_tags _ _ H12).
  - rewrite (extends_tags _ _ H23). apply (extends_tags _ _ H12).
  - rewrite (extends_functions _ _ H23). apply (extends_functions _ _ H12).
  - destruct (extends_types _ _ H12) as (n1 & E1 & F1).
    destruct (extends_types _ _ H23) as (n2 & E2 & F2).
    exists (n1 ++ n2). split; [by rewrite E2, E1, app_assoc|].
    apply Forall_app. split; [|exact F2].
    eapply Forall_impl; [exact F1|]. intros e. by apply inert_ext.
  - intros p x Hx. destruct (extends_obstack _ _ H12 p x Hx) as (y & Hy & Hl).
    destruct (extends_obstack _ _ H23 p y Hy) as (z & Hz & Hl').
    exists z. split; [exact Hz|congruence].
  - intros p z Hp Hz.
    destruct (decide (p < length (obstack s2))%nat) as [Hlt|Hge].
    + destruct (lookup_lt_is_Some_2 _ _ Hlt) as [y Hy].
      destruct (extends_obstack _ _ H23 p y Hy) as (z' & Hz' & Hl).
      assert (z' = z) by congruence. subst z'.
      rewrite (fixed_part_priv _ _ Hl), (fixed_part_as_ftype _ _ Hl), (fixed_part_tag _ _ Hl).
      eapply (extends_new _ _ H12); eauto.
    + eapply (extends_new _ _ H23); [|exact Hz]. lia.
  - intros Hwf. apply (extends_wf _ _ H23), (extends_wf _ _ H12), Hwf.
Qed.

Lemma same_fixed_parts_length t t' : same_fixed_parts t t' -> length (obstack t') = length (obstack t).
Proof.
  intros (_ & _ & _ & _ & _ & _ & H).
  apply (f_equal length) in H. by rewrite !length_fmap in H.
Qed.

Lemma same_fixed_parts_lookup t t' p :
  same_fixed_parts t t' -> fixed_part <$> obstack t' !! p = fixed_part <$> obstack t !! p.
Proof.
  intros (_ & _ & _ & _ & _ & _ & H). by rewrite <- !list_lookup_fmap, H.
Qed.

Lemma same_fixed_parts_refl t : same_fixed_parts t t.
Proof. repeat split. Qed.

Lemma same_fixed_parts_trans t1 t2 t3 : same_fixed_parts t1 t2 -> same_fixed_parts t2 t3 -> same_fixed_parts t1 t3.
Proof.
  intros (A1 & A2 & A3 & A4 & A5 & A6 & A7) (B1 & B2 & B3 & B4 & B5 & B6 & B7).
  repeat split; congruence.
Qed.

Lemma same_fixed_parts_ext t t' : same_fixed_parts t t' -> extends t t'.
Proof.
  intros H. pose proof (same_fixed_parts_length _ _ H) as Hlen.
  pose proof H as (A1 & A2 & A3 & A4 & A5 & A6 & A7).
  split; auto.
  - exists []. rewrite app_nil_r. auto.
  - intros p x Hx. pose proof (same_fixed_parts_lookup t t' p H) as Hl. rewrite Hx in Hl.
    destruct (obstack t' !! p) as [y|]; [|discriminate]. exists y. split; [reflexivity|].
    cbn in Hl. congruence.
  - intros p y Hp Hy. apply lookup_lt_Some in Hy. lia.
  - unfold types_table_wf. rewrite A4, Hlen. auto.
Qed.

Lemma extends_same_low s t t' : extends s t -> same_fixed_parts t t' -> extends s t'.
Proof. intros H1 H2. eapply extends_trans; [exact H1|by apply same_fixed_parts_ext]. Qed.

Lemma in_step_refl {B} (f : tag -> B) s t : in_step f s s t t.
Proof. intros p. right. auto. Qed.

Lemma in_step_trans {B} (f : tag -> B) s s' s'' t t' t'' :
  (length (obstack s) <= length (obstack s'))%nat ->
  (length (obstack s') <= length (obstack s''))%nat ->
  in_step f s s' t t' -> in_step f s' s'' t' t'' -> in_step f s s'' t t''.
Proof.
  intros L1 L2 H1 H2 p. destruct (H2 p) as [[Hlt Heq]|[Ht Hs]]; [left; auto|].
  destruct (H1 p) as [[Hlt Heq]|[Ht' Hs']].
  - left. split; [lia|]. rewrite Hs by exact Hlt. congruence.
  - right. split; [congruence|]. intros Hp. rewrite Hs by lia. auto.
Qed.

Lemma fields_in_step_refl s t : fields_in_step s s t t.
Proof. split; apply in_step_refl. Qed.

Lemma fields_in_step_trans s s' s'' t t' t'' :
  extends s s' -> extends s' s'' ->
  fields_in_step s s' t t' -> fields_in_step s' s'' t' t'' -> fields_in_step s s'' t t''.
Proof.
  intros E1 E2 [A1 A2] [B1 B2]. apply extends_length in E1, E2.
  split; eapply in_step_trans; eauto.
Qed.

Lemma find_base_is_first heap entries n w : forall id,
  find_base_type_from heap entries id n w = find_first (is_base n w) heap entries id.
Proof.
  induction entries as [|e entries IH]; intros id; [reflexivity|].
  cbn [find_base_type_from find_first]. rewrite IH.
  destruct e as [p|]; [|reflexivity]. cbn [mbind option_bind from_option].
  destruct (heap !! p) as [[ty k tl rl pr b]|]; [|reflexivity].
  unfold is_base. cbn [tg_body tg_tag]. destruct b; reflexivity.
Qed.

Lemma find_enumeration_is_first heap entries n w : forall id,
  find_enumeration_from heap entries id n w = find_first (is_enumeration n w) heap entries id.
Proof.
  induction entries as [|e entries IH]; intros id; [reflexivity|].
  cbn [find_enumeration_from find_first]. rewrite IH.
  destruct e as [p|]; [|reflexivity]. cbn [mbind option_bind from_option].
  destruct (heap !! p) as [[ty k tl rl pr b]|]; [|reflexivity].
  unfold is_enumeration. cbn [tg_body tg_tag]. destruct b; reflexivity.
Qed.

Lemma is_base_low n w x y : fixed_part x = fixed_part y -> is_base n w x = is_base n w y.
Proof.
  intros H. unfold is_base. rewrite (fixed_part_tag _ _ H). apply fixed_part_body in H.
  destruct (tg_body x), (tg_body y); cbn in *; congruence.
Qed.

Lemma is_enumeration_low n w x y : fixed_part x = fixed_part y -> is_enumeration n w x = is_enumeration n w y.
Proof.
  intros H. unfold is_enumeration. rewrite (fixed_part_tag _ _ H). apply fixed_part_body in H.
  destruct (tg_body x), (tg_body y); cbn in *; congruence.
Qed.

Lemma find_first_app P heap es1 : forall es2 id,
  find_first P heap (es1 ++ es2) id =
    match find_first P heap es1 id with
    | Some r => Some r
    | None => find_first P heap es2 (id + length es1)
    end.
Proof.
  induction es1 as [|e es1 IH]; intros es2 id.
  - cbn. by rewrite Nat.add_0_r.
  - rewrite <- app_comm_cons. cbn [find_first length]. rewrite IH.
    replace (S id + length es1)%nat with (id + S (length es1))%nat by lia.
    destruct e as [p|]; cbn [mbind option_bind from_option]; [|reflexivity].
    destruct (heap !! p) as [y|]; [|reflexivity].
    destruct (P y); reflexivity.
Qed.

Lemma find_first_agree P heap heap' entries : forall id,
  Forall (fun e => forall p y, e = Some p -> heap !! p = Some y ->
                     exists y', heap' !! p = Some y' /\ P y' = P y) entries ->
  Forall (fun e => forall p, e = Some p -> (p < length heap)%nat) entries ->
  find_first P heap' entries id = find_first P heap entries id.
Proof.
  induction entries as [|e entries IH]; intros id Hall Hwf; [reflexivity|].
  inversion Hall as [|? ? He Hrest]; subst. inversion Hwf as [|? ? Hp Hwf']; subst.
  cbn [find_first]. rewrite (IH _ Hrest Hwf').
  destruct e as [p|]; [|reflexivity]. cbn [mbind option_bind].
  destruct (lookup_lt_is_Some_2 _ _ (Hp p eq_refl)) as [y Hy].
  destruct (He p y eq_refl Hy) as (y' & Hy' & HP). by rewrite Hy, Hy', HP.
Qed.

Lemma find_first_ext P s t :
  (forall x y, fixed_part x = fixed_part y -> P x = P y) ->
  extends s t -> types_table_wf s ->
  forall id, find_first P (obstack t) (types_table s) id
             = find_first P (obstack s) (types_table s) id.
Proof.
  intros HP Hext Hwf id. apply find_first_agree.
  - rewrite Forall_forall. intros e _ p y -> Hy.
    destruct (extends_obstack _ _ Hext p y Hy) as (y' & Hy' & Hl). eauto.
  - eapply Forall_impl; [exact Hwf|]. intros [p|] Hp q [= <-]. exact Hp.
Qed.

Lemma find_first_found P s t r :
  (forall x y, fixed_part x = fixed_part y -> P x = P y) ->
  extends s t -> types_table_wf s ->
  find_first P (obstack s) (types_table s) 0 = Some r ->
  find_first P (obstack t) (types_table t) 0 = Some r.
Proof.
  intros HP Hext Hwf Hr. destruct (extends_types _ _ Hext) as (new & -> & _).
  by rewrite find_first_app, (find_first_ext P s t HP Hext Hwf), Hr.
Qed.

Lemma find_first_added P s s1 t q y :
  (forall x y, fixed_part x = fixed_part y -> P x = P y) ->
  extends s s1 -> extends s1 t -> types_table_wf s ->
  find_first P (obstack s) (types_table s) 0 = None ->
  types_table s1 = types_table s ++ [Some q] ->
  obstack s1 !! q = Some y -> P y = true ->
  find_first P (obstack t) (types_table t) 0 = Some (q, length (types_table s)).
Proof.
  intros HP H1 H2 Hwf Hnone Htt Hq Hy.
  destruct (extends_types _ _ H2) as (new & -> & _). rewrite Htt, <- app_assoc.
  rewrite find_first_app, (find_first_ext P s t HP (extends_trans _ _ _ H1 H2) Hwf), Hnone.
  cbn [app find_first mbind option_bind from_option].
  destruct (extends_obstack _ _ H2 q y Hq) as (y' & Hy' & Hl).
  by rewrite Hy', (HP _ _ Hl), Hy.
Qed.

Lemma fixed_part_name_at_namespace_offset x y :
  fixed_part x = fixed_part y ->
  name_at_namespace_offset (tg_body x) = name_at_namespace_offset (tg_body y).
Proof. intros H. apply fixed_part_body in H. destruct (tg_body x), (tg_body y); cbn in *; congruence. Qed.

Lemma recode_test_low x y w : fixed_part x = fixed_part y -> recode_test x w = recode_test y w.
Proof.
  intros H. unfold recode_test.
  by rewrite (fixed_part_tag _ _ H), (fixed_part_name_at_namespace_offset _ _ H).
Qed.

Lemma recode_test_low_invariant y w P :
  recode_test y w = Some P -> forall a b, fixed_part a = fixed_part b -> P a = P b.
Proof.
  unfold recode_test. destruct (is_wrapper (tg_tag y)); [discriminate|].
  destruct (tg_tag y =? DW.TAG_base_type); [intros [= <-]; apply is_base_low|].
  destruct (tg_tag y =? DW.TAG_enumeration_type); [intros [= <-]; apply is_enumeration_low|].
  discriminate.
Qed.


Lemma tag__recode_dwarf_bitfield_found fuel self w t y P p i :
  obstack t !! self = Some y -> recode_test y w = Some P ->
  find_first P (obstack t) (types_table t) 0 = Some (p, i) ->
  tag__recode_dwarf_bitfield (S fuel) self w t = Ret (u16 (Z.of_nat i)) t.
Proof.
  intros Hy Htest Hfind. cbn [tag__recode_dwarf_bitfield].
  unfold mbind, M_bind, load_tag. rewrite Hy. cbv zeta.
  unfold recode_test, is_wrapper in Htest.
  destruct (tg_tag y =? DW.TAG_typedef); [discriminate|].
  destruct (tg_tag y =? DW.TAG_const_type); [discriminate|].
  destruct (tg_tag y =? DW.TAG_volatile_type); [discriminate|].
  cbn [orb] in *. unfold get_cu.
  destruct (tg_tag y =? DW.TAG_base_type).
  { injection Htest as <-. unfold cu__find_base_type_by_sname_and_size.
    by rewrite find_base_is_first, Hfind. }
  destruct (tg_tag y =? DW.TAG_enumeration_type); [|discriminate].
  injection Htest as <-. unfold cu__find_enumeration_by_sname_and_size.
  by rewrite find_enumeration_is_first, Hfind.
Qed.

Lemma add_recoded_outcome (r : tag) s id s1 :
  tag__is_tag_type (tg_tag r) = true ->
  (res ← obstack_alloc r;
   match res with
   | None => mret (- ENOMEM)
   | Some p =>
       '(err, new_id) ← cu__add_tag p;
       if err =? 0 then mret (to_int new_id)
       else _ ← obstack_free p; mret (- ENOMEM)
   end) s = Ret id s1 ->
  0 <= id ->
  exists m, mem s = S (S m) /\ s1 = with_new_type r m s /\
            id = to_int (Z.of_nat (length (types_table s))).
Proof.
  intros Hk. unfold obstack_alloc, cu__add_tag, cu__table_add_tag, obstack_free.
  unfold mbind, M_bind, load_tag, get_cu, modify_cu, mret, M_ret.
  destruct (mem s) as [|[|m]] eqn:Hmem.
  - intros [= <- <-]. unfold ENOMEM. lia.
  - cbn [obstack mem set_mem set_obstack]. rewrite lookup_snoc. cbn [mem set_mem].
    cbn. intros [= <- <-]. unfold ENOMEM. lia.
  - cbn [obstack mem set_mem set_obstack]. rewrite lookup_snoc. cbn [mem set_mem].
    rewrite Hk. cbn. intros [= <- <-] _. exists m. repeat split.
Qed.

Lemma tag__recode_dwarf_bitfield_outcome fuel self w s id s1 :
  tag__recode_dwarf_bitfield fuel self w s = Ret id s1 -> 0 <= id ->
  exists y, obstack s !! self = Some y /\
    (is_wrapper (tg_tag y) = true \/
     exists P, recode_test y w = Some P /\
       ((exists p i, find_first P (obstack s) (types_table s) 0 = Some (p, i) /\
                     id = u16 (Z.of_nat i) /\ s1 = s)
        \/ (find_first P (obstack s) (types_table s) 0 = None /\
            exists m r, mem s = S (S m) /\ s1 = with_new_type r m s /\
                        id = to_int (Z.of_nat (length (types_table s))) /\
                        tg_priv r = None /\ as_ftype (tg_body r) = None /\
                        is_wrapper (tg_tag r) = false /\
                        (to_type_size w = w -> P r = true)))).
Proof.
  destruct fuel as [|fuel]; [discriminate|]. cbn [tag__recode_dwarf_bitfield].
  unfold mbind at 1, M_bind at 1, load_tag at 1.
  destruct (obstack s !! self) as [y|] eqn:Hy; [|discriminate]. cbv zeta.
  intros Hrun Hid. exists y. split; [reflexivity|].
  unfold recode_test, is_wrapper.
  destruct (tg_tag y =? DW.TAG_typedef); [by left|].
  destruct (tg_tag y =? DW.TAG_const_type); [by left|].
  destruct (tg_tag y =? DW.TAG_volatile_type); [by left|].
  right. cbn [orb] in *.
  destruct (tg_tag y =? DW.TAG_base_type).
  { eexists. split; [reflexivity|].
    unfold mbind at 1, M_bind at 1, get_cu at 1 in Hrun.
    unfold cu__find_base_type_by_sname_and_size in Hrun. rewrite find_base_is_first in Hrun.
    destruct (find_first _ _ _ _) as [[p i]|] eqn:Hfind.
    - left. injection Hrun as <- <-. eauto.
    - right. split; [reflexivity|].
      apply add_recoded_outcome in Hrun as (m & Hmem & -> & ->); [|reflexivity|exact Hid].
      exists m. eexists. split; [exact Hmem|]. repeat (split; [reflexivity|]).
      intros _. unfold is_base. cbn. by rewrite !Z.eqb_refl. }
  destruct (tg_tag y =? DW.TAG_enumeration_type).
  { eexists. split; [reflexivity|].
    unfold mbind at 1, M_bind at 1, get_cu at 1 in Hrun.
    unfold cu__find_enumeration_by_sname_and_size in Hrun.
    rewrite find_enumeration_is_first in Hrun.
    destruct (find_first _ _ _ _) as [[p i]|] eqn:Hfind.
    - left. injection Hrun as <- <-. eauto.
    - right. split; [reflexivity|].
      destruct (as_type (tg_body y)) as [alias|]; [|discriminate].
      apply add_recoded_outcome in Hrun as (m & Hmem & -> & ->); [|reflexivity|exact Hid].
      exists m. eexists. split; [exact Hmem|]. repeat (split; [reflexivity|]).
      intros Hw. unfold is_enumeration. cbn. by rewrite Hw, !Z.eqb_refl. }
  exfalso. unfold fprintf_stderr, modify_cu, mbind, M_bind, mret, M_ret in Hrun.
  injection Hrun as <- _. unfold EINVAL in Hid. lia.
Qed.

Lemma extends_with_new_type s r m :
  types_table_wf s -> tg_priv r = None -> as_ftype (tg_body r) = None ->
  is_wrapper (tg_tag r) = false ->
  extends s (with_new_type r m s).
Proof.
  intros Hwf Hpriv Hft Hw. unfold with_new_type. split; auto.
  - exists [Some (length (obstack s))]. split; [reflexivity|].
    constructor; [|constructor]. exists (length (obstack s)), r.
    cbn [obstack set_mem set_types_table set_obstack]. by rewrite lookup_snoc.
  - intros p x Hx. exists x. cbn [obstack set_mem set_types_table set_obstack].
    split; [|reflexivity]. rewrite lookup_app_l; [exact Hx|]. eapply lookup_lt_Some; eauto.
  - intros p y Hp. cbn [obstack set_mem set_types_table set_obstack]. intros Hy.
    assert (p = length (obstack s)).
    { apply lookup_lt_Some in Hy. rewrite length_app in Hy. cbn in Hy. lia. }
    subst p. rewrite lookup_snoc in Hy. injection Hy as <-. auto.
  - intros _. unfold types_table_wf.
    cbn [obstack types_table set_mem set_types_table set_obstack].
    rewrite length_app. cbn [length]. apply Forall_app. split.
    + eapply Forall_impl; [exact Hwf|]. intros [p|]; [lia|auto].
    + constructor; [lia|constructor].
Qed.

Lemma fields_in_step_with_new_type s r m t : fields_in_step s (with_new_type r m s) t t.
Proof.
  split; intros p; right; (split; [reflexivity|]); intros Hp; unfold with_new_type;
    cbn [obstack set_mem set_types_table set_obstack]; by rewrite lookup_app_l.
Qed.


Section Second_run.
Variable s0 : cu.


Lemma sim_bind {A B} (relA : A -> A -> Prop) (relB : B -> B -> Prop) GA GB
    (m1 m2 : M A) (k1 k2 : A -> M B) Q R :
  simulated s0 relA GA m1 m2 Q ->
  (forall a s b s', k1 a s = Ret b s' -> GB b -> GA a) ->
  (forall a a', relA a a' -> Q a -> GA a -> simulated s0 relB GB (k1 a) (k2 a') R) ->
  simulated s0 relB GB (m1 ≫= k1) (m2 ≫= k2) R.
Proof.
  intros Hm Hprop Hk s b s'' Hs Hrun Hgood.
  unfold mbind, M_bind in Hrun.
  destruct (m1 s) as [a s'| | |] eqn:Hm1; try discriminate.
  assert (Hga : GA a) by (eapply Hprop; eauto).
  destruct (Hm s a s' Hs Hm1 Hga) as (Hq & Hext & Hm2).
  assert (Hs' : extends s0 s') by (eapply extends_trans; eauto).
  assert (Hk1 : forall a', relA a a' -> simulated s0 relB GB (k1 a) (k2 a') R) by auto.
  split; [|split].
  - destruct (Hm2 s' (extends_refl s')) as (a' & _ & _ & Hrel & _).
    destruct (Hk1 a' Hrel s' b s'' Hs' Hrun Hgood) as (Hr & _). exact Hr.
  - destruct (Hm2 s' (extends_refl s')) as (a' & _ & _ & Hrel & _).
    destruct (Hk1 a' Hrel s' b s'' Hs' Hrun Hgood) as (_ & Hext' & _).
    eapply extends_trans; eauto.
  - intros t Ht.
    destruct (Hm2 s' (extends_refl s')) as (a0 & _ & _ & Hrel0 & _).
    destruct (Hk1 a0 Hrel0 s' b s'' Hs' Hrun Hgood) as (_ & Hext' & _).
    destruct (Hm2 t (extends_trans _ _ _ Hext' Ht)) as (a' & t' & Hrun2 & Hrel & Hlow & Hkept).
    destruct (Hk1 a' Hrel s' b s'' Hs' Hrun Hgood) as (_ & _ & Hk2).
    destruct (Hk2 t' (extends_same_low _ _ _ Ht Hlow)) as (b' & t'' & Hrun2' & Hrel' & Hlow' & Hkept').
    exists b', t''. split; [|split; [exact Hrel'|split]].
    + unfold mbind, M_bind. rewrite Hrun2. exact Hrun2'.
    + eapply same_fixed_parts_trans; eauto.
    + eapply fields_in_step_trans; eauto.
Qed.


Lemma sim_bind_any {A B} (relA : A -> A -> Prop) (relB : B -> B -> Prop) GB
    (m1 m2 : M A) (k1 k2 : A -> M B) Q R :
  simulated s0 relA any_result m1 m2 Q ->
  (forall a a', relA a a' -> Q a -> simulated s0 relB GB (k1 a) (k2 a') R) ->
  simulated s0 relB GB (m1 ≫= k1) (m2 ≫= k2) R.
Proof.
  intros Hm Hk. eapply sim_bind; [exact Hm|by intros|]. intros a a' Hrel Hq _. auto.
Qed.

Lemma sim_bind_eq {A B} (relB : B -> B -> Prop) GB (m1 m2 : M A) (k1 k2 : A -> M B) Q R :
  simulated s0 eq any_result m1 m2 Q ->
  (forall a, Q a -> simulated s0 relB GB (k1 a) (k2 a) R) ->
  simulated s0 relB GB (m1 ≫= k1) (m2 ≫= k2) R.
Proof.
  intros Hm Hk. eapply sim_bind_any; [exact Hm|]. intros a a' <- Hq. auto.
Qed.

Lemma sim_weaken {A} (rel : A -> A -> Prop) (G G' Q Q' : A -> Prop) m1 m2 :
  simulated s0 rel G m1 m2 Q -> (forall a, G' a -> G a) -> (forall a, Q a -> Q' a) ->
  simulated s0 rel G' m1 m2 Q'.
Proof.
  intros H HG HQ s a s' Hs Hrun Hg. destruct (H s a s' Hs Hrun (HG a Hg)) as (Hq & He & Ht).
  auto.
Qed.

Lemma sim_ret {A} (rel : A -> A -> Prop) G (a b : A) (Q : A -> Prop) :
  rel a b -> Q a -> simulated s0 rel G (mret a) (mret b) Q.
Proof.
  intros Hrel Hq s a' s' Hs [= <- <-] _. split; [exact Hq|]. split; [apply extends_refl|].
  intros t Ht. exists b, t. repeat split; auto using same_fixed_parts_refl; apply in_step_refl.
Qed.

Lemma sim_undef {A} (rel : A -> A -> Prop) G (m2 : M A) Q : simulated s0 rel G undef m2 Q.
Proof. intros s a s' _ H. discriminate. Qed.

Lemma sim_no_fuel {A} (rel : A -> A -> Prop) G (m2 : M A) Q : simulated s0 rel G no_fuel m2 Q.
Proof. intros s a s' _ H. discriminate. Qed.

(** A computation that reads only. *)
Lemma sim_read {A} (rel : A -> A -> Prop) G (m1 m2 : M A) (Q : A -> Prop) :
  (forall s a s', extends s0 s -> m1 s = Ret a s' ->
     s' = s /\ Q a /\ forall t, extends s t -> exists b, m2 t = Ret b t /\ rel a b) ->
  simulated s0 rel G m1 m2 Q.
Proof.
  intros H s a s' Hs Hrun _. destruct (H s a s' Hs Hrun) as (-> & Hq & Ht).
  split; [exact Hq|]. split; [apply extends_refl|].
  intros t Hext. destruct (Ht t Hext) as (b & Hrun2 & Hrel).
  exists b, t. repeat split; auto using same_fixed_parts_refl; apply in_step_refl.
Qed.

Lemma extends_as_built s pos x : extends s0 s -> obstack s !! pos = Some x -> as_built s0 pos x.
Proof.
  intros Hs Hx. destruct (obstack s0 !! pos) as [x0|] eqn:H0.
  - left. exists x0. split; [exact H0|].
    destruct (extends_obstack _ _ Hs pos x0 H0) as (y & Hy & Hl). congruence.
  - right. split; [exact H0|]. eapply (extends_new _ _ Hs); [|exact Hx].
    by apply lookup_ge_None.
Qed.

Lemma sim_load_tag G pos :
  simulated s0 (fun x y => fixed_part x = fixed_part y) G (load_tag pos) (load_tag pos) (as_built s0 pos).
Proof.
  apply sim_read. intros s x s' Hs. unfold load_tag.
  destruct (obstack s !! pos) as [x'|] eqn:Hx; [|discriminate]. intros [= <- <-].
  split; [reflexivity|]. split; [eapply extends_as_built; eauto|].
  intros t Ht. destruct (extends_obstack _ _ Ht pos x' Hx) as (y & Hy & Hl).
  exists y. rewrite Hy. auto.
Qed.

Lemma sim_tag__priv G pos :
  simulated s0 eq G (tag__priv pos) (tag__priv pos)
    (fun dtag => exists x0, obstack s0 !! pos = Some x0 /\ tg_priv x0 = Some dtag).
Proof.
  apply sim_read. intros s dtag s' Hs. unfold tag__priv, load_tag, mbind, M_bind.
  destruct (obstack s !! pos) as [x|] eqn:Hx; [|discriminate].
  destruct (tg_priv x) as [d|] eqn:Hp; [|discriminate]. intros [= <- <-].
  split; [reflexivity|]. split.
  - destruct (extends_as_built s pos x Hs Hx) as [(x0 & H0 & Hl)|(_ & Hnone & _)]; [|congruence].
    exists x0. split; [exact H0|]. rewrite <- (fixed_part_priv _ _ Hl). exact Hp.
  - intros t Ht. destruct (extends_obstack _ _ Ht pos x Hx) as (y & Hy & Hl).
    exists d. rewrite Hy, (fixed_part_priv _ _ Hl), Hp. auto.
Qed.

Lemma sim_load_dtag G p :
  simulated s0 eq G (load_dtag p) (load_dtag p) (fun d => dcu_obstack s0 !! p = Some d).
Proof.
  apply sim_read. intros s d s' Hs. unfold load_dtag.
  destruct (dcu_obstack s !! p) as [d'|] eqn:Hd; [|discriminate]. intros [= <- <-].
  split; [reflexivity|]. split; [by rewrite <- (extends_raw _ _ Hs)|].
  intros t Ht. exists d'. by rewrite (extends_raw _ _ Ht), Hd.
Qed.

Lemma hashtags__find_in_same_raw chain id s t r s' :
  dcu_obstack t = dcu_obstack s ->
  hashtags__find_in chain id s = Ret r s' -> s' = s /\ hashtags__find_in chain id t = Ret r t.
Proof.
  intros Hraw. induction chain as [|tpos chain IH]; cbn [hashtags__find_in].
  - intros [= <- <-]. auto.
  - unfold mbind, M_bind, load_dtag. rewrite Hraw.
    destruct (dcu_obstack s !! tpos) as [d|]; [|discriminate].
    destruct (dt_id d =? id); [intros [= <- <-]; auto|exact IH].
Qed.

Lemma hashtags__find_same_raw h id s t r s' :
  dcu_obstack t = dcu_obstack s ->
  hashtags__find h id s = Ret r s' -> s' = s /\ hashtags__find h id t = Ret r t.
Proof.
  intros Hraw. unfold hashtags__find. destruct (id =? 0).
  - intros [= <- <-]. auto.
  - by apply hashtags__find_in_same_raw.
Qed.

Lemma sim_find_type G id :
  simulated s0 eq G (dwarf_cu__find_type_by_id id) (dwarf_cu__find_type_by_id id)
    (fun r => dwarf_cu__find_type_by_id id s0 = Ret r s0).
Proof.
  apply sim_read. intros s r s' Hs. unfold dwarf_cu__find_type_by_id, get_cu, mbind, M_bind.
  intros Hrun. split; [|split].
  - eapply hashtags__find_same_raw; [reflexivity|exact Hrun].
  - rewrite (extends_hash_types _ _ Hs) in Hrun.
    eapply (hashtags__find_same_raw _ _ s s0); [symmetry; apply (extends_raw _ _ Hs)|exact Hrun].
  - intros t Ht. exists r. split; [|reflexivity]. rewrite (extends_hash_types _ _ Ht).
    eapply hashtags__find_same_raw; [apply (extends_raw _ _ Ht)|exact Hrun].
Qed.

Lemma sim_find_tag G id :
  simulated s0 eq G (dwarf_cu__find_tag_by_id id) (dwarf_cu__find_tag_by_id id)
    (fun r => dwarf_cu__find_tag_by_id id s0 = Ret r s0).
Proof.
  apply sim_read. intros s r s' Hs. unfold dwarf_cu__find_tag_by_id, get_cu, mbind, M_bind.
  intros Hrun. split; [|split].
  - eapply hashtags__find_same_raw; [reflexivity|exact Hrun].
  - rewrite (extends_hash_tags _ _ Hs) in Hrun.
    eapply (hashtags__find_same_raw _ _ s s0); [symmetry; apply (extends_raw _ _ Hs)|exact Hrun].
  - intros t Ht. exists r. split; [|reflexivity]. rewrite (extends_hash_tags _ _ Ht).
    eapply hashtags__find_same_raw; [apply (extends_raw _ _ Ht)|exact Hrun].
Qed.

(** Writes *)

Lemma extends_stored s pos x x' :
  obstack s !! pos = Some x -> fixed_part x' = fixed_part x -> extends s (stored pos x' s).
Proof.
  intros Hx Hl. unfold stored. split; auto.
  - exists []. rewrite app_nil_r. auto.
  - intros p y Hy. cbn [obstack set_obstack].
    destruct (decide (p = pos)) as [->|Hne].
    + exists x'. rewrite list_lookup_insert_eq by (eapply lookup_lt_Some; eauto).
      split; [reflexivity|congruence].
    + exists y. by rewrite list_lookup_insert_ne by congruence.
  - intros p y Hp. cbn [obstack set_obstack]. intros Hy.
    apply lookup_lt_Some in Hy. rewrite length_insert in Hy. lia.
  - unfold types_table_wf. cbn [obstack set_obstack types_table]. by rewrite length_insert.
Qed.

Lemma same_fixed_parts_stored t pos y y' :
  obstack t !! pos = Some y -> fixed_part y' = fixed_part y -> same_fixed_parts t (stored pos y' t).
Proof.
  intros Hy Hl. unfold stored. repeat split. cbn [obstack set_obstack].
  rewrite list_fmap_insert, Hl. apply list_insert_id. by rewrite list_lookup_fmap, Hy.
Qed.

Lemma in_step_stored {B} (f : tag -> B) s t pos x y x' y' :
  obstack s !! pos = Some x -> obstack t !! pos = Some y ->
  f x' = f y' \/ (f x' = f x /\ f y' = f y) ->
  in_step f s (stored pos x' s) t (stored pos y' t).
Proof.
  intros Hx Hy Hf p. unfold stored. cbn [obstack set_obstack]. rewrite !length_insert.
  destruct (decide (p = pos)) as [->|Hne].
  - rewrite !list_lookup_insert_eq by (eapply lookup_lt_Some; eauto).
    destruct Hf as [Hf|[Hf1 Hf2]].
    + left. split; [eapply lookup_lt_Some; eauto|]. cbn. congruence.
    + right. rewrite Hx, Hy. cbn. split; [congruence|]. intros _. congruence.
  - right. by rewrite !list_lookup_insert_ne by congruence.
Qed.

Lemma sim_update_type G pos v :
  simulated s0 eq G (update_tag pos (set_tg_type v)) (update_tag pos (set_tg_type v)) any_result.
Proof.
  intros s a s' Hs. unfold update_tag, load_tag, store_tag, mbind, M_bind.
  destruct (obstack s !! pos) as [x|] eqn:Hx; [|discriminate]. cbn. rewrite Hx.
  intros [= <- <-] _. fold (stored pos (set_tg_type v x) s).
  split; [exact I|]. split; [eapply extends_stored; eauto using fixed_part_set_tg_type|].
  intros t Ht.
  destruct (extends_obstack _ _ Ht pos (set_tg_type v x)) as (y & Hy & Hl).
  { unfold stored. cbn [obstack set_obstack].
    apply list_lookup_insert_eq. eapply lookup_lt_Some; eauto. }
  exists tt, (stored pos (set_tg_type v y) t). rewrite Hy. cbn. rewrite Hy.
  split; [reflexivity|]. split; [reflexivity|].
  split; [eapply same_fixed_parts_stored; eauto using fixed_part_set_tg_type|].
  split; eapply in_step_stored; eauto.
Qed.

Lemma sim_fprintf G d : simulated s0 eq G (fprintf_stderr d) (fprintf_stderr d) any_result.
Proof.
  intros s a s'. unfold fprintf_stderr, modify_cu. intros Hs [= <- <-] _.
  split; [exact I|]. split.
  - split; auto.
    + exists []. rewrite app_nil_r. auto.
    + intros p x Hx. eauto.
    + intros p y Hp Hy. apply lookup_lt_Some in Hy. cbn in Hy. lia.
  - intros t Ht. eexists tt, _. split; [reflexivity|]. split; [reflexivity|].
    split; [repeat split|]. split; intros p; right; auto.
Qed.


Hypothesis Halone : resolves_alone s0.

Lemma sim_seq {A} (relB : A -> A -> Prop) GB (m1 m2 : M unit) (k1 k2 : M A) R :
  simulated s0 eq any_result m1 m2 any_result -> simulated s0 relB GB k1 k2 R ->
  simulated s0 relB GB (m1 ≫= fun _ => k1) (m2 ≫= fun _ => k2) R.
Proof. intros Hm Hk. eapply sim_bind_eq; [exact Hm|]. intros _ _. exact Hk. Qed.

Lemma sim_any {A} (rel : A -> A -> Prop) G m1 m2 Q :
  simulated s0 rel G m1 m2 Q -> simulated s0 rel G m1 m2 any_result.
Proof. intros H. eapply sim_weaken; eauto. by intros. Qed.

Lemma sim_set_type_from_small_id pos dtype :
  simulated s0 eq any_result (set_type_from_small_id pos dtype) (set_type_from_small_id pos dtype) any_result.
Proof.
  unfold set_type_from_small_id. eapply sim_bind_eq; [apply sim_load_dtag|].
  intros d _. apply sim_update_type.
Qed.

Lemma sim_print_type_not_found pos fn :
  simulated s0 eq any_result (__tag__print_type_not_found pos fn) (__tag__print_type_not_found pos fn) any_result.
Proof.
  unfold __tag__print_type_not_found.
  eapply sim_bind_any; [apply sim_load_tag|]. intros x y Hl _.
  eapply sim_bind_eq; [apply sim_tag__priv|]. intros dtag _.
  eapply sim_bind_eq; [apply sim_load_dtag|]. intros d _.
  rewrite (fixed_part_tag _ _ Hl). apply sim_fprintf.
Qed.

Lemma sim_print_abstract_origin_not_found pos fn :
  simulated s0 eq any_result (__tag__print_abstract_origin_not_found pos fn)
    (__tag__print_abstract_origin_not_found pos fn) any_result.
Proof.
  unfold __tag__print_abstract_origin_not_found.
  eapply sim_bind_any; [apply sim_load_tag|]. intros x y Hl _.
  eapply sim_bind_eq; [apply sim_tag__priv|]. intros dtag _.
  eapply sim_bind_eq; [apply sim_load_dtag|]. intros d _.
  rewrite (fixed_part_tag _ _ Hl). apply sim_fprintf.
Qed.

(** [find_type:] followed by the store or the diagnostic. *)
Lemma sim_by_type pos ref fn :
  simulated s0 eq any_result
    (dtype ← dwarf_cu__find_type_by_id ref;
     match dtype with
     | None => __tag__print_type_not_found pos fn
     | Some dtype => set_type_from_small_id pos dtype
     end)
    (dtype ← dwarf_cu__find_type_by_id ref;
     match dtype with
     | None => __tag__print_type_not_found pos fn
     | Some dtype => set_type_from_small_id pos dtype
     end) any_result.
Proof.
  eapply sim_bind_eq; [apply sim_find_type|]. intros [dtype|] _.
  - apply sim_set_type_from_small_id.
  - apply sim_print_type_not_found.
Qed.

Lemma sim_ftype_loop parms :
  Forall (typed_parameter s0) parms ->
  simulated s0 eq any_result (ftype__recode_dwarf_types_loop parms) (ftype__recode_dwarf_types_loop parms) any_result.
Proof.
  induction 1 as [|pos parms Hpos _ IH]; cbn [ftype__recode_dwarf_types_loop].
  - by apply sim_ret.
  - eapply sim_bind_eq; [apply sim_tag__priv|]. intros dpos (x0 & Hx0 & Hpriv).
    eapply sim_bind_eq; [apply sim_load_dtag|]. intros d Hd.
    apply sim_seq; [|exact IH].
    destruct (dt_type d =? 0) eqn:Hty.
    + destruct (dt_abstract_origin d =? 0) eqn:Hor; [apply sim_update_type|].
      exfalso. destruct (Hpos x0 dpos d Hx0 Hpriv Hd); lia.
    + apply sim_by_type.
Qed.

Lemma sim_ftype self :
  simulated s0 eq any_result (ftype__recode_dwarf_types self) (ftype__recode_dwarf_types self) any_result.
Proof.
  unfold ftype__recode_dwarf_types.
  eapply sim_bind_any; [apply sim_load_tag|]. intros x y Hl Hstart.
  rewrite <- (fixed_part_as_ftype _ _ Hl).
  destruct (as_ftype (tg_body x)) as [ft|] eqn:Hft; [|apply sim_undef].
  apply sim_ftype_loop.
  destruct Hstart as [(x0 & Hx0 & Hl0)|(_ & _ & Hnone & _)]; [|congruence].
  rewrite Forall_forall. intros pos Hin.
  eapply (alone_parameters _ Halone); eauto. by rewrite <- (fixed_part_as_ftype _ _ Hl0).
Qed.


Lemma sim_lexblock : forall fuel fuel' self,
  (fuel <= fuel')%nat ->
  simulated s0 eq any_result (lexblock__recode_dwarf_types fuel self)
    (lexblock__recode_dwarf_types fuel' self) any_result.
Proof.
  induction fuel as [|fuel IH]; intros [|fuel'] self Hle; try lia;
    cbn [lexblock__recode_dwarf_types]; try apply sim_no_fuel.
  eapply sim_bind_any; [apply sim_load_tag|]. intros x y Hl _.
  rewrite <- (fixed_part_as_lexblock _ _ Hl).
  destruct (as_lexblock (tg_body x)) as [lb|]; [|apply sim_undef].
  generalize (lb_tags lb). intros tags.
  induction tags as [|pos tags IHt]; [by apply sim_ret|].
  eapply sim_bind_any; [apply sim_load_tag|]. intros p q Hpq Hstart.
  rewrite <- (fixed_part_tag _ _ Hpq).
  apply sim_seq; [|exact IHt].
  destruct (tg_tag p =? DW.TAG_lexical_block) eqn:Hlb; [apply IH; lia|].
  eapply sim_bind_eq; [apply sim_tag__priv|]. intros dpos (x0 & Hx0 & Hpriv).
  eapply sim_bind_eq; [apply sim_load_dtag|]. intros d Hd.
  assert (Hp0 : fixed_part p = fixed_part x0).
  { destruct Hstart as [(x1 & Hx1 & Hl1)|(Hnone & _)]; congruence. }
  pose proof (alone_objects _ Halone pos x0 dpos d Hx0 Hpriv Hd) as (Hpv & Hlabel & _).
  rewrite <- (fixed_part_tag _ _ Hp0) in Hpv, Hlabel.
  assert (Hby : simulated s0 eq any_result
            (dpos ← tag__priv pos; d ← load_dtag dpos;
             dtype ← dwarf_cu__find_type_by_id (dt_type d);
             match dtype with
             | None => __tag__print_type_not_found pos "lexblock__recode_dwarf_types"
             | Some dtype => set_type_from_small_id pos dtype
             end)
            (dpos ← tag__priv pos; d ← load_dtag dpos;
             dtype ← dwarf_cu__find_type_by_id (dt_type d);
             match dtype with
             | None => __tag__print_type_not_found pos "lexblock__recode_dwarf_types"
             | Some dtype => set_type_from_small_id pos dtype
             end) any_result).
  { eapply sim_bind_eq; [apply sim_tag__priv|]. intros dpos' _.
    eapply sim_bind_eq; [apply sim_load_dtag|]. intros d' _. apply sim_by_type. }
  destruct (tg_tag p =? DW.TAG_inlined_subroutine).
  { eapply sim_bind_eq; [apply sim_find_tag|]. intros [dtype|] _.
    - eapply sim_bind_eq; [apply sim_load_dtag|]. intros o _. apply sim_ftype.
    - apply sim_print_type_not_found. }
  destruct (tg_tag p =? DW.TAG_formal_parameter) eqn:Hparm.
  { apply Z.eqb_eq in Hparm.
    destruct (dt_type d =? 0) eqn:Hty; cbn [negb]; [|exact Hby].
    assert (Hor : dt_abstract_origin d = 0) by (destruct Hpv; [auto|lia|auto]).
    rewrite Hor.
    eapply sim_bind_eq; [apply sim_find_tag|]. intros r Hr.
    unfold dwarf_cu__find_tag_by_id, get_cu, hashtags__find, mbind, M_bind in Hr.
    cbn in Hr. injection Hr as <-. apply sim_print_abstract_origin_not_found. }
  destruct (tg_tag p =? DW.TAG_variable) eqn:Hvar.
  { apply Z.eqb_eq in Hvar.
    destruct (dt_type d =? 0) eqn:Hty; cbn [negb]; [|exact Hby].
    assert (Hor : dt_abstract_origin d = 0) by (destruct Hpv; [auto|lia|auto]).
    rewrite Hor. cbn. by apply sim_ret. }
  destruct (tg_tag p =? DW.TAG_label) eqn:Hlab.
  { apply Z.eqb_eq in Hlab. rewrite (Hlabel Hlab). cbn. by apply sim_ret. }
  exact Hby.
Qed.


Hypothesis Hwf0 : types_table_wf s0.

Lemma sim_recode fuel fuel' self w :
  (fuel <= fuel')%nat -> to_type_size w = w ->
  (forall y, as_built s0 self y -> is_wrapper (tg_tag y) = false) ->
  simulated s0 (fun a b => u16 a = u16 b /\ 0 <= b) (fun id => 0 <= id)
    (tag__recode_dwarf_bitfield fuel self w) (tag__recode_dwarf_bitfield fuel' self w) any_result.
Proof.
  intros Hle Hw Hnw s id s1 Hs Hrun Hid.
  destruct fuel' as [|fuel']; [destruct fuel; [discriminate Hrun|lia]|].
  pose proof (extends_wf _ _ Hs Hwf0) as Hwf.
  apply tag__recode_dwarf_bitfield_outcome in Hrun as (y & Hy & Hcases); [|exact Hid].
  destruct Hcases as [Hwrap|(P & Htest & Hcases)].
  { rewrite (Hnw y) in Hwrap; [discriminate|]. eapply extends_as_built; eauto. }
  pose proof (recode_test_low_invariant _ _ _ Htest) as HP.
  split; [exact I|].
  assert (Hpos : forall i, 0 <= u16 i) by (intros i; unfold u16; apply Z.mod_pos_bound; lia).
  destruct Hcases as [(p & i & Hfind & -> & ->)|(Hnone & m & r & Hmem & -> & -> & Hpriv & Hft & Hk & Hr)].
  - split; [apply extends_refl|]. intros t Ht.
    destruct (extends_obstack _ _ Ht self y Hy) as (y' & Hy' & Hl).
    exists (u16 (Z.of_nat i)), t.
    split; [|split; [auto|split; [apply same_fixed_parts_refl|apply fields_in_step_refl]]].
    eapply tag__recode_dwarf_bitfield_found; eauto.
    + by rewrite (recode_test_low _ _ _ Hl).
    + eapply find_first_found; eauto.
  - assert (Hext : extends s (with_new_type r m s)) by (by apply extends_with_new_type).
    split; [exact Hext|]. intros t Ht.
    destruct (extends_obstack _ _ (extends_trans _ _ _ Hext Ht) self y Hy) as (y' & Hy' & Hl).
    exists (u16 (Z.of_nat (length (types_table s)))), t.
    split; [|split; [|split; [apply same_fixed_parts_refl|apply fields_in_step_with_new_type]]].
    + eapply tag__recode_dwarf_bitfield_found; eauto.
      * by rewrite (recode_test_low _ _ _ Hl).
      * eapply (find_first_added P s _ t (length (obstack s)) r); eauto.
        apply lookup_new_type.
    + split; [|apply Hpos]. rewrite u16_to_int. unfold u16. by rewrite Z.mod_mod.
Qed.


Hypothesis Hbits : 16 <= Z.pos type_size_bits.

Lemma to_type_size_u16 b : to_type_size (u16 b) = u16 b.
Proof.
  unfold to_type_size, u16. apply Z.mod_small.
  pose proof (Z.mod_pos_bound b (2 ^ 16) ltac:(lia)).
  assert (2 ^ 16 <= 2 ^ Z.pos type_size_bits) by (apply Z.pow_le_mono_r; lia). lia.
Qed.

Lemma sim_class_member fuel fuel' pos :
  (fuel <= fuel')%nat ->
  (forall x0, obstack s0 !! pos = Some x0 ->
     tg_tag x0 = DW.TAG_member /\ exists b, bitfield_size_of x0 = Some b /\ b <> 0) ->
  simulated s0 eq (fun r => r = 0) (class_member__dwarf_recode_bitfield fuel pos)
    (class_member__dwarf_recode_bitfield fuel' pos) any_result.
Proof.
  intros Hle Hmember. unfold class_member__dwarf_recode_bitfield.
  eapply sim_bind_eq; [apply sim_tag__priv|]. intros dtag (x0 & Hx0 & Hpriv).
  eapply sim_bind_eq; [apply sim_load_dtag|]. intros d Hd.
  eapply sim_bind_eq; [apply sim_find_type|]. intros [type|] Htype; [|apply sim_undef].
  eapply sim_bind_eq; [apply sim_load_dtag|]. intros dt Hdt.
  eapply sim_bind_any; [apply sim_load_tag|]. intros m m' Hl _.
  rewrite <- (fixed_part_bitfield_size_of _ _ Hl).
  destruct (bitfield_size_of m) as [b|]; [|apply sim_undef].
  destruct (Hmember x0 Hx0) as (Hk & b0 & Hb0 & Hne).
  eapply sim_bind.
  - apply (sim_recode fuel fuel' (dt_tag dt) (u16 b) Hle (to_type_size_u16 b)).
    intros y [(y0 & Hy0 & Hl0)|(_ & _ & _ & Hw)]; [|exact Hw].
    rewrite (fixed_part_tag _ _ Hl0).
    eapply (alone_bitfields _ Halone pos x0 b0 dtag d type dt y0); eauto.
  - intros a s b' s'. cbv beta. destruct (a <? 0) eqn:Ha.
    + intros [= <- _] ->. lia.
    + intros _ _. lia.
  - intros a a' [Ha Hpos] _ Hge. cbv beta.
    destruct (a <? 0) eqn:E; [lia|]. destruct (a' <? 0) eqn:E'; [lia|].
    rewrite Ha. apply sim_seq; [apply sim_update_type|]. by apply sim_ret.
Qed.

Lemma sim_namespace : forall fuel fuel' self,
  (fuel <= fuel')%nat ->
  simulated s0 eq (fun r => r = 0) (namespace__recode_dwarf_types fuel self)
    (namespace__recode_dwarf_types fuel' self) any_result.
Proof.
  induction fuel as [|fuel IH]; intros [|fuel'] self Hle; try lia;
    cbn [namespace__recode_dwarf_types]; try apply sim_no_fuel.
  eapply sim_bind_any; [apply sim_load_tag|]. intros x y Hl _.
  rewrite <- (fixed_part_as_namespace _ _ Hl).
  destruct (as_namespace (tg_body x)) as [[? ? ? ? lh]|]; [|apply sim_undef].
  destruct lh as [|tags|owner]; try apply sim_undef.
  induction tags as [|pos tags IHt]; [by apply sim_ret|].
  eapply sim_bind_any; [apply sim_load_tag|]. intros p q Hpq Hstart.
  rewrite <- (fixed_part_tag _ _ Hpq), <- (fixed_part_bitfield_size_of _ _ Hpq). cbv zeta.
  match type of IHt with simulated _ _ _ ?l1 ?l2 _ =>
    assert (Hfind : forall ref,
              simulated s0 eq (fun r => r = 0)
                (dtype ← dwarf_cu__find_type_by_id ref;
                 match dtype with
                 | None =>
                     _ ← __tag__print_type_not_found pos "namespace__recode_dwarf_types"; l1
                 | Some dtype => _ ← set_type_from_small_id pos dtype; l1
                 end)
                (dtype ← dwarf_cu__find_type_by_id ref;
                 match dtype with
                 | None =>
                     _ ← __tag__print_type_not_found pos "namespace__recode_dwarf_types"; l2
                 | Some dtype => _ ← set_type_from_small_id pos dtype; l2
                 end) any_result);
    [|assert (Hafter :
              simulated s0 eq (fun r => r = 0)
                (dpos ← tag__priv pos; d ← load_dtag dpos;
                 if dt_type d =? 0 then l1
                 else
                   dtype ← dwarf_cu__find_type_by_id (dt_type d);
                   match dtype with
                   | None =>
                       _ ← __tag__print_type_not_found pos "namespace__recode_dwarf_types"; l1
                   | Some dtype => _ ← set_type_from_small_id pos dtype; l1
                   end)
                (dpos ← tag__priv pos; d ← load_dtag dpos;
                 if dt_type d =? 0 then l2
                 else
                   dtype ← dwarf_cu__find_type_by_id (dt_type d);
                   match dtype with
                   | None =>
                       _ ← __tag__print_type_not_found pos "namespace__recode_dwarf_types"; l2
                   | Some dtype => _ ← set_type_from_small_id pos dtype; l2
                   end) any_result)]
  end.
  { intros ref. eapply sim_bind_eq; [apply sim_find_type|]. intros [dtype|] _.
    - apply sim_seq; [apply sim_set_type_from_small_id|exact IHt].
    - apply sim_seq; [apply sim_print_type_not_found|exact IHt]. }
  { eapply sim_bind_eq; [apply sim_tag__priv|]. intros dpos _.
    eapply sim_bind_eq; [apply sim_load_dtag|]. intros d _.
    destruct (dt_type d =? 0); [exact IHt|apply Hfind]. }
  destruct (tag__has_namespace (tg_tag p)).
  { eapply sim_bind; [apply IH; lia| |].
    - intros a s b s'. cbv beta. destruct (a =? 0) eqn:E; cbn [negb]; [lia|].
      intros [= <- _] H. discriminate H.
    - intros a a' <- _ ->. cbn. exact IHt. }
  destruct (tg_tag p =? DW.TAG_member) eqn:Hmem.
  { destruct (bitfield_size_of p) as [b|] eqn:Hb; [|apply sim_undef].
    destruct (b =? 0) eqn:Hz; cbn [negb]; [exact Hafter|].
    eapply sim_bind.
    - apply (sim_class_member fuel fuel' pos); [lia|].
      intros x0 Hx0. destruct Hstart as [(x1 & Hx1 & Hl1)|(Hnone & _)]; [|congruence].
      assert (x1 = x0) by congruence. subst x1.
      rewrite <- (fixed_part_tag _ _ Hl1), <- (fixed_part_bitfield_size_of _ _ Hl1).
      split; [lia|]. exists b. split; [exact Hb|lia].
    - intros a s b' s'. cbv beta. destruct (a =? 0) eqn:E; cbn [negb]; [lia|].
      intros [= <- _] H. discriminate H.
    - intros a a' <- _ ->. cbn. exact IHt. }
  destruct ((tg_tag p =? DW.TAG_subroutine_type) || (tg_tag p =? DW.TAG_subprogram)).
  { apply sim_seq; [apply sim_ftype|exact Hafter]. }
  destruct (tg_tag p =? DW.TAG_imported_module).
  { eapply sim_bind_eq; [apply sim_tag__priv|]. intros dpos _.
    eapply sim_bind_eq; [apply sim_load_dtag|]. intros d _.
    eapply sim_bind_eq; [apply sim_find_tag|]. intros [dtype|] _.
    - apply sim_seq; [apply sim_set_type_from_small_id|exact IHt].
    - apply sim_seq; [apply sim_print_type_not_found|exact IHt]. }
  destruct (tg_tag p =? DW.TAG_imported_declaration).
  { eapply sim_bind_eq; [apply sim_tag__priv|]. intros dpos _.
    eapply sim_bind_eq; [apply sim_load_dtag|]. intros d _.
    eapply sim_bind_eq; [apply sim_find_tag|]. intros [dtype|] _.
    - apply sim_seq; [apply sim_set_type_from_small_id|exact IHt].
    - apply Hfind. }
  exact Hafter.
Qed.


Lemma sim_dwarf_tag__spec dtag :
  simulated s0 eq any_result (dwarf_tag__spec dtag) (dwarf_tag__spec dtag)
    (fun sp => exists d, dcu_obstack s0 !! dtag = Some d /\ dt_spec d = Some sp).
Proof.
  unfold dwarf_tag__spec. eapply sim_bind_eq; [apply sim_load_dtag|]. intros d Hd.
  destruct (dt_spec d) as [sp|] eqn:Hsp; [|apply sim_undef].
  apply sim_ret; [reflexivity|]. exists d. auto.
Qed.

Lemma sim_specification self :
  (forall x0, obstack s0 !! self = Some x0 -> tag__is_type (tg_tag x0) = true) ->
  simulated s0 eq any_result (type__recode_dwarf_specification self)
    (type__recode_dwarf_specification self) any_result.
Proof.
  intros Htype. unfold type__recode_dwarf_specification.
  eapply sim_bind_any; [apply sim_load_tag|]. intros x y Hl Hstart.
  eapply sim_bind_eq; [apply sim_tag__priv|]. intros dtag (x0 & Hx0 & Hpriv).
  eapply sim_bind_eq; [apply sim_dwarf_tag__spec|]. intros sp (d & Hd & Hsp).
  rewrite <- (fixed_part_as_namespace _ _ Hl).
  destruct (as_namespace (tg_body x)) as [ns|] eqn:Hns; [|apply sim_undef].
  assert (Hx : fixed_part x = fixed_part x0).
  { destruct Hstart as [(x1 & Hx1 & Hl1)|(Hnone & _)]; congruence. }
  pose proof (alone_objects _ Halone self x0 dtag d Hx0 Hpriv Hd) as (_ & _ & _ & Hnamed).
  destruct (Hnamed (Htype x0 Hx0) ns sp) as [Hname|Hzero]; auto.
  { by rewrite <- (fixed_part_as_namespace _ _ Hx). }
  - apply Z.eqb_neq in Hname. rewrite Hname. cbn. by apply sim_ret.
  - subst sp. rewrite orb_true_r. by apply sim_ret.
Qed.

Lemma sim_update_containing pos v :
  simulated s0 eq any_result
    (update_body pos (fun b => match b with
                               | B_ptr_to_member_type _ => Some (B_ptr_to_member_type v)
                               | _ => None
                               end))
    (update_body pos (fun b => match b with
                               | B_ptr_to_member_type _ => Some (B_ptr_to_member_type v)
                               | _ => None
                               end)) any_result.
Proof.
  intros s a s' Hs. unfold update_body, load_tag, store_tag, mbind, M_bind.
  destruct (obstack s !! pos) as [x|] eqn:Hx; [|discriminate].
  destruct (tg_body x) as [|c| | | | | | | | | | | | | |] eqn:Hb; try discriminate.
  rewrite Hx. intros [= <- <-] _.
  fold (stored pos (set_tg_body (B_ptr_to_member_type v) x) s).
  assert (Hlow : forall z c', tg_body z = B_ptr_to_member_type c' ->
                   fixed_part (set_tg_body (B_ptr_to_member_type v) z) = fixed_part z).
  { intros [? ? ? ? ? ?] c'. cbn. intros ->. reflexivity. }
  split; [exact I|]. split; [eapply extends_stored; eauto|].
  intros t Ht.
  destruct (extends_obstack _ _ Ht pos (set_tg_body (B_ptr_to_member_type v) x)) as (y & Hy & Hl).
  { unfold stored. cbn [obstack set_obstack].
    apply list_lookup_insert_eq. eapply lookup_lt_Some; eauto. }
  assert (Hyb : exists c', tg_body y = B_ptr_to_member_type c').
  { apply fixed_part_body in Hl. destruct x as [xty xk xtl xrl xpr xb]. cbn in Hl.
    destruct (tg_body y); try discriminate. eauto. }
  destruct Hyb as [c' Hyb].
  exists tt, (stored pos (set_tg_body (B_ptr_to_member_type v) y) t). rewrite Hy, Hyb, Hy.
  split; [reflexivity|]. split; [reflexivity|].
  split; [eapply same_fixed_parts_stored; eauto|].
  split; eapply in_step_stored; eauto.
Qed.

Lemma sim_tag fuel fuel' self :
  (fuel <= fuel')%nat ->
  simulated s0 eq (fun r => r = 0) (tag__recode_dwarf_type fuel self)
    (tag__recode_dwarf_type fuel' self) any_result.
Proof.
  intros Hle. unfold tag__recode_dwarf_type.
  eapply sim_bind_any; [apply sim_load_tag|]. intros x y Hl Hstart.
  rewrite <- (fixed_part_priv _ _ Hl), <- (fixed_part_tag _ _ Hl), <- (fixed_part_fn_name_of _ _ Hl).
  destruct (tg_priv x) as [dtag|] eqn:Hpriv; [|by apply sim_ret]. cbv zeta.
  destruct Hstart as [(x0 & Hx0 & Hl0)|(_ & Hnone & _)]; [|congruence].
  assert (Hcheck : forall dtype,
            simulated s0 eq (fun r => r = 0)
              match dtype with
              | None => _ ← __tag__print_type_not_found self "tag__recode_dwarf_type"; mret 0
              | Some dtype => _ ← set_type_from_small_id self dtype; mret 0
              end
              match dtype with
              | None => _ ← __tag__print_type_not_found self "tag__recode_dwarf_type"; mret 0
              | Some dtype => _ ← set_type_from_small_id self dtype; mret 0
              end any_result).
  { intros [dtype|].
    - apply sim_seq; [apply sim_set_type_from_small_id|by apply sim_ret].
    - apply sim_seq; [apply sim_print_type_not_found|by apply sim_ret]. }
  assert (Hfind : simulated s0 eq (fun r => r = 0)
            (d ← load_dtag dtag; dtype ← dwarf_cu__find_type_by_id (dt_type d);
             match dtype with
             | None => _ ← __tag__print_type_not_found self "tag__recode_dwarf_type"; mret 0
             | Some dtype => _ ← set_type_from_small_id self dtype; mret 0
             end)
            (d ← load_dtag dtag; dtype ← dwarf_cu__find_type_by_id (dt_type d);
             match dtype with
             | None => _ ← __tag__print_type_not_found self "tag__recode_dwarf_type"; mret 0
             | Some dtype => _ ← set_type_from_small_id self dtype; mret 0
             end) any_result).
  { eapply sim_bind_eq; [apply sim_load_dtag|]. intros d _.
    eapply sim_bind_eq; [apply sim_find_type|]. intros dtype _. apply Hcheck. }
  assert (Hafter : simulated s0 eq (fun r => r = 0)
            (d ← load_dtag dtag;
             if dt_type d =? 0 then _ ← update_tag self (set_tg_type 0); mret 0
             else
               d ← load_dtag dtag; dtype ← dwarf_cu__find_type_by_id (dt_type d);
               match dtype with
               | None => _ ← __tag__print_type_not_found self "tag__recode_dwarf_type"; mret 0
               | Some dtype => _ ← set_type_from_small_id self dtype; mret 0
               end)
            (d ← load_dtag dtag;
             if dt_type d =? 0 then _ ← update_tag self (set_tg_type 0); mret 0
             else
               d ← load_dtag dtag; dtype ← dwarf_cu__find_type_by_id (dt_type d);
               match dtype with
               | None => _ ← __tag__print_type_not_found self "tag__recode_dwarf_type"; mret 0
               | Some dtype => _ ← set_type_from_small_id self dtype; mret 0
               end) any_result).
  { eapply sim_bind_eq; [apply sim_load_dtag|]. intros d _.
    destruct (dt_type d =? 0); [|exact Hfind].
    apply sim_seq; [apply sim_update_type|by apply sim_ret]. }
  eapply (sim_bind_eq _ _ _ _ _ _ any_result).
  { destruct (tag__is_type (tg_tag x)) eqn:Hty; [|by apply sim_ret].
    apply sim_any with (Q := any_result). apply sim_specification.
    intros x1 Hx1. assert (x1 = x0) by congruence. subst x1.
    by rewrite <- (fixed_part_tag _ _ Hl0). }
  intros _ _.
  destruct (tag__has_namespace (tg_tag x)); [by apply sim_namespace|].
  destruct (tg_tag x =? DW.TAG_subprogram) eqn:Hsub.
  { apply Z.eqb_eq in Hsub.
    destruct (fn_name_of x) as [name|] eqn:Hname; [|apply sim_undef].
    assert (Hrest : simulated s0 eq (fun r => r = 0)
              (_ ← lexblock__recode_dwarf_types fuel self;
               _ ← ftype__recode_dwarf_types self;
               d ← load_dtag dtag;
               if dt_type d =? 0 then _ ← update_tag self (set_tg_type 0); mret 0
               else
                 d ← load_dtag dtag; dtype ← dwarf_cu__find_type_by_id (dt_type d);
                 match dtype with
                 | None => _ ← __tag__print_type_not_found self "tag__recode_dwarf_type"; mret 0
                 | Some dtype => _ ← set_type_from_small_id self dtype; mret 0
                 end)
              (_ ← lexblock__recode_dwarf_types fuel' self;
               _ ← ftype__recode_dwarf_types self;
               d ← load_dtag dtag;
               if dt_type d =? 0 then _ ← update_tag self (set_tg_type 0); mret 0
               else
                 d ← load_dtag dtag; dtype ← dwarf_cu__find_type_by_id (dt_type d);
                 match dtype with
                 | None => _ ← __tag__print_type_not_found self "tag__recode_dwarf_type"; mret 0
                 | Some dtype => _ ← set_type_from_small_id self dtype; mret 0
                 end) any_result).
    { apply sim_seq; [by apply sim_lexblock|]. apply sim_seq; [apply sim_ftype|exact Hafter]. }
    destruct (name =? 0) eqn:Hzero; [|exact Hrest].
    apply Z.eqb_eq in Hzero. subst name.
    eapply sim_bind_eq; [apply sim_dwarf_tag__spec|]. intros sp (d & Hd & Hsp).
    eapply sim_bind_eq; [apply sim_load_dtag|]. intros d' Hd'.
    assert (d' = d) by congruence. subst d'.
    pose proof (alone_objects _ Halone self x0 dtag d Hx0) as (_ & _ & Hfn & _);
      [by rewrite <- (fixed_part_priv _ _ Hl0)|exact Hd|].
    rewrite <- (fixed_part_tag _ _ Hl0), <- (fixed_part_fn_name_of _ _ Hl0) in Hfn.
    destruct (Hfn Hsub 0 sp Hname Hsp) as [?|[-> ->]]; [lia|].
    cbn. by apply sim_ret. }
  destruct (tg_tag x =? DW.TAG_subroutine_type).
  { apply sim_seq; [apply sim_ftype|exact Hafter]. }
  destruct (tg_tag x =? DW.TAG_lexical_block).
  { apply sim_seq; [by apply sim_lexblock|by apply sim_ret]. }
  destruct (tg_tag x =? DW.TAG_ptr_to_member_type).
  { eapply sim_bind_eq; [apply sim_load_dtag|]. intros d _.
    eapply sim_bind_eq; [apply sim_find_type|]. intros dtype _.
    apply sim_seq; [|exact Hafter].
    destruct dtype as [dtype|]; [|apply sim_fprintf].
    eapply sim_bind_eq; [apply sim_load_dtag|]. intros o _. apply sim_update_containing. }
  destruct (tg_tag x =? DW.TAG_namespace); [by apply sim_namespace|].
  destruct ((tg_tag x =? DW.TAG_inlined_subroutine) || (tg_tag x =? DW.TAG_imported_module)).
  { eapply sim_bind_eq; [apply sim_load_dtag|]. intros d _.
    eapply sim_bind_eq; [apply sim_find_tag|]. intros dtype _. apply Hcheck. }
  destruct (tg_tag x =? DW.TAG_imported_declaration).
  { eapply sim_bind_eq; [apply sim_load_dtag|]. intros d _.
    eapply sim_bind_eq; [apply sim_find_tag|]. intros [dtype|] _; [apply (Hcheck (Some dtype))|].
    exact Hfind. }
  exact Hafter.
Qed.


(** The table_again of one table. *)

Lemma extends_entries pt s t i e :
  extends s t -> entries pt s !! i = Some e -> entries pt t !! i = Some e.
Proof.
  intros Hext Hi. destruct pt; cbn [entries] in *.
  - destruct (extends_types _ _ Hext) as (new & -> & _). by apply lookup_app_l_Some.
  - by rewrite (extends_tags _ _ Hext).
  - by rewrite (extends_functions _ _ Hext).
Qed.

Lemma extends_entries_inert pt s t i e :
  extends s t -> entries pt s !! i = None -> entries pt t !! i = Some e -> inert t e.
Proof.
  intros Hext Hi Ht. destruct pt; cbn [entries] in *.
  - destruct (extends_types _ _ Hext) as (new & E & Hall). rewrite E in Ht.
    apply lookup_app_Some in Ht as [Ht|[_ Ht]]; [congruence|].
    rewrite Forall_forall in Hall. apply Hall. eapply list_elem_of_lookup_2; eauto.
  - rewrite (extends_tags _ _ Hext) in Ht. congruence.
  - rewrite (extends_functions _ _ Hext) in Ht. congruence.
Qed.

Lemma table_again_inert pt : forall n fuel' i t,
  (forall j e, (i <= j)%nat -> entries pt t !! j = Some e -> inert t e) ->
  (length (entries pt t) - i = n)%nat -> (n < fuel')%nat ->
  cu__recode_dwarf_types_table fuel' pt i t = Ret 0 t.
Proof.
  induction n as [|n IH]; intros [|fuel'] i t Hinert Hn Hfuel; try lia;
    cbn [cu__recode_dwarf_types_table]; unfold mbind at 1, M_bind at 1, get_cu at 1.
  - rewrite lookup_ge_None_2 by lia. reflexivity.
  - destruct (entries pt t !! i) as [e|] eqn:Hi; [|reflexivity].
    destruct (Hinert i e (le_n _) Hi) as (p & y & -> & Hy & Hpriv).
    unfold tag__recode_dwarf_type, mbind at 1, M_bind at 1, mbind at 1, M_bind at 1, load_tag.
    rewrite Hy, Hpriv. cbn [mret M_ret Z.eqb negb].
    apply IH; [|lia|lia]. intros j e Hj. apply Hinert. lia.
Qed.

Lemma table_again pt : forall fuel i s r s',
  extends s0 s -> cu__recode_dwarf_types_table fuel pt i s = Ret r s' -> r = 0 ->
  extends s s' /\
  forall t fuel',
    extends s' t -> (fuel <= fuel')%nat -> (length (entries pt t) < i + fuel')%nat ->
    exists t', cu__recode_dwarf_types_table fuel' pt i t = Ret 0 t' /\
               same_fixed_parts t t' /\ fields_in_step s s' t t'.
Proof.
  induction fuel as [|fuel IH]; intros i s r s' Hs Hrun Hr; [discriminate|].
  cbn [cu__recode_dwarf_types_table] in Hrun.
  unfold mbind at 1, M_bind at 1, get_cu at 1 in Hrun.
  destruct (entries pt s !! i) as [[e|]|] eqn:Hi.
  - (* an entry *)
    unfold mbind at 1, M_bind at 1 in Hrun.
    destruct (tag__recode_dwarf_type fuel e s) as [r1 s1| | |] eqn:Hstep; try discriminate.
    destruct (r1 =? 0) eqn:Hr1; cbn [negb] in Hrun; [|injection Hrun as <- _; lia].
    apply Z.eqb_eq in Hr1. subst r1.
    destruct (sim_tag fuel fuel e (le_n _) s 0 s1 Hs Hstep eq_refl) as (_ & Hext1 & _).
    destruct (IH (S i) s1 r s' (extends_trans _ _ _ Hs Hext1) Hrun Hr) as (Hext2 & Hnext).
    split; [eapply extends_trans; eauto|].
    intros t [|fuel'] Ht Hle Hlen; [lia|].
    destruct (sim_tag fuel fuel' e ltac:(lia) s 0 s1 Hs Hstep eq_refl) as (_ & _ & Hsim).
    destruct (Hsim t (extends_trans _ _ _ Hext2 Ht)) as (b & t1 & Hrun2 & <- & Hlow & Hkept).
    destruct (Hnext t1 fuel' (extends_same_low _ _ _ Ht Hlow)) as (t' & Hrun2' & Hlow' & Hkept');
      [lia| |].
    { destruct Hlow as (_ & _ & _ & E1 & E2 & E3 & _).
      destruct pt; cbn [entries] in *; rewrite ?E1, ?E2, ?E3; lia. }
    exists t'. split; [|split; [eapply same_fixed_parts_trans; eauto|eapply fields_in_step_trans; eauto]].
    cbn [cu__recode_dwarf_types_table]. unfold mbind at 1, M_bind at 1, get_cu at 1.
    rewrite (extends_entries pt s t i (Some e) (extends_trans _ _ _ (extends_trans _ _ _ Hext1 Hext2) Ht) Hi).
    unfold mbind at 1, M_bind at 1. rewrite Hrun2. cbn [Z.eqb negb]. exact Hrun2'.
  - (* an empty slot *)
    destruct (IH (S i) s r s' Hs Hrun Hr) as (Hext & Hnext).
    split; [exact Hext|]. intros t [|fuel'] Ht Hle Hlen; [lia|].
    destruct (Hnext t fuel' Ht) as (t' & Hrun2 & Hlow & Hkept); [lia|lia|].
    exists t'. split; [|auto].
    cbn [cu__recode_dwarf_types_table]. unfold mbind at 1, M_bind at 1, get_cu at 1.
    by rewrite (extends_entries pt s t i None (extends_trans _ _ _ Hext Ht) Hi).
  - (* the end of the table *)
    injection Hrun as <- <-. split; [apply extends_refl|].
    intros t fuel' Ht Hle Hlen. exists t.
    split; [|split; [apply same_fixed_parts_refl|apply fields_in_step_refl]].
    eapply (table_again_inert pt _ fuel' i t); [|reflexivity|lia].
    intros j e Hj Hje. apply (extends_entries_inert pt s t j e Ht); [|exact Hje].
    apply lookup_ge_None. apply lookup_ge_None in Hi. lia.
Qed.

Lemma table_walk_length pt : forall fuel i s r s',
  cu__recode_dwarf_types_table fuel pt i s = Ret r s' -> r = 0 ->
  (length (entries pt s') < i + fuel)%nat.
Proof.
  induction fuel as [|fuel IH]; intros i s r s' Hrun Hr; [discriminate|].
  cbn [cu__recode_dwarf_types_table] in Hrun.
  unfold mbind at 1, M_bind at 1, get_cu at 1 in Hrun.
  destruct (entries pt s !! i) as [[e|]|] eqn:Hi.
  - unfold mbind at 1, M_bind at 1 in Hrun.
    destruct (tag__recode_dwarf_type fuel e s) as [r1 s1| | |] eqn:Hstep; try discriminate.
    destruct (r1 =? 0) eqn:Hr1; cbn [negb] in Hrun; [|injection Hrun as <- _; lia].
    apply IH in Hrun; [lia|exact Hr].
  - apply IH in Hrun; [lia|exact Hr].
  - injection Hrun as <- <-. apply lookup_ge_None in Hi. lia.
Qed.

Lemma second_run (fuel fuel' : nat) (s1 : cu) :
  cu__recode_dwarf_types fuel s0 = Ret 0 s1 ->
  (fuel <= fuel')%nat -> (length (types_table s1) <= fuel')%nat ->
  exists s2, cu__recode_dwarf_types fuel' s1 = Ret 0 s2 /\ same_tables s1 s2.
Proof.
  intros Hrun Hle Hlen. unfold cu__recode_dwarf_types in Hrun.
  unfold mbind at 1, M_bind at 1 in Hrun.
  destruct (cu__recode_dwarf_types_table fuel Types_table 1 s0) as [ra sa| | |] eqn:Ha;
    try discriminate.
  destruct (ra =? 0) eqn:Hra; cbn [negb] in Hrun; [|discriminate].
  apply Z.eqb_eq in Hra. subst ra. unfold mbind at 1, M_bind at 1 in Hrun.
  destruct (cu__recode_dwarf_types_table fuel Tags_table 0 sa) as [rb sb| | |] eqn:Hb;
    try discriminate.
  destruct (rb =? 0) eqn:Hrb; cbn [negb] in Hrun; [|discriminate].
  apply Z.eqb_eq in Hrb. subst rb. unfold mbind at 1, M_bind at 1 in Hrun.
  destruct (cu__recode_dwarf_types_table fuel Functions_table 0 sb) as [rc sc| | |] eqn:Hc;
    try discriminate.
  destruct (rc =? 0) eqn:Hrc; cbn [negb] in Hrun; [|discriminate].
  apply Z.eqb_eq in Hrc. subst rc. injection Hrun as <-.
  destruct (table_again Types_table fuel 1 s0 0 sa (extends_refl s0) Ha eq_refl) as (Ea & Wa).
  destruct (table_again Tags_table fuel 0 sa 0 sb Ea Hb eq_refl) as (Eb & Wb).
  destruct (table_again Functions_table fuel 0 sb 0 sc (extends_trans _ _ _ Ea Eb) Hc eq_refl) as (Ec & Wc).
  pose proof (table_walk_length _ _ _ _ _ _ Hb eq_refl) as Lb.
  pose proof (table_walk_length _ _ _ _ _ _ Hc eq_refl) as Lc.
  cbn [entries] in Lb, Lc.
  destruct (Wa sc fuel' (extends_trans _ _ _ Eb Ec) Hle) as (ta & Ra & La & Ka); [cbn [entries]; lia|].
  destruct (Wb ta fuel' (extends_same_low _ _ _ Ec La) Hle) as (tb & Rb & Lb' & Kb).
  { cbn [entries]. destruct La as (_ & _ & _ & _ & -> & _).
    rewrite (extends_tags _ _ Ec). lia. }
  destruct (Wc tb fuel' (extends_trans _ _ _ (same_fixed_parts_ext _ _ La) (same_fixed_parts_ext _ _ Lb')) Hle)
    as (tc & Rc & Lc' & Kc).
  { cbn [entries]. destruct Lb' as (_ & _ & _ & _ & _ & -> & _).
    destruct La as (_ & _ & _ & _ & _ & -> & _). lia. }
  exists tc. split.
  - unfold cu__recode_dwarf_types, mbind, M_bind. rewrite Ra. cbn [Z.eqb negb].
    rewrite Rb. cbn [Z.eqb negb]. rewrite Rc. reflexivity.
  - pose proof (same_fixed_parts_trans _ _ _ (same_fixed_parts_trans _ _ _ La Lb') Lc') as Hlow.
    pose proof (fields_in_step_trans _ _ _ _ _ _ Ea (extends_trans _ _ _ Eb Ec) Ka
                  (fields_in_step_trans _ _ _ _ _ _ Eb Ec Kb Kc)) as [Kty Kct].
    pose proof Hlow as (_ & _ & _ & E1 & E2 & E3 & Hl).
    split; [|auto]. apply list_eq. intros p.
    pose proof (same_fixed_parts_lookup _ _ p Hlow) as Hp.
    assert (Hty : tg_type <$> obstack tc !! p = tg_type <$> obstack sc !! p)
      by (destruct (Kty p) as [[_ H]|[H _]]; congruence).
    assert (Hct : containing <$> obstack tc !! p = containing <$> obstack sc !! p)
      by (destruct (Kct p) as [[_ H]|[H _]]; congruence).
    destruct (obstack tc !! p) as [x|], (obstack sc !! p) as [y|]; try discriminate;
      [|reflexivity].
    f_equal. apply tag_eq; cbn in *; congruence.
Qed.

End Second_run.

Lemma takes_nothing_b_sound x raw : takes_nothing_b x raw = true -> takes_nothing x raw.
Proof.
  unfold takes_nothing_b, takes_nothing. rewrite !andb_true_iff.
  intros [[[H1 H2] H3] H4]. split; [|split; [|split]].
  - intros Hk.
    assert ((tg_tag x =? DW.TAG_formal_parameter) || (tg_tag x =? DW.TAG_variable) = true) as E
      by (destruct Hk as [-> | ->]; reflexivity).
    rewrite E in H1. apply orb_true_iff in H1 as [H|H]; [left|right]; lia.
  - intros Hk. rewrite Hk in H2. cbn in H2. lia.
  - intros Hk name sp Hname Hsp. rewrite Hk, Hname, Hsp in H3. cbn in H3.
    apply orb_true_iff in H3 as [H|H]; [left; lia|right].
    apply andb_true_iff in H. lia.
  - intros Hk ns sp Hns Hsp. rewrite Hk, Hns, Hsp in H4.
    apply orb_true_iff in H4 as [H|H]; [left|right]; lia.
Qed.

Lemma resolves_alone_b_sound s : resolves_alone_b s = true -> resolves_alone s.
Proof.
  unfold resolves_alone_b. rewrite forallb_forall. intros Hall.
  assert (Hobj : forall p x, obstack s !! p = Some x -> object_alone s x = true).
  { intros p x Hx. apply Hall. apply list_elem_of_In. eapply list_elem_of_lookup_2; eauto. }
  split.
  - intros p x dtag raw Hx Hpriv Hraw. specialize (Hobj p x Hx).
    unfold object_alone in Hobj. rewrite !andb_true_iff in Hobj. destruct Hobj as [[H _] _].
    unfold raw_of in H. rewrite Hpriv in H. cbn in H. rewrite Hraw in H.
    by apply takes_nothing_b_sound.
  - intros p x ft pos Hx Hft Hin y dtag raw Hy Hpriv Hraw. specialize (Hobj p x Hx).
    unfold object_alone in Hobj. rewrite !andb_true_iff in Hobj. destruct Hobj as [[_ H] _].
    rewrite Hft, forallb_forall in H. apply list_elem_of_In in Hin. specialize (H pos Hin).
    unfold typed_parameter_b, raw_of in H. rewrite Hy in H. cbn in H. rewrite Hpriv in H.
    cbn in H. rewrite Hraw in H. apply orb_true_iff in H as [H|H]; [left|right]; lia.
  - intros m x b dtag raw dtype dt y Hx Hk Hb Hne Hpriv Hraw Hfind Hdt Hy.
    specialize (Hobj m x Hx).
    unfold object_alone in Hobj. rewrite !andb_true_iff in Hobj. destruct Hobj as [_ H].
    unfold bitfield_type, raw_of in H. rewrite Hk, Hb, Hpriv in H. cbn in H.
    apply Z.eqb_neq in Hne. rewrite Hne, Hraw in H. cbn in H. rewrite Hfind, Hdt in H.
    cbn in H. rewrite Hy in H. by apply negb_true_iff in H.
Qed.


(** ** The arenas of a loaded CU *)

(** The three paths of the driver for a CU that was created, loaded and
    cached: when it is kept (the stealer says KEEPIT, or there is none)
    it is added to the list with its domain arena as loaded and with
    its raw arena emptied unless [extra_dbg_info] is set; when the
    stealer says STOLEN or STOP_LOADING the driver lets go of it with
    both arenas as they are and does not add it to the list. STOLEN
    goes on to the next CU, STOP_LOADING returns DWARF_CB_ABORT. *)
Lemma cus__load_module_cu_arenas (fuel : nat) (conf : option conf_load)
    (cu_die : Dwarf_Die) (cu_sibs : list Dwarf_Die) (self : cus) (c0 c1 c2 : cu) :
  cu__new self = Some c0 ->
  die__process fuel cu_die cu_sibs
    (set_load_flags (fst (conf_flags conf)) (snd (conf_flags conf)) c0) = Ret 0 c1 ->
  cache_byte_sizes fuel conf (cu__all_tags c1) c1 = Ret tt c2 ->
  match stealer_verdict conf c2 with
  | LSK__KEEPIT =>
      exists kept,
        cus__load_module_cu fuel conf cu_die cu_sibs self = Next_cu (cus__add self kept) /\
        cus_list (cus__add self kept) = cus_list self ++ [kept] /\
        obstack kept = obstack c2 /\
        dcu_obstack kept = (if extra_dbg_info c2 then dcu_obstack c2 else [])
  | LSK__STOLEN =>
      cus__load_module_cu fuel conf cu_die cu_sibs self = Next_cu (let_go self c2) /\
      cus_list (let_go self c2) = cus_list self /\
      cus_let_go (let_go self c2) = cus_let_go self ++ [c2]
  | LSK__STOP_LOADING =>
      cus__load_module_cu fuel conf cu_die cu_sibs self
        = Return DWARF_CB_ABORT (let_go self c2) /\
      cus_list (let_go self c2) = cus_list self /\
      cus_let_go (let_go self c2) = cus_let_go self ++ [c2]
  end.
Proof.
  intros Hnew Hprocess Hcache.
  unfold cus__load_module_cu, stealer_verdict. rewrite Hnew.
  replace (match conf with Some f => conf_extra_dbg_info f | None => false end)
    with (fst (conf_flags conf)) by (destruct conf; reflexivity).
  replace (match conf with Some f => conf_get_addr_info f | None => false end)
    with (snd (conf_flags conf)) by (destruct conf; reflexivity).
  rewrite Hprocess. cbn [Z.eqb negb]. rewrite Hcache.
  assert (Hkeep : exists kept,
            Next_cu (cus__add self (if negb (extra_dbg_info c2)
                                    then dcu_obstack_release c2 else c2))
            = Next_cu (cus__add self kept) /\
            cus_list (cus__add self kept) = cus_list self ++ [kept] /\
            obstack kept = obstack c2 /\
            dcu_obstack kept = (if extra_dbg_info c2 then dcu_obstack c2 else [])).
  { eexists. split; [reflexivity|]. split; [reflexivity|].
    destruct (extra_dbg_info c2); split; reflexivity. }
  destruct conf as [f|]; [|exact Hkeep].
  destruct (conf_steal f) as [steal|]; [|exact Hkeep].
  destruct (steal c2); [exact Hkeep| |]; repeat split.
Qed.

(** ** Kinds outside the supported set *)

Lemma __tag__print_not_supported_template k fn s :
  class_template_kind k = true ->
  __tag__print_not_supported (u32 k) fn s = Ret tt (warned_about (u32 k) fn s).
Proof.
  unfold class_template_kind. rewrite !orb_true_iff.
  intros [[[H|H]|H]|H]; apply Z.eqb_eq in H; subst k;
    unfold __tag__print_not_supported, warned_about; run;
    match goal with |- context [existsb ?f ?l] => destruct (existsb f l) end; reflexivity.
Qed.

Lemma function_template_kind_class k :
  function_template_kind k = true -> class_template_kind k = true.
Proof.
  unfold function_template_kind, class_template_kind. rewrite !orb_true_iff. tauto.
Qed.

Lemma die__process_not_handled (fuel : nat) (cu_die : Dwarf_Die) (cu_sibs pre : list Dwarf_Die)
    (die : Dwarf_Die) (rest : list Dwarf_Die) (c s1 : cu) :
  top_level_kind (dwarf_tag die) = false ->
  u16 (dwarf_tag cu_die) = DW.TAG_compile_unit ->
  dwarf_children cu_die = pre ++ die :: rest ->
  die__process_unit (S fuel) pre (unit_entered cu_die c) = Ret 0 s1 ->
  die__process (S fuel) cu_die cu_sibs c = Ret (- ENOMEM) (not_handled die "die__process_unit" s1).
Proof.
  intros Hk Hcu Hchildren Hpre.
  pose proof (die__process_unit_not_handled fuel pre die rest _ _ Hk Hpre) as Hunit.
  unfold die__process. cbv zeta. rewrite Hcu.
  change (negb (DW.TAG_compile_unit =? DW.TAG_compile_unit)) with false. cbv iota.
  unfold dwarf_children in Hchildren.
  destruct (dwarf_child cu_die) as [[child sibs]|]; [|by destruct pre].
  rewrite <- Hchildren in Hunit.
  unfold printing, fprintf_all, modify_cu. unfold mbind, M_bind, mret, M_ret.
  fold (unit_entered cu_die c). rewrite Hunit. reflexivity.
Qed.


End Properties.

(** * The properties on the samples *)

(** ** Unsupported kinds *)



(** ** Wrappers in the bitfield recoder *)

(** C2 (a slip of the code). Recoding the [const int] of
    [struct S { const int x : 3; }] for three bits recodes [int], whose
    index changes, and allocates a new wrapper pointing at the recoded
    [int]: the wrapper is of kind DW_TAG_volatile_type, not of the
    kind DW_TAG_const_type of the original. *)
Theorem const_bitfield_recoded_as_volatile :
  tg_tag <$> obstack (sample_built_wrapped sample_const) !! 1%nat = Some DW.TAG_const_type /\
  exists s,
    tag__recode_dwarf_bitfield (host := sample_host) 4 1 3 (sample_built_wrapped sample_const)
      = Ret 5 s /\
    types_table s !! 5%nat = Some (Some 5%nat) /\
    obstack s !! 5%nat = Some (mkTag 4 DW.TAG_volatile_type false 0 None B_tag).
Proof.
  split; [reflexivity|]. eexists. repeat split; vm_compute; reflexivity.
Qed.

(** ** Shared base types *)

(** The witnesses of [bitfield_over_base] on a built CU, read off the
    arenas. *)
Ltac sample_bitfield_over_base :=
  match goal with
  | |- bitfield_over_base ?s ?member _ _ _ =>
      unfold bitfield_over_base;
      let tm := eval vm_compute in (obstack s !! member) in
      match tm with
      | Some ?tm =>
          let dm := eval vm_compute in (tg_priv tm) in
          match dm with
          | Some ?dm =>
              let raw := eval vm_compute in (dcu_obstack s !! dm) in
              match raw with
              | Some ?raw =>
                  let dt := eval vm_compute in (dcu_obstack s !! 0%nat) in
                  match dt with
                  | Some ?dt =>
                      let t := eval vm_compute in (obstack s !! dt_tag dt) in
                      match t with
                      | Some ?t => exists tm, dm, raw, 0%nat, dt, t, 3
                      end
                  end
              end
          end
      end;
      repeat match goal with |- _ /\ _ => split end; (vm_compute; reflexivity)
  end.

(** The theorem at the two members of [struct S { int x : 3; int y : 3; }]. *)
Lemma bitfield_base_type_shared_witness :
  exists s1 s2 id p,
    class_member__dwarf_recode_bitfield (host := sample_host) 1 2 sample_built = Ret 0 s1 /\
    class_member__dwarf_recode_bitfield (host := sample_host) 1 3 s1 = Ret 0 s2 /\
    tg_type <$> obstack s2 !! 2%nat = Some (Z.of_nat id) /\
    tg_type <$> obstack s2 !! 3%nat = Some (Z.of_nat id) /\
    types_table s2 !! id = Some (Some p) /\
    base_type_view (obstack s2 !! p) = Some (1, 3) /\
    match cu__find_base_type_by_sname_and_size sample_built 1 3 with
    | Some found => found = (p, id) /\ types_table s2 = types_table sample_built
    | None =>
        id = length (types_table sample_built) /\ p = length (obstack sample_built) /\
        types_table s2 = types_table sample_built ++ [Some p] /\
        obstack s2 !! p = Some (recoded_base_type 1 3)
    end.
Proof.
  apply (bitfield_base_type_shared (host := sample_host) 0 sample_built 2 3 0 3
           (mkBaseType 1 32 false true false true)).
  - sample_bitfield_over_base.
  - sample_bitfield_over_base.
  - lia.
  - vm_compute. repeat constructor.
  - vm_compute. reflexivity.
  - vm_compute. lia.
Defined.

(** ** Location classes *)

(** The theorem at a variable at a frame offset. *)
Lemma dwarf__location_class_witness :
  atom <$> first_opcode sample_local = Some DW.OP_fbreg /\
  dwarf__location sample_local 0 = (LOCATION_LOCAL, 0).
Proof.
  split; [reflexivity|].
  rewrite (dwarf__location_class sample_local 0) by (vm_compute; discriminate).
  reflexivity.
Defined.

(** Against C4 as stated: a variable whose DW_AT_location is a location
    list has the attribute, and is OPTIMIZED, where the statement's
    "any other case" gives UNKNOWN. *)
Lemma location_list_is_optimized :
  dwarf_hasattr sample_loclist DW.AT_location = true /\
  fst (dwarf__location sample_loclist 0) = LOCATION_OPTIMIZED /\
  location_if_attribute_missing sample_loclist = LOCATION_UNKNOWN /\
  fst (dwarf__location sample_loclist 0) <> location_if_attribute_missing sample_loclist.
Proof. vm_compute. repeat split; discriminate. Qed.

(** DW_OP_reg0, of which the classification above says nothing: the
    [case] range of the code starts at DW_OP_reg1, and a variable in
    register 0 is UNKNOWN. *)
Lemma reg0_is_unknown :
  atom <$> first_opcode sample_reg0 = Some DW.OP_reg0 /\
  dwarf__location sample_reg0 0 = (LOCATION_UNKNOWN, 0).
Proof. split; reflexivity. Qed.

(** ** The arenas of a loaded CU *)

(** The three paths at a CU that the stealer takes. *)
Lemma cus__load_module_cu_arenas_witness :
  cus__load_module_cu (host := sample_host) 6 (sample_stealer LSK__STOLEN)
    (sample_unit [sample_int; sample_struct]) [] sample_cus
    = Next_cu (let_go sample_cus sample_cached) /\
  cus_list (let_go sample_cus sample_cached) = cus_list sample_cus /\
  cus_let_go (let_go sample_cus sample_cached) = cus_let_go sample_cus ++ [sample_cached].
Proof.
  apply (cus__load_module_cu_arenas (host := sample_host) 6 (sample_stealer LSK__STOLEN)
           (sample_unit [sample_int; sample_struct]) [] sample_cus
           (default sample_cu (cu__new sample_cus)) sample_loaded sample_cached);
    vm_compute; reflexivity.
Defined.

(** C5 (a slip of the code). The module of one CU, loaded with extra
    debugging information off. When the CU is kept, by a stealer that
    says KEEPIT or without a stealer, it is added with its raw arena
    released and its five domain objects in place. When the stealer
    takes it, or stops the load at it, the driver leaves the iteration
    before the release: the CU that it lets go of has its domain
    objects, and still its four raw records. *)
Theorem stolen_cu_keeps_raw_arena :
  (exists self c,
     cus__load_module (host := sample_host) 6 None sample_module sample_cus
       = Loaded DWARF_CB_OK self /\
     cus_list self = [c] /\ cus_let_go self = [] /\
     extra_dbg_info c = false /\ length (obstack c) = 5%nat /\ dcu_obstack c = []) /\
  (exists self c,
     cus__load_module (host := sample_host) 6 (sample_stealer LSK__KEEPIT) sample_module
       sample_cus = Loaded DWARF_CB_OK self /\
     cus_list self = [c] /\ cus_let_go self = [] /\
     extra_dbg_info c = false /\ length (obstack c) = 5%nat /\ dcu_obstack c = []) /\
  (exists self c,
     cus__load_module (host := sample_host) 6 (sample_stealer LSK__STOLEN) sample_module
       sample_cus = Loaded DWARF_CB_OK self /\
     cus_list self = [] /\ cus_let_go self = [c] /\
     extra_dbg_info c = false /\ length (obstack c) = 5%nat /\
     length (dcu_obstack c) = 4%nat) /\
  (exists self c,
     cus__load_module (host := sample_host) 6 (sample_stealer LSK__STOP_LOADING) sample_module
       sample_cus = Loaded DWARF_CB_ABORT self /\
     cus_list self = [] /\ cus_let_go self = [c] /\
     extra_dbg_info c = false /\ length (obstack c) = 5%nat /\
     length (dcu_obstack c) = 4%nat).
Proof.
  split; [|split; [|split]];
    do 2 eexists; (split; [vm_compute; reflexivity|]); repeat split.
Qed.

(** ** Running the resolver again *)

(** The members of [struct S { int x : 3; T y; }]: a bit-field over
    [int], and a member resolved by the lookup. *)
Lemma sample_built_mixed_children :
  Forall (child_ok (host := sample_host) sample_built_mixed) [3%nat; 4%nat].
Proof.
  repeat constructor; unfold child_ok; do 3 eexists;
    (split; [reflexivity|]); (split; [reflexivity|]); (split; [reflexivity|]);
    (split; [reflexivity|]); intros _.
  - exists 3. split; [reflexivity|]. intros _.
    exists 0%nat, (mkBaseType 1 32 false true false true). sample_bitfield_over_base.
  - exists 0. split; [reflexivity|]. intros H. contradiction.
Qed.

(** The CU of [int], [typedef int T], [struct S] and a variable is
    simple. *)
Lemma sample_built_mixed_simple : simple_cu (host := sample_host) sample_built_mixed.
Proof.
  split; [vm_compute; repeat constructor|].
  intros pt i e Hi.
  assert (He : e = 0%nat \/ e = 1%nat \/ e = 2%nat \/ e = 5%nat).
  { destruct pt; cbn in Hi; try (by destruct i).
    - destruct i as [|[|[|[|i]]]]; cbn in Hi; try discriminate; injection Hi as <-; auto.
    - destruct i as [|i]; cbn in Hi; try discriminate; injection Hi as <-; auto. }
  clear Hi. destruct He as [-> | [-> | [-> | ->]]]; unfold entry_ok; eexists;
    (split; [reflexivity|]); (split; [reflexivity|]); intros dtag [= <-]; eexists;
    (split; [reflexivity|]).
  - split; [intros H; discriminate H|reflexivity].
  - split; [|reflexivity].
    intros _. do 2 eexists. split; [reflexivity|]. split; [reflexivity|]. by right.
  - split.
    + intros _. do 2 eexists. split; [reflexivity|]. split; [reflexivity|]. by right.
    + exists [3%nat; 4%nat]. split; [reflexivity|]. apply sample_built_mixed_children.
  - split; [intros H; discriminate H|reflexivity].
Qed.



(** ** Shared enumerators *)

(** The theorem at [enum E { A, B }], recoded for three bits. *)
Lemma recoded_enumeration_shares_enumerators_witness :
  exists s' e ens ety,
    tag__recode_dwarf_bitfield (host := sample_host) 1 0 3 sample_built_enum =
      Ret (to_int 2) s' /\
    types_table s' = types_table sample_built_enum ++ [Some 3%nat] /\
    obstack s' !! 3%nat = Some e /\
    tg_tag e = DW.TAG_enumeration_type /\ tg_body e = B_type ens ety /\
    ns_shared_tags ens = true /\
    ns_tags ens = LH_next_is_head_of 0 /\
    ns_name ens = 6 /\
    ty_nr_members ety = 2 /\
    ty_size ety = 3 /\
    type__enumerators (obstack s') 0 = Some [1%nat; 2%nat] /\
    type__enumerators (obstack s') 3 = Some [1%nat; 2%nat] /\
    (forall enumerator s'',
       enumeration__add 0 enumerator s' = Ret tt s'' ->
       type__enumerators (obstack s'') 3 = Some ([1%nat; 2%nat] ++ [enumerator])).
Proof.
  apply (recoded_enumeration_shares_enumerators (host := sample_host) 0 sample_built_enum 0
           (mkTag 0 DW.TAG_enumeration_type true 0 (Some 0%nat)
              (B_type (mkNamespace 6 0 2 false (LH_entries [1%nat; 2%nat]))
                      (mkType 32 0 false false false 2)))
           (mkNamespace 6 0 2 false (LH_entries [1%nat; 2%nat]))
           (mkType 32 0 false false false 2) [1%nat; 2%nat] 3 91);
    vm_compute; reflexivity.
Defined.

(** Against C7 as stated: in the CU of two enumerations named [E], the
    first of [A] and [B] and the second of [V], and of a structure with
    a bit-field of three bits over each, the load succeeds without a
    diagnostic, and the member [y] over the second [E] gets the type
    recoded for [x]: an enumeration that shares the list of the first
    [E] and reports its two enumerators [A] and [B], where the original
    of [y] has the one enumerator [V]. *)
Lemma recoded_enumeration_of_another :
  exists s x y recoded ens ety,
    die__process (host := sample_host) 6
      (sample_unit [sample_enum; sample_enum_other; sample_struct_enums]) [] sample_cu
      = Ret 0 s /\
    stderr s = [] /\
    types_table s !! 1%nat = Some (Some 0%nat) /\
    types_table s !! 2%nat = Some (Some 3%nat) /\
    type__enumerators (obstack s) 0 = Some [1%nat; 2%nat] /\
    type__enumerators (obstack s) 3 = Some [4%nat] /\
    tg_body <$> obstack s !! 4%nat = Some (B_enumerator (sample_strings__add (Some "V"%string)) 5) /\
    obstack s !! 6%nat = Some x /\ obstack s !! 7%nat = Some y /\
    dt_type <$> (tg_priv x ≫= fun dtag => dcu_obstack s !! dtag) = Some 0x60 /\
    dt_type <$> (tg_priv y ≫= fun dtag => dcu_obstack s !! dtag) = Some 0x90 /\
    tg_type x = 4 /\ tg_type y = 4 /\
    types_table s !! 4%nat = Some (Some recoded) /\
    tg_body <$> obstack s !! recoded = Some (B_type ens ety) /\
    ns_shared_tags ens = true /\ ns_tags ens = LH_next_is_head_of 0 /\
    ty_nr_members ety = 2 /\
    type__enumerators (obstack s) recoded = Some [1%nat; 2%nat] /\
    type__enumerators (obstack s) recoded <> type__enumerators (obstack s) 3.
Proof.
  eexists _, _, _, _, _, _.
  split; [vm_compute; reflexivity|].
  repeat split; try reflexivity. discriminate.
Qed.

(** ** Array dimensions *)

(** The theorem at [int m[2][3]]. *)
Lemma die__create_new_array_dimensions_witness :
  exists s' is_vector,
    die__create_new_array (host := sample_host) sample_matrix sample_cu
      = Ret (Some 0%nat) s' /\
    tg_body <$> obstack s' !! 0%nat = Some (B_array_type 2 (Some [2; 3]) is_vector) /\
    stderr s' = [].
Proof.
  apply (die__create_new_array_dimensions (host := sample_host) sample_matrix sample_cu).
  vm_compute. lia.
Defined.

(** The cap at work. With 63 subranges before [int], the walk reads
    [int], says that it is not handled, takes the last subrange as the
    64th dimension and reports the cap. With 64 before it, the walk
    stops at the 64th: the cap is reported, [int] behind it is not
    read, and the last subrange is no dimension. *)
Lemma die__create_new_array_cap :
  (exists s',
     die__create_new_array (host := sample_host) (sample_dimensions 63) sample_cu
       = Ret (Some 0%nat) s' /\
     tg_body <$> obstack s' !! 0%nat
       = Some (B_array_type 64 (Some (replicate 63 2 ++ [3])) false) /\
     stderr s' = [not_handled_in_array sample_int; Diag_only_dimensions 64]) /\
  (exists s',
     die__create_new_array (host := sample_host) (sample_dimensions 64) sample_cu
       = Ret (Some 0%nat) s' /\
     tg_body <$> obstack s' !! 0%nat = Some (B_array_type 64 (Some (replicate 64 2)) false) /\
     stderr s' = [Diag_only_dimensions 64]).
Proof.
  split; eexists; (split; [vm_compute; reflexivity|]); split; vm_compute; reflexivity.
Qed.

(** Against C8 as stated: the subrange of [sample_array] has the upper
    bound 0xffffffff, and the entry count stored is 0, not 0x100000000. *)
Lemma array_entry_count_wraps :
  (dwarf_attr sample_array DW.AT_upper_bound = None /\
   (dwarf_children sample_array ≫= fun d => 
      from_option (fun a => [dwarf_formudata a]) [] (dwarf_attr d DW.AT_upper_bound))
     = [Some 0xffffffff]) /\
  exists s',
    die__create_new_array (host := sample_host) sample_array sample_cu = Ret (Some 0%nat) s' /\
    tg_body <$> obstack s' !! 0%nat = Some (B_array_type 1 (Some [0]) false).
Proof. split; [split; reflexivity|]. eexists. split; vm_compute; reflexivity. Qed.

(** ** Variables *)

(** The theorem at a local variable of a CU loaded with address info. *)
Lemma variable__new_location_witness :
  exists s' v,
    variable__new (host := sample_host) sample_local sample_cu_with_addr_info
      = Ret (Some 0%nat) s' /\
    tg_body <$> obstack s' !! 0%nat = Some (B_variable v) /\
    (var_location v, var_addr v) = dwarf__location sample_local 0 /\
    True.
Proof.
  apply (variable__new_location (host := sample_host) sample_local sample_cu_with_addr_info).
  vm_compute. lia.
Defined.

(** * Further properties *)

Section Further_properties.
Context {host : Collaborators}.

Lemma hlist_head_add_eq node h b : hlist_head (hlist_add_head node h b) b = node :: hlist_head h b.
Proof.
  induction h as [|[b' chain] h IH]; cbn [hlist_head hlist_add_head].
  - by rewrite Z.eqb_refl.
  - destruct (b' =? b) eqn:E; cbn [hlist_head]; rewrite E; auto.
Qed.

Lemma hlist_head_add_ne node h b b' :
  b' <> b -> hlist_head (hlist_add_head node h b) b' = hlist_head h b'.
Proof.
  intros Hne. induction h as [|[b0 chain] h IH]; cbn [hlist_head hlist_add_head].
  - apply Z.eqb_neq in Hne. rewrite Z.eqb_sym in Hne. by rewrite Hne.
  - destruct (b0 =? b) eqn:E; cbn [hlist_head].
    + apply Z.eqb_eq in E. subst b0.
      assert ((b =? b') = false) as -> by (apply Z.eqb_neq; congruence). reflexivity.
    + destruct (b0 =? b'); auto.
Qed.

Lemma cu__hash_spec t s tg dtag d :
  obstack s !! t = Some tg -> tg_priv tg = Some dtag -> dcu_obstack s !! dtag = Some d ->
  cu__hash t s = Ret tt (hashed (tag__is_tag_type (tg_tag tg)) dtag (dt_id d) s).
Proof.
  intros Ht Hp Hd. unfold cu__hash, hashed. run. rewrite Ht. run. rewrite Ht. run.
  rewrite Hp. run. rewrite Hd. run.
  destruct (tag__is_tag_type (tg_tag tg)); reflexivity.
Qed.

(** X1. Entering a tag in the hash and looking its DIE offset up gives
    the tag back: after [cu__hash] of a tag whose raw record has a
    non-zero offset, the look-up of that offset in the table of the
    tag's kind (types hash for a type, tags hash otherwise) finds the
    raw record of the tag, whatever was hashed under the same offset
    before; the other table is untouched. The bucket of the offset has
    to be one of the 256 the table has. *)
Theorem cu__hash_then_find (t : nat) (s : cu) (tg : tag) (dtag : nat)
    (d : struct_dwarf_tag) :
  obstack s !! t = Some tg -> tg_priv tg = Some dtag -> dcu_obstack s !! dtag = Some d ->
  dt_id d <> 0 ->
  0 <= hashtags__fn (dt_id d) < 2 ^ HASHTAGS__BITS ->
  exists s',
    cu__hash t s = Ret tt s' /\
    if tag__is_tag_type (tg_tag tg)
    then dwarf_cu__find_type_by_id (dt_id d) s' = Ret (Some dtag) s' /\
         hash_tags s' = hash_tags s
    else dwarf_cu__find_tag_by_id (dt_id d) s' = Ret (Some dtag) s' /\
         hash_types s' = hash_types s.
Proof.
  intros Ht Hp Hd Hid Hrange. eexists. split; [by eapply cu__hash_spec|].
  assert (Hu : u16 (hashtags__fn (dt_id d)) = hashtags__fn (dt_id d)).
  { unfold u16. apply Z.mod_small. unfold HASHTAGS__BITS in Hrange. lia. }
  apply Z.eqb_neq in Hid.
  unfold hashed. destruct (tag__is_tag_type (tg_tag tg)); (split; [|reflexivity]).
  - unfold dwarf_cu__find_type_by_id, hashtags__find, hashtags__hash. run.
    cbn [hash_types set_hash_types].
    rewrite Hid, Hu, hlist_head_add_eq. cbn [hashtags__find_in]. run.
    cbn [dcu_obstack set_hash_types]. rewrite Hd. by rewrite Z.eqb_refl.
  - unfold dwarf_cu__find_tag_by_id, hashtags__find, hashtags__hash. run.
    cbn [hash_tags set_hash_tags].
    rewrite Hid, Hu, hlist_head_add_eq. cbn [hashtags__find_in]. run.
    cbn [dcu_obstack set_hash_tags]. rewrite Hd. by rewrite Z.eqb_refl.
Qed.

Lemma hashtags__find_in_ext chain id s s' :
  dcu_obstack s' = dcu_obstack s ->
  hashtags__find_in chain id s' =
    match hashtags__find_in chain id s with
    | Ret r _ => Ret r s'
    | Undef => Undef
    | Abort => Abort
    | NoFuel => NoFuel
    end.
Proof.
  intros Hd. induction chain as [|p chain IH]; cbn [hashtags__find_in]; run; [reflexivity|].
  rewrite Hd. destruct (dcu_obstack s !! p) as [x|]; [|reflexivity].
  destruct (dt_id x =? id); [reflexivity|exact IH].
Qed.

(** X2. Entering a tag in the hash changes the look-up of no other
    offset: for every offset but the tag's own, both look-ups give what
    they gave before, also when the two offsets share a bucket. *)
Theorem cu__hash_keeps_others (t : nat) (s : cu) (tg : tag) (dtag : nat)
    (d : struct_dwarf_tag) (id : Z) :
  obstack s !! t = Some tg -> tg_priv tg = Some dtag -> dcu_obstack s !! dtag = Some d ->
  id <> dt_id d ->
  exists s',
    cu__hash t s = Ret tt s' /\
    dwarf_cu__find_type_by_id id s' =
      match dwarf_cu__find_type_by_id id s with
      | Ret r _ => Ret r s'
      | Undef => Undef
      | Abort => Abort
      | NoFuel => NoFuel
      end /\
    dwarf_cu__find_tag_by_id id s' =
      match dwarf_cu__find_tag_by_id id s with
      | Ret r _ => Ret r s'
      | Undef => Undef
      | Abort => Abort
      | NoFuel => NoFuel
      end.
Proof.
  intros Ht Hp Hd Hid. eexists. split; [by eapply cu__hash_spec|].
  assert (Hne : (dt_id d =? id) = false) by (apply Z.eqb_neq; congruence).
  assert (Hchain : forall h s0,
            dcu_obstack s0 = dcu_obstack s ->
            hashtags__find_in
              (hlist_head (hashtags__hash h dtag (dt_id d)) (u16 (hashtags__fn id))) id s0
            = hashtags__find_in (hlist_head h (u16 (hashtags__fn id))) id s0).
  { intros h s0 Hs0. unfold hashtags__hash.
    destruct (decide (u16 (hashtags__fn id) = hashtags__fn (dt_id d))) as [E|E].
    - rewrite E, hlist_head_add_eq. cbn [hashtags__find_in]. run.
      by rewrite Hs0, Hd, Hne.
    - by rewrite hlist_head_add_ne. }
  unfold dwarf_cu__find_type_by_id, dwarf_cu__find_tag_by_id, hashtags__find, hashed. run.
  destruct (id =? 0); [destruct (tag__is_tag_type (tg_tag tg)); split; reflexivity|].
  destruct (tag__is_tag_type (tg_tag tg)); cbn [hash_types hash_tags set_hash_types set_hash_tags];
    split; rewrite ?Hchain by reflexivity; apply hashtags__find_in_ext; reflexivity.
Qed.

Lemma existsb_eqb_In tag l : existsb (Z.eqb tag) l = true <-> In tag l.
Proof.
  rewrite existsb_exists. split.
  - intros (x & Hx & E). apply Z.eqb_eq in E. by subst.
  - intros H. exists tag. split; [done|apply Z.eqb_refl].
Qed.

(** X3. An unsupported kind is reported once: when
    [__tag__print_not_supported] has returned for a kind, the kind is
    among the kinds warned about, and in every later state that still
    has these the call returns without printing and without changing
    anything, whatever function it is made from. *)
Theorem __tag__print_not_supported_once (tag : Z) (f g : string) (s s1 s2 : cu) :
  __tag__print_not_supported tag f s = Ret tt s1 ->
  (forall k, In k (tags_warned s1) -> In k (tags_warned s2)) ->
  In tag (tags_warned s1) /\
  __tag__print_not_supported tag g s2 = Ret tt s2.
Proof.
  unfold __tag__print_not_supported. run.
  destruct (if tag <? DW.TAG_MIPS_loop then _ else _) eqn:Hrange; [|discriminate].
  intros H Hsub.
  assert (Hin : In tag (tags_warned s1)).
  { destruct (existsb (Z.eqb tag) (tags_warned s)) eqn:E.
    - inversion H; subst. by apply existsb_eqb_In.
    - inversion H; subst. cbn. by left. }
  split; [exact Hin|].
  apply Hsub, existsb_eqb_In in Hin. by rewrite Hin.
Qed.

Lemma die__process_unit_result fuel dies : forall s r s',
  die__process_unit fuel dies s = Ret r s' -> r = 0 \/ r = - ENOMEM.
Proof.
  induction dies as [|die sibs IH]; intros s r s'; cbn [die__process_unit].
  - unfold mret, M_ret. intros [= <- _]. by left.
  - unfold mbind, M_bind.
    destruct (__die__process_tag fuel die true "die__process_unit" s) as [[t|] s1| | |];
      try discriminate.
    + destruct (cu__add_tag t s1) as [[err id] s2| | |]; try discriminate.
      destruct (hash_and_number t id s2) as [[] s3| | |]; try discriminate.
      apply IH.
    + unfold mret, M_ret. intros [= <- _]. by right.
Qed.

Lemma cu__recode_dwarf_types_result fuel s r s' :
  cu__recode_dwarf_types fuel s = Ret r s' -> r = 0 \/ r = -1.
Proof.
  unfold cu__recode_dwarf_types, mbind, M_bind, mret, M_ret.
  destruct (cu__recode_dwarf_types_table fuel Types_table 1 s) as [r1 s1| | |];
    try discriminate.
  destruct (negb (r1 =? 0)); [intros [= <- _]; by right|].
  destruct (cu__recode_dwarf_types_table fuel Tags_table 0 s1) as [r2 s2| | |];
    try discriminate.
  destruct (negb (r2 =? 0)); [intros [= <- _]; by right|].
  destruct (cu__recode_dwarf_types_table fuel Functions_table 0 s2) as [r3 s3| | |];
    try discriminate.
  destruct (negb (r3 =? 0)); intros [= <- _]; auto.
Qed.

(** X8. What [die__process] returns: for a DIE that is no compile unit,
    -EINVAL, with one diagnostic written and nothing else changed; for
    a compile unit 0, -1 (the resolver failed) or -ENOMEM (the builder
    failed), and nothing else. *)
Theorem die__process_result (fuel : nat) (die : Dwarf_Die) (sibs : list Dwarf_Die)
    (s s' : cu) (r : Z) :
  die__process fuel die sibs s = Ret r s' ->
  (r = - EINVAL /\ u16 (dwarf_tag die) <> DW.TAG_compile_unit /\
   s' = set_stderr (stderr s ++ [Diag_compile_unit_expected (u16 (dwarf_tag die))]) s) \/
  (u16 (dwarf_tag die) = DW.TAG_compile_unit /\ (r = 0 \/ r = -1 \/ r = - ENOMEM)).
Proof.
  unfold die__process.
  destruct (u16 (dwarf_tag die) =? DW.TAG_compile_unit) eqn:Hk; cbn [negb].
  - apply Z.eqb_eq in Hk. intros H. right. split; [exact Hk|]. revert H.
    unfold mbind, M_bind.
    destruct (printing _ s) as [language s0| | |]; try discriminate.
    destruct (modify_cu _ s0) as [[] s1| | |]; try discriminate.
    assert (Hunit : forall err s2,
              match dwarf_child die with
              | Some (child, children) => die__process_unit fuel (child :: children)
              | None => mret 0
              end s1 = Ret err s2 -> err = 0 \/ err = - ENOMEM).
    { intros err s2. destruct (dwarf_child die) as [[child children]|].
      - apply die__process_unit_result.
      - intros [= <- _]. by left. }
    destruct (match dwarf_child die with
              | Some (child, children) => die__process_unit fuel (child :: children)
              | None => mret 0
              end s1) as [err s2| | |]; try discriminate.
    specialize (Hunit err s2 eq_refl) as Herr.
    destruct (err =? 0) eqn:E; cbn [negb].
    + destruct sibs; unfold fprintf_stderr, modify_cu, mret, M_ret; intros H; apply cu__recode_dwarf_types_result in H; tauto.
    + unfold mret, M_ret. intros [= <- _]. apply Z.eqb_neq in E. tauto.
  - apply Z.eqb_neq in Hk. run. intros [= <- <-]. left. done.
Qed.

Lemma cus__load_module_cu_outcome fuel conf cu_die cu_sibs self :
  match cus__load_module_cu fuel conf cu_die cu_sibs self with
  | Next_cu self' =>
      (exists c, cus_list self' = cus_list self ++ [c]) \/
      (cus_list self' = cus_list self /\
       exists f steal, conf = Some f /\ conf_steal f = Some steal)
  | Return ret self' => ret = DWARF_CB_ABORT /\ cus_list self' = cus_list self
  | _ => True
  end.
Proof.
  unfold cus__load_module_cu.
  destruct (cu__new self) as [c|]; [|done].
  destruct (die__process _ _ _ _) as [err c1| | |]; try done.
  destruct (negb (err =? 0)); [done|].
  destruct (cache_byte_sizes _ _ _ _) as [[] c2| | |]; try done.
  destruct conf as [f|].
  - destruct (conf_steal f) as [steal|] eqn:Hsteal.
    + destruct (steal c2); cbn [cus__add let_go cus_list].
      * left. by eexists.
      * right. split; [done|]. by exists f, steal.
      * done.
    + cbn [cus__add cus_list]. left. by eexists.
  - cbn [cus__add cus_list]. left. by eexists.
Qed.

(** X12. Loading the compile units of a module is loading a first part
    of them and, if that returned DWARF_CB_OK, the rest from the CU
    list the first part left; a first part that stops (DWARF_CB_ABORT)
    or has no result is the result of the whole. *)
Theorem cus__load_module_app (fuel : nat) (conf : option conf_load)
    (units1 units2 : list (Dwarf_Die * list Dwarf_Die)) (self : cus) :
  cus__load_module fuel conf (units1 ++ units2) self =
    match cus__load_module fuel conf units1 self with
    | Loaded ret self1 =>
        if ret =? DWARF_CB_OK then cus__load_module fuel conf units2 self1
        else Loaded ret self1
    | failure => failure
    end.
Proof.
  revert self. induction units1 as [|[cu_die cu_sibs] units1 IH]; intros self.
  - reflexivity.
  - cbn [app cus__load_module].
    pose proof (cus__load_module_cu_outcome fuel conf cu_die cu_sibs self) as H.
    destruct (cus__load_module_cu fuel conf cu_die cu_sibs self) as [self1|ret self1| | |];
      try reflexivity.
    + apply IH.
    + destruct H as [-> _]. reflexivity.
Qed.

(** X13. The CU list of a file only grows, at its end, by at most one
    CU per compile unit; the load returns DWARF_CB_OK or
    DWARF_CB_ABORT; with no stealer a load that returns DWARF_CB_OK
    has added exactly one CU per compile unit. *)
Theorem cus__load_module_cus_list (fuel : nat) (conf : option conf_load)
    (units : list (Dwarf_Die * list Dwarf_Die)) (self self' : cus) (ret : Z) :
  cus__load_module fuel conf units self = Loaded ret self' ->
  (ret = DWARF_CB_OK \/ ret = DWARF_CB_ABORT) /\
  exists kept,
    cus_list self' = cus_list self ++ kept /\
    (length kept <= length units)%nat /\
    (ret = DWARF_CB_OK -> (forall f, conf = Some f -> conf_steal f = None) ->
     length kept = length units).
Proof.
  revert self. induction units as [|[cu_die cu_sibs] units IH]; intros self;
    cbn [cus__load_module].
  - intros [= <- <-]. split; [by left|]. exists []. by rewrite app_nil_r.
  - pose proof (cus__load_module_cu_outcome fuel conf cu_die cu_sibs self) as H.
    destruct (cus__load_module_cu fuel conf cu_die cu_sibs self) as [self1|r self1| | |];
      try discriminate.
    + intros Hrest. destruct (IH _ Hrest) as (Hret & kept & Hlist & Hlen & Hall).
      split; [exact Hret|]. destruct H as [[c Hc]|(Hc & f & steal & -> & Hsteal)].
      * exists (c :: kept). rewrite Hlist, Hc, <- app_assoc. split; [done|].
        cbn [length]. split; [lia|]. intros H1 H2. rewrite Hall; auto.
      * exists kept. rewrite Hlist, Hc. split; [done|]. cbn [length]. split; [lia|].
        intros _ Hno. rewrite (Hno f eq_refl) in Hsteal. done.
    + intros [= <- <-]. destruct H as [-> Hc]. split; [by right|].
      exists []. rewrite app_nil_r. split; [done|]. cbn [length]. split; [lia|].
      discriminate.
Qed.

(** *** Accessors *)

Lemma __tag__alloc_spec body spec s m :
  mem s = S (S m) ->
  __tag__alloc body spec s =
    Ret (Some (length (obstack s)))
      (set_obstack (obstack s ++ [mkTag 0 0 false 0 (Some (length (dcu_obstack s))) body])
         (set_mem m
            (set_dcu_obstack
               (dcu_obstack s ++ [mkDwarfTag 0 0 0 (length (obstack s)) 0 0 0
                                    (if spec then Some 0 else None)]) s))).
Proof.
  intros Hm. unfold __tag__alloc. run. rewrite Hm. run. destruct s; reflexivity.
Qed.

Lemma tag__init_spec p die s t dtag d :
  obstack s !! p = Some t -> tg_priv t = Some dtag -> dcu_obstack s !! dtag = Some d ->
  tag__init p die s =
    Ret tt (with_tag p (set_tg_recursivity_level 0 (set_tg_tag (dwarf_tag die) t))
              dtag (init_raw (extra_dbg_info s) die d) s).
Proof.
  intros Hp Hpriv Hd.
  pose proof (lookup_lt_Some _ _ _ Hp) as Hlt.
  pose proof (lookup_lt_Some _ _ _ Hd) as Hdlt.
  unfold tag__init, with_tag, init_raw.
  destruct s as [ob tt tgt ft lang extra addr ht hty dob err warned mem0].
  cbn [obstack dcu_obstack extra_dbg_info] in *.
  destruct ((dwarf_tag die =? DW.TAG_imported_module)
            || (dwarf_tag die =? DW.TAG_imported_declaration)); destruct extra;
  repeat (progress (run; cbn [set_dcu_obstack set_obstack obstack dcu_obstack extra_dbg_info];
                    rewrite ?Hp, ?Hpriv, ?Hd;
                    rewrite ?list_lookup_insert_eq by (rewrite ?length_insert; lia);
                    rewrite ?list_insert_insert_eq)).
  all: destruct d; reflexivity.
Qed.

(** X4. The accessors give back what the factory stored: after
    [tag__new] has built a tag from a DIE (two allocations being left),
    [dwarf_tag__orig_id] is the DIE's offset, [dwarf_tag__orig_type] its
    DW_AT_type (DW_AT_import for the two imported kinds) and
    [dwarf_tag__decl_line] the 16 low bits of what [tag__init] read as
    the declaration line, when the CU keeps the extra debugging
    information: the line of the DIE when it has one, and else the
    value its local variable happened to hold. All three are 0 when the
    CU does not keep that information. *)
Theorem tag__new_accessors (die : Dwarf_Die) (s : cu) (m : nat) :
  mem s = S (S m) ->
  exists p s',
    tag__new die s = Ret (Some p) s' /\
    dwarf_tag__orig_id p s' =
      Ret (if extra_dbg_info s then dwarf_dieoffset die else 0) s' /\
    dwarf_tag__orig_type p s' =
      Ret (if extra_dbg_info s
           then if (dwarf_tag die =? DW.TAG_imported_module)
                   || (dwarf_tag die =? DW.TAG_imported_declaration)
                then attr_type die DW.AT_import else attr_type die DW.AT_type
           else 0) s' /\
    dwarf_tag__decl_line p s' =
      Ret (if extra_dbg_info s
           then match die_decl_line die with
                | Some line => u16 line
                | None => u16 (indeterminate_decl_line die)
                end
           else 0) s'.
Proof.
  intros Hm. unfold tag__new, tag__alloc.
  unfold mbind at 1, M_bind at 1. rewrite (__tag__alloc_spec _ _ _ m Hm).
  unfold mbind, M_bind.
  erewrite tag__init_spec; cycle 1.
  { cbn [obstack set_obstack set_mem set_dcu_obstack]. apply lookup_snoc. }
  { reflexivity. }
  { cbn [dcu_obstack set_obstack set_mem set_dcu_obstack]. apply lookup_snoc. }
  do 2 eexists. split; [reflexivity|].
  unfold dwarf_tag__orig_id, dwarf_tag__orig_type, dwarf_tag__decl_line, with_tag.
  cbn [obstack dcu_obstack extra_dbg_info set_obstack set_mem set_dcu_obstack].
  rewrite !insert_snoc.
  unfold init_raw, decl_line_read.
  destruct (die_decl_line die);
    (destruct (extra_dbg_info s) eqn:He; run; rewrite ?He; run; rewrite ?He; repeat split;
     reflexivity).
Qed.


(** *** Loading a file *)

Lemma dwfl_getmodules_found fuel conf modules : forall self found ret self' found',
  0 <= found -> found + Z.of_nat (length modules) < 2 ^ 32 ->
  dwfl_getmodules fuel conf modules self found = (Loaded ret self', found') ->
  found <= found' /\
  (found' = found -> self' = self) /\
  (found' <> found -> exists units, Some units ∈ modules).
Proof.
  induction modules as [|dw modules IH]; intros self found ret self' found' H0 Hlen;
    cbn [dwfl_getmodules length] in *.
  - intros [= <- <- <-]. split; [lia|]. split; [done|]. done.
  - destruct dw as [units|]; cbn [cus__process_dwflmod].
    + assert (Hu : u32 (found + 1) = found + 1) by (unfold u32; apply Z.mod_small; lia).
      rewrite Hu.
      destruct (cus__load_module fuel conf units self) as [err self1| | |];
        try discriminate.
      assert (Hin : exists units0, Some units0 ∈ Some units :: modules)
        by (exists units; left).
      destruct (err =? DWARF_CB_OK).
      * intros Hrest. apply IH in Hrest; [|lia|lia].
        destruct Hrest as (Hle & _ & _). split; [lia|]. split; [lia|]. done.
      * intros [= <- <- <-]. split; [lia|]. split; [lia|]. done.
    + cbn [Z.eqb DWARF_CB_OK]. intros Hrest. apply IH in Hrest; [|lia|lia].
      destruct Hrest as (Hle & Hsame & Hsome). split; [lia|]. split; [done|].
      intros Hne. destruct (Hsome Hne) as [units Hin]. exists units. by right.
Qed.

(** X16. What the result of [dwarf__load_file] tells (for a file of
    fewer than 2^32 modules): it is -1 or 0; -1 comes with the CU list
    and the process state exactly as they were; 0 says that the file
    could be opened and reported and that one of its modules has DWARF
    sections, and nothing about how loading them went. *)
Theorem dwarf__load_file_result (fuel : nat) (conf : option conf_load) (file : elf_file)
    (self self' : cus) (ret : Z) :
  Z.of_nat (length (file_modules file)) < 2 ^ 32 ->
  dwarf__load_file fuel conf file self = Loaded ret self' ->
  (ret = -1 /\ self' = self) \/
  (ret = 0 /\ file_opens file = true /\ file_dups file = true /\
   file_reported file = true /\ exists units, Some units ∈ file_modules file).
Proof.
  intros Hlen. unfold dwarf__load_file, cus__process_file.
  destruct (file_opens file); cbn [negb]; [|intros [= <- <-]; by left].
  destruct (file_dups file); cbn [negb]; [|intros [= <- <-]; by left].
  destruct (file_reported file); cbn [negb]; [|intros [= <- <-]; by left].
  destruct (dwfl_getmodules fuel conf (file_modules file) self 0)
    as [[r self1| | |] found] eqn:Hmods; try discriminate.
  apply dwfl_getmodules_found in Hmods; [|lia|lia].
  destruct Hmods as (Hle & Hsame & Hsome).
  destruct (found =? 0) eqn:E; cbn [negb]; intros [= <- <-].
  - apply Z.eqb_eq in E. left. auto.
  - apply Z.eqb_neq in E. right. auto 10.
Qed.

Lemma dwfl_getmodules_no_dwarf fuel conf pre : forall rest self found,
  Forall (fun dw => dw = None) pre ->
  dwfl_getmodules fuel conf (pre ++ rest) self found =
    dwfl_getmodules fuel conf rest self found.
Proof.
  induction pre as [|dw pre IH]; intros rest self found Hpre; [reflexivity|].
  apply Forall_cons in Hpre as [-> Hpre]. cbn [app dwfl_getmodules cus__process_dwflmod].
  cbn [Z.eqb DWARF_CB_OK]. by apply IH.
Qed.

(** X17. A load that is aborted is reported as a success: when the
    first module with DWARF sections makes [cus__load_module] return
    DWARF_CB_ABORT (no memory, a CU that cannot be processed, a stealer
    that stops), [dwarf__load_file] returns 0, with the CU list as the
    aborted load left it, and the modules behind are not visited. *)
Theorem dwarf__load_file_aborted (fuel : nat) (conf : option conf_load) (file : elf_file)
    (pre rest : list (option (list (Dwarf_Die * list Dwarf_Die))))
    (units : list (Dwarf_Die * list Dwarf_Die)) (self self1 : cus) :
  file_opens file = true -> file_dups file = true -> file_reported file = true ->
  file_modules file = pre ++ Some units :: rest ->
  Forall (fun dw => dw = None) pre ->
  cus__load_module fuel conf units self = Loaded DWARF_CB_ABORT self1 ->
  dwarf__load_file fuel conf file self = Loaded 0 self1.
Proof.
  intros Ho Hd Hr Hm Hpre Hload. unfold dwarf__load_file, cus__process_file.
  rewrite Ho, Hd, Hr, Hm. cbn [negb].
  rewrite dwfl_getmodules_no_dwarf by exact Hpre.
  cbn [dwfl_getmodules cus__process_dwflmod]. rewrite Hload. reflexivity.
Qed.

Lemma __tag__alloc_none body spec s :
  mem s = O -> __tag__alloc body spec s = Ret None s.
Proof. intros Hm. unfold __tag__alloc. run. rewrite Hm. reflexivity. Qed.

Lemma __tag__alloc_orphan body spec s :
  mem s = 1%nat ->
  exists d, __tag__alloc body spec s
            = Ret None (set_mem 0 (set_dcu_obstack (dcu_obstack s ++ [d]) s)).
Proof. intros Hm. unfold __tag__alloc. run. rewrite Hm. run. eexists. reflexivity. Qed.

(** The blank raw record of [__tag__alloc]. *)
Lemma tag__init_fresh body spec die s m :
  mem s = S (S m) ->
  exists s1,
    __tag__alloc body spec s = Ret (Some (length (obstack s))) s1 /\
    tag__init (length (obstack s)) die s1 =
      Ret tt (with_new_tag
                (mkTag 0 (dwarf_tag die) false 0 (Some (length (dcu_obstack s))) body)
                (init_raw (extra_dbg_info s) die
                   (mkDwarfTag 0 0 0 (length (obstack s)) 0 0 0
                               (if spec then Some 0 else None))) m s).
Proof.
  intros Hm. eexists. split; [by apply __tag__alloc_spec|].
  erewrite tag__init_spec; cycle 1.
  { cbn [obstack set_obstack set_mem set_dcu_obstack]. apply lookup_snoc. }
  { reflexivity. }
  { cbn [dcu_obstack set_obstack set_mem set_dcu_obstack]. apply lookup_snoc. }
  unfold with_tag, with_new_tag.
  cbn [obstack dcu_obstack extra_dbg_info set_obstack set_mem set_dcu_obstack].
  rewrite !insert_snoc. destruct s; reflexivity.
Qed.

Lemma M_bind_ret {A B} (m : M A) (f : A -> M B) s a s1 :
  m s = Ret a s1 -> (m ≫= f) s = f a s1.
Proof. intros H. unfold mbind, M_bind. by rewrite H. Qed.

Lemma obstack_with_new_tag t d m s : obstack (with_new_tag t d m s) = obstack s ++ [t].
Proof. reflexivity. Qed.

Lemma enumerator__new_spec die s m :
  mem s = S (S m) ->
  exists d,
    enumerator__new die s =
      Ret (Some (length (obstack s)))
        (set_stderr (stderr s ++ snd (attr_numeric die DW.AT_const_value))
           (with_new_tag
              (mkTag 0 (dwarf_tag die) false 0 (Some (length (dcu_obstack s)))
                 (B_enumerator (strings__add (attr_string die DW.AT_name))
                               (fst (attr_numeric die DW.AT_const_value))))
              d m s)).
Proof.
  intros Hm. unfold enumerator__new, tag__alloc.
  destruct (tag__init_fresh (B_enumerator 0 0) false die s m Hm) as (s1 & Ha & Hi).
  erewrite M_bind_ret by exact Ha. cbv beta iota.
  erewrite M_bind_ret by exact Hi. cbv beta iota.
  eexists. unfold with_new_tag. run. destruct s; reflexivity.
Qed.

Lemma enumerator__new_none die s :
  (mem s <= 1)%nat -> exists s1, enumerator__new die s = Ret None s1.
Proof.
  intros Hm. unfold enumerator__new, tag__alloc.
  destruct (mem s) as [|[|m]] eqn:E; [| |lia].
  - erewrite M_bind_ret by (by apply __tag__alloc_none). by eexists.
  - destruct (__tag__alloc_orphan (B_enumerator 0 0) false s E) as [d Hd].
    erewrite M_bind_ret by exact Hd. by eexists.
Qed.

Lemma enumeration__add_spec p e s tp ns ty es :
  obstack s !! p = Some tp -> tg_body tp = B_type ns ty -> ns_tags ns = LH_entries es ->
  enumeration__add p e s =
    Ret tt (set_obstack
              (<[p := set_tg_body
                        (B_type (mkNamespace (ns_name ns) (ns_sname ns) (ns_nr_tags ns + 1)
                                             (ns_shared_tags ns) (LH_entries (es ++ [e])))
                                (set_ty_nr_members (ty_nr_members ty + 1) ty)) tp]>
                 (obstack s)) s).
Proof.
  intros Hp Hb Hes. pose proof (lookup_lt_Some _ _ _ Hp) as Hlt.
  unfold enumeration__add, namespace__add_tag. run. rewrite Hp. run. rewrite Hb.
  cbn [with_type]. run. rewrite Hp. run.
  rewrite list_lookup_insert_eq by lia. run.
  cbn [with_namespace ns_tags mbind option_bind]. rewrite Hes. cbn [list_add_tail option_bind].
  run. cbn [option_bind]. run.
  rewrite list_lookup_insert_eq by lia. rewrite list_insert_insert_eq.
  destruct s, tp; reflexivity.
Qed.

Lemma die__create_new_enumeration_loop_spec dies : forall s s' p tp ns ty es0,
  obstack s !! p = Some tp -> tg_body tp = B_type ns ty -> ns_tags ns = LH_entries es0 ->
  die__create_new_enumeration_loop dies p s = Ret (Some tt) s' ->
  exists es,
    obstack s' !! p =
      Some (set_tg_body
              (B_type (mkNamespace (ns_name ns) (ns_sname ns)
                                   (ns_nr_tags ns + Z.of_nat (length es))
                                   (ns_shared_tags ns) (LH_entries (es0 ++ es)))
                      (set_ty_nr_members (ty_nr_members ty + Z.of_nat (length es)) ty)) tp) /\
    Forall2 (fun e d => exists t, obstack s' !! e = Some t /\ enumerator_of d t)
            es (filter is_enumerator dies) /\
    (forall i x, i <> p -> obstack s !! i = Some x -> obstack s' !! i = Some x).
Proof.
  induction dies as [|die sibs IH]; intros s s' p tp ns ty es0 Hp Hb Hes;
    cbn [die__create_new_enumeration_loop].
  - intros [= <-]. exists []. cbn [length Z.of_nat]. rewrite !Z.add_0_r, app_nil_r.
    split; [|split; [constructor|auto]].
    rewrite Hp. f_equal. destruct tp, ns, ty. cbn in *. subst. reflexivity.
  - destruct (dwarf_tag die =? DW.TAG_enumerator) eqn:Hk; cbn [negb].
    + apply Z.eqb_eq in Hk.
      rewrite filter_cons_True by exact Hk.
      destruct (mem s) as [|[|m]] eqn:Hm.
      * destruct (enumerator__new_none die s) as [s1 Hnone]; [lia|].
        erewrite M_bind_ret by exact Hnone. discriminate.
      * destruct (enumerator__new_none die s) as [s1 Hnone]; [lia|].
        erewrite M_bind_ret by exact Hnone. discriminate.
      * destruct (enumerator__new_spec die s m Hm) as [d Hnew].
        erewrite M_bind_ret by exact Hnew. cbv beta iota.
        pose proof (lookup_lt_Some _ _ _ Hp) as Hlt.
        erewrite M_bind_ret; cycle 1.
        { eapply enumeration__add_spec; [|exact Hb|exact Hes].
          cbn [obstack set_stderr]. rewrite obstack_with_new_tag.
          rewrite lookup_app_l by lia. exact Hp. }
        intros Hrest. eapply IH in Hrest; cycle 1.
        { cbn [obstack set_obstack set_stderr]. rewrite obstack_with_new_tag.
          apply list_lookup_insert_eq. rewrite length_app. lia. }
        { reflexivity. }
        { reflexivity. }
        destruct Hrest as (es & Hp' & Hall & Hframe).
        exists (length (obstack s) :: es). split; [|split].
        -- rewrite Hp'. f_equal. cbn [length ns_name ns_sname ns_nr_tags ns_shared_tags
             ty_nr_members set_ty_nr_members]. rewrite <- app_assoc. cbn [app].
           rewrite Nat2Z.inj_succ.
           replace (ns_nr_tags ns + 1 + Z.of_nat (length es))
             with (ns_nr_tags ns + Z.succ (Z.of_nat (length es))) by lia.
           replace (ty_nr_members ty + 1 + Z.of_nat (length es))
             with (ty_nr_members ty + Z.succ (Z.of_nat (length es))) by lia.
           destruct tp, ty. reflexivity.
        -- constructor; [|exact Hall].
           eexists. split.
           ++ apply Hframe; [lia|].
              cbn [obstack set_obstack set_stderr]. rewrite obstack_with_new_tag.
              rewrite list_lookup_insert_ne by lia. apply lookup_snoc.
           ++ split; [exact Hk|reflexivity].
        -- intros i x Hi Hx. apply Hframe; [exact Hi|].
           cbn [obstack set_obstack set_stderr]. rewrite obstack_with_new_tag.
           rewrite list_lookup_insert_ne by lia.
           rewrite lookup_app_l by (eapply lookup_lt_Some; eauto). exact Hx.
    + apply Z.eqb_neq in Hk.
      rewrite filter_cons_False by exact Hk.
      unfold __cu__tag_not_handled. run. intros Hrest.
      eapply IH in Hrest; [|exact Hp|exact Hb|exact Hes]. exact Hrest.
Qed.

Lemma type__new_none die s :
  (mem s <= 1)%nat -> exists s1, type__new die s = Ret None s1.
Proof.
  intros Hm. unfold type__new, tag__alloc_with_spec.
  destruct (mem s) as [|[|m]] eqn:E; [| |lia].
  - erewrite M_bind_ret by (by apply __tag__alloc_none). by eexists.
  - destruct (__tag__alloc_orphan (B_type blank_namespace blank_type) true s E) as [d Hd].
    erewrite M_bind_ret by exact Hd. by eexists.
Qed.

Lemma namespace__init_fresh body spec die s m b' :
  mem s = S (S m) ->
  with_namespace (fun _ => Some (mkNamespace (strings__add (attr_string die DW.AT_name))
                                             0 0 false (LH_entries []))) body = Some b' ->
  exists s1,
    __tag__alloc body spec s = Ret (Some (length (obstack s))) s1 /\
    namespace__init (length (obstack s)) die s1 =
      Ret tt (with_new_tag
                (mkTag 0 (dwarf_tag die) false 0 (Some (length (dcu_obstack s))) b')
                (init_raw (extra_dbg_info s) die
                   (mkDwarfTag 0 0 0 (length (obstack s)) 0 0 0
                               (if spec then Some 0 else None))) m s).
Proof.
  intros Hm Hb. destruct (tag__init_fresh body spec die s m Hm) as (s1 & Ha & Hi).
  exists s1. split; [exact Ha|]. unfold namespace__init.
  erewrite M_bind_ret by exact Hi. unfold with_new_tag. run. rewrite Hb. run.
  destruct s; reflexivity.
Qed.

Lemma type__new_spec die s m :
  mem s = S (S m) ->
  exists d,
    type__new die s =
      Ret (Some (length (obstack s)))
        (set_stderr (stderr s ++ (snd (attr_numeric die DW.AT_byte_size)
                                  ++ snd (attr_numeric die DW.AT_declaration)))
           (with_new_tag
              (mkTag 0 (dwarf_tag die) false 0 (Some (length (dcu_obstack s)))
                 (B_type (mkNamespace (strings__add (attr_string die DW.AT_name)) 0 0 false
                                      (LH_entries []))
                         (mkType (to_type_size (fst (attr_numeric die DW.AT_byte_size)))
                                 (fst (attr_numeric die DW.AT_declaration))
                                 false false false 0)))
              d m s)).
Proof.
  intros Hm. unfold type__new, tag__alloc_with_spec, type__init.
  destruct (namespace__init_fresh (B_type blank_namespace blank_type) true die s m _ Hm eq_refl)
    as (s1 & Ha & Hi).
  erewrite M_bind_ret by exact Ha. cbv beta iota.
  erewrite M_bind_ret; cycle 1.
  { erewrite M_bind_ret by exact Hi.
    unfold with_new_tag, dwarf_tag__set_spec, init_raw. run.
    cbn [dt_spec]. run. cbn [with_type]. run. reflexivity. }
  eexists. unfold with_new_tag, init_raw. cbn [set_dt_spec]. run.
  rewrite <- app_assoc. destruct s; reflexivity.
Qed.

(** X5. The enumeration built from a DIE: it has the DIE's name, the
    size in bits (eight times the DW_AT_byte_size that the [size] field
    holds, and 32 when that is zero, for an attribute that is absent or
    zero, each in the width of the field), and as its enumerators, in
    the order of the DIE's children, one object for each child of kind
    DW_TAG_enumerator, with the name and the DW_AT_const_value of that
    child; [nr_members] counts them. Children of other kinds add
    nothing. *)
Theorem die__create_new_enumeration_members (die : Dwarf_Die) (s s' : cu) (p : nat) :
  die__create_new_enumeration die s = Ret (Some p) s' ->
  exists t ns ty es,
    obstack s' !! p = Some t /\ tg_tag t = dwarf_tag die /\ tg_body t = B_type ns ty /\
    ns_name ns = strings__add (attr_string die DW.AT_name) /\
    ty_size ty =
      (let byte_size := to_type_size (fst (attr_numeric die DW.AT_byte_size)) in
       if byte_size =? 0 then to_type_size (4 * 8) else to_type_size (byte_size * 8)) /\
    ns_tags ns = LH_entries es /\
    ty_nr_members ty = Z.of_nat (length es) /\
    Forall2 (fun e d => exists t, obstack s' !! e = Some t /\ enumerator_of d t)
            es (filter is_enumerator (dwarf_children die)).
Proof.
  unfold die__create_new_enumeration.
  destruct (mem s) as [|[|m]] eqn:Hm.
  1,2: destruct (type__new_none die s) as [s1 Hnone]; [lia|];
       erewrite M_bind_ret by exact Hnone; discriminate.
  destruct (type__new_spec die s m Hm) as [d Hnew].
  erewrite M_bind_ret by exact Hnew. cbv beta iota.
  cbv zeta.
  set (size := to_type_size (fst (attr_numeric die DW.AT_byte_size))) in *.
  set (bits := if size =? 0 then to_type_size (4 * 8) else to_type_size (size * 8)).
  set (ns0 := mkNamespace (strings__add (attr_string die DW.AT_name)) 0 0 false (LH_entries [])).
  set (t0 := mkTag 0 (dwarf_tag die) false 0 (Some (length (dcu_obstack s)))
               (B_type ns0 (mkType bits (fst (attr_numeric die DW.AT_declaration))
                                   false false false 0))).
  erewrite M_bind_ret; cycle 1.
  { unfold with_new_tag. run. cbn [with_type ty_size]. fold size. run.
    instantiate (1 := set_stderr _ (with_new_tag t0 d m s)).
    unfold with_new_tag, t0, bits. destruct (size =? 0); reflexivity. }
  unfold dwarf_children.
  destruct (dwarf_child die) as [[child sibs]|].
  - unfold mbind, M_bind.
    match goal with
    | |- context [die__create_new_enumeration_loop ?l ?p ?st] =>
        destruct (die__create_new_enumeration_loop l p st) as [[[]|] s2| | |] eqn:Hloop
    end; try discriminate.
    intros [= <- <-].
      eapply die__create_new_enumeration_loop_spec in Hloop; cycle 1.
      { cbn [obstack set_stderr]. rewrite obstack_with_new_tag. apply lookup_snoc. }
      { reflexivity. }
      { reflexivity. }
      destruct Hloop as (es & Hp & Hall & _).
      eexists _, _, _, es. split; [exact Hp|]. repeat split; try reflexivity.
      exact Hall.
  - intros [= <- <-]. eexists t0, _, _, []. cbn [obstack set_stderr].
    rewrite obstack_with_new_tag, lookup_snoc. repeat split; constructor.
Qed.

(** X6. With fewer than three allocations left an array DIE with
    children is not built: [die__create_new_array] returns NULL, the
    domain arena is exactly as it was before the call (the array whose
    dimensions could not be copied is released), no allocation is left,
    and the raw record allocated on the way, if one was, stays in the
    raw arena. *)
Theorem die__create_new_array_failure (die : Dwarf_Die) (s : cu) :
  (mem s < 3)%nat -> dwarf_child die <> None ->
  exists s',
    die__create_new_array die s = Ret None s' /\
    obstack s' = obstack s /\ mem s' = O /\
    length (dcu_obstack s') = (length (dcu_obstack s) + min (mem s) 1)%nat.
Proof.
  intros Hmem Hchild.
  destruct s as [ob tt tgt ft lang ex ha ht hty dob err warned m].
  cbn [mem] in *. destruct m as [|[|[|m]]]; try lia.
  all: unfold die__create_new_array, array_type__new, tag__alloc, __tag__alloc, tag__init.
  all: run.
  1,2: eexists; split; [reflexivity|]; cbn [obstack dcu_obstack mem set_mem set_dcu_obstack];
       rewrite ?length_app; cbn [length]; repeat split; lia.
  destruct ((dwarf_tag die =? DW.TAG_imported_module)
            || (dwarf_tag die =? DW.TAG_imported_declaration)); run.
  all: destruct ex; run.
  all: destruct (dwarf_child die) as [[child sibs]|]; [|done]; run.
  all: rewrite die__create_new_array_loop_spec by (cbn; lia).
  all: run; cbn [app length Nat.sub].
  all: eexists; split; [reflexivity|].
  all: cbn [obstack dcu_obstack mem set_obstack set_mem set_dcu_obstack set_stderr].
  all: rewrite take_app_length, length_app; cbn [length]; repeat split; lia.
Qed.

(** X7. A tag built from a top-level DIE, one allocation being left for
    the table: [die__process_unit] enters it at the end of the dense
    table of its kind, leaves the other two tables and the domain arena
    alone, and stores the index in the tag's raw record reduced modulo
    2^16. *)
Theorem die__process_unit_numbers (fuel : nat) (die : Dwarf_Die) (s s1 : cu) (t : nat)
    (tg : tag) (dtag : nat) (d : struct_dwarf_tag) (m : nat) :
  __die__process_tag fuel die true "die__process_unit" s = Ret (Some t) s1 ->
  obstack s1 !! t = Some tg -> tg_priv tg = Some dtag -> dcu_obstack s1 !! dtag = Some d ->
  mem s1 = S m ->
  let pt := table_of (tg_tag tg) in
  exists s2,
    die__process_unit fuel [die] s = Ret 0 s2 /\
    entries pt s2 = entries pt s1 ++ [Some t] /\
    (forall pt', pt' <> pt -> entries pt' s2 = entries pt' s1) /\
    dcu_obstack s2 =
      <[dtag := set_dt_small_id (u16 (Z.of_nat (length (entries pt s1)))) d]> (dcu_obstack s1) /\
    obstack s2 = obstack s1.
Proof.
  intros Hrun Ht Hpriv Hd Hm pt. subst pt. unfold table_of.
  cbn [die__process_unit]. erewrite M_bind_ret by exact Hrun. cbv beta iota.
  unfold cu__add_tag, cu__table_add_tag, hash_and_number, cu__hash.
  run. rewrite Ht. run. rewrite Hm.
  destruct (tag__is_tag_type (tg_tag tg)) eqn:Hty;
    [|destruct (tag__is_function (tg_tag tg)) eqn:Hfn].
  all: repeat (progress (run; cbn [set_functions_table set_tags_table set_hash_types
                                   set_hash_tags obstack dcu_obstack];
                         rewrite ?Ht, ?Hpriv, ?Hd, ?Hty, ?Hfn)).
  all: eexists; split; [reflexivity|].
  all: cbn [entries types_table tags_table functions_table obstack dcu_obstack
            set_dcu_obstack set_hash_types set_hash_tags set_mem set_types_table
            set_functions_table set_tags_table].
  all: split; [reflexivity|]; split; [|split; reflexivity].
  all: intros [] Hne; try done.
Qed.

Lemma lookup_settled_resolved entry s t raw :
  lookup_settled entry s t raw ->
  entry = true \/ dt_type raw <> 0 ->
  if dt_type raw =? 0 then tg_type t = 0
  else
    match dwarf_cu__find_type_by_id (dt_type raw) s with
    | Ret (Some dtype) _ =>
        exists d, dcu_obstack s !! dtype = Some d /\ tg_type t = dt_small_id d
    | Ret None _ => True
    | _ => False
    end.
Proof.
  unfold lookup_settled, plain_target. intros H Hor.
  destruct (dt_type raw =? 0) eqn:E; [auto|].
  destruct (dwarf_cu__find_type_by_id (dt_type raw) s) as [[dtype|] s0| | |]; try done.
  destruct (dcu_obstack s !! dtype) as [d|]; [|done].
  exists d. auto.
Qed.

(** X10. What the resolver has done when it returns 0 on a simple CU:
    every entry of the three tables (from index 1 in the types table)
    that is a plain reference has, as its type, 0 when its DIE has no
    DW_AT_type, and else the small id of the raw record that the types
    hash gives for that offset; the look-up itself has a result, and
    nothing is said of an
    entry whose offset is not hashed. *)
Theorem cu__recode_dwarf_types_resolved (fuel : nat) (s s1 : cu) (pt : ptr_table)
    (i e : nat) (t : tag) (dtag : nat) (raw : struct_dwarf_tag) :
  simple_cu s -> cu__recode_dwarf_types fuel s = Ret 0 s1 ->
  (first_entry pt <= i)%nat -> entries pt s1 !! i = Some (Some e) ->
  obstack s1 !! e = Some t -> tg_priv t = Some dtag -> dcu_obstack s1 !! dtag = Some raw ->
  tag__has_namespace (tg_tag t) = false ->
  if dt_type raw =? 0 then tg_type t = 0
  else
    match dwarf_cu__find_type_by_id (dt_type raw) s1 with
    | Ret (Some dtype) _ =>
        exists d, dcu_obstack s1 !! dtype = Some d /\ tg_type t = dt_small_id d
    | Ret None _ => True
    | _ => False
    end.
Proof.
  intros Hsimple Hrun Hi He Ht Hpriv Hraw Hns.
  destruct (cu__recode_dwarf_types_resolves fuel s s1 Hsimple Hrun) as [_ Hall].
  destruct (Hall pt i e Hi He) as (t' & Ht' & Hset).
  rewrite Ht in Ht'. injection Ht' as <-.
  destruct (Hset dtag Hpriv) as (raw' & Hraw' & Hkind).
  rewrite Hraw in Hraw'. injection Hraw' as <-.
  rewrite Hns in Hkind. eapply lookup_settled_resolved; [exact Hkind|by left].
Qed.

(** X11. The same for the members of the aggregates in the tables: after
    a run of the resolver that returns 0 on a simple CU, every child of
    such an aggregate has its raw record, and a child that is no
    bit-field and has a DW_AT_type has as its type the small id of the
    raw record that the types hash gives for that offset. *)
Theorem cu__recode_dwarf_types_members (fuel : nat) (s s1 : cu) (pt : ptr_table)
    (i e : nat) (t : tag) (dtag : nat) (children : list nat) (c : nat) :
  simple_cu s -> cu__recode_dwarf_types fuel s = Ret 0 s1 ->
  (first_entry pt <= i)%nat -> entries pt s1 !! i = Some (Some e) ->
  obstack s1 !! e = Some t -> tg_priv t = Some dtag ->
  tag__has_namespace (tg_tag t) = true ->
  children_of t = Some children -> c ∈ children ->
  exists tc dc rawc,
    obstack s1 !! c = Some tc /\ tg_priv tc = Some dc /\ dcu_obstack s1 !! dc = Some rawc /\
    (bitfield_width tc = None -> dt_type rawc <> 0 ->
     match dwarf_cu__find_type_by_id (dt_type rawc) s1 with
     | Ret (Some dtype) _ =>
         exists d, dcu_obstack s1 !! dtype = Some d /\ tg_type tc = dt_small_id d
     | Ret None _ => True
     | _ => False
     end).
Proof.
  intros Hsimple Hrun Hi He Ht Hpriv Hns Hchildren Hc.
  destruct (cu__recode_dwarf_types_resolves fuel s s1 Hsimple Hrun) as [_ Hall].
  destruct (Hall pt i e Hi He) as (t' & Ht' & Hset).
  rewrite Ht in Ht'. injection Ht' as <-.
  destruct (Hset dtag Hpriv) as (raw' & Hraw' & Hkind).
  rewrite Hns in Hkind. destruct Hkind as (children' & Hchildren' & Hall').
  rewrite Hchildren in Hchildren'. injection Hchildren' as <-.
  rewrite Forall_forall in Hall'. destruct (Hall' c Hc) as (tc & dc & rawc & Htc & Hdc & Hrawc & Hw).
  exists tc, dc, rawc. repeat (split; [assumption|]).
  intros Hnone Hne. rewrite Hnone in Hw.
  pose proof (lookup_settled_resolved false s1 tc rawc Hw (or_intror Hne)) as H.
  apply Z.eqb_neq in Hne. rewrite Hne in H. exact H.
Qed.

Lemma grows_refl s : grows s s.
Proof. unfold grows. repeat split; auto. Qed.

Lemma grows_trans s1 s2 s3 : grows s1 s2 -> grows s2 s3 -> grows s1 s3.
Proof.
  unfold grows. intros (A1 & A2 & A3 & A4 & A5 & A6 & A7 & A8 & A9)
    (B1 & B2 & B3 & B4 & B5 & B6 & B7 & B8 & B9).
  repeat split; try (etrans; eassumption); try congruence; auto; lia.
Qed.

Lemma keeps_ret {A} (a : A) : keeps (mret a).
Proof. intros s a' s' H; inversion H; subst. apply grows_refl. Qed.

Lemma keeps_bind {A B} (m : M A) (f : A -> M B) :
  keeps m -> (forall a, keeps (f a)) -> keeps (m ≫= f).
Proof.
  intros Hm Hf s b s'. unfold mbind, M_bind.
  destruct (m s) as [a s1| | |] eqn:E; try discriminate.
  intros H. eapply grows_trans; [eapply Hm, E|eapply Hf, H].
Qed.

Lemma keeps_undef {A} : keeps (@undef A).
Proof. intros s a s'. discriminate. Qed.

Lemma keeps_no_fuel {A} : keeps (@no_fuel A).
Proof. intros s a s'. discriminate. Qed.

Lemma keeps_assert b : keeps (assert b).
Proof. intros s a s'. unfold assert. destruct b; [|discriminate]. intros H; inversion H; subst. apply grows_refl. Qed.

Lemma keeps_get_cu : keeps get_cu.
Proof. intros s a s' H; inversion H; subst. apply grows_refl. Qed.

Ltac grows_now :=
  unfold grows;
  cbn [types_table tags_table functions_table stderr tags_warned dcu_obstack
       extra_dbg_info has_addr_info mem
       set_obstack set_types_table set_tags_table set_functions_table set_language
       set_hash_tags set_hash_types set_dcu_obstack set_stderr set_tags_warned set_mem];
  repeat split; try reflexivity; auto;
  try (apply prefix_app_r; reflexivity);
  try (rewrite ?length_app, ?length_insert; lia).

Lemma keeps_fprintf_all ds : keeps (fprintf_all ds).
Proof. intros s a s' H; inversion H; subst. grows_now. Qed.

Lemma keeps_fprintf_stderr d : keeps (fprintf_stderr d).
Proof. intros s a s' H; inversion H; subst. grows_now. Qed.

Lemma keeps_printing r : keeps (printing r).
Proof. unfold printing. apply keeps_bind; [apply keeps_fprintf_all|intros; apply keeps_ret]. Qed.

Lemma keeps_printing_opt r : keeps (printing_opt r).
Proof. destruct r; [apply keeps_printing|apply keeps_undef]. Qed.

Lemma keeps_obstack_alloc t : keeps (obstack_alloc t).
Proof.
  intros s a s'. unfold obstack_alloc. destruct (mem s) eqn:E; intros H; inversion H; subst.
  - apply grows_refl.
  - grows_now.
Qed.

Lemma keeps_dcu_obstack_alloc d : keeps (dcu_obstack_alloc d).
Proof.
  intros s a s'. unfold dcu_obstack_alloc. destruct (mem s) eqn:E; intros H; inversion H; subst.
  - apply grows_refl.
  - grows_now.
Qed.

Lemma keeps_obstack_free p : keeps (obstack_free p).
Proof. intros s a s' H; inversion H; subst. grows_now. Qed.

Lemma keeps_load_tag p : keeps (load_tag p).
Proof.
  intros s a s'. unfold load_tag. destruct (obstack s !! p); [|discriminate].
  intros H; inversion H; subst. apply grows_refl.
Qed.

Lemma keeps_store_tag p t : keeps (store_tag p t).
Proof.
  intros s a s'. unfold store_tag. destruct (obstack s !! p); [|discriminate].
  intros H; inversion H; subst. grows_now.
Qed.

Lemma keeps_load_dtag p : keeps (load_dtag p).
Proof.
  intros s a s'. unfold load_dtag. destruct (dcu_obstack s !! p); [|discriminate].
  intros H; inversion H; subst. apply grows_refl.
Qed.

Lemma keeps_store_dtag p d : keeps (store_dtag p d).
Proof.
  intros s a s'. unfold store_dtag. destruct (dcu_obstack s !! p); [|discriminate].
  intros H; inversion H; subst. grows_now.
Qed.

Lemma keeps_memdup src : keeps (memdup src).
Proof.
  intros s a s'. unfold memdup. destruct (mem s) eqn:E; intros H; inversion H; subst.
  - apply grows_refl.
  - grows_now.
Qed.

Lemma keeps_modify_hash_types f : keeps (modify_cu (fun s => set_hash_types (f s) s)).
Proof. intros s a s' H; inversion H; subst. grows_now. Qed.

Lemma keeps_modify_hash_tags f : keeps (modify_cu (fun s => set_hash_tags (f s) s)).
Proof. intros s a s' H; inversion H; subst. grows_now. Qed.

Lemma keeps_set_language l : keeps (modify_cu (set_language l)).
Proof. intros s a s' H; inversion H; subst. grows_now. Qed.

Create HintDb keeps.
#[local] Hint Resolve keeps_ret keeps_undef keeps_no_fuel keeps_assert keeps_get_cu
  keeps_fprintf_all keeps_fprintf_stderr keeps_printing keeps_printing_opt
  keeps_obstack_alloc keeps_dcu_obstack_alloc keeps_obstack_free keeps_load_tag
  keeps_store_tag keeps_load_dtag keeps_store_dtag keeps_memdup
  keeps_modify_hash_types keeps_modify_hash_tags keeps_set_language : keeps.

(** One step through a computation of the loader monad. *)
Ltac keeps_step :=
  match goal with
  | |- keeps (mbind _ _) => apply keeps_bind; [|intros ?]
  | |- keeps (if ?b then _ else _) => destruct b
  | |- keeps (match ?x with _ => _ end) => destruct x
  | |- keeps (let '(_, _) := ?x in _) => destruct x
  | |- keeps ((fun _ => _) _) => cbv beta
  | |- keeps _ => solve [auto with keeps]
  end.

Ltac keeps_auto := repeat keeps_step.

(** The same with the loops written as local fixpoints: a loop is taken
    by induction on the list it walks. *)
Ltac keeps_loop_step :=
  match goal with
  | |- keeps _ => assumption
  | |- keeps (mbind _ _) => apply keeps_bind; [|intros ?]
  | |- keeps (if ?b then _ else _) => destruct b
  | |- keeps (match ?x with _ => _ end) => destruct x
  | |- keeps ((fun _ => _) _) => cbv beta
  | |- keeps (?f ?l) =>
      is_fix f; generalize l;
      let l' := fresh "l" in
      let IH := fresh "IHloop" in
      intros l'; induction l' as [|? ? IH]; cbv beta iota zeta
  | |- keeps _ => solve [auto with keeps]
  end.

Ltac keeps_loops := repeat keeps_loop_step.

Lemma keeps_update_tag p f : keeps (update_tag p f).
Proof. unfold update_tag. keeps_auto. Qed.

Lemma keeps_update_dtag p f : keeps (update_dtag p f).
Proof. unfold update_dtag. keeps_auto. Qed.

Lemma keeps_tag__priv p : keeps (tag__priv p).
Proof. unfold tag__priv. keeps_auto. Qed.

Lemma keeps_update_body p f : keeps (update_body p f).
Proof. unfold update_body. keeps_auto. Qed.

#[local] Hint Resolve keeps_update_tag keeps_update_dtag keeps_tag__priv keeps_update_body
  : keeps.

Lemma keeps_hashtags__find_in chain id : keeps (hashtags__find_in chain id).
Proof. induction chain; cbn [hashtags__find_in]; keeps_auto. Qed.
#[local] Hint Resolve keeps_hashtags__find_in : keeps.

Lemma keeps_hashtags__find h id : keeps (hashtags__find h id).
Proof. unfold hashtags__find. keeps_auto. Qed.
#[local] Hint Resolve keeps_hashtags__find : keeps.

Lemma keeps_cu__hash t : keeps (cu__hash t).
Proof. unfold cu__hash. keeps_auto. Qed.

Lemma keeps_dwarf_cu__find_tag_by_id id : keeps (dwarf_cu__find_tag_by_id id).
Proof. unfold dwarf_cu__find_tag_by_id. keeps_auto. Qed.

Lemma keeps_dwarf_cu__find_type_by_id id : keeps (dwarf_cu__find_type_by_id id).
Proof. unfold dwarf_cu__find_type_by_id. keeps_auto. Qed.

Lemma keeps_cu__table_add_tag t : keeps (cu__table_add_tag t).
Proof.
  unfold cu__table_add_tag. apply keeps_bind; [auto with keeps|intros tg].
  intros s [err id] s'. unfold mbind, M_bind, get_cu, modify_cu, mret, M_ret.
  destruct (mem s) eqn:E; [intros H; inversion H; subst; apply grows_refl|].
  destruct (tag__is_tag_type (tg_tag tg)); [|destruct (tag__is_function (tg_tag tg))];
    intros H; inversion H; subst; grows_now.
Qed.

#[local] Hint Resolve keeps_cu__hash keeps_dwarf_cu__find_tag_by_id
  keeps_dwarf_cu__find_type_by_id keeps_cu__table_add_tag : keeps.

Lemma keeps_cu__add_tag t : keeps (cu__add_tag t).
Proof. unfold cu__add_tag. auto with keeps. Qed.
#[local] Hint Resolve keeps_cu__add_tag : keeps.


Lemma keeps___tag__print_not_supported tag func : keeps (__tag__print_not_supported tag func).
Proof.
  intros s a s'. unfold __tag__print_not_supported, fprintf_stderr.
  unfold mbind, M_bind, get_cu, modify_cu, mret, M_ret.
  destruct (if tag <? DW.TAG_MIPS_loop then _ else _); [|discriminate].
  destruct (existsb (Z.eqb tag) (tags_warned s)); intros H; inversion H; subst.
  - apply grows_refl.
  - grows_now. intros k Hk. by right.
Qed.
#[local] Hint Resolve keeps___tag__print_not_supported : keeps.

Lemma keeps_namespace__add_tag self t : keeps (namespace__add_tag self t).
Proof. unfold namespace__add_tag. keeps_auto. Qed.
#[local] Hint Resolve keeps_namespace__add_tag : keeps.

Lemma keeps_type__add_member self m : keeps (type__add_member self m).
Proof. unfold type__add_member. keeps_auto. Qed.
#[local] Hint Resolve keeps_type__add_member : keeps.

Lemma keeps_enumeration__add self e : keeps (enumeration__add self e).
Proof. unfold enumeration__add. keeps_auto. Qed.
#[local] Hint Resolve keeps_enumeration__add : keeps.

Lemma keeps_ftype__add_parameter self p : keeps (ftype__add_parameter self p).
Proof. unfold ftype__add_parameter. keeps_auto. Qed.
#[local] Hint Resolve keeps_ftype__add_parameter : keeps.

Lemma keeps_lexblock__add_tag self t : keeps (lexblock__add_tag self t).
Proof. unfold lexblock__add_tag. keeps_auto. Qed.
#[local] Hint Resolve keeps_lexblock__add_tag : keeps.

Lemma keeps_lexblock__add_label self l : keeps (lexblock__add_label self l).
Proof. unfold lexblock__add_label. keeps_auto. Qed.
#[local] Hint Resolve keeps_lexblock__add_label : keeps.

Lemma keeps_lexblock__add_variable self v : keeps (lexblock__add_variable self v).
Proof. unfold lexblock__add_variable. keeps_auto. Qed.
#[local] Hint Resolve keeps_lexblock__add_variable : keeps.

Lemma keeps_lexblock__add_inline_expansion self e : keeps (lexblock__add_inline_expansion self e).
Proof. unfold lexblock__add_inline_expansion. keeps_auto. Qed.
#[local] Hint Resolve keeps_lexblock__add_inline_expansion : keeps.

Lemma keeps_lexblock__add_lexblock self c : keeps (lexblock__add_lexblock self c).
Proof. unfold lexblock__add_lexblock. keeps_auto. Qed.
#[local] Hint Resolve keeps_lexblock__add_lexblock : keeps.

Lemma keeps_class__add_vtable_entry self f : keeps (class__add_vtable_entry self f).
Proof. unfold class__add_vtable_entry. keeps_auto. Qed.
#[local] Hint Resolve keeps_class__add_vtable_entry : keeps.

Lemma keeps_tag__delete self : keeps (tag__delete self).
Proof. unfold tag__delete. keeps_auto. Qed.
#[local] Hint Resolve keeps_tag__delete : keeps.

Lemma keeps___tag__alloc body spec : keeps (__tag__alloc body spec).
Proof. unfold __tag__alloc. keeps_auto. Qed.
#[local] Hint Resolve keeps___tag__alloc : keeps.

Lemma keeps_tag__alloc body : keeps (tag__alloc body).
Proof. unfold tag__alloc. keeps_auto. Qed.
#[local] Hint Resolve keeps_tag__alloc : keeps.

Lemma keeps_tag__alloc_with_spec body : keeps (tag__alloc_with_spec body).
Proof. unfold tag__alloc_with_spec. keeps_auto. Qed.
#[local] Hint Resolve keeps_tag__alloc_with_spec : keeps.

Lemma keeps_dwarf_tag__spec dtag : keeps (dwarf_tag__spec dtag).
Proof. unfold dwarf_tag__spec. keeps_auto. Qed.
#[local] Hint Resolve keeps_dwarf_tag__spec : keeps.

Lemma keeps_dwarf_tag__set_spec dtag spec : keeps (dwarf_tag__set_spec dtag spec).
Proof. unfold dwarf_tag__set_spec. keeps_auto. Qed.
#[local] Hint Resolve keeps_dwarf_tag__set_spec : keeps.

Lemma keeps_tag__init self die : keeps (tag__init self die).
Proof. unfold tag__init. keeps_auto. Qed.
#[local] Hint Resolve keeps_tag__init : keeps.

Lemma keeps_tag__new die : keeps (tag__new die).
Proof. unfold tag__new. keeps_auto. Qed.
#[local] Hint Resolve keeps_tag__new : keeps.

Lemma keeps_ptr_to_member_type__new die : keeps (ptr_to_member_type__new die).
Proof. unfold ptr_to_member_type__new. keeps_auto. Qed.
#[local] Hint Resolve keeps_ptr_to_member_type__new : keeps.

Lemma keeps_base_type__new die : keeps (base_type__new die).
Proof. unfold base_type__new. keeps_auto. Qed.
#[local] Hint Resolve keeps_base_type__new : keeps.

Lemma keeps_array_type__new die : keeps (array_type__new die).
Proof. unfold array_type__new. keeps_auto. Qed.
#[local] Hint Resolve keeps_array_type__new : keeps.

Lemma keeps_namespace__init self die : keeps (namespace__init self die).
Proof. unfold namespace__init. keeps_auto. Qed.
#[local] Hint Resolve keeps_namespace__init : keeps.

Lemma keeps_namespace__new die : keeps (namespace__new die).
Proof. unfold namespace__new. keeps_auto. Qed.
#[local] Hint Resolve keeps_namespace__new : keeps.

Lemma keeps_type__init self die : keeps (type__init self die).
Proof. unfold type__init. keeps_auto. Qed.
#[local] Hint Resolve keeps_type__init : keeps.

Lemma keeps_type__new die : keeps (type__new die).
Proof. unfold type__new. keeps_auto. Qed.
#[local] Hint Resolve keeps_type__new : keeps.

Lemma keeps_enumerator__new die : keeps (enumerator__new die).
Proof. unfold enumerator__new. keeps_auto. Qed.
#[local] Hint Resolve keeps_enumerator__new : keeps.

Lemma keeps_variable__new die : keeps (variable__new die).
Proof. unfold variable__new. keeps_auto. Qed.
#[local] Hint Resolve keeps_variable__new : keeps.

Lemma keeps_class_member__new die : keeps (class_member__new die).
Proof. unfold class_member__new. keeps_auto. Qed.
#[local] Hint Resolve keeps_class_member__new : keeps.

Lemma keeps_parameter__new die : keeps (parameter__new die).
Proof. unfold parameter__new. keeps_auto. Qed.
#[local] Hint Resolve keeps_parameter__new : keeps.

Lemma keeps_inline_expansion__new die : keeps (inline_expansion__new die).
Proof. unfold inline_expansion__new. keeps_auto. Qed.
#[local] Hint Resolve keeps_inline_expansion__new : keeps.

Lemma keeps_label__new die : keeps (label__new die).
Proof. unfold label__new. keeps_auto. Qed.
#[local] Hint Resolve keeps_label__new : keeps.

Lemma keeps_class__new die : keeps (class__new die).
Proof. unfold class__new. keeps_auto. Qed.
#[local] Hint Resolve keeps_class__new : keeps.

Lemma keeps_lexblock__init self die : keeps (lexblock__init self die).
Proof. unfold lexblock__init. keeps_auto. Qed.
#[local] Hint Resolve keeps_lexblock__init : keeps.

Lemma keeps_lexblock__new die : keeps (lexblock__new die).
Proof. unfold lexblock__new. keeps_auto. Qed.
#[local] Hint Resolve keeps_lexblock__new : keeps.

Lemma keeps_ftype__init self die : keeps (ftype__init self die).
Proof. unfold ftype__init. keeps_auto. Qed.
#[local] Hint Resolve keeps_ftype__init : keeps.

Lemma keeps_ftype__new die : keeps (ftype__new die).
Proof. unfold ftype__new. keeps_auto. Qed.
#[local] Hint Resolve keeps_ftype__new : keeps.

Lemma keeps_function__new die : keeps (function__new die).
Proof. unfold function__new. keeps_auto. Qed.
#[local] Hint Resolve keeps_function__new : keeps.

Lemma keeps___cu__tag_not_handled die fn : keeps (__cu__tag_not_handled die fn).
Proof. unfold __cu__tag_not_handled. keeps_auto. Qed.
#[local] Hint Resolve keeps___cu__tag_not_handled : keeps.

Lemma keeps_die__create_new_tag die : keeps (die__create_new_tag die).
Proof. unfold die__create_new_tag. keeps_auto. Qed.
#[local] Hint Resolve keeps_die__create_new_tag : keeps.

Lemma keeps_die__create_new_ptr_to_member_type die : keeps (die__create_new_ptr_to_member_type die).
Proof. unfold die__create_new_ptr_to_member_type. keeps_auto. Qed.
#[local] Hint Resolve keeps_die__create_new_ptr_to_member_type : keeps.

Lemma keeps_die__create_new_base_type die : keeps (die__create_new_base_type die).
Proof. unfold die__create_new_base_type. keeps_auto. Qed.
#[local] Hint Resolve keeps_die__create_new_base_type : keeps.

Lemma keeps_die__create_new_typedef die : keeps (die__create_new_typedef die).
Proof. unfold die__create_new_typedef. keeps_auto. Qed.
#[local] Hint Resolve keeps_die__create_new_typedef : keeps.


Lemma keeps_die__create_new_array_loop dies : forall nr_entries,
  keeps (die__create_new_array_loop dies nr_entries).
Proof. induction dies; intros nr_entries; cbn [die__create_new_array_loop]; keeps_auto. Qed.
#[local] Hint Resolve keeps_die__create_new_array_loop : keeps.

Lemma keeps_die__create_new_array die : keeps (die__create_new_array die).
Proof. unfold die__create_new_array. keeps_auto. Qed.
#[local] Hint Resolve keeps_die__create_new_array : keeps.

Lemma keeps_die__create_new_variable die : keeps (die__create_new_variable die).
Proof. unfold die__create_new_variable. keeps_auto. Qed.
#[local] Hint Resolve keeps_die__create_new_variable : keeps.

Lemma keeps_die__create_new_parameter die ftype lexblock : keeps (die__create_new_parameter die ftype lexblock).
Proof. unfold die__create_new_parameter. keeps_auto. Qed.
#[local] Hint Resolve keeps_die__create_new_parameter : keeps.

Lemma keeps_die__create_new_label die lexblock : keeps (die__create_new_label die lexblock).
Proof. unfold die__create_new_label. keeps_auto. Qed.
#[local] Hint Resolve keeps_die__create_new_label : keeps.


Lemma keeps_die__create_new_enumeration_loop dies enumeration :
  keeps (die__create_new_enumeration_loop dies enumeration).
Proof. induction dies; cbn [die__create_new_enumeration_loop]; keeps_auto. Qed.
#[local] Hint Resolve keeps_die__create_new_enumeration_loop : keeps.

Lemma keeps_die__create_new_enumeration die : keeps (die__create_new_enumeration die).
Proof. unfold die__create_new_enumeration. keeps_auto. Qed.
#[local] Hint Resolve keeps_die__create_new_enumeration : keeps.

Lemma keeps_hash_and_number t id : keeps (hash_and_number t id).
Proof. unfold hash_and_number. keeps_auto. Qed.
#[local] Hint Resolve keeps_hash_and_number : keeps.

Lemma keeps_builder fuel :
  (forall die tl fn, keeps (__die__process_tag fuel die tl fn)) /\
  (forall die, keeps (die__create_new_class fuel die)) /\
  (forall die, keeps (die__create_new_namespace fuel die)) /\
  (forall die, keeps (die__create_new_union fuel die)) /\
  (forall die, keeps (die__create_new_subroutine_type fuel die)) /\
  (forall dies class, keeps (die__process_class fuel dies class)) /\
  (forall dies ns, keeps (die__process_namespace fuel dies ns)) /\
  (forall die father, keeps (die__create_new_lexblock fuel die father)) /\
  (forall die, keeps (die__process_inline_expansion fuel die)) /\
  (forall die lexblock, keeps (die__create_new_inline_expansion fuel die lexblock)) /\
  (forall die ftype lexblock, keeps (die__process_function fuel die ftype lexblock)) /\
  (forall die, keeps (die__create_new_function fuel die)).
Proof.
  induction fuel as [|fuel IH].
  - repeat match goal with |- _ /\ _ => split end; intros; exact keeps_no_fuel.
  - destruct IH as (IH1 & IH2 & IH3 & IH4 & IH5 & IH6 & IH7 & IH8 & IH9 & IH10 & IH11 & IH12).
    repeat match goal with |- _ /\ _ => split end; intros.
    + cbn [__die__process_tag]. keeps_loops.
    + cbn [die__create_new_class]. keeps_loops.
    + cbn [die__create_new_namespace]. keeps_loops.
    + cbn [die__create_new_union]. keeps_loops.
    + cbn [die__create_new_subroutine_type]. keeps_loops.
    + cbn [die__process_class]. keeps_loops.
    + cbn [die__process_namespace]. keeps_loops.
    + cbn [die__create_new_lexblock]. keeps_loops.
    + cbn [die__process_inline_expansion]. keeps_loops.
    + cbn [die__create_new_inline_expansion]. keeps_loops.
    + cbn [die__process_function]. keeps_loops.
    + cbn [die__create_new_function]. keeps_loops.
Qed.

Lemma keeps___die__process_tag fuel die tl fn : keeps (__die__process_tag fuel die tl fn).
Proof. apply keeps_builder. Qed.
#[local] Hint Resolve keeps___die__process_tag : keeps.

Lemma keeps_die__process_unit fuel dies : keeps (die__process_unit fuel dies).
Proof. induction dies; cbn [die__process_unit]; keeps_loops. Qed.
#[local] Hint Resolve keeps_die__process_unit : keeps.

Lemma keeps_tag__recode_dwarf_bitfield fuel : forall self bit_size,
  keeps (tag__recode_dwarf_bitfield fuel self bit_size).
Proof.
  induction fuel as [|fuel IH]; intros self bit_size; [exact keeps_no_fuel|].
  cbn [tag__recode_dwarf_bitfield]. cbv zeta. keeps_loops.
Qed.
#[local] Hint Resolve keeps_tag__recode_dwarf_bitfield : keeps.

Lemma keeps_class_member__dwarf_recode_bitfield fuel self :
  keeps (class_member__dwarf_recode_bitfield fuel self).
Proof. unfold class_member__dwarf_recode_bitfield. keeps_auto. Qed.
#[local] Hint Resolve keeps_class_member__dwarf_recode_bitfield : keeps.

Lemma keeps___tag__print_type_not_found self func :
  keeps (__tag__print_type_not_found self func).
Proof. unfold __tag__print_type_not_found. keeps_auto. Qed.

Lemma keeps___tag__print_abstract_origin_not_found self func :
  keeps (__tag__print_abstract_origin_not_found self func).
Proof. unfold __tag__print_abstract_origin_not_found. keeps_auto. Qed.

Lemma keeps_set_type_from_small_id pos dtype : keeps (set_type_from_small_id pos dtype).
Proof. unfold set_type_from_small_id. keeps_auto. Qed.

Lemma keeps_copy_name_and_type k pos dtype : keeps (copy_name_and_type k pos dtype).
Proof. unfold copy_name_and_type. keeps_auto. Qed.

Lemma keeps_copy_name k pos dtype : keeps (copy_name k pos dtype).
Proof. unfold copy_name. keeps_auto. Qed.

#[local] Hint Resolve keeps___tag__print_type_not_found
  keeps___tag__print_abstract_origin_not_found keeps_set_type_from_small_id
  keeps_copy_name_and_type keeps_copy_name : keeps.

Lemma keeps_type__recode_dwarf_specification self :
  keeps (type__recode_dwarf_specification self).
Proof. unfold type__recode_dwarf_specification. keeps_auto. Qed.
#[local] Hint Resolve keeps_type__recode_dwarf_specification : keeps.

Lemma keeps_ftype__recode_dwarf_types_loop parms :
  keeps (ftype__recode_dwarf_types_loop parms).
Proof. induction parms; cbn [ftype__recode_dwarf_types_loop]; keeps_loops. Qed.
#[local] Hint Resolve keeps_ftype__recode_dwarf_types_loop : keeps.

Lemma keeps_ftype__recode_dwarf_types self : keeps (ftype__recode_dwarf_types self).
Proof. unfold ftype__recode_dwarf_types. keeps_auto. Qed.
#[local] Hint Resolve keeps_ftype__recode_dwarf_types : keeps.

Lemma keeps_lexblock__recode_dwarf_types fuel : forall self,
  keeps (lexblock__recode_dwarf_types fuel self).
Proof.
  induction fuel as [|fuel IH]; intros self; [exact keeps_no_fuel|].
  cbn [lexblock__recode_dwarf_types]. keeps_loops.
Qed.
#[local] Hint Resolve keeps_lexblock__recode_dwarf_types : keeps.

Lemma keeps_namespace__recode_dwarf_types fuel : forall self,
  keeps (namespace__recode_dwarf_types fuel self).
Proof.
  induction fuel as [|fuel IH]; intros self; [exact keeps_no_fuel|].
  cbn [namespace__recode_dwarf_types]. keeps_loops.
Qed.
#[local] Hint Resolve keeps_namespace__recode_dwarf_types : keeps.

Lemma keeps_tag__recode_dwarf_type fuel self : keeps (tag__recode_dwarf_type fuel self).
Proof. unfold tag__recode_dwarf_type. cbv zeta. keeps_auto. Qed.
#[local] Hint Resolve keeps_tag__recode_dwarf_type : keeps.

Lemma keeps_cu__recode_dwarf_types_table fuel pt : forall i,
  keeps (cu__recode_dwarf_types_table fuel pt i).
Proof.
  induction fuel as [|fuel IH]; intros i; [exact keeps_no_fuel|].
  cbn [cu__recode_dwarf_types_table]. keeps_loops.
Qed.
#[local] Hint Resolve keeps_cu__recode_dwarf_types_table : keeps.

Lemma keeps_cu__recode_dwarf_types fuel : keeps (cu__recode_dwarf_types fuel).
Proof. unfold cu__recode_dwarf_types. keeps_auto. Qed.
#[local] Hint Resolve keeps_cu__recode_dwarf_types : keeps.

Lemma keeps_die__process fuel die sibs : keeps (die__process fuel die sibs).
Proof. unfold die__process. cbv zeta. keeps_auto. Qed.

Lemma keeps_follow_qualifiers fuel : forall type, keeps (follow_qualifiers fuel type).
Proof.
  induction fuel as [|fuel IH]; intros type; [exact keeps_no_fuel|].
  cbn [follow_qualifiers]. keeps_loops.
Qed.
#[local] Hint Resolve keeps_follow_qualifiers : keeps.

Lemma keeps_class_member__cache_byte_size fuel conf self :
  keeps (class_member__cache_byte_size fuel conf self).
Proof. unfold class_member__cache_byte_size. keeps_auto. Qed.
#[local] Hint Resolve keeps_class_member__cache_byte_size : keeps.

Lemma keeps_cache_byte_sizes fuel conf tags : keeps (cache_byte_sizes fuel conf tags).
Proof. induction tags; cbn [cache_byte_sizes]; keeps_loops. Qed.

(** X9. What loading a CU never takes back: whatever [die__process]
    returns, the three dense tables of the state it leaves start with
    the tables it found (an index that was handed out keeps denoting the
    same tag), the diagnostics start with the diagnostics it found, the
    kinds warned about are still warned about, the raw arena has not
    shrunk, the load flags are unchanged and no allocation has been
    given back. *)
Theorem die__process_grows (fuel : nat) (die : Dwarf_Die) (sibs : list Dwarf_Die)
    (s s' : cu) (r : Z) :
  die__process fuel die sibs s = Ret r s' -> grows s s'.
Proof. apply keeps_die__process. Qed.

(** X14. A CU that the driver adds to the list: index 0 of its types
    table is the void entry that [cu__new] put there, its load flags
    are those of the configuration, and its raw arena is empty unless
    it keeps the extra debugging information. *)
Theorem cus__load_module_cu_kept (fuel : nat) (conf : option conf_load)
    (cu_die : Dwarf_Die) (cu_sibs : list Dwarf_Die) (self self' : cus) (c : cu) :
  cus__load_module_cu fuel conf cu_die cu_sibs self = Next_cu self' ->
  cus_list self' = cus_list self ++ [c] ->
  types_table c !! 0%nat = Some None /\
  extra_dbg_info c = fst (conf_flags conf) /\
  has_addr_info c = snd (conf_flags conf) /\
  (extra_dbg_info c = false -> dcu_obstack c = []).
Proof.
  unfold cus__load_module_cu.
  replace (match conf with Some f => conf_extra_dbg_info f | None => false end)
    with (fst (conf_flags conf)) by (destruct conf; reflexivity).
  replace (match conf with Some f => conf_get_addr_info f | None => false end)
    with (snd (conf_flags conf)) by (destruct conf; reflexivity).
  destruct (cu__new self) as [c0|] eqn:Hnew; [|discriminate].
  destruct (die__process _ _ _ _) as [err c1| | |] eqn:Hprocess; try discriminate.
  destruct (negb (err =? 0)); [discriminate|].
  destruct (cache_byte_sizes _ _ _ _) as [[] c2| | |] eqn:Hcache; try discriminate.
  apply keeps_die__process in Hprocess. apply keeps_cache_byte_sizes in Hcache.
  pose proof (grows_trans _ _ _ Hprocess Hcache) as (Hty & _ & _ & _ & _ & _ & Hex & Hha & _).
  assert (Hc0 : types_table c0 = [None] ).
  { unfold cu__new in Hnew. destruct (cus_mem self); [discriminate|].
    injection Hnew as <-. reflexivity. }
  cbn [types_table extra_dbg_info has_addr_info set_load_flags] in Hty, Hex, Hha.
  rewrite Hc0 in Hty.
  assert (Hkept : forall self', 
    Next_cu (cus__add self (if negb (extra_dbg_info c2) then dcu_obstack_release c2 else c2))
      = Next_cu self' ->
    cus_list self' = cus_list self ++ [c] ->
    types_table c !! 0%nat = Some None /\
    extra_dbg_info c = fst (conf_flags conf) /\
    has_addr_info c = snd (conf_flags conf) /\
    (extra_dbg_info c = false -> dcu_obstack c = [])).
  { intros self0 [= <-]. cbn [cus__add cus_list]. intros Hc%app_inj_tail. destruct Hc as [_ <-].
    destruct (extra_dbg_info c2) eqn:E; cbn [negb].
    - rewrite E. repeat split; try congruence.
      destruct Hty as [k ->]. reflexivity.
    - unfold dcu_obstack_release.
      cbn [types_table extra_dbg_info has_addr_info dcu_obstack set_dcu_obstack].
      repeat split; try congruence. destruct Hty as [k ->]. reflexivity. }
  assert (Hgone : forall self', Next_cu (let_go self c2) = Next_cu self' ->
                    cus_list self' = cus_list self ++ [c] -> False).
  { intros self0 [= <-]. cbn [let_go cus_list]. intros H.
    apply (f_equal length) in H. rewrite length_app in H. cbn in H. lia. }
  destruct conf as [f|]; [|apply Hkept].
  destruct (conf_steal f) as [steal|]; [|apply Hkept].
  destruct (steal c2); [apply Hkept| |discriminate].
  intros H1 H2. destruct (Hgone _ H1 H2).
Qed.

Lemma cus__load_module_cu_process fuel conf cu_die cu_sibs self :
  match cus__load_module_cu fuel conf cu_die cu_sibs self with
  | Next_cu self' | Return _ self' =>
      cus_stderr self `prefix_of` cus_stderr self' /\
      (forall k, k ∈ cus_tags_warned self -> k ∈ cus_tags_warned self') /\
      (cus_mem self' <= cus_mem self)%nat
  | _ => True
  end.
Proof.
  unfold cus__load_module_cu.
  destruct (cu__new self) as [c0|] eqn:Hnew; [|done].
  destruct (die__process _ _ _ _) as [err c1| | |] eqn:Hprocess; try done.
  apply keeps_die__process in Hprocess.
  unfold cu__new in Hnew. destruct (cus_mem self) as [|m] eqn:Hm; [discriminate|].
  injection Hnew as <-.
  assert (Hstate : forall c, grows c1 c ->
            cus_stderr self `prefix_of` stderr c /\
            (forall k, k ∈ cus_tags_warned self -> k ∈ tags_warned c) /\
            (mem c <= S m)%nat).
  { intros c Hc. pose proof (grows_trans _ _ _ Hprocess Hc)
      as (_ & _ & _ & Herr & Hwarned & _ & _ & _ & Hmem).
    cbn [stderr tags_warned mem set_load_flags] in *. repeat split; auto. }
  destruct (negb (err =? 0)).
  { cbn [let_go cus_stderr cus_tags_warned cus_mem]. apply Hstate, grows_refl. }
  destruct (cache_byte_sizes _ _ _ _) as [[] c2| | |] eqn:Hcache; try done.
  apply keeps_cache_byte_sizes in Hcache.
  assert (Hkeep : let self' := cus__add self (if negb (extra_dbg_info c2)
                                              then dcu_obstack_release c2 else c2) in
            cus_stderr self `prefix_of` cus_stderr self' /\
            (forall k, k ∈ cus_tags_warned self -> k ∈ cus_tags_warned self') /\
            (cus_mem self' <= S m)%nat).
  { cbn [cus__add cus_stderr cus_tags_warned cus_mem].
    destruct (negb (extra_dbg_info c2)); [|by apply Hstate].
    unfold dcu_obstack_release. cbn [stderr tags_warned mem set_dcu_obstack].
    by apply Hstate. }
  destruct conf as [f|]; [|exact Hkeep].
  destruct (conf_steal f) as [steal|]; [|exact Hkeep].
  destruct (steal c2); [exact Hkeep| |];
    cbn [let_go cus_stderr cus_tags_warned cus_mem]; by apply Hstate.
Qed.

(** X15. Across the CUs of a module, whatever the load returns, the
    diagnostics of the process are only added to at the end, the kinds
    warned about stay warned about, and no allocation is given back. *)
Theorem cus__load_module_process_state (fuel : nat) (conf : option conf_load)
    (units : list (Dwarf_Die * list Dwarf_Die)) (self self' : cus) (ret : Z) :
  cus__load_module fuel conf units self = Loaded ret self' ->
  cus_stderr self `prefix_of` cus_stderr self' /\
  (forall k, k ∈ cus_tags_warned self -> k ∈ cus_tags_warned self') /\
  (cus_mem self' <= cus_mem self)%nat.
Proof.
  revert self. induction units as [|[cu_die cu_sibs] units IH]; intros self;
    cbn [cus__load_module].
  - intros [= _ <-]. auto.
  - pose proof (cus__load_module_cu_process fuel conf cu_die cu_sibs self) as H.
    destruct (cus__load_module_cu fuel conf cu_die cu_sibs self) as [self1|r self1| | |];
      try discriminate.
    + intros Hrest. apply IH in Hrest. destruct H as (H1 & H2 & H3), Hrest as (R1 & R2 & R3).
      repeat split; [by etrans|auto|lia].
    + intros [= _ <-]. exact H.
Qed.

(** ** The resolver on plain references *)

Lemma retyped_refl s : retyped s s.
Proof.
  repeat split; auto. intros p x Hp. exists (tg_type x). by rewrite set_tg_type_same.
Qed.

Lemma retyped_lookup s s' p x :
  retyped s s' -> obstack s !! p = Some x ->
  exists v, obstack s' !! p = Some (set_tg_type v x).
Proof. intros (_ & _ & _ & _ & _ & _ & _ & _ & _ & H) Hp. eauto. Qed.

Lemma retyped_trans s1 s2 s3 : retyped s1 s2 -> retyped s2 s3 -> retyped s1 s3.
Proof.
  intros (A1 & A2 & A3 & A4 & A5 & A6 & A7 & A8 & A9 & A10)
         (B1 & B2 & B3 & B4 & B5 & B6 & B7 & B8 & B9 & B10).
  repeat split; try congruence; [by etrans|].
  intros p x Hp. destruct (A10 p x Hp) as [v Hv]. destruct (B10 p _ Hv) as [w Hw].
  exists w. by rewrite Hw, set_tg_type_twice.
Qed.

Lemma retyped_with_type_of q v s : retyped s (with_type_of q v s).
Proof.
  repeat split; auto; [apply length_obstack_with_type_of|].
  intros p x Hp. unfold with_type_of. cbn [obstack set_obstack].
  destruct (decide (p = q)) as [->|Hne].
  - exists v. by rewrite list_lookup_alter_eq, Hp.
  - exists (tg_type x). rewrite list_lookup_alter_ne by congruence.
    by rewrite set_tg_type_same.
Qed.

Lemma retyped_stderr ds s : retyped s (set_stderr (stderr s ++ ds) s).
Proof.
  repeat split; auto.
  - cbn [stderr set_stderr]. by apply prefix_app_r.
  - intros p x Hp. exists (tg_type x). cbn [obstack set_stderr]. by rewrite set_tg_type_same.
Qed.

Lemma plain_target_retyped s s' raw v :
  retyped s s' -> plain_target s raw = Ret v s -> plain_target s' raw = Ret v s'.
Proof.
  intros (Hd & Hh & _) H. rewrite (plain_target_frame s) by assumption. by rewrite H.
Qed.

Lemma plain_target_retyped_inv s s' raw v :
  retyped s s' -> plain_target s' raw = Ret v s' -> plain_target s raw = Ret v s.
Proof.
  intros (Hd & Hh & _) H. rewrite (plain_target_frame s) in H by assumption.
  destruct (plain_target s raw) as [v0 s0| | |] eqn:E; try discriminate.
  apply plain_target_state in E as ?. subst s0. congruence.
Qed.

Lemma plain_entry_retyped s s' e : retyped s s' -> plain_entry s e -> plain_entry s' e.
Proof.
  intros Hr (t & dtag & raw & v & Ht & Hk & Hp & Hraw & Hn & Hv).
  destruct (retyped_lookup _ _ _ _ Hr Ht) as [w Ht'].
  exists (set_tg_type w t), dtag, raw, v. pose proof Hr as (Hd & _).
  rewrite Hd. split_and!; eauto using named_or_unspecified_set_type, plain_target_retyped.
Qed.

Lemma plain_cu_retyped s s' : retyped s s' -> plain_cu s -> plain_cu s'.
Proof.
  intros Hr Hcu pt i e Hi. eapply plain_entry_retyped; [exact Hr|].
  apply (Hcu pt i). pose proof Hr as (_ & _ & _ & H1 & H2 & H3 & _).
  destruct pt; cbn [entries] in *; congruence.
Qed.

Lemma only_resolved_trans s1 s2 s3 :
  retyped s1 s2 -> only_resolved s1 s2 -> only_resolved s2 s3 -> only_resolved s1 s3.
Proof.
  intros Hr H12 H23 p x Hp.
  destruct (H12 p x Hp) as [H|(dtag & raw & w & Hpriv & Hraw & Hw & H)].
  - destruct (H23 p x H) as [H'|(dtag & raw & w & Hpriv & Hraw & Hw & H')]; [by left|].
    right. exists dtag, raw, w. pose proof Hr as (Hd & _). rewrite Hd in Hraw.
    split_and!; auto. eapply plain_target_retyped_inv; eauto.
  - right. exists dtag, raw, w. split_and!; auto.
    destruct (H23 p _ H) as [H'|(dtag' & raw' & w' & Hpriv' & Hraw' & Hw' & H')];
      [exact H'|].
    pose proof Hr as (Hd & _). rewrite Hd in Hraw'.
    assert (dtag' = dtag) by (destruct x; cbn in *; congruence). subst dtag'.
    assert (raw' = raw) by congruence. subst raw'.
    apply (plain_target_retyped_inv _ _ _ _ Hr) in Hw'.
    assert (w' = w) by congruence. subst w'.
    by rewrite H', set_tg_type_twice.
Qed.

Lemma plain_step_refl s : plain_step s s.
Proof. split; [apply retyped_refl|]. split; [auto|]. intros p x Hp. by left. Qed.

Lemma plain_step_trans s1 s2 s3 : plain_step s1 s2 -> plain_step s2 s3 -> plain_step s1 s3.
Proof.
  intros (R1 & S1 & O1) (R2 & S2 & O2). split; [eapply retyped_trans; eauto|]. split.
  - intros e He Hs. apply S2; [eapply plain_entry_retyped; eauto|auto].
  - eapply only_resolved_trans; eauto.
Qed.

Lemma tag__recode_dwarf_type_plain fuel e s :
  plain_entry s e ->
  exists s', tag__recode_dwarf_type fuel e s = Ret 0 s' /\ plain_step s s' /\
             plain_settled s' e.
Proof.
  intros (t & dtag & raw & v & Ht & Hk & Hp & Hraw & Hn & Hv).
  rewrite (tag__recode_dwarf_type_lookup fuel e s t dtag raw) by assumption.
  rewrite Hv. destruct v as [v|].
  - exists (with_type_of e v s). split; [reflexivity|].
    pose proof (retyped_with_type_of e v s) as Hr.
    assert (Hset : plain_settled (with_type_of e v s) e).
    { exists (set_tg_type v t), dtag, raw. split; [by apply with_type_of_lookup|].
      split_and!; auto. intros w Hw.
      rewrite (plain_target_retyped s _ raw (Some v) Hr Hv) in Hw.
      by injection Hw as <-. }
    split; [split; [exact Hr|split]|exact Hset].
    + intros e' He' (t' & dtag' & raw' & Ht' & Hp' & Hraw' & Hty).
      destruct (decide (e' = e)) as [->|Hne]; [exact Hset|].
      exists t', dtag', raw'. unfold with_type_of. cbn [obstack dcu_obstack set_obstack].
      rewrite list_lookup_alter_ne by congruence. split_and!; auto.
      intros w Hw. apply Hty. eapply plain_target_retyped_inv; eauto.
    + intros p x Hx. unfold with_type_of. cbn [obstack set_obstack].
      destruct (decide (p = e)) as [->|Hne].
      * right. exists dtag, raw, v. assert (x = t) by congruence. subst x.
        split_and!; auto. by rewrite list_lookup_alter_eq, Ht.
      * left. by rewrite list_lookup_alter_ne by congruence.
  - eexists. split; [reflexivity|].
    match goal with |- plain_step s (set_stderr (stderr s ++ ?d) s) /\ _ =>
      pose proof (retyped_stderr d s) as Hr end.
    assert (Hkeep : forall e', plain_settled s e' -> plain_settled (set_stderr
              (stderr s ++ [Diag_type_not_found "tag__recode_dwarf_type"
                              (dt_type raw) (dt_id raw) (tg_tag t)]) s) e').
    { intros e' (t' & dtag' & raw' & Ht' & Hp' & Hraw' & Hty).
      exists t', dtag', raw'. split_and!; auto.
      intros w Hw. apply Hty. eapply plain_target_retyped_inv; eauto. }
    split; [split; [exact Hr|split; [auto|intros p x Hx; by left]]|].
    apply Hkeep. exists t, dtag, raw. split_and!; auto. rewrite Hv. discriminate.
Qed.

Lemma retyped_entries pt s s' : retyped s s' -> entries pt s' = entries pt s.
Proof. intros (_ & _ & _ & H1 & H2 & H3 & _). by destruct pt. Qed.

Lemma cu__recode_dwarf_types_table_plain pt n : forall i s fuel,
  plain_cu s -> (length (entries pt s) <= i + n)%nat -> (n + 1 <= fuel)%nat ->
  exists s',
    cu__recode_dwarf_types_table fuel pt i s = Ret 0 s' /\ plain_step s s' /\
    forall j e, (i <= j)%nat -> entries pt s !! j = Some (Some e) -> plain_settled s' e.
Proof.
  induction n as [|n IH]; intros i s fuel Hcu Hlen Hfuel.
  - destruct fuel as [|fuel]; [lia|].
    cbn [cu__recode_dwarf_types_table]. run_to_update.
    rewrite (proj2 (lookup_ge_None _ _)) by lia.
    exists s. split; [reflexivity|]. split; [apply plain_step_refl|].
    intros j e Hj Hje. apply lookup_lt_Some in Hje. lia.
  - destruct fuel as [|fuel]; [lia|].
    cbn [cu__recode_dwarf_types_table]. run_to_update.
    destruct (entries pt s !! i) as [[e|]|] eqn:Hi.
    + destruct (tag__recode_dwarf_type_plain fuel e s (Hcu pt i e Hi))
        as (s1 & Hstep & (Hr & Hkeep & Honly) & Hset).
      rewrite Hstep. cbn [negb Z.eqb].
      destruct (IH (S i) s1 fuel) as (s2 & Hrun & (Hr2 & Hkeep2 & Honly2) & Hall).
      * eapply plain_cu_retyped; eauto.
      * rewrite (retyped_entries pt s s1 Hr). lia.
      * lia.
      * exists s2. split; [exact Hrun|]. split.
        { apply (plain_step_trans s s1 s2); split_and!; auto. }
        intros j e' Hj Hje. destruct (decide (j = i)) as [->|Hne].
        -- assert (e' = e) by congruence. subst e'.
           apply Hkeep2; [|exact Hset]. eapply plain_entry_retyped; eauto.
        -- apply (Hall j); [lia|]. by rewrite (retyped_entries pt s s1 Hr).
    + destruct (IH (S i) s fuel) as (s2 & Hrun & Hstep & Hall); auto; try lia.
      exists s2. split; [exact Hrun|]. split; [exact Hstep|].
      intros j e' Hj Hje. destruct (decide (j = i)) as [->|Hne]; [congruence|].
      apply (Hall j); [lia|exact Hje].
    + exists s. split; [reflexivity|]. split; [apply plain_step_refl|].
      intros j e Hj Hje. apply lookup_lt_Some in Hje.
      apply lookup_ge_None in Hi. lia.
Qed.

Lemma cu__recode_dwarf_types_plain_run fuel s :
  plain_cu s ->
  (length (types_table s) + length (tags_table s) + length (functions_table s) + 1
   <= fuel)%nat ->
  exists s1,
    cu__recode_dwarf_types fuel s = Ret 0 s1 /\ plain_step s s1 /\
    forall pt i e,
      (first_entry pt <= i)%nat -> entries pt s !! i = Some (Some e) -> plain_settled s1 e.
Proof.
  intros Hcu Hfuel. unfold cu__recode_dwarf_types. run_to_update.
  destruct (cu__recode_dwarf_types_table_plain Types_table (length (types_table s)) 1 s fuel)
    as (sA & HA & HstepA & HallA); auto; try (cbn [entries]; lia).
  rewrite HA. cbn [negb Z.eqb]. pose proof HstepA as (HrA & HkA & _).
  pose proof (plain_cu_retyped _ _ HrA Hcu) as HcuA.
  destruct (cu__recode_dwarf_types_table_plain Tags_table (length (tags_table s)) 0 sA fuel)
    as (sB & HB & HstepB & HallB); auto;
    try (rewrite (retyped_entries _ _ _ HrA); cbn [entries]; lia); try lia.
  rewrite HB. cbn [negb Z.eqb]. pose proof HstepB as (HrB & HkB & _).
  pose proof (plain_cu_retyped _ _ HrB HcuA) as HcuB.
  pose proof (retyped_trans _ _ _ HrA HrB) as HrAB.
  destruct (cu__recode_dwarf_types_table_plain Functions_table
              (length (functions_table s)) 0 sB fuel)
    as (sC & HC & HstepC & HallC); auto;
    try (rewrite (retyped_entries _ _ _ HrAB); cbn [entries]; lia); try lia.
  rewrite HC. cbn [negb Z.eqb]. pose proof HstepC as (HrC & HkC & _).
  exists sC. split; [reflexivity|].
  split; [eapply plain_step_trans; [eapply plain_step_trans|]; eauto|].
  intros pt i e Hfirst Hi. destruct pt; cbn [first_entry] in Hfirst.
  - apply HkC; [eapply plain_entry_retyped; [exact HrB|]; eapply HcuA;
                rewrite (retyped_entries Types_table _ _ HrA); exact Hi|].
    apply HkB; [eapply HcuA; rewrite (retyped_entries Types_table _ _ HrA); exact Hi|].
    apply (HallA i); auto.
  - apply HkC; [eapply HcuB; rewrite (retyped_entries Tags_table _ _ HrAB); exact Hi|].
    apply (HallB i); [lia|]. by rewrite (retyped_entries Tags_table _ _ HrA).
  - apply (HallC i); [lia|]. by rewrite (retyped_entries Functions_table _ _ HrAB).
Qed.

(** X18. On a CU whose table entries are all plain references, the
    look-ups of their DW_AT_type having a result, the resolver returns
    0 when it has fuel for the tables. It changes nothing but the
    types of objects and the diagnostics; afterwards every entry that
    it visits has the type that its look-up gives, and no object has
    been given a type but the one its own look-up gives. *)
Theorem cu__recode_dwarf_types_plain (fuel : nat) (s : cu) :
  plain_cu s ->
  (length (types_table s) + length (tags_table s) + length (functions_table s) + 1
   <= fuel)%nat ->
  exists s1,
    cu__recode_dwarf_types fuel s = Ret 0 s1 /\ retyped s s1 /\ only_resolved s s1 /\
    forall pt i e,
      (first_entry pt <= i)%nat -> entries pt s !! i = Some (Some e) -> plain_settled s1 e.
Proof.
  intros Hcu Hfuel.
  destruct (cu__recode_dwarf_types_plain_run fuel s Hcu Hfuel) as (s1 & Hrun & (Hr & _ & Ho) & H).
  exists s1. auto.
Qed.

(** ** Units of plain types *)

Lemma __die__process_tag_plain fuel die top_level fn :
  plain_type_kind (dwarf_tag die) = true ->
  __die__process_tag (S fuel) die top_level fn =
    (tag ← plain_builder die;
     match tag with
     | Some p => _ ← update_tag p (set_tg_top_level top_level); mret tag
     | None => mret None
     end).
Proof.
  unfold plain_type_kind, plain_builder. rewrite !orb_true_iff, !Z.eqb_eq.
  intros [[[[[H|H]|H]|H]|H]|H]; cbn [__die__process_tag]; rewrite H; reflexivity.
Qed.

Lemma type__new_raw die s m :
  mem s = S (S m) ->
  type__new die s =
    Ret (Some (length (obstack s)))
      (set_stderr (stderr s ++ (snd (attr_numeric die DW.AT_byte_size)
                                ++ snd (attr_numeric die DW.AT_declaration)))
         (with_new_tag
            (mkTag 0 (dwarf_tag die) false 0 (Some (length (dcu_obstack s)))
               (B_type (mkNamespace (strings__add (attr_string die DW.AT_name)) 0 0 false
                                    (LH_entries []))
                       (mkType (to_type_size (fst (attr_numeric die DW.AT_byte_size)))
                               (fst (attr_numeric die DW.AT_declaration))
                               false false false 0)))
            (set_dt_spec (Some (attr_type die DW.AT_specification))
               (init_raw (extra_dbg_info s) die
                  (mkDwarfTag 0 0 0 (length (obstack s)) 0 0 0 (Some 0))))
            m s)).
Proof.
  intros Hm. unfold type__new, tag__alloc_with_spec, type__init.
  destruct (namespace__init_fresh (B_type blank_namespace blank_type) true die s m _ Hm eq_refl)
    as (s1 & Ha & Hi).
  erewrite M_bind_ret by exact Ha. cbv beta iota.
  erewrite M_bind_ret; cycle 1.
  { erewrite M_bind_ret by exact Hi.
    unfold with_new_tag, dwarf_tag__set_spec, init_raw. run.
    cbn [dt_spec]. run. cbn [with_type]. run. reflexivity. }
  unfold with_new_tag, init_raw. cbn [set_dt_spec]. run.
  rewrite <- app_assoc. destruct s; reflexivity.
Qed.


Lemma plain_builder_spec die s m :
  plain_type_kind (dwarf_tag die) = true -> mem s = S (S m) ->
  exists t raw diags,
    plain_builder die s =
      Ret (Some (length (obstack s)))
          (set_stderr (stderr s ++ diags) (with_new_tag t raw m s)) /\
    tg_tag t = dwarf_tag die /\ tg_priv t = Some (length (dcu_obstack s)) /\
    tg_type t = 0 /\
    dt_id raw = dwarf_dieoffset die /\ dt_type raw = attr_type die DW.AT_type /\
    dt_tag raw = length (obstack s) /\
    (plain_named die -> named_or_unspecified t raw).
Proof.
  intros Hk Hm. unfold plain_builder.
  assert (Himp : (dwarf_tag die =? DW.TAG_imported_module)
                 || (dwarf_tag die =? DW.TAG_imported_declaration) = false).
  { revert Hk. unfold plain_type_kind. rewrite !orb_true_iff, !Z.eqb_eq.
    intros [[[[[H|H]|H]|H]|H]|H]; rewrite H; reflexivity. }
  destruct (dwarf_tag die =? DW.TAG_base_type) eqn:Hbase;
    [|destruct (dwarf_tag die =? DW.TAG_typedef) eqn:Htypedef].
  - unfold die__create_new_base_type, base_type__new, tag__alloc.
    destruct (tag__init_fresh (B_base_type (mkBaseType 0 0 false false false false)) false
                die s m Hm) as (s1 & Ha & Hi).
    erewrite M_bind_ret; cycle 1.
    { erewrite M_bind_ret by exact Ha. cbv beta iota.
      erewrite M_bind_ret by exact Hi. unfold with_new_tag. run. reflexivity. }
    cbv beta iota.
    exists (mkTag 0 (dwarf_tag die) false 0 (Some (length (dcu_obstack s)))
              (B_base_type
                 (mkBaseType (strings__add (attr_string die DW.AT_name))
                    (u64 (fst (attr_numeric die DW.AT_byte_size) * 8))
                    (fst (attr_numeric die DW.AT_encoding) =? DW.ATE_boolean)
                    (fst (attr_numeric die DW.AT_encoding) =? DW.ATE_signed) false true))),
      (init_raw (extra_dbg_info s) die (mkDwarfTag 0 0 0 (length (obstack s)) 0 0 0 None)),
      (snd (attr_numeric die DW.AT_byte_size) ++ snd (attr_numeric die DW.AT_encoding)
                   ++ if dwarf_haschildren die
                      then [Diag_with_children "die__create_new_base_type" DW.TAG_base_type]
                      else []).
    split.
    { destruct (dwarf_haschildren die); run; unfold with_new_tag; cbn [set_mem set_dcu_obstack set_obstack set_stderr stderr];
        rewrite <- ?app_assoc, ?app_nil_r; destruct s; reflexivity. }
    unfold init_raw. rewrite Himp. cbn. split_and!; try reflexivity.
    intros _ Hty. apply Z.eqb_eq in Hbase. rewrite Hbase in Hty. discriminate.
  - unfold die__create_new_typedef.
    erewrite M_bind_ret by (by apply type__new_raw). cbv beta iota.
    eexists _, _, (snd (attr_numeric die DW.AT_byte_size)
                   ++ snd (attr_numeric die DW.AT_declaration)
                   ++ if dwarf_haschildren die
                      then [Diag_with_children "die__create_new_typedef" DW.TAG_typedef]
                      else []).
    split.
    { destruct (dwarf_haschildren die); run; unfold with_new_tag; cbn [set_mem set_dcu_obstack set_obstack set_stderr stderr];
        rewrite <- ?app_assoc, ?app_nil_r; destruct s; reflexivity. }
    unfold init_raw. rewrite Himp. cbn. split_and!; try reflexivity.
    intros Hnamed _. apply Z.eqb_eq in Htypedef.
    eexists _, _. split; [reflexivity|]. split; [reflexivity|]. cbn. auto.
  - unfold die__create_new_tag, tag__new, tag__alloc.
    destruct (tag__init_fresh B_tag false die s m Hm) as (s1 & Ha & Hi).
    erewrite M_bind_ret; cycle 1.
    { erewrite M_bind_ret by exact Ha. cbv beta iota.
      erewrite M_bind_ret by exact Hi. reflexivity. }
    cbv beta iota.
    exists (mkTag 0 (dwarf_tag die) false 0 (Some (length (dcu_obstack s))) B_tag),
      (init_raw (extra_dbg_info s) die (mkDwarfTag 0 0 0 (length (obstack s)) 0 0 0 None)),
      (if dwarf_haschildren die
       then [Diag_with_children "die__create_new_tag" (dwarf_tag die)] else []).
    split.
    { unfold with_new_tag. run.
      destruct (dwarf_haschildren die); run;
        rewrite ?app_nil_r; destruct s; reflexivity. }
    unfold init_raw. rewrite Himp. cbn. split_and!; try reflexivity.
    intros _ Hty. exfalso. revert Hk Hty. unfold plain_type_kind, tag__is_type, tag__is_union,
      tag__is_struct, tag__is_typedef, tag__is_enumeration.
    rewrite Hbase, Htypedef. rewrite !orb_true_iff, !Z.eqb_eq.
    intros [[[[[H|H]|H]|H]|H]|H]; try discriminate; rewrite H; cbn; intuition discriminate.
Qed.

Lemma plain_type_kind_is_tag_type k : plain_type_kind k = true -> tag__is_tag_type k = true.
Proof.
  unfold plain_type_kind. rewrite !orb_true_iff, !Z.eqb_eq.
  intros [[[[[H|H]|H]|H]|H]|H]; rewrite H; reflexivity.
Qed.

Lemma plain_type_kind_lookup_kind k : plain_type_kind k = true -> lookup_kind k = true.
Proof.
  unfold plain_type_kind. rewrite !orb_true_iff, !Z.eqb_eq.
  intros [[[[[H|H]|H]|H]|H]|H]; rewrite H; reflexivity.
Qed.

Lemma named_or_unspecified_top_level v t raw :
  named_or_unspecified t raw -> named_or_unspecified (set_tg_top_level v t) raw.
Proof. destruct t; exact id. Qed.

Lemma named_or_unspecified_small_id v t raw :
  named_or_unspecified t raw -> named_or_unspecified t (set_dt_small_id v raw).
Proof. destruct raw; exact id. Qed.

Lemma plain_unit_step fuel die s m :
  plain_type_kind (dwarf_tag die) = true -> mem s = S (S (S m)) ->
  exists t raw diags,
    die__process_unit (S fuel) [die] s =
      Ret 0 (entered t raw diags m
               (hashtags__hash (hash_types s) (length (dcu_obstack s)) (dwarf_dieoffset die))
               s) /\
    tg_tag t = dwarf_tag die /\ tg_priv t = Some (length (dcu_obstack s)) /\
    tg_type t = 0 /\
    dt_id raw = dwarf_dieoffset die /\ dt_type raw = attr_type die DW.AT_type /\
    dt_small_id raw = u16 (Z.of_nat (length (types_table s))) /\
    (plain_named die -> named_or_unspecified t raw).
Proof.
  intros Hk Hm.
  destruct (plain_builder_spec die s (S m) Hk Hm)
    as (t & raw & diags & Hbuild & Htag & Hpriv & Hty & Hid & Htype & Hdtag & Hnamed).
  exists (set_tg_top_level true t), (set_dt_small_id (u16 (Z.of_nat (length (types_table s)))) raw),
    diags.
  split.
  - cbn [die__process_unit]. rewrite __die__process_tag_plain by exact Hk.
    erewrite M_bind_ret; cycle 1.
    { erewrite M_bind_ret by exact Hbuild. cbv beta iota. unfold with_new_tag. run.
      reflexivity. }
    cbv beta iota. unfold cu__add_tag, cu__table_add_tag, hash_and_number, cu__hash.
    run. cbn [set_tg_tag tg_tag set_tg_top_level]. rewrite Htag.
    rewrite (plain_type_kind_is_tag_type _ Hk). run.
    cbn [tg_priv set_tg_top_level]. rewrite Hpriv. run.
    cbn [tg_tag set_tg_top_level]. rewrite Htag, (plain_type_kind_is_tag_type _ Hk). run.
    cbn [set_hash_types obstack dcu_obstack tg_priv set_tg_top_level]. run.
    cbn [tg_priv set_tg_top_level]. rewrite Hpriv. run.
    cbn [set_hash_types obstack dcu_obstack hash_types set_mem set_types_table
         set_dcu_obstack set_obstack set_stderr].
    run. rewrite Hid. unfold entered.
    repeat (progress (cbn [obstack types_table tags_table functions_table language
             extra_dbg_info has_addr_info hash_tags hash_types dcu_obstack stderr
             tags_warned mem set_obstack set_types_table set_tags_table
             set_functions_table set_language set_hash_tags set_hash_types
             set_dcu_obstack set_stderr set_tags_warned set_mem];
           rewrite ?lookup_snoc, ?insert_snoc)).
    reflexivity.
  - destruct t, raw; cbn in *. split_and!; auto.
Qed.


Lemma find_offset_from_snoc id d ds : forall i,
  find_offset_from i id (ds ++ [d]) =
    if dwarf_dieoffset d =? id then Some (i + length ds)%nat else find_offset_from i id ds.
Proof.
  induction ds as [|d0 ds IH]; intros i; cbn [app find_offset_from length].
  - rewrite Nat.add_0_r. reflexivity.
  - rewrite IH. destruct (dwarf_dieoffset d =? id); [f_equal; lia|reflexivity].
Qed.

Lemma hashtags__find_in_app chain id raw : forall s s' r,
  dcu_obstack s' = dcu_obstack s ++ [raw] ->
  hashtags__find_in chain id s = Ret r s ->
  hashtags__find_in chain id s' = Ret r s'.
Proof.
  induction chain as [|tpos chain IH]; intros s s' r Hd.
  - cbn. intros [= <-]. reflexivity.
  - cbn [hashtags__find_in]. run. rewrite Hd.
    destruct (dcu_obstack s !! tpos) as [d|] eqn:E; [|discriminate].
    rewrite (lookup_app_l_Some _ _ _ _ E).
    destruct (dt_id d =? id).
    + intros [= <-]. reflexivity.
    + apply IH. exact Hd.
Qed.

Lemma find_entered t raw diags m s id ds :
  (forall id, dwarf_cu__find_type_by_id id s = Ret (find_offset id ds) s) ->
  length (dcu_obstack s) = length ds ->
  0 <= hashtags__fn (dt_id raw) < 2 ^ HASHTAGS__BITS ->
  forall d, dwarf_dieoffset d = dt_id raw ->
  dwarf_cu__find_type_by_id id
    (entered t raw diags m
       (hashtags__hash (hash_types s) (length (dcu_obstack s)) (dt_id raw)) s)
  = Ret (find_offset id (ds ++ [d]))
        (entered t raw diags m
           (hashtags__hash (hash_types s) (length (dcu_obstack s)) (dt_id raw)) s).
Proof.
  intros Hfind Hlen Hrange d Hd. specialize (Hfind id). revert Hfind.
  unfold dwarf_cu__find_type_by_id, hashtags__find, find_offset, entered, hashtags__hash.
  run. cbn [hash_types]. destruct (id =? 0) eqn:Hid; [reflexivity|].
  rewrite find_offset_from_snoc, Hd. cbn [Nat.add].
  assert (Hu : u16 (hashtags__fn (dt_id raw)) = hashtags__fn (dt_id raw)).
  { unfold u16. apply Z.mod_small. unfold HASHTAGS__BITS in Hrange. lia. }
  set (s' := mkCu _ _ _ _ _ _ _ _ _ _ _ _ _).
  assert (Hs' : dcu_obstack s' = dcu_obstack s ++ [raw]) by reflexivity.
  destruct (dt_id raw =? id) eqn:E.
  - apply Z.eqb_eq in E. subst id. rewrite Hu, hlist_head_add_eq.
    intros _. cbn [hashtags__find_in]. run. rewrite Hs', lookup_snoc.
    rewrite Z.eqb_refl, Hlen. reflexivity.
  - destruct (decide (u16 (hashtags__fn id) = hashtags__fn (dt_id raw))) as [Hb|Hb].
    + rewrite Hb, hlist_head_add_eq. intros Hold. cbn [hashtags__find_in]. run.
      rewrite Hs', lookup_snoc, E. eapply hashtags__find_in_app; eauto.
    + rewrite hlist_head_add_ne by exact Hb. intros Hold.
      eapply hashtags__find_in_app; eauto.
Qed.

Lemma unit_built_step t raw diags m s ds d :
  unit_built ds s ->
  tg_tag t = dwarf_tag d -> tg_priv t = Some (length (dcu_obstack s)) -> tg_type t = 0 ->
  dt_id raw = dwarf_dieoffset d -> dt_type raw = attr_type d DW.AT_type ->
  dt_small_id raw = u16 (Z.of_nat (length (types_table s))) ->
  named_or_unspecified t raw ->
  0 <= hashtags__fn (dwarf_dieoffset d) < 2 ^ HASHTAGS__BITS ->
  unit_built (ds ++ [d])
    (entered t raw diags m
       (hashtags__hash (hash_types s) (length (dcu_obstack s)) (dwarf_dieoffset d)) s).
Proof.
  intros (Hlo & Hld & Htt & Htags & Hfns & Hobjs & Hfind) Htag Hpriv Hty Hid Htype Hsmall
    Hnamed Hrange.
  unfold unit_built, entered at 1 2 3 4 5 6 7.
  cbn [obstack dcu_obstack types_table tags_table functions_table].
  rewrite !length_app, Hlo, Hld, Htt. cbn [length].
  split_and!; try lia; auto.
  - replace (length ds + 1)%nat with (S (length ds)) by lia.
    rewrite seq_S, fmap_app. reflexivity.
  - intros i d' Hi. destruct (decide (i < length ds)%nat) as [Hlt|Hge].
    + rewrite lookup_app_l in Hi by lia.
      destruct (Hobjs i d' Hi) as (t' & raw' & Ht' & ? & ? & ? & Hraw' & ? & ? & ?).
      exists t', raw'.
      rewrite (lookup_app_l_Some _ _ _ _ Ht'), (lookup_app_l_Some _ _ _ _ Hraw').
      split_and!; auto.
    + pose proof (lookup_lt_Some _ _ _ Hi) as Hlt. rewrite length_app in Hlt. cbn in Hlt.
      assert (i = length ds) by lia. subst i.
      rewrite list_lookup_middle in Hi by reflexivity. injection Hi as <-.
      exists t, raw. rewrite <- Hlo at 1. rewrite lookup_snoc.
      rewrite <- Hld at 2. rewrite lookup_snoc.
      rewrite Htt in Hsmall. cbn [length] in Hsmall. rewrite length_fmap, length_seq in Hsmall.
      rewrite Hld in Hpriv. split_and!; auto.
  - intros id. rewrite <- Hid, <- Hld. apply find_entered; auto. by rewrite Hid.
Qed.


Lemma unit_built_blank s : blank_cu s -> unit_built [] s.
Proof.
  intros (Ho & Hd & Ht & Htags & Hfns & Hh). unfold unit_built.
  rewrite Ho, Hd, Ht, Htags, Hfns. split_and!; auto.
  - intros i d Hi. by rewrite lookup_nil in Hi.
  - intros id. unfold dwarf_cu__find_type_by_id, hashtags__find, find_offset. run.
    rewrite Hh. destruct (id =? 0); reflexivity.
Qed.

Lemma die__process_unit_plain fuel ds2 : forall ds1 s,
  unit_built ds1 s -> Forall plain_die ds2 -> (3 * length ds2 <= mem s)%nat ->
  exists s',
    die__process_unit (S fuel) ds2 s = Ret 0 s' /\ unit_built (ds1 ++ ds2) s'.
Proof.
  induction ds2 as [|d ds2 IH]; intros ds1 s Hbuilt Hall Hmem.
  - exists s. rewrite app_nil_r. split; [reflexivity|exact Hbuilt].
  - apply Forall_cons in Hall as [(Hk & Hnamed & Hrange) Hall]. cbn [length] in Hmem.
    destruct (mem s) as [|[|[|m]]] eqn:Hm; try lia.
    destruct (plain_unit_step fuel d s m Hk Hm)
      as (t & raw & diags & Hstep & Htag & Hpriv & Hty & Hid & Htype & Hsmall & Hn).
    change (d :: ds2) with ([d] ++ ds2).
    rewrite die__process_unit_app, Hstep. cbn [Z.eqb].
    destruct (IH (ds1 ++ [d])
                (entered t raw diags m
                   (hashtags__hash (hash_types s) (length (dcu_obstack s)) (dwarf_dieoffset d))
                   s)) as (s' & Hrun & Hbuilt').
    + apply unit_built_step; auto.
    + exact Hall.
    + cbn [mem entered]. lia.
    + exists s'. rewrite <- app_assoc in Hbuilt'. split; [exact Hrun|exact Hbuilt'].
Qed.

Lemma find_offset_from_Some id ds : forall i j,
  find_offset_from i id ds = Some j ->
  (i <= j < i + length ds)%nat.
Proof.
  induction ds as [|d ds IH]; intros i j; cbn [find_offset_from length]; [discriminate|].
  destruct (find_offset_from (S i) id ds) as [k|] eqn:E.
  - intros [= <-]. apply IH in E. lia.
  - destruct (dwarf_dieoffset d =? id); [|discriminate]. intros [= <-]. lia.
Qed.

Lemma find_offset_Some id ds j : find_offset id ds = Some j -> (j < length ds)%nat.
Proof.
  unfold find_offset. destruct (id =? 0); [discriminate|].
  intros H. apply find_offset_from_Some in H. lia.
Qed.

(** What the look-up of a raw record's type gives on a built unit. *)
Lemma plain_target_built ds s raw :
  unit_built ds s -> Z.of_nat (length ds) < 2 ^ 16 - 1 ->
  plain_target s raw =
    Ret (Some match find_offset (dt_type raw) ds with
              | Some j => Z.of_nat (S j)
              | None => 0
              end) s \/
  (dt_type raw <> 0 /\ find_offset (dt_type raw) ds = None /\ plain_target s raw = Ret None s).
Proof.
  intros (Hlo & Hld & Htt & Htags & Hfns & Hobjs & Hfind) Hsize.
  unfold plain_target. destruct (dt_type raw =? 0) eqn:E.
  - left. apply Z.eqb_eq in E. rewrite E. reflexivity.
  - rewrite Hfind. destruct (find_offset (dt_type raw) ds) as [j|] eqn:Hj.
    + left. pose proof (find_offset_Some _ _ _ Hj) as Hlt.
      destruct (lookup_lt_is_Some_2 ds j Hlt) as [d Hd].
      destruct (Hobjs j d Hd) as (t' & raw' & _ & _ & _ & _ & Hraw' & _ & Hsmall & _).
      rewrite Hraw', Hsmall. unfold u16. rewrite Z.mod_small by lia. reflexivity.
    + right. apply Z.eqb_neq in E. auto.
Qed.

Lemma unit_built_plain_cu ds s :
  unit_built ds s -> Forall plain_die ds -> Z.of_nat (length ds) < 2 ^ 16 - 1 ->
  plain_cu s.
Proof.
  intros Hbuilt Hall Hsize pt i e Hi.
  pose proof Hbuilt as (Hlo & Hld & Htt & Htags & Hfns & Hobjs & Hfind).
  destruct pt; cbn [entries] in Hi; [|by rewrite Htags in Hi|by rewrite Hfns in Hi].
  rewrite Htt in Hi. destruct i as [|i]; [discriminate|].
  change ((Some <$> seq 0 (length ds)) !! i = Some (Some e)) in Hi.
  rewrite list_lookup_fmap in Hi.
  destruct (seq 0 (length ds) !! i) as [k|] eqn:Hk; [|discriminate].
  injection Hi as <-. apply lookup_seq in Hk as [-> Hlt]. cbn [Nat.add].
  destruct (lookup_lt_is_Some_2 ds i Hlt) as [d Hd].
  destruct (Hobjs i d Hd) as (t & raw & Ht & Htag & Hpriv & Hty & Hraw & Htype & Hsmall & Hn).
  rewrite Forall_forall in Hall.
  destruct (Hall d (list_elem_of_lookup_2 _ _ _ Hd)) as (Hkind & _).
  destruct (plain_target_built ds s raw Hbuilt Hsize) as [H|(_ & _ & H)];
    eexists t, i, raw, _; (split_and!; [exact Ht| |exact Hpriv|exact Hraw|exact Hn|exact H]);
    rewrite Htag; by apply plain_type_kind_lookup_kind.
Qed.

Lemma unit_built_frame ds s s' :
  obstack s' = obstack s -> dcu_obstack s' = dcu_obstack s ->
  types_table s' = types_table s -> tags_table s' = tags_table s ->
  functions_table s' = functions_table s -> hash_types s' = hash_types s ->
  unit_built ds s -> unit_built ds s'.
Proof.
  intros Ho Hd Ht Htags Hfns Hh (Hlo & Hld & Htt & Htg & Hfn & Hobjs & Hfind).
  unfold unit_built. rewrite Ho, Hd, Ht, Htags, Hfns. split_and!; auto.
  intros id. eapply dwarf_cu__find_type_by_id_frame; eauto.
Qed.

Lemma blank_cu_frame s s' :
  obstack s' = obstack s -> dcu_obstack s' = dcu_obstack s ->
  types_table s' = types_table s -> tags_table s' = tags_table s ->
  functions_table s' = functions_table s -> hash_types s' = hash_types s ->
  blank_cu s -> blank_cu s'.
Proof. unfold blank_cu. intros -> -> -> -> -> ->. auto. Qed.

(** X19. A compile unit whose children are all plain types (base
    types, pointers, references, const, volatile, typedefs), loaded
    into a blank CU with three allocations per child, fewer than
    2^16 - 1 children, and fuel for the tables: [die__process] returns
    0; the types table holds, behind the void entry, one object per
    child in the order of the DIEs; and the type of each object is the
    index, in that table, of the object built from the DIE that its
    DW_AT_type names (the last child with that offset), and 0, the void
    entry, when it has no DW_AT_type or the offset is that of no
    child. *)
Theorem die__process_plain_unit (fuel : nat) (die : Dwarf_Die) (sibs : list Dwarf_Die)
    (s : cu) :
  u16 (dwarf_tag die) = DW.TAG_compile_unit ->
  Forall plain_die (dwarf_children die) ->
  blank_cu s ->
  (3 * length (dwarf_children die) <= mem s)%nat ->
  Z.of_nat (length (dwarf_children die)) < 2 ^ 16 - 1 ->
  (length (dwarf_children die) + 2 <= fuel)%nat ->
  exists s',
    die__process fuel die sibs s = Ret 0 s' /\
    types_table s' = None :: (Some <$> seq 0 (length (dwarf_children die))) /\
    tags_table s' = [] /\ functions_table s' = [] /\
    forall i d, dwarf_children die !! i = Some d ->
      exists t,
        obstack s' !! i = Some t /\ tg_tag t = dwarf_tag d /\
        tg_type t = match find_offset (attr_type d DW.AT_type) (dwarf_children die) with
                    | Some j => Z.of_nat (S j)
                    | None => 0
                    end.
Proof.
  intros Hcu Hall Hblank Hmem Hsize Hfuel.
  destruct fuel as [|fuel]; [lia|].
  unfold die__process. cbv zeta. rewrite Hcu. cbn [Z.eqb Pos.eqb negb DW.TAG_compile_unit].
  erewrite M_bind_ret by reflexivity. cbv beta iota.
  erewrite M_bind_ret by reflexivity. cbv beta iota.
  match goal with |- context [set_language ?l ?st] => set (s0 := set_language l st) end.
  assert (Hblank0 : blank_cu s0)
    by (eapply blank_cu_frame; [| | | | | |exact Hblank]; reflexivity).
  assert (Hmem0 : mem s0 = mem s) by reflexivity.
  assert (Hunit : exists s1,
            match dwarf_child die with
            | Some (child, children) => die__process_unit (S fuel) (child :: children)
            | None => mret 0
            end s0 = Ret 0 s1 /\ unit_built (dwarf_children die) s1).
  { unfold dwarf_children in *. destruct (dwarf_child die) as [[child children]|].
    - cbn [length] in *.
      destruct (die__process_unit_plain fuel (child :: children) [] s0) as (s1 & H1 & H2).
      + by apply unit_built_blank.
      + exact Hall.
      + rewrite Hmem0. cbn [length]. lia.
      + exists s1. split; [exact H1|exact H2].
    - exists s0. split; [reflexivity|by apply unit_built_blank]. }
  destruct Hunit as (s1 & Hrun1 & Hbuilt1).
  unfold mbind at 1, M_bind at 1. rewrite Hrun1. cbn [Z.eqb negb].
  set (k := match sibs with [] => _ | _ :: _ => _ end).
  assert (Hk : exists s2, k s1 = Ret tt s2 /\ unit_built (dwarf_children die) s2).
  { subst k. destruct sibs.
    - exists s1. split; [reflexivity|exact Hbuilt1].
    - eexists. split; [reflexivity|].
      eapply unit_built_frame; [| | | | | |exact Hbuilt1]; reflexivity. }
  destruct Hk as (s2 & Hrun2 & Hbuilt2).
  unfold mbind, M_bind. rewrite Hrun2.
  pose proof (unit_built_plain_cu _ _ Hbuilt2 Hall Hsize) as Hplain.
  pose proof Hbuilt2 as (Hlo & Hld & Htt & Htags & Hfns & Hobjs & Hfind).
  destruct (cu__recode_dwarf_types_plain_run (S fuel) s2 Hplain)
    as (s3 & Hrun3 & (Hr & _ & Honly) & Hsettled).
  { rewrite Htt, Htags, Hfns. cbn [length]. rewrite length_fmap, length_seq. lia. }
  exists s3. split; [exact Hrun3|].
  pose proof Hr as (Hd3 & _ & _ & Htt3 & Htags3 & Hfns3 & _).
  rewrite Htt3, Htags3, Hfns3. split_and!; auto.
  intros i d Hi.
  destruct (Hobjs i d Hi) as (t & raw & Ht & Htag & Hpriv & Hty & Hraw & Htype & Hsmall & Hn).
  assert (Hentry : entries Types_table s2 !! S i = Some (Some i)).
  { cbn [entries]. rewrite Htt.
    change ((Some <$> seq 0 (length (dwarf_children die))) !! i = Some (Some i)).
    rewrite list_lookup_fmap, lookup_seq_lt by (eapply lookup_lt_Some; eauto). reflexivity. }
  destruct (Hsettled Types_table (S i) i) as (t3 & dtag3 & raw3 & Ht3 & Hpriv3 & Hraw3 & Hv);
    [cbn; lia|exact Hentry|].
  exists t3. split; [exact Ht3|].
  destruct (retyped_lookup _ _ _ _ Hr Ht) as [v Ht3'].
  assert (t3 = set_tg_type v t) by congruence. subst t3.
  split; [destruct t; exact Htag|].
  assert (dtag3 = i) by (destruct t; cbn in *; congruence). subst dtag3.
  rewrite Hd3 in Hraw3. assert (raw3 = raw) by congruence. subst raw3.
  rewrite <- Htype.
  destruct (plain_target_built _ _ raw Hbuilt2 Hsize) as [Hsome|(Hne & Hnone & Hnot)].
  - apply Hv. eapply plain_target_retyped; eauto.
  - rewrite Hnone.
    destruct (Honly i t Ht) as [Hsame|(dtag' & raw' & w & Hp' & Hraw' & Hw' & _)].
    + assert (set_tg_type v t = t) by congruence. 
      replace (tg_type (set_tg_type v t)) with (tg_type t) by congruence. exact Hty.
    + assert (dtag' = i) by congruence. subst dtag'.
      assert (raw' = raw) by congruence. subst raw'. congruence.
Qed.

(** ** A table that cannot grow *)


(** ** Builders and the tables *)

Lemma index_kept_refl s : index_kept s s.
Proof. repeat split. Qed.

Lemma index_kept_trans s1 s2 s3 : index_kept s1 s2 -> index_kept s2 s3 -> index_kept s1 s3.
Proof.
  intros ((A1 & A2 & A3 & A4) & A5 & A6) ((B1 & B2 & B3 & B4) & B5 & B6).
  repeat split; congruence.
Qed.

Lemma tables_kept_trans s1 s2 s3 : tables_kept s1 s2 -> tables_kept s2 s3 -> tables_kept s1 s3.
Proof. intros (A1 & A2 & A3 & A4) (B1 & B2 & B3 & B4). repeat split; congruence. Qed.

Lemma unindexed_ret {A} (a : A) : unindexed (mret a).
Proof. intros s a' s' H; inversion H; subst. apply index_kept_refl. Qed.

Lemma unindexed_bind {A B} (m : M A) (f : A -> M B) :
  unindexed m -> (forall a, unindexed (f a)) -> unindexed (m ≫= f).
Proof.
  intros Hm Hf s b s'. unfold mbind, M_bind.
  destruct (m s) as [a s1| | |] eqn:E; try discriminate.
  intros H. eapply index_kept_trans; [eapply Hm, E|eapply Hf, H].
Qed.

Lemma unindexed_undef {A} : unindexed (@undef A).
Proof. intros s a s'. discriminate. Qed.

Lemma unindexed_get_cu : unindexed get_cu.
Proof. intros s a s' H; inversion H; subst. apply index_kept_refl. Qed.

Lemma unindexed_fprintf_all ds : unindexed (fprintf_all ds).
Proof. intros s a s' H; inversion H; subst. repeat split. Qed.

Lemma unindexed_fprintf_stderr d : unindexed (fprintf_stderr d).
Proof. intros s a s' H; inversion H; subst. repeat split. Qed.

Lemma unindexed_printing r : unindexed (printing r).
Proof.
  unfold printing. apply unindexed_bind; [apply unindexed_fprintf_all|].
  intros; apply unindexed_ret.
Qed.

Lemma unindexed_printing_opt r : unindexed (printing_opt r).
Proof. destruct r; [apply unindexed_printing|apply unindexed_undef]. Qed.

Lemma unindexed_obstack_alloc t : unindexed (obstack_alloc t).
Proof.
  intros s a s'. unfold obstack_alloc.
  destruct (mem s); intros H; inversion H; subst; repeat split.
Qed.

Lemma unindexed_dcu_obstack_alloc d : unindexed (dcu_obstack_alloc d).
Proof.
  intros s a s'. unfold dcu_obstack_alloc.
  destruct (mem s); intros H; inversion H; subst; repeat split.
Qed.

Lemma unindexed_obstack_free p : unindexed (obstack_free p).
Proof. intros s a s' H; inversion H; subst. repeat split. Qed.

Lemma unindexed_load_tag p : unindexed (load_tag p).
Proof.
  intros s a s'. unfold load_tag. destruct (obstack s !! p); [|discriminate].
  intros H; inversion H; subst. apply index_kept_refl.
Qed.

Lemma unindexed_store_tag p t : unindexed (store_tag p t).
Proof.
  intros s a s'. unfold store_tag. destruct (obstack s !! p); [|discriminate].
  intros H; inversion H; subst. repeat split.
Qed.

Lemma unindexed_load_dtag p : unindexed (load_dtag p).
Proof.
  intros s a s'. unfold load_dtag. destruct (dcu_obstack s !! p); [|discriminate].
  intros H; inversion H; subst. apply index_kept_refl.
Qed.

Lemma unindexed_store_dtag p d : unindexed (store_dtag p d).
Proof.
  intros s a s'. unfold store_dtag. destruct (dcu_obstack s !! p); [|discriminate].
  intros H; inversion H; subst. repeat split.
Qed.

Lemma unindexed_memdup src : unindexed (memdup src).
Proof.
  intros s a s'. unfold memdup. destruct (mem s); intros H; inversion H; subst; repeat split.
Qed.

Create HintDb unindexed.
#[local] Hint Resolve unindexed_ret unindexed_undef unindexed_get_cu unindexed_fprintf_all
  unindexed_fprintf_stderr unindexed_printing unindexed_printing_opt unindexed_obstack_alloc
  unindexed_dcu_obstack_alloc unindexed_obstack_free unindexed_load_tag unindexed_store_tag
  unindexed_load_dtag unindexed_store_dtag unindexed_memdup : unindexed.

(** One step through a computation that has no table or hash in it. *)
Ltac unindexed_step :=
  match goal with
  | |- unindexed _ => assumption
  | |- unindexed (mbind _ _) => apply unindexed_bind; [|intros ?]
  | |- unindexed (if ?b then _ else _) => destruct b
  | |- unindexed (match ?x with _ => _ end) => destruct x
  | |- unindexed (let '(_, _) := ?x in _) => destruct x
  | |- unindexed ((fun _ => _) _) => cbv beta
  | |- unindexed _ => solve [auto with unindexed]
  end.

Ltac unindexed_auto := repeat unindexed_step.

Lemma unindexed_update_tag p f : unindexed (update_tag p f).
Proof. unfold update_tag. unindexed_auto. Qed.

Lemma unindexed_update_dtag p f : unindexed (update_dtag p f).
Proof. unfold update_dtag. unindexed_auto. Qed.

Lemma unindexed_tag__priv p : unindexed (tag__priv p).
Proof. unfold tag__priv. unindexed_auto. Qed.

Lemma unindexed_update_body p f : unindexed (update_body p f).
Proof. unfold update_body. unindexed_auto. Qed.

#[local] Hint Resolve unindexed_update_tag unindexed_update_dtag unindexed_tag__priv
  unindexed_update_body : unindexed.

Lemma unindexed_tag__delete p : unindexed (tag__delete p).
Proof. unfold tag__delete. auto with unindexed. Qed.

Lemma unindexed___tag__alloc body spec : unindexed (__tag__alloc body spec).
Proof. unfold __tag__alloc. unindexed_auto. Qed.

Lemma unindexed_tag__init p die : unindexed (tag__init p die).
Proof. unfold tag__init. unindexed_auto. Qed.

Lemma unindexed_dwarf_tag__set_spec dtag spec : unindexed (dwarf_tag__set_spec dtag spec).
Proof. unfold dwarf_tag__set_spec. unindexed_auto. Qed.

#[local] Hint Resolve unindexed_tag__delete unindexed___tag__alloc unindexed_tag__init
  unindexed_dwarf_tag__set_spec : unindexed.

Lemma unindexed_tag__new die : unindexed (tag__new die).
Proof. unfold tag__new, tag__alloc. unindexed_auto. Qed.

Lemma unindexed_namespace__init p die : unindexed (namespace__init p die).
Proof. unfold namespace__init. unindexed_auto. Qed.
#[local] Hint Resolve unindexed_tag__new unindexed_namespace__init : unindexed.

Lemma unindexed_type__init p die : unindexed (type__init p die).
Proof. unfold type__init. unindexed_auto. Qed.
#[local] Hint Resolve unindexed_type__init : unindexed.

Lemma unindexed_type__new die : unindexed (type__new die).
Proof. unfold type__new, tag__alloc_with_spec. unindexed_auto. Qed.

Lemma unindexed_enumerator__new die : unindexed (enumerator__new die).
Proof. unfold enumerator__new, tag__alloc. unindexed_auto. Qed.

Lemma unindexed_class_member__new die : unindexed (class_member__new die).
Proof. unfold class_member__new, tag__alloc. unindexed_auto. Qed.

Lemma unindexed_namespace__add_tag self t : unindexed (namespace__add_tag self t).
Proof. unfold namespace__add_tag. unindexed_auto. Qed.
#[local] Hint Resolve unindexed_type__new unindexed_enumerator__new
  unindexed_class_member__new unindexed_namespace__add_tag : unindexed.

Lemma unindexed_enumeration__add self e : unindexed (enumeration__add self e).
Proof. unfold enumeration__add. unindexed_auto. Qed.

Lemma unindexed_type__add_member self m : unindexed (type__add_member self m).
Proof. unfold type__add_member. unindexed_auto. Qed.

Lemma unindexed___cu__tag_not_handled die fn : unindexed (__cu__tag_not_handled die fn).
Proof. unfold __cu__tag_not_handled. auto with unindexed. Qed.
#[local] Hint Resolve unindexed_enumeration__add unindexed_type__add_member
  unindexed___cu__tag_not_handled : unindexed.

Lemma unindexed_die__create_new_enumeration_loop dies p :
  unindexed (die__create_new_enumeration_loop dies p).
Proof. induction dies; cbn [die__create_new_enumeration_loop]; unindexed_auto. Qed.
#[local] Hint Resolve unindexed_die__create_new_enumeration_loop : unindexed.

Lemma unindexed_die__create_new_array_loop dies : forall nr_entries,
  unindexed (die__create_new_array_loop dies nr_entries).
Proof.
  induction dies; intros nr_entries; cbn [die__create_new_array_loop]; unindexed_auto.
  all: apply IHdies.
Qed.
#[local] Hint Resolve unindexed_die__create_new_array_loop : unindexed.

(** X21. The children of an enumeration and of an array type are
    entered nowhere: whatever [die__create_new_enumeration] and
    [die__create_new_array] return, the three dense tables and the two
    hashes are as before the call, so that an enumerator or a subrange
    has no index and its DIE offset is found by no look-up. *)
Theorem children_without_index (die : Dwarf_Die) :
  unindexed (die__create_new_enumeration die) /\ unindexed (die__create_new_array die).
Proof.
  split.
  - unfold die__create_new_enumeration. unindexed_auto.
  - unfold die__create_new_array, array_type__new, tag__alloc. unindexed_auto.
Qed.

Lemma class_member__new_kind die s m s1 :
  class_member__new die s = Ret (Some m) s1 ->
  exists tg, obstack s1 !! m = Some tg /\ tg_tag tg = dwarf_tag die.
Proof.
  unfold class_member__new, tag__alloc.
  destruct (mem s) as [|[|k]] eqn:Hm.
  - erewrite M_bind_ret by (by apply __tag__alloc_none). discriminate.
  - destruct (__tag__alloc_orphan (B_class_member (mkMember 0 0 0 0 0 0 0 0 0 0 0 0 0))
                false s Hm) as [d Hd].
    erewrite M_bind_ret by exact Hd. discriminate.
  - destruct (tag__init_fresh (B_class_member (mkMember 0 0 0 0 0 0 0 0 0 0 0 0 0))
                false die s k Hm) as (s0 & Ha & Hi).
    erewrite M_bind_ret by exact Ha. cbv beta iota.
    erewrite M_bind_ret by exact Hi. cbv beta iota.
    destruct (attr_offset die DW.AT_data_member_location) as [r|]; [|discriminate].
    unfold with_new_tag, printing_opt. run.
    intros H. inversion H; subst. eexists.
    cbn [obstack set_mem set_dcu_obstack set_obstack set_stderr].
    rewrite lookup_snoc. split; reflexivity.
Qed.

Lemma tables_kept_cu__hash t s a s' : cu__hash t s = Ret a s' -> tables_kept s s'.
Proof.
  unfold cu__hash. run.
  destruct (obstack s !! t) as [tg|] eqn:Ht; run; rewrite ?Ht; run; [|discriminate].
  destruct (tg_priv tg) as [dtag|] eqn:Hp; run; [|discriminate].
  destruct (dcu_obstack s !! dtag) as [d|] eqn:Hd; run; [|discriminate].
  destruct (tag__is_tag_type (tg_tag tg)); intros H; inversion H; subst; repeat split.
Qed.

Lemma member_kind_table k :
  member_kind k = true -> tag__is_tag_type k = false /\ tag__is_function k = false.
Proof.
  unfold member_kind. intros H. apply orb_true_iff in H as [H|H]; apply Z.eqb_eq in H; subst k;
    split; reflexivity.
Qed.

Lemma member_kind_built k :
  member_kind k = true ->
  (k =? DW.TAG_GNU_template_template_param) || (k =? DW.TAG_GNU_template_parameter_pack)
  || (k =? DW.TAG_template_type_parameter) || (k =? DW.TAG_template_value_parameter) = false.
Proof.
  unfold member_kind. intros H. apply orb_true_iff in H as [H|H]; apply Z.eqb_eq in H; subst k;
    reflexivity.
Qed.

Lemma cu__table_add_tag_member m s tg :
  obstack s !! m = Some tg ->
  tag__is_tag_type (tg_tag tg) = false -> tag__is_function (tg_tag tg) = false ->
  cu__table_add_tag m s =
    match mem s with
    | O => Ret (- ENOMEM, -1) s
    | S k => Ret (0, Z.of_nat (length (tags_table s)))
                 (set_mem k (set_tags_table (tags_table s ++ [Some m]) s))
    end.
Proof.
  intros Ht Hty Hfn. unfold cu__table_add_tag. run. rewrite Ht. run.
  destruct (mem s); [reflexivity|]. rewrite Hty, Hfn. run. reflexivity.
Qed.

(** The table step of a member in a C++ CU. *)
Lemma member_table_step m s tg ok s' :
  obstack s !! m = Some tg ->
  tag__is_tag_type (tg_tag tg) = false -> tag__is_function (tg_tag tg) = false ->
  ('(err, id) ← cu__table_add_tag m;
   if err <? 0 then _ ← tag__delete m; mret false
   else
     dtag ← tag__priv m;
     _ ← update_dtag dtag (set_dt_small_id (u16 id));
     mret true) s = Ret ok s' ->
  types_table s' = types_table s /\ functions_table s' = functions_table s /\
  language s' = language s /\
  tags_table s' = (if ok then tags_table s ++ [Some m] else tags_table s).
Proof.
  intros Ht Hty Hfn.
  pose proof (cu__table_add_tag_member m s tg Ht Hty Hfn) as Hadd.
  destruct (mem s) as [|k]; erewrite M_bind_ret by exact Hadd; cbv beta iota.
  - cbn [Z.ltb Z.compare Z.opp ENOMEM]. unfold tag__delete. run.
    intros H. inversion H; subst. repeat split.
  - cbn [Z.ltb Z.compare].
    set (s2 := set_mem k _).
    unfold mbind at 1, M_bind at 1.
    destruct (tag__priv m s2) as [dtag s3| | |] eqn:Hpriv; try discriminate.
    unfold mbind at 1, M_bind at 1.
    match goal with
    | |- match ?c with _ => _ end = _ -> _ => destruct c as [[] s4| | |] eqn:Hupd
    end; try discriminate.
    intros H. inversion H; subst.
    destruct (unindexed_tag__priv _ _ _ _ Hpriv) as ((P1 & P2 & P3 & P4) & _).
    destruct (unindexed_update_dtag _ _ _ _ _ Hupd) as ((U1 & U2 & U3 & U4) & _).
    rewrite U1, U2, U3, U4, P1, P2, P3, P4. repeat split.
Qed.

(** X22. The members of a class and the tables. Over children that
    are all members or inheritances, [die__process_class] returns 0 or
    -ENOMEM and leaves the types table, the functions table and the
    language alone. In a CU that is not C++ it leaves the tags table
    alone as well: a member has no index. In a C++ CU it appends the
    members it builds to the tags table, one for each child when it
    returns 0. *)
Theorem die__process_class_members (fuel : nat) (dies : list Dwarf_Die) (class : nat)
    (s s' : cu) (r : Z) :
  Forall (fun d => member_kind (dwarf_tag d) = true) dies ->
  die__process_class fuel dies class s = Ret r s' ->
  (r = 0 \/ r = - ENOMEM) /\
  types_table s' = types_table s /\ functions_table s' = functions_table s /\
  language s' = language s /\
  if cu__is_c_plus_plus (language s)
  then exists ms,
         tags_table s' = tags_table s ++ (Some <$> ms) /\
         (length ms <= length dies)%nat /\ (r = 0 -> length ms = length dies)
  else tags_table s' = tags_table s.
Proof.
  intros Hall. destruct fuel as [|fuel]; [discriminate|]. cbn [die__process_class].
  revert s. induction Hall as [|die sibs Hk Hall IH]; intros s.
  - intros H. inversion H; subst. split_and!; auto.
    destruct (cu__is_c_plus_plus (language s')); [|reflexivity].
    exists []. rewrite app_nil_r. auto.
  - cbv beta iota zeta. rewrite (member_kind_built _ Hk).
    pose proof Hk as Hk'. unfold member_kind in Hk'. rewrite Hk'. clear Hk'.
    unfold mbind at 1, M_bind at 1.
    destruct (class_member__new die s) as [[m|] s1| | |] eqn:Hnew; try discriminate.
    2: { intros H. inversion H; subst.
         destruct (unindexed_class_member__new die _ _ _ Hnew) as ((T1 & T2 & T3 & T4) & _).
         split_and!; auto. rewrite T2.
         destruct (cu__is_c_plus_plus (language s)); [|reflexivity].
         exists []. rewrite app_nil_r. cbn [length]. split_and!; [reflexivity|lia|].
         unfold ENOMEM. discriminate. }
    destruct (unindexed_class_member__new die _ _ _ Hnew) as ((T1 & T2 & T3 & T4) & _).
    destruct (class_member__new_kind die s m s1 Hnew) as (tg & Htg & Hkind).
    destruct (member_kind_table (dwarf_tag die) Hk) as [Hty Hfn]. rewrite <- Hkind in Hty, Hfn.
    erewrite M_bind_ret by reflexivity. cbv beta.
    unfold mbind at 1, M_bind at 1.
    match goal with
    | |- match ?c with _ => _ end = _ -> _ => destruct c as [ok s4| | |] eqn:Hok
    end; try discriminate.
    assert (Hstep : types_table s4 = types_table s /\ functions_table s4 = functions_table s /\
                    language s4 = language s /\
                    tags_table s4 =
                      (if cu__is_c_plus_plus (language s) && ok
                       then tags_table s ++ [Some m] else tags_table s) /\
                    (cu__is_c_plus_plus (language s) = false -> ok = true)).
    { rewrite T4 in Hok. destruct (cu__is_c_plus_plus (language s)).
      - destruct (member_table_step m s1 tg ok s4 Htg Hty Hfn Hok) as (M1 & M3 & M4 & M2).
        rewrite M1, M3, M4, M2, T1, T2, T3, T4. cbn [andb]. split_and!; auto. discriminate.
      - inversion Hok; subst. split_and!; auto. }
    destruct Hstep as (S1 & S3 & S4 & S2 & Sok).
    destruct ok.
    + unfold mbind at 1, M_bind at 1.
      destruct (type__add_member class m s4) as [[] s5| | |] eqn:Hadd; try discriminate.
      unfold mbind at 1, M_bind at 1.
      destruct (cu__hash m s5) as [[] s6| | |] eqn:Hhash; try discriminate.
      intros Hrest. apply IH in Hrest as (Hr & R1 & R3 & R4 & Htags).
      destruct (unindexed_type__add_member _ _ _ _ _ Hadd) as ((A1 & A2 & A3 & A4) & _).
      destruct (tables_kept_cu__hash _ _ _ _ Hhash) as (H1 & H2 & H3 & H4).
      assert (Hl : language s6 = language s) by (rewrite H4, A4; exact S4).
      rewrite Hl in Htags.
      split; [exact Hr|]. split; [rewrite R1, H1, A1; exact S1|].
      split; [rewrite R3, H3, A3; exact S3|].
      split; [rewrite R4; exact Hl|].
      rewrite andb_true_r in S2.
      destruct (cu__is_c_plus_plus (language s)).
      * destruct Htags as (ms & Hms & Hle & Hlen).
        exists (m :: ms). rewrite Hms, H2, A2, S2.
        cbn [fmap list_fmap length]. rewrite <- app_assoc.
        split_and!; [reflexivity|lia|intros ->; f_equal; auto].
      * rewrite Htags, H2, A2. exact S2.
    + intros H. inversion H; subst. rewrite andb_false_r in S2.
      split_and!; auto.
      destruct (cu__is_c_plus_plus (language s)); [|exact S2].
      exists []. rewrite app_nil_r. cbn [length]. split_and!; [exact S2|lia|].
      unfold ENOMEM. discriminate.
Qed.

End Further_properties.

(** * The further properties on the samples *)

(** X1 at [int] of [sample_built], hashed once more. *)
Lemma cu__hash_then_find_witness :
  exists s',
    cu__hash (host := sample_host) 0 sample_built = Ret tt s' /\
    if tag__is_tag_type (tg_tag sample_built_int)
    then dwarf_cu__find_type_by_id (host := sample_host) (dt_id sample_built_int_raw) s'
           = Ret (Some 0%nat) s' /\
         hash_tags s' = hash_tags sample_built
    else dwarf_cu__find_tag_by_id (host := sample_host) (dt_id sample_built_int_raw) s'
           = Ret (Some 0%nat) s' /\
         hash_types s' = hash_types sample_built.
Proof.
  apply (cu__hash_then_find (host := sample_host) 0 sample_built sample_built_int 0
           sample_built_int_raw).
  - vm_compute. reflexivity.
  - vm_compute. reflexivity.
  - vm_compute. reflexivity.
  - vm_compute. lia.
  - vm_compute. split; [discriminate|reflexivity].
Defined.

(** X2 at the same tag and the offset of [struct S]. *)
Lemma cu__hash_keeps_others_witness :
  exists s',
    cu__hash (host := sample_host) 0 sample_built = Ret tt s' /\
    dwarf_cu__find_type_by_id (host := sample_host) 0x30 s' =
      match dwarf_cu__find_type_by_id (host := sample_host) 0x30 sample_built with
      | Ret r _ => Ret r s'
      | Undef => Undef
      | Abort => Abort
      | NoFuel => NoFuel
      end /\
    dwarf_cu__find_tag_by_id (host := sample_host) 0x30 s' =
      match dwarf_cu__find_tag_by_id (host := sample_host) 0x30 sample_built with
      | Ret r _ => Ret r s'
      | Undef => Undef
      | Abort => Abort
      | NoFuel => NoFuel
      end.
Proof.
  apply (cu__hash_keeps_others (host := sample_host) 0 sample_built sample_built_int 0
           sample_built_int_raw 0x30); vm_compute; try reflexivity; lia.
Defined.

(** X3 at a template parameter met in a class and then in a function. *)
Lemma __tag__print_not_supported_once_witness :
  In (u32 DW.TAG_template_type_parameter) (tags_warned sample_warned) /\
  __tag__print_not_supported (u32 DW.TAG_template_type_parameter) "die__process_function"
    sample_warned = Ret tt sample_warned.
Proof.
  apply (__tag__print_not_supported_once (u32 DW.TAG_template_type_parameter)
           "die__process_class" "die__process_function" sample_cu sample_warned sample_warned).
  - vm_compute. reflexivity.
  - intros k Hk. exact Hk.
Defined.

(** X4 at [int], declared at line 7 of a file, in a CU that keeps the
    extra debugging information. *)
Lemma tag__new_accessors_witness :
  exists p s',
    tag__new (host := sample_host) sample_int_declared sample_cu_extra = Ret (Some p) s' /\
    dwarf_tag__orig_id p s' = Ret 0x10 s' /\
    dwarf_tag__orig_type p s' = Ret 0 s' /\
    dwarf_tag__decl_line p s' = Ret 7 s'.
Proof.
  apply (tag__new_accessors (host := sample_host) sample_int_declared sample_cu_extra 98).
  vm_compute. reflexivity.
Defined.

(** X5 at [enum E { A, B }]. *)
Lemma die__create_new_enumeration_members_witness :
  exists t ns ty es,
    obstack sample_enumeration !! 0%nat = Some t /\ tg_tag t = dwarf_tag sample_enum /\
    tg_body t = B_type ns ty /\
    ns_name ns = strings__add (Collaborators := sample_host) (attr_string sample_enum DW.AT_name) /\
    ty_size ty = 32 /\
    ns_tags ns = LH_entries es /\
    ty_nr_members ty = Z.of_nat (length es) /\
    Forall2 (fun e d => exists t, obstack sample_enumeration !! e = Some t /\
                                  enumerator_of (host := sample_host) d t)
            es (filter is_enumerator (dwarf_children sample_enum)).
Proof.
  apply (die__create_new_enumeration_members (host := sample_host) sample_enum sample_cu
           sample_enumeration 0).
  vm_compute. reflexivity.
Defined.

(** X6 at [int m[2][3]] with two allocations left. *)
Lemma die__create_new_array_failure_witness :
  exists s',
    die__create_new_array (host := sample_host) sample_matrix (set_mem 2 sample_cu)
      = Ret None s' /\
    obstack s' = obstack (set_mem 2 sample_cu) /\ mem s' = O /\
    length (dcu_obstack s') =
      (length (dcu_obstack (set_mem 2 sample_cu)) + min (mem (set_mem 2 sample_cu)) 1)%nat.
Proof.
  apply (die__create_new_array_failure (host := sample_host) sample_matrix
           (set_mem 2 sample_cu)).
  - vm_compute. lia.
  - vm_compute. discriminate.
Defined.

(** X7 at [int], the first DIE of a unit. *)
Lemma die__process_unit_numbers_witness :
  let pt := table_of (tg_tag sample_dispatched_int) in
  exists s2,
    die__process_unit (host := sample_host) 4 [sample_int] sample_cu = Ret 0 s2 /\
    entries pt s2 = entries pt sample_dispatched ++ [Some 0%nat] /\
    (forall pt', pt' <> pt -> entries pt' s2 = entries pt' sample_dispatched) /\
    dcu_obstack s2 =
      <[0%nat := set_dt_small_id (u16 (Z.of_nat (length (entries pt sample_dispatched))))
                   sample_dispatched_raw]> (dcu_obstack sample_dispatched) /\
    obstack s2 = obstack sample_dispatched.
Proof.
  apply (die__process_unit_numbers (host := sample_host) 4 sample_int sample_cu
           sample_dispatched 0 sample_dispatched_int 0 sample_dispatched_raw 97);
    vm_compute; reflexivity.
Defined.

(** X8 at the unit of [int] and [struct S]. *)
Lemma die__process_result_witness :
  (0 = - EINVAL /\
   u16 (dwarf_tag (sample_unit [sample_int; sample_struct])) <> DW.TAG_compile_unit /\
   sample_loaded =
     set_stderr (stderr sample_fresh ++
                 [Diag_compile_unit_expected
                    (u16 (dwarf_tag (sample_unit [sample_int; sample_struct])))])
       sample_fresh) \/
  (u16 (dwarf_tag (sample_unit [sample_int; sample_struct])) = DW.TAG_compile_unit /\
   (0 = 0 \/ 0 = -1 \/ 0 = - ENOMEM)).
Proof.
  apply (die__process_result (host := sample_host) 6 (sample_unit [sample_int; sample_struct])
           [] sample_fresh sample_loaded 0).
  vm_compute. reflexivity.
Defined.

(** X9 at the same unit. *)
Lemma die__process_grows_witness : grows sample_fresh sample_loaded.
Proof.
  apply (die__process_grows (host := sample_host) 6 (sample_unit [sample_int; sample_struct])
           [] sample_fresh sample_loaded 0).
  vm_compute. reflexivity.
Defined.

(** X10 at [typedef int T], entry 2 of the types table. *)
Lemma cu__recode_dwarf_types_resolved_witness :
  if dt_type sample_resolved_typedef_raw =? 0 then tg_type sample_resolved_typedef = 0
  else
    match dwarf_cu__find_type_by_id (host := sample_host)
            (dt_type sample_resolved_typedef_raw) sample_resolved_mixed with
    | Ret (Some dtype) _ =>
        exists d, dcu_obstack sample_resolved_mixed !! dtype = Some d /\
                  tg_type sample_resolved_typedef = dt_small_id d
    | Ret None _ => True
    | _ => False
    end.
Proof.
  apply (cu__recode_dwarf_types_resolved (host := sample_host) 8 sample_built_mixed
           sample_resolved_mixed Types_table 2 1 sample_resolved_typedef 1
           sample_resolved_typedef_raw sample_built_mixed_simple);
    vm_compute; try reflexivity; lia.
Defined.

(** X11 at the member [y] of [struct S], entry 3 of the types table. *)
Lemma cu__recode_dwarf_types_members_witness :
  exists tc dc rawc,
    obstack sample_resolved_mixed !! 4%nat = Some tc /\ tg_priv tc = Some dc /\
    dcu_obstack sample_resolved_mixed !! dc = Some rawc /\
    (bitfield_width tc = None -> dt_type rawc <> 0 ->
     match dwarf_cu__find_type_by_id (host := sample_host) (dt_type rawc)
             sample_resolved_mixed with
     | Ret (Some dtype) _ =>
         exists d, dcu_obstack sample_resolved_mixed !! dtype = Some d /\
                   tg_type tc = dt_small_id d
     | Ret None _ => True
     | _ => False
     end).
Proof.
  apply (cu__recode_dwarf_types_members (host := sample_host) 8 sample_built_mixed
           sample_resolved_mixed Types_table 3 2 sample_resolved_struct 2 [3%nat; 4%nat] 4
           sample_built_mixed_simple).
  - vm_compute. reflexivity.
  - vm_compute. lia.
  - vm_compute. reflexivity.
  - vm_compute. reflexivity.
  - vm_compute. reflexivity.
  - vm_compute. reflexivity.
  - vm_compute. reflexivity.
  - apply list_elem_of_further, list_elem_of_here.
Defined.

(** X13 at the module of one CU, loaded with no configuration. *)
Lemma cus__load_module_cus_list_witness :
  (DWARF_CB_OK = DWARF_CB_OK \/ DWARF_CB_OK = DWARF_CB_ABORT) /\
  exists kept,
    cus_list sample_cus_loaded = cus_list sample_cus ++ kept /\
    (length kept <= length sample_module)%nat /\
    (DWARF_CB_OK = DWARF_CB_OK -> (forall f, None = Some f -> conf_steal f = None) ->
     length kept = length sample_module).
Proof.
  apply (cus__load_module_cus_list (host := sample_host) 6 None sample_module sample_cus
           sample_cus_loaded DWARF_CB_OK).
  vm_compute. reflexivity.
Defined.

(** X14 at the CU of that load. *)
Lemma cus__load_module_cu_kept_witness :
  types_table sample_kept !! 0%nat = Some None /\
  extra_dbg_info sample_kept = fst (conf_flags None) /\
  has_addr_info sample_kept = snd (conf_flags None) /\
  (extra_dbg_info sample_kept = false -> dcu_obstack sample_kept = []).
Proof.
  apply (cus__load_module_cu_kept (host := sample_host) 6 None
           (sample_unit [sample_int; sample_struct]) [] sample_cus sample_cus_loaded
           sample_kept); vm_compute; reflexivity.
Defined.

(** X15 at the same load. *)
Lemma cus__load_module_process_state_witness :
  cus_stderr sample_cus `prefix_of` cus_stderr sample_cus_loaded /\
  (forall k, k ∈ cus_tags_warned sample_cus -> k ∈ cus_tags_warned sample_cus_loaded) /\
  (cus_mem sample_cus_loaded <= cus_mem sample_cus)%nat.
Proof.
  apply (cus__load_module_process_state (host := sample_host) 6 None sample_module sample_cus
           sample_cus_loaded DWARF_CB_OK).
  vm_compute. reflexivity.
Defined.

(** X16 at a file whose second module has the DWARF sections. *)
Lemma dwarf__load_file_result_witness :
  (0 = -1 /\ sample_cus_loaded = sample_cus) \/
  (0 = 0 /\ file_opens sample_file = true /\ file_dups sample_file = true /\
   file_reported sample_file = true /\ exists units, Some units ∈ file_modules sample_file).
Proof.
  apply (dwarf__load_file_result (host := sample_host) 6 None sample_file sample_cus
           sample_cus_loaded 0).
  - vm_compute. reflexivity.
  - vm_compute. reflexivity.
Defined.

(** X17 at the same file, with a stealer that stops the load. *)
Lemma dwarf__load_file_aborted_witness :
  dwarf__load_file (host := sample_host) 6 (sample_stealer LSK__STOP_LOADING) sample_file
    sample_cus = Loaded 0 sample_cus_stopped.
Proof.
  apply (dwarf__load_file_aborted (host := sample_host) 6 (sample_stealer LSK__STOP_LOADING)
           sample_file [None] [] sample_module sample_cus sample_cus_stopped);
    try (vm_compute; reflexivity).
  repeat constructor.
Defined.

(** The entries of [sample_built_const], [int] and [const int], are
    plain references. *)
Lemma sample_built_const_plain : plain_cu (host := sample_host) sample_built_const.
Proof.
  intros pt i e Hi.
  assert (He : e = 0%nat \/ e = 1%nat).
  { destruct pt; cbn in Hi; try (by destruct i).
    destruct i as [|[|[|i]]]; cbn in Hi; try discriminate; injection Hi as <-; auto. }
  destruct He as [-> | ->].
  - exists (tag_at sample_built_const 0), 0%nat, (raw_at sample_built_const 0), (Some 0).
    split_and!; try (vm_compute; reflexivity).
    intros H. vm_compute in H. discriminate H.
  - exists (tag_at sample_built_const 1), 1%nat, (raw_at sample_built_const 1), (Some 1).
    split_and!; try (vm_compute; reflexivity).
    intros H. vm_compute in H. discriminate H.
Qed.

(** X18 at the CU of [int] and [const int]. *)
Lemma cu__recode_dwarf_types_plain_witness :
  exists s1,
    cu__recode_dwarf_types (host := sample_host) 4 sample_built_const = Ret 0 s1 /\
    retyped sample_built_const s1 /\
    only_resolved (host := sample_host) sample_built_const s1 /\
    forall pt i e,
      (first_entry pt <= i)%nat -> entries pt sample_built_const !! i = Some (Some e) ->
      plain_settled (host := sample_host) s1 e.
Proof.
  apply (cu__recode_dwarf_types_plain (host := sample_host) 4 sample_built_const
           sample_built_const_plain).
  vm_compute. lia.
Defined.

(** X19 at the unit of [int] and [typedef int T]. *)
Lemma die__process_plain_unit_witness :
  exists s',
    die__process (host := sample_host) 4 (sample_unit [sample_int; sample_typedef]) []
      sample_cu = Ret 0 s' /\
    types_table s' = [None; Some 0%nat; Some 1%nat] /\
    tags_table s' = [] /\ functions_table s' = [] /\
    forall i d, [sample_int; sample_typedef] !! i = Some d ->
      exists t,
        obstack s' !! i = Some t /\ tg_tag t = dwarf_tag d /\
        tg_type t = match find_offset (attr_type d DW.AT_type) [sample_int; sample_typedef] with
                    | Some j => Z.of_nat (S j)
                    | None => 0
                    end.
Proof.
  apply (die__process_plain_unit (host := sample_host) 4
           (sample_unit [sample_int; sample_typedef]) [] sample_cu).
  - vm_compute. reflexivity.
  - repeat constructor; try (vm_compute; reflexivity); try (vm_compute; discriminate).
  - repeat split.
  - vm_compute. lia.
  - vm_compute. reflexivity.
  - vm_compute. lia.
Defined.


(** X22 at the two members of [struct S] in a C++ CU. *)
Lemma die__process_class_members_witness :
  (0 = 0 \/ 0 = - ENOMEM) /\
  types_table sample_class_cpp_members = types_table sample_class_cpp /\
  functions_table sample_class_cpp_members = functions_table sample_class_cpp /\
  language sample_class_cpp_members = language sample_class_cpp /\
  if cu__is_c_plus_plus (Collaborators := sample_host) (language sample_class_cpp)
  then exists ms,
         tags_table sample_class_cpp_members = tags_table sample_class_cpp ++ (Some <$> ms) /\
         (length ms <= length (dwarf_children sample_struct))%nat /\
         (0 = 0 -> length ms = length (dwarf_children sample_struct))
  else tags_table sample_class_cpp_members = tags_table sample_class_cpp.
Proof.
  apply (die__process_class_members (host := sample_host) 4 (dwarf_children sample_struct) 0
           sample_class_cpp sample_class_cpp_members 0).
  - repeat constructor.
  - vm_compute. reflexivity.
Defined.
